(* ===== verification/_CoqProject ===== *)
-Q . S2P
Prelude.v
Ext4.v
Disk.v
Bitmap.v
Alloc.v
Extents.v
InodeMap.v
Decache.v
Fs.v
Cache.v
Dentry.v
Dir.v
InodePath.v
OpsAttr.v
OpsName.v
Listing.v
Links.v
OpsData.v
OpsMount.v
Mkfs.v
MkfsMount.v
Remount.v
Ctl.v
Hashtable.v
XattrMap.v
InodeStore.v
InodeRefs.v
Migration.v
Chain.v
FuseDir.v
FuseExt.v
IdMap.v
