(* ===== verification/Prelude.v ===== *)
(** * kfs: a verification development of the kfs file system

    kfs is a file system in user space.  [src/src] is a FUSE program that
    serves an ext4-like disk image; [src/mkfs] makes such an image;
    [src/src/ctl.c] answers the command line client [src/kfsctl];
    [src/include/hashtable] is a hash table; [src/kfsd] is a virtiofsd that
    passes a host directory through to a guest.  This development models
    these programs as functions on explicit state and proves what they do.

    ** How the code is modelled

    An integer of the program is a [Z]; every conversion or assignment that
    can wrap goes through [u8] .. [u64], [s32], [s64].  A call returns an
    [outcome]: a value, or the fault that stops the process (a failed
    assertion or a Rust panic, an access C gives no meaning to, or the end of
    the fuel of a loop).  Error numbers are values.  Code with a global state
    is written in the state monad [M] of this file; [K] of [Fs.v] is [M] over
    the whole state of the file system.  Structures of the disk and of the
    FUSE protocol are records with their byte layout ([CStruct]).

    ** The file system, [src/src]

    - [Ext4.v]: the structures and macros of [ext4/*.h].
    - [Disk.v]: [disk.c], the image as a map of bytes behind a descriptor.
    - [Bitmap.v], [Alloc.v]: [bitmap.c], the allocation of inodes and blocks
      and the group descriptors.
    - [Extents.v], [InodeMap.v]: [extents.c] and the block addressing, inode
      offsets and permissions of [inode.c].
    - [Decache.v]: the tree of cached path components of [cache.c], a heap of
      nodes with pointers that can dangle.
    - [Fs.v]: the global state ([fs]: super block, group descriptors, bitmaps,
      dcache, icache, decache, disk).
    - [Cache.v]: the inode cache of [cache.c] and [inode.c].
    - [Dentry.v], [Dir.v]: [dentry.c] and the directory block cache.
    - [InodePath.v]: path resolution and new inodes of [inode.c].
    - [OpsAttr.v], [OpsName.v], [OpsData.v], [OpsMount.v]: the handlers
      [op_*.c], one definition each, with the theorems about attributes,
      creation, reading and writing.  [Listing.v] and [Links.v] hold the
      theorems about [op_readdir] and [op_link].
    - [Mkfs.v], [MkfsMount.v]: [mkfs/main.c], and that its images mount.
    - [Remount.v]: unmounting followed by mounting.
    - [Ctl.v]: the requests of [ctl.c].
    - [Hashtable.v]: [include/hashtable].

    ** kfsd, [src/kfsd/src]

    - [XattrMap.v]: [passthrough/xattrmap.rs], rules and their parser.
    - [InodeStore.v], [InodeRefs.v]: [passthrough/inode_store.rs], reference
      counts as atomic accesses, their interleavings, and the mutexes of the
      migration infos that the holder of the lock waits for.
    - [Migration.v]: [passthrough/device_state], the state sent to another
      host.
    - [Chain.v]: [descriptor_utils.rs], the buffers of a guest as streams.
    - [FuseDir.v]: [read_dir.rs] and the listing requests of [server.rs].
    - [FuseExt.v]: the extensions of a request, [server.rs].
    - [IdMap.v]: [idmap.rs], the id maps of the command line.

    ** What is proved

    - Allocation: every outcome of the allocators, for every parent: the first
      free unit of the search order, marked and nothing else; nothing free;
      and the two cases in which they leave the array of groups or abort.  A
      run of allocations never gives one thing twice.
    - Caches: the inode cache never shows another content than the newest one,
      whatever is evicted; each inode is there once.  The decache stays a tree
      under every sequence of insertions and deletions of last children, and
      its lookups abort exactly for a name that is too long below an entry
      with children; a deletion between two siblings leaves a dangling
      pointer, which is proved too.
    - Addressing: extent lookup is lookup in the flat list of extents, and
      aborts exactly when a node on the way declares more than four entries;
      the indirect blocks are walked as the ext4 layout says; each inode has
      its slot in the table of its group.
    - Permissions: whom the check lets through, by the classes of the mode.
    - Handlers: what [op_create], [op_link], [op_readdir], [op_chmod],
      [op_chown], [op_utimens], [op_getattr], [op_open], [op_read] and
      [op_write] return and leave behind, on the states the statements name.
    - Whole programs: an image of mkfs mounts with exactly the metadata in use;
      which sizes mkfs accepts; unmounting and mounting again keeps inodes,
      bitmaps and data.
    - The hash table implements a finite map.
    - kfsd: reference counts are exact in every interleaving; forgetting makes
      progress but for the mutexes of migration infos, one use of which by a
      rename can stop the server; a migrated server has the inodes and handles
      of the source, or refuses its options; the names of extended attributes
      survive the map; replies and extensions arrive in the guest and in the
      server as they were sent; the lookup counts of a listing agree with the
      reply.

    ** Bounds

    Loops that are not structural have fuel: the length of the path or of the
    buffer, the number of entries a block can hold, the depth of the extent
    tree or the number of hops of a list, each stated where the loop is
    defined.  The theorems about such a loop prove that it returns, so the
    fuel suffices in the states they speak about.  The interleavings of
    [InodeRefs.v] are those in which no count reaches 2^64.  [icache_ok], [decache_ok],
    [mounted], [chain_ok] and the like are the invariants the theorems assume
    and keep; every numbered property with hypotheses is followed by an
    application to a concrete state.

    ** What is taken from outside

    zlib, strftime, the callback of libfuse, the system calls of kfsd and the
    slices of guest memory (vm-memory) are arguments of the definitions, with
    their documented behaviour as hypotheses or laws of a class.

    ** Not modelled

    Logging and option parsing; sockets, threads and signals of the programs
    in C; the kfsctl client and its terminal library, which only print and
    send; the vhost-user demonstration and the vendored libvhost-user, which
    the file system does not call; of kfsd, the request loop, the requests
    other than the listings, the isolation of the process and the wrappers of
    system calls, whose behaviour is that of the host kernel. *)

From stdpp Require Import base numbers list list_numbers gmap strings.
From Stdlib Require Import ZArith Lia.

Open Scope Z_scope.

(** ** Machine integers

    A C object of an unsigned type of [w] bits is a [Z]; every assignment to
    it goes through one of the conversions below, which wrap as C does. *)

Definition u8 (x : Z) : Z := x mod 2 ^ 8.
Definition u16 (x : Z) : Z := x mod 2 ^ 16.
Definition u32 (x : Z) : Z := x mod 2 ^ 32.
Definition u64 (x : Z) : Z := x mod 2 ^ 64.

(** Conversion to a signed type ([int], [off_t]): two's complement. *)
Definition s32 (x : Z) : Z :=
  let y := x mod 2 ^ 32 in if y <? 2 ^ 31 then y else y - 2 ^ 32.
Definition s64 (x : Z) : Z :=
  let y := x mod 2 ^ 64 in if y <? 2 ^ 63 then y else y - 2 ^ 64.

Definition UINT16_MAX : Z := 2 ^ 16 - 1.
Definition UINT32_MAX : Z := 2 ^ 32 - 1.
Definition UINT64_MAX : Z := 2 ^ 64 - 1.
Definition INT_MAX : Z := 2 ^ 31 - 1.

(** Linear arithmetic with division and remainder by constants. *)
Ltac dlia := Z.div_mod_to_equations; lia.

(** ** Bit fields *)

Lemma testbit_ge lo k n : 0 ≤ k → 0 ≤ lo < 2 ^ k → k ≤ n → Z.testbit lo n = false.
Proof. intros. by apply (proj1 (Z.bounded_iff_bits_nonneg k lo ltac:(lia) ltac:(lia))); lia. Qed.

Lemma lor_shiftl lo hi k :
  0 ≤ k → 0 ≤ lo < 2 ^ k → Z.lor lo (Z.shiftl hi k) = lo + hi * 2 ^ k.
Proof.
  intros Hk Hlo. rewrite <- Z.shiftl_mul_pow2 by done.
  assert (Z.land lo (Z.shiftl hi k) = 0) as H0.
  { apply Z.bits_inj'. intros n Hn. rewrite Z.land_spec, Z.bits_0, Z.shiftl_spec by done.
    destruct (decide (k ≤ n)).
    - by rewrite (testbit_ge lo k n).
    - rewrite (Z.testbit_neg_r hi) by lia. apply andb_false_r. }
  rewrite Z.add_nocarry_lxor by done. symmetry. by apply Z.lxor_lor.
Qed.

Lemma lor_shiftl' lo hi k :
  0 ≤ k → 0 ≤ lo < 2 ^ k → Z.lor (Z.shiftl hi k) lo = lo + hi * 2 ^ k.
Proof. intros. rewrite Z.lor_comm. by apply lor_shiftl. Qed.

Lemma land_mask x k m : 0 ≤ k → m = Z.ones k → Z.land x m = x mod 2 ^ k.
Proof. intros ? ->. by apply Z.land_ones. Qed.

Lemma split_join x k : 0 ≤ k → x mod 2 ^ k + x / 2 ^ k * 2 ^ k = x.
Proof. intros. pose proof (Z.div_mod x (2 ^ k) ltac:(lia)). lia. Qed.

(** ** Outcomes

    A call returns a value, or the process stops: [ASSERT] is active in every
    build of the repository (no rule of the Makefile defines [NDEBUG]) and
    calls [abort]; [Undefined] is an access C gives no meaning to (out of an
    array, through NULL, to freed memory); [OutOfFuel] marks a loop or a
    recursion that did not end within the bound the model gives it. *)

Inductive fault : Set :=
| AssertFail
| Undefined
| OutOfFuel.

Inductive outcome (A : Type) : Type :=
| Ok (a : A)
| Fault (f : fault).
Arguments Ok {A} a.
Arguments Fault {A} f.

#[global] Instance fault_eq_dec : EqDecision fault.
Proof. solve_decision. Defined.

Definition obind {A B} (c : outcome A) (k : A → outcome B) : outcome B :=
  match c with Ok a => k a | Fault f => Fault f end.

Declare Scope kfs_scope.
Delimit Scope kfs_scope with kfs.
Notation "x ← y ; z" := (obind y (λ x, z))
  (at level 20, y at level 100, z at level 200) : kfs_scope.
Notation "' x ← y ; z" := (obind y (λ x, z))
  (at level 20, x pattern, y at level 100, z at level 200) : kfs_scope.
Notation "y ;; z" := (obind y (λ _, z))
  (at level 100, z at level 200, right associativity) : kfs_scope.
Open Scope kfs_scope.

Definition ASSERT (b : bool) : outcome unit :=
  if b then Ok tt else Fault AssertFail.

(** A pointer dereference: NULL has no object. *)
Definition deref {A} (p : option A) : outcome A :=
  match p with Some a => Ok a | None => Fault Undefined end.

(** ** State passing

    [M S A] is a computation over a global state [S] that may stop. *)

Definition M (S A : Type) : Type := S → outcome (A * S).

Definition ret {S A} (a : A) : M S A := λ s, Ok (a, s).
Definition sbind {S A B} (c : M S A) (k : A → M S B) : M S B := λ s,
  match c s with Ok (a, s') => k a s' | Fault f => Fault f end.

Notation "x ⇐ y ; z" := (sbind y (λ x, z))
  (at level 20, y at level 100, z at level 200) : kfs_scope.
Notation "' x ⇐ y ; z" := (sbind y (λ x, z))
  (at level 20, x pattern, y at level 100, z at level 200) : kfs_scope.
Notation "y ;;; z" := (sbind y (λ _, z))
  (at level 100, z at level 200, right associativity) : kfs_scope.

Definition gets {S A} (f : S → A) : M S A := λ s, Ok (f s, s).
Definition modify {S} (f : S → S) : M S unit := λ s, Ok (tt, f s).
Definition lift {S A} (o : outcome A) : M S A := λ s,
  match o with Ok a => Ok (a, s) | Fault f => Fault f end.
Definition massert {S} (b : bool) : M S unit := lift (ASSERT b).

Lemma bind_Ok_inv {A B} (c : outcome A) (k : A → outcome B) b :
  obind c k = Ok b → ∃ a, c = Ok a ∧ k a = Ok b.
Proof. destruct c; simpl; [eauto | discriminate]. Qed.

Lemma M_bind_Ok_inv {S A B} (c : M S A) (k : A → M S B) s r :
  sbind c k s = Ok r → ∃ a s', c s = Ok (a, s') ∧ k a s' = Ok r.
Proof. unfold sbind. destruct (c s) as [[a s']|]; [eauto | discriminate]. Qed.

Lemma M_bind_Fault {S A B} (c : M S A) (k : A → M S B) s f :
  c s = Fault f → sbind c k s = Fault f.
Proof. unfold sbind. by intros ->. Qed.

Lemma M_bind_Ok {S A B} (c : M S A) (k : A → M S B) s a s' :
  c s = Ok (a, s') → sbind c k s = k a s'.
Proof. unfold sbind. by intros ->. Qed.

Lemma ASSERT_Ok b : b = true → ASSERT b = Ok tt.
Proof. by intros ->. Qed.

Lemma ASSERT_Ok_inv b u : ASSERT b = Ok u → b = true.
Proof. by destruct b. Qed.

(** ** Total correctness

    [wp m s Q]: run from [s], [m] returns, in a result that satisfies [Q]. *)

Definition wp {S A} (m : M S A) (s : S) (Q : A → S → Prop) : Prop :=
  match m s with Ok (a, s') => Q a s' | Fault _ => False end.

Section wp.
Context {S : Type}.

Lemma wp_ret {A} (a : A) s (Q : A → S → Prop) : Q a s → wp (ret a) s Q.
Proof. done. Qed.

Lemma wp_bind {A B} (m : M S A) (k : A → M S B) s Q :
  wp m s (λ a s', wp (k a) s' Q) → wp (sbind m k) s Q.
Proof. unfold wp, sbind. by destruct (m s) as [[??]|]. Qed.

Lemma wp_gets {A} (f : S → A) s Q : Q (f s) s → wp (gets f) s Q.
Proof. done. Qed.

Lemma wp_modify f s (Q : unit → S → Prop) : Q tt (f s) → wp (modify f) s Q.
Proof. done. Qed.

Lemma wp_lift {A} (o : outcome A) a s (Q : A → S → Prop) :
  o = Ok a → Q a s → wp (lift o) s Q.
Proof. by intros ->. Qed.

Lemma wp_massert b s (Q : unit → S → Prop) : b = true → Q tt s → wp (massert b) s Q.
Proof. by intros ->. Qed.

Lemma wp_mono {A} (m : M S A) s (P Q : A → S → Prop) :
  wp m s P → (∀ a s', P a s' → Q a s') → wp m s Q.
Proof. unfold wp. destruct (m s) as [[??]|]; eauto. Qed.

Lemma wp_Ok {A} (m : M S A) s Q :
  wp m s Q ↔ ∃ a s', m s = Ok (a, s') ∧ Q a s'.
Proof.
  unfold wp. destruct (m s) as [[a s']|]; split; eauto; [|done|].
  - by intros (? & ? & [= <- <-] & ?).
  - by intros (? & ? & ? & ?).
Qed.

Lemma wp_run {A} (m : M S A) s a s' (Q : A → S → Prop) :
  m s = Ok (a, s') → Q a s' → wp m s Q.
Proof. unfold wp. by intros ->. Qed.
End wp.

(** Decompose a returned computation, and run the head of a goal. *)
Ltac inv_ok :=
  repeat match goal with
  | H : Ok _ = Ok _ |- _ => injection H as H; subst
  | H : Fault _ = Ok _ |- _ => discriminate H
  | H : ret _ _ = Ok _ |- _ => unfold ret in H
  | H : obind ?c ?k = Ok _ |- _ => apply bind_Ok_inv in H as (? & ? & H)
  | H : sbind ?c ?k _ = Ok _ |- _ => apply M_bind_Ok_inv in H as (? & ? & ? & H)
  | H : ASSERT ?b = Ok _ |- _ => apply ASSERT_Ok_inv in H
  | H : gets _ _ = Ok _ |- _ => unfold gets in H
  | H : modify _ _ = Ok _ |- _ => unfold modify in H
  | H : (_, _) = (_, _) |- _ => injection H as ? ?; subst
  end.

(** ** Record update

    [setter e p v] is the record [e], in eta-expanded form, with the
    projection [p] replaced by [v]. *)

Ltac setter e p v :=
  let t := eval hnf in e in
  let t := eval pattern p in t in
  match t with
  | ?F _ => let r := eval cbv beta in (F v) in exact r
  end.

(** ** Arrays and byte buffers *)

Definition zlen {A} (l : list A) : Z := Z.of_nat (length l).

Definition arr_get {A} (l : list A) (i : Z) : outcome A :=
  if i <? 0 then Fault Undefined else deref (l !! Z.to_nat i).

Definition arr_set {A} (l : list A) (i : Z) (x : A) : outcome (list A) :=
  if (0 <=? i) && (i <? zlen l) then Ok (<[Z.to_nat i := x]> l) else Fault Undefined.

(** [memcpy] out of and into a buffer. *)
Definition buf_read (buf : list Z) (off n : Z) : outcome (list Z) :=
  if (0 <=? off) && (0 <=? n) && (off + n <=? zlen buf)
  then Ok (take (Z.to_nat n) (drop (Z.to_nat off) buf)) else Fault Undefined.

Definition splice (buf : list Z) (off : nat) (bs : list Z) : list Z :=
  take off buf ++ bs ++ drop (off + length bs) buf.

Definition buf_write (buf : list Z) (off : Z) (bs : list Z) : outcome (list Z) :=
  if (0 <=? off) && (off + zlen bs <=? zlen buf)
  then Ok (splice buf (Z.to_nat off) bs) else Fault Undefined.

(** ** Little-endian integers *)

Definition byte_ok (b : Z) : Prop := 0 ≤ b < 256.

Fixpoint le_bytes (n : nat) (x : Z) : list Z :=
  match n with
  | O => []
  | S n => x mod 256 :: le_bytes n (x / 256)
  end.

Fixpoint le_val (bs : list Z) : Z :=
  match bs with
  | [] => 0
  | b :: bs => b + 256 * le_val bs
  end.

Lemma length_le_bytes n x : length (le_bytes n x) = n.
Proof. revert x; induction n; simpl; auto. Qed.

Lemma le_bytes_ok n x : Forall byte_ok (le_bytes n x).
Proof.
  revert x; induction n; simpl; constructor; auto.
  unfold byte_ok. apply Z.mod_pos_bound. lia.
Qed.

Lemma le_val_bytes n x : le_val (le_bytes n x) = x mod 256 ^ Z.of_nat n.
Proof.
  revert x; induction n as [|n IH]; intros x.
  - simpl. by rewrite Z.mod_1_r.
  - cbn [le_bytes le_val]. rewrite IH, Nat2Z.inj_succ, Z.pow_succ_r by lia.
    rewrite Z.rem_mul_r; lia.
Qed.

Lemma le_bytes_val bs : Forall byte_ok bs → le_bytes (length bs) (le_val bs) = bs.
Proof.
  induction 1 as [|b bs Hb _ IH]; [done|]. cbn [le_val length le_bytes].
  unfold byte_ok in Hb. rewrite (Z.mul_comm 256), Z_mod_plus_full, Z.mod_small by lia.
  rewrite Z_div_plus_full, Z.div_small by lia. by rewrite Z.add_0_l, IH.
Qed.

Lemma le_val_range bs : Forall byte_ok bs → 0 ≤ le_val bs < 256 ^ zlen bs.
Proof.
  unfold zlen. induction 1 as [|b bs Hb _ IH]; [done|].
  cbn [le_val length]. rewrite Nat2Z.inj_succ, Z.pow_succ_r by lia.
  unfold byte_ok in Hb. lia.
Qed.

Lemma le_val_bytes_small n x : 0 ≤ x < 256 ^ Z.of_nat n → le_val (le_bytes n x) = x.
Proof. intros. rewrite le_val_bytes. by apply Z.mod_small. Qed.

(** Loads and stores of an [n]-byte integer at an offset of a buffer. *)
Definition buf_load (n : nat) (buf : list Z) (off : Z) : outcome Z :=
  bs ← buf_read buf off (Z.of_nat n); Ok (le_val bs).

Definition buf_store (n : nat) (buf : list Z) (off v : Z) : outcome (list Z) :=
  buf_write buf off (le_bytes n v).

(** ** Buffer lemmas *)

Lemma length_splice buf off bs :
  (off + length bs ≤ length buf)%nat → length (splice buf off bs) = length buf.
Proof. intros. unfold splice. rewrite !length_app, length_take, length_drop. lia. Qed.

Lemma splice_lookup_in buf off bs i :
  (off + length bs ≤ length buf)%nat → (off ≤ i < off + length bs)%nat →
  splice buf off bs !! i = bs !! (i - off)%nat.
Proof.
  intros. unfold splice.
  rewrite lookup_app_r by (rewrite length_take; lia).
  rewrite length_take, Nat.min_l by lia. by rewrite lookup_app_l by lia.
Qed.

Lemma splice_lookup_out buf off bs i :
  (off + length bs ≤ length buf)%nat → (i < off ∨ off + length bs ≤ i)%nat →
  splice buf off bs !! i = buf !! i.
Proof.
  intros ? Hi. unfold splice. destruct (decide (i < off)%nat).
  - rewrite lookup_app_l by (rewrite length_take; lia). by rewrite lookup_take_lt by lia.
  - rewrite lookup_app_r by (rewrite length_take; lia).
    rewrite length_take, Nat.min_l by lia. rewrite lookup_app_r by lia.
    rewrite lookup_drop. f_equal. lia.
Qed.

Lemma buf_read_Ok buf off n :
  0 ≤ off → 0 ≤ n → off + n ≤ zlen buf →
  buf_read buf off n = Ok (take (Z.to_nat n) (drop (Z.to_nat off) buf)).
Proof.
  intros. unfold buf_read.
  by rewrite !(proj2 (Z.leb_le _ _)) by lia.
Qed.

Lemma buf_write_Ok buf off bs :
  0 ≤ off → off + zlen bs ≤ zlen buf → buf_write buf off bs = Ok (splice buf (Z.to_nat off) bs).
Proof. intros. unfold buf_write. by rewrite !(proj2 (Z.leb_le _ _)) by lia. Qed.

Lemma buf_write_inv buf off bs buf' :
  buf_write buf off bs = Ok buf' →
  0 ≤ off ∧ off + zlen bs ≤ zlen buf ∧ buf' = splice buf (Z.to_nat off) bs.
Proof.
  unfold buf_write. destruct (Z.leb_spec 0 off), (Z.leb_spec (off + zlen bs) (zlen buf));
    simpl; intros; inv_ok; auto.
Qed.

Lemma buf_read_inv buf off n bs :
  buf_read buf off n = Ok bs →
  0 ≤ off ∧ 0 ≤ n ∧ off + n ≤ zlen buf ∧ bs = take (Z.to_nat n) (drop (Z.to_nat off) buf).
Proof.
  unfold buf_read.
  destruct (Z.leb_spec 0 off), (Z.leb_spec 0 n), (Z.leb_spec (off + n) (zlen buf));
    simpl; intros; inv_ok; auto.
Qed.

Lemma buf_write_length buf off bs buf' :
  buf_write buf off bs = Ok buf' → length buf' = length buf.
Proof.
  intros (?&?&->)%buf_write_inv. apply length_splice. unfold zlen in *. lia.
Qed.

(** Reading what was written, and reading beside it. *)
Lemma buf_read_write_same buf off bs buf' :
  buf_write buf off bs = Ok buf' → buf_read buf' off (zlen bs) = Ok bs.
Proof.
  intros Hw. pose proof (buf_write_length _ _ _ _ Hw) as Hl.
  apply buf_write_inv in Hw as (?&?&->). unfold zlen in *.
  rewrite buf_read_Ok by (unfold zlen; lia). f_equal.
  rewrite Nat2Z.id. unfold splice.
  rewrite drop_app_length' by (rewrite length_take; lia). apply take_app_length.
Qed.

Lemma buf_read_write_disjoint buf off bs buf' off' n :
  buf_write buf off bs = Ok buf' →
  off' + n ≤ off ∨ off + zlen bs ≤ off' →
  buf_read buf' off' n = buf_read buf off' n.
Proof.
  intros Hw Hd. pose proof (buf_write_length _ _ _ _ Hw) as Hl.
  apply buf_write_inv in Hw as (?&?&->). unfold buf_read, zlen in *. rewrite Hl.
  destruct (_ && _) eqn:E; [|done].
  apply andb_true_iff in E as [[?%Z.leb_le ?%Z.leb_le]%andb_true_iff ?%Z.leb_le].
  f_equal. apply list_eq. intros i.
  destruct (decide (i < Z.to_nat n)%nat).
  - rewrite !lookup_take_lt, !lookup_drop by lia. apply splice_lookup_out; lia.
  - by rewrite !lookup_take_ge by lia.
Qed.

Lemma buf_load_store_same n buf off v buf' :
  buf_store n buf off v = Ok buf' → buf_load n buf' off = Ok (v mod 256 ^ Z.of_nat n).
Proof.
  unfold buf_store, buf_load. intros Hw%buf_read_write_same.
  unfold zlen in Hw. rewrite length_le_bytes in Hw. rewrite Hw. simpl.
  by rewrite le_val_bytes.
Qed.

Lemma buf_load_store_disjoint n m buf off v buf' off' :
  buf_store n buf off v = Ok buf' →
  off' + Z.of_nat m ≤ off ∨ off + Z.of_nat n ≤ off' →
  buf_load m buf' off' = buf_load m buf off'.
Proof.
  unfold buf_store, buf_load. intros Hw Hd.
  erewrite buf_read_write_disjoint; [done | exact Hw |].
  unfold zlen. rewrite length_le_bytes. lia.
Qed.

(** ** Array lemmas *)

Lemma arr_get_Ok {A} (l : list A) i x :
  0 ≤ i → l !! Z.to_nat i = Some x → arr_get l i = Ok x.
Proof. intros ? Hx. unfold arr_get. destruct (Z.ltb_spec i 0); [lia|]. by rewrite Hx. Qed.

Lemma arr_get_inv {A} (l : list A) i x :
  arr_get l i = Ok x → 0 ≤ i < zlen l ∧ l !! Z.to_nat i = Some x.
Proof.
  unfold arr_get, zlen. destruct (Z.ltb_spec i 0); [discriminate|].
  destruct (l !! Z.to_nat i) eqn:E; [|discriminate]. intros [= ->].
  apply lookup_lt_Some in E as ?. split; [lia | done].
Qed.

Lemma arr_get_oob {A} (l : list A) i : ¬ (0 ≤ i < zlen l) → arr_get l i = Fault Undefined.
Proof.
  unfold arr_get, zlen. intros. destruct (Z.ltb_spec i 0); [done|].
  by rewrite (proj2 (lookup_ge_None _ _)) by lia.
Qed.

Lemma arr_get_is_Ok {A} (l : list A) i : 0 ≤ i < zlen l → ∃ x, arr_get l i = Ok x.
Proof.
  unfold zlen. intros. destruct (lookup_lt_is_Some_2 l (Z.to_nat i)) as [x Hx]; [lia|].
  exists x. apply arr_get_Ok; [lia | done].
Qed.

Lemma arr_set_Ok {A} (l : list A) i x :
  0 ≤ i < zlen l → arr_set l i x = Ok (<[Z.to_nat i := x]> l).
Proof.
  intros. unfold arr_set.
  by rewrite (proj2 (Z.leb_le _ _)), (proj2 (Z.ltb_lt _ _)) by lia.
Qed.

Lemma arr_set_inv {A} (l : list A) i x l' :
  arr_set l i x = Ok l' → 0 ≤ i < zlen l ∧ l' = <[Z.to_nat i := x]> l.
Proof.
  unfold arr_set. destruct (Z.leb_spec 0 i), (Z.ltb_spec i (zlen l)); simpl;
    intros; inv_ok; auto.
Qed.

Lemma arr_get_set_same {A} (l : list A) i x l' :
  arr_set l i x = Ok l' → arr_get l' i = Ok x.
Proof.
  intros [? ->]%arr_set_inv. apply arr_get_Ok; [lia|].
  apply list_lookup_insert_eq. unfold zlen in *. lia.
Qed.

Lemma arr_get_set_ne {A} (l : list A) i j x l' :
  arr_set l i x = Ok l' → i ≠ j → arr_get l' j = arr_get l j.
Proof.
  intros [? ->]%arr_set_inv ?. unfold arr_get. destruct (Z.ltb_spec j 0); [done|].
  rewrite list_lookup_insert_ne; [done | lia].
Qed.

Lemma zlen_nonneg {A} (l : list A) : 0 ≤ zlen l.
Proof. unfold zlen. lia. Qed.

Lemma zlen_app {A} (l k : list A) : zlen (l ++ k) = zlen l + zlen k.
Proof. unfold zlen. rewrite length_app. lia. Qed.

Lemma zlen_cons {A} (x : A) l : zlen (x :: l) = zlen l + 1.
Proof. unfold zlen. cbn. lia. Qed.

Lemma zlen_replicate {A} n (x : A) : 0 ≤ n → zlen (replicate (Z.to_nat n) x) = n.
Proof. intros. unfold zlen. rewrite length_replicate. lia. Qed.

(** Parts of a read, writes that fit. *)
Lemma buf_read_part buf off n bs k m :
  buf_read buf off n = Ok bs → 0 ≤ k → 0 ≤ m → k + m ≤ n →
  buf_read buf (off + k) m = Ok (take (Z.to_nat m) (drop (Z.to_nat k) bs)).
Proof.
  intros (? & ? & ? & ->)%buf_read_inv ? ? ?. rewrite buf_read_Ok by lia. f_equal.
  rewrite skipn_firstn_comm, drop_drop, take_take.
  rewrite Nat.min_l by lia. do 2 f_equal. lia.
Qed.

Lemma buf_write_is_Ok buf off bs : 0 ≤ off → off + zlen bs ≤ zlen buf →
  ∃ buf', buf_write buf off bs = Ok buf' ∧ zlen buf' = zlen buf.
Proof.
  intros. rewrite buf_write_Ok by done. eexists; split; [done|].
  unfold zlen in *. rewrite length_splice; lia.
Qed.

Lemma buf_store_is_Ok n buf off v : 0 ≤ off → off + Z.of_nat n ≤ zlen buf →
  ∃ buf', buf_store n buf off v = Ok buf' ∧ zlen buf' = zlen buf.
Proof.
  intros. apply buf_write_is_Ok; [done|]. unfold zlen in *. rewrite length_le_bytes. lia.
Qed.

Lemma buf_read_store_disjoint n buf off v buf' off' m :
  buf_store n buf off v = Ok buf' → off' + m ≤ off ∨ off + Z.of_nat n ≤ off' →
  buf_read buf' off' m = buf_read buf off' m.
Proof.
  intros Hw Hd. eapply buf_read_write_disjoint; [exact Hw|].
  unfold zlen. rewrite length_le_bytes. lia.
Qed.

(** Writing what is there changes nothing. *)
Lemma buf_write_id buf off bs :
  buf_read buf off (zlen bs) = Ok bs → buf_write buf off bs = Ok buf.
Proof.
  intros Hr. pose proof Hr as (? & ? & ? & Hb)%buf_read_inv. rewrite buf_write_Ok by done. f_equal.
  apply list_eq. intros i. unfold zlen in *.
  destruct (decide (Z.to_nat off ≤ i < Z.to_nat off + length bs)%nat).
  - rewrite splice_lookup_in by lia. rewrite Hb at 1.
    rewrite lookup_take_lt, lookup_drop by lia. f_equal. lia.
  - apply splice_lookup_out; lia.
Qed.

Lemma buf_load_read n buf off bs :
  buf_read buf off (Z.of_nat n) = Ok bs → buf_load n buf off = Ok (le_val bs).
Proof. unfold buf_load. by intros ->. Qed.

(** ** C structures

    A structure of the sources is a record with the fields in declaration
    order; [widths] gives their sizes in bytes.  [bytes_of] and [of_bytes]
    are what [disk_write] and [disk_read] of the structure move (x86:
    little-endian, no padding inside the structures that reach the disk). *)

Definition encode (ws : list nat) (vs : list Z) : list Z :=
  concat (zip_with le_bytes ws vs).

Fixpoint decode (ws : list nat) (bs : list Z) : list Z :=
  match ws with
  | [] => []
  | w :: ws => le_val (take w bs) :: decode ws (drop w bs)
  end.

Definition in_width (w : nat) (v : Z) : Prop := 0 ≤ v < 256 ^ Z.of_nat w.

Lemma decode_encode ws vs : Forall2 in_width ws vs → decode ws (encode ws vs) = vs.
Proof.
  induction 1 as [|w v ws vs Hv _ IH]; [done|]. unfold encode. cbn [zip_with concat decode].
  rewrite take_app_length' by (by rewrite length_le_bytes).
  rewrite drop_app_length' by (by rewrite length_le_bytes).
  rewrite le_val_bytes_small by done. f_equal. exact IH.
Qed.

Lemma encode_decode ws bs :
  length bs = sum_list ws → Forall byte_ok bs → encode ws (decode ws bs) = bs.
Proof.
  revert bs. induction ws as [|w ws IH]; intros bs Hl Hb.
  - by destruct bs.
  - unfold encode. cbn [decode zip_with concat]. cbn [sum_list] in Hl.
    change (concat (zip_with le_bytes ws (decode ws (drop w bs))))
      with (encode ws (decode ws (drop w bs))).
    rewrite IH; [|rewrite length_drop; simpl in *; lia | by apply Forall_drop].
    rewrite <- (take_drop w bs) at 3. f_equal.
    rewrite <- (le_bytes_val (take w bs)) at 2 by (by apply Forall_take).
    f_equal. rewrite length_take. simpl in Hl. lia.
Qed.

Lemma length_encode ws vs :
  length ws = length vs → length (encode ws vs) = sum_list ws.
Proof.
  revert vs; induction ws as [|w ws IH]; intros [|v vs]; try done.
  intros [= Hl]. unfold encode. cbn [zip_with concat sum_list].
  rewrite length_app, length_le_bytes. f_equal. by apply IH.
Qed.

Lemma length_decode ws bs : length (decode ws bs) = length ws.
Proof. revert bs; induction ws; simpl; auto. Qed.

Lemma encode_bytes_ok ws vs : Forall byte_ok (encode ws vs).
Proof.
  unfold encode. revert vs; induction ws as [|w ws IH]; intros [|v vs]; simpl; auto.
  apply Forall_app. split; [apply le_bytes_ok | apply IH].
Qed.

Lemma decode_in_width ws bs :
  length bs = sum_list ws → Forall byte_ok bs → Forall2 in_width ws (decode ws bs).
Proof.
  revert bs; induction ws as [|w ws IH]; intros bs Hl Hb; simpl; constructor.
  - unfold in_width. pose proof (le_val_range (take w bs) (Forall_take _ _ _ Hb)) as Hr.
    simpl in Hl. unfold zlen in Hr. rewrite length_take, Nat.min_l in Hr by lia. exact Hr.
  - apply IH; [rewrite length_drop; simpl in Hl; lia | by apply Forall_drop].
Qed.

(** The fields of a decoded structure, read back by position. *)
Lemma map_nth_seq (vs : list Z) n :
  length vs = n → map (λ i, nth i vs 0) (seq 0 n) = vs.
Proof.
  intros <-. induction vs as [|v vs IH]; [done|]. cbn [length seq map nth]. f_equal.
  rewrite <- IH at 2. rewrite <- seq_shift, map_map. done.
Qed.

Class CStruct (T : Type) := {
  widths : list nat;
  to_fields : T → list Z;
  of_fields : list Z → T;
  (** the array members have their declared length *)
  arrays_ok : T → Prop;
  of_to_fields t : arrays_ok t → of_fields (to_fields t) = t;
  to_of_fields vs : length vs = length widths → to_fields (of_fields vs) = vs;
  of_fields_arrays vs : length vs = length widths → arrays_ok (of_fields vs);
}.
Arguments widths T {_}.

Section cstruct.
Context {T : Type} `{CStruct T}.

Definition sizeof : Z := Z.of_nat (sum_list (widths T)).
Definition bytes_of (t : T) : list Z := encode (widths T) (to_fields t).
Definition of_bytes (bs : list Z) : T := of_fields (decode (widths T) bs).

(** Every member holds a value of its type. *)
Definition struct_ok (t : T) : Prop :=
  arrays_ok t ∧ Forall2 in_width (widths T) (to_fields t).

Lemma of_bytes_of t : struct_ok t → of_bytes (bytes_of t) = t.
Proof.
  intros [Ha Hw]. unfold of_bytes, bytes_of. rewrite decode_encode by done.
  by apply of_to_fields.
Qed.

Lemma bytes_of_of bs :
  zlen bs = sizeof → Forall byte_ok bs → bytes_of (of_bytes bs) = bs.
Proof.
  unfold zlen, sizeof. intros Hl%Nat2Z.inj Hb. unfold bytes_of, of_bytes.
  rewrite to_of_fields by apply length_decode. by apply encode_decode.
Qed.

Lemma of_bytes_ok bs : zlen bs = sizeof → Forall byte_ok bs → struct_ok (of_bytes bs).
Proof.
  unfold zlen, sizeof, struct_ok, of_bytes. intros Hl%Nat2Z.inj Hb.
  split; [apply of_fields_arrays, length_decode|].
  rewrite to_of_fields by apply length_decode. by apply decode_in_width.
Qed.

Lemma zlen_bytes_of t : struct_ok t → zlen (bytes_of t) = sizeof.
Proof.
  intros [_ Hw%Forall2_length]. unfold zlen, sizeof, bytes_of. by rewrite length_encode.
Qed.

Lemma bytes_of_bytes_ok t : Forall byte_ok (bytes_of t).
Proof. apply encode_bytes_ok. Qed.
End cstruct.
Arguments sizeof T {_}.

(** ** C strings

    A C string is the list of its bytes before the terminating NUL. *)

Fixpoint cstr (s : string) : list Z :=
  match s with
  | EmptyString => []
  | String a s => Z.of_nat (Ascii.nat_of_ascii a) :: cstr s
  end.

Arguments cstr s%_string.

Definition SLASH : Z := 47.

(** [strncmp(s, t, n) == 0]: equal up to [n] characters or the first NUL. *)
Definition strncmp_eq (s t : list Z) (n : Z) : bool :=
  bool_decide (take (Z.to_nat n) (s ++ [0]) = take (Z.to_nat n) (t ++ [0])).

(** The bytes before the first NUL of a buffer. *)
Fixpoint until_nul (bs : list Z) : list Z :=
  match bs with
  | [] => []
  | b :: bs => if b =? 0 then [] else b :: until_nul bs
  end.

(** [strrchr(s, '/')]: the index of the last slash. *)
Fixpoint last_slash_from (i : Z) (s : list Z) (acc : option Z) : option Z :=
  match s with
  | [] => acc
  | c :: s => last_slash_from (i + 1) s (if c =? SLASH then Some i else acc)
  end.
Definition strrchr_slash (s : list Z) : option Z := last_slash_from 0 s None.

(** [strrchr(s, '/') + 1], the last component; NULL when there is none. *)
Definition basename (s : list Z) : outcome (list Z) :=
  i ← deref (strrchr_slash s); Ok (drop (Z.to_nat (i + 1)) s).

(** ** Loops

    [for (i = a; ...; i++)] run at most [n] times; the body returns [Some r]
    to leave the loop with [r]. *)

Fixpoint for_o {R} (n : nat) (i : Z) (body : Z → outcome (option R)) : outcome (option R) :=
  match n with
  | O => Ok None
  | S n => r ← body i;
           match r with
           | Some r => Ok (Some r)
           | None => for_o n (i + 1) body
           end
  end.

Fixpoint for_m {S R} (n : nat) (i : Z) (body : Z → M S (option R)) : M S (option R) :=
  match n with
  | O => ret None
  | Datatypes.S n => r ⇐ body i;
           match r with
           | Some r => ret (Some r)
           | None => for_m n (i + 1) body
           end
  end.

(** A search loop whose test never faults finds the first hit, or none. *)
Lemma for_o_spec {R} (n : nat) (i : Z) (body : Z → outcome (option R))
    (test : Z → option R) :
  (∀ j, i ≤ j < i + Z.of_nat n → body j = Ok (test j)) →
  (∃ j r, i ≤ j < i + Z.of_nat n ∧ test j = Some r ∧
     (∀ k, i ≤ k < j → test k = None) ∧ for_o n i body = Ok (Some r)) ∨
  ((∀ j, i ≤ j < i + Z.of_nat n → test j = None) ∧ for_o n i body = Ok None).
Proof.
  revert i. induction n as [|n IH]; intros i Hb; cbn [for_o].
  - right. split; [lia | done].
  - rewrite (Hb i) by lia. cbn. destruct (test i) as [r|] eqn:Et.
    + left. exists i, r. repeat split; auto; lia.
    + destruct (IH (i + 1)) as [(j & r & ? & ? & Hk & ->)|[Hn ->]].
      { intros j ?. apply Hb. lia. }
      * left. exists j, r. repeat split; auto; try lia.
        intros k ?. destruct (decide (k = i)) as [->|]; [done | apply Hk; lia].
      * right. split; [|done]. intros j ?.
        destruct (decide (j = i)) as [->|]; [done | apply Hn; lia].
Qed.

(** ** Automation *)

(** One step of a state computation, whose run is given by a lemma. *)
Tactic Notation "run" uconstr(H) :=
  erewrite M_bind_Ok by first [exact H | apply H]; cbv beta iota zeta.
Tactic Notation "run" := erewrite M_bind_Ok by reflexivity; cbv beta iota zeta.

Create HintDb kfs.
Create Rewrite HintDb kfs.
#[export] Hint Resolve wp_ret wp_gets wp_modify zlen_nonneg le_bytes_ok
  bytes_of_bytes_ok : kfs.
#[export] Hint Rewrite @length_le_bytes @length_encode @length_decode : kfs.

(** One step of a total-correctness proof. *)
Ltac wp_step :=
  lazymatch goal with
  | |- wp (ret _) _ _ => apply wp_ret
  | |- wp (sbind _ _) _ _ => apply wp_bind
  | |- wp (gets _) _ _ => apply wp_gets
  | |- wp (modify _) _ _ => apply wp_modify
  end.
Ltac wp_steps := repeat (wp_step; cbv beta).
