(* ===== verification/Ext4.v ===== *)
(** * On-disk structures of ext4 and their accessor macros

    [src/src/ext4/*.h]: the structures kfs reads from and writes to the disk
    image as records with their byte layout ([CStruct] instances), and the
    macros that combine their split (low/high) members.  Array members no
    code indexes ([s_uuid], [s_reserved], [bg_reserved], ...) are kept as one
    integer of the member's total width.  Of the unions [osd1] and [osd2] of
    the inode, the [linux] view is the one the code uses. *)

From S2P Require Import Prelude.
From stdpp Require Import base numbers list list_numbers.
From Stdlib Require Import ZArith Lia.

Open Scope Z_scope.
Open Scope kfs_scope.

(** ** Constants *)

Definition MASK_16 : Z := 0xFFFF.
Definition MASK_32 : Z := 0xFFFFFFFF.

Definition BOOT_SECTOR_SIZE : Z := 0x400.
Definition EXT4_S_MAGIC : Z := 0xEF53.
Definition EXT4_ROOT_INO : Z := 2.
Definition EXT4_KFSCTL_INO : Z := 3.

Definition EXT4_NDIR_BLOCKS : Z := 12.
Definition EXT4_IND_BLOCK : Z := EXT4_NDIR_BLOCKS.
Definition EXT4_DIND_BLOCK : Z := EXT4_IND_BLOCK + 1.
Definition EXT4_TIND_BLOCK : Z := EXT4_DIND_BLOCK + 1.
Definition EXT4_N_BLOCKS : Z := EXT4_TIND_BLOCK + 1.
Definition EXT4_HUGE_FILE_FL : Z := 0x00040000.
Definition EXT4_EXTENTS_FL : Z := 0x00080000.
Definition EXT4_INODE_PBLOCK_NUM : Z := 4.

Definition EXT4_NAME_LEN : Z := 254.
Definition EXT4_DE_BASE_SIZE : Z := 8.
Definition EXT4_FT_UNKNOWN : Z := 0.
Definition EXT4_FT_REG_FILE : Z := 1.
Definition EXT4_FT_DIR : Z := 2.
Definition EXT4_FT_CHRDEV : Z := 3.
Definition EXT4_FT_BLKDEV : Z := 4.
Definition EXT4_FT_FIFO : Z := 5.
Definition EXT4_FT_SOCK : Z := 6.
Definition EXT4_FT_SYMLINK : Z := 7.
Definition EXT4_FT_DIR_CSUM : Z := 0xDE.
Definition EXT4_DE_TAIL_SIZE : Z := 12.
Definition EXT4_DE_DOT_SIZE : Z := 12.

Definition EXT4_EXT_MAGIC : Z := 0xF30A.
Definition EXT4_EXT_LEAF_EH_MAX : Z := 4.
Definition EXT4_EXT_EH_GENERATION : Z := 0.

Definition EXT4_GDT_CLEAN : Z := 0.
Definition EXT4_GDT_DIRTY : Z := 1.
Definition EXT4_GDT_MAX_USED_DIRS : Z := 0xffffffff.

(** [errno.h] and the file type bits of [sys/stat.h] (Linux). *)
Definition EPERM : Z := 1.
Definition ENOENT : Z := 2.
Definition EIO : Z := 5.
Definition EACCES : Z := 13.
Definition EISDIR : Z := 21.
Definition EINVAL : Z := 22.
Definition ENOSPC : Z := 28.
Definition EMLINK : Z := 31.
Definition ENAMETOOLONG : Z := 36.
Definition ENOSYS : Z := 38.

Definition S_IFMT : Z := 0xF000.
Definition S_IFSOCK : Z := 0xC000.
Definition S_IFLNK : Z := 0xA000.
Definition S_IFREG : Z := 0x8000.
Definition S_IFBLK : Z := 0x6000.
Definition S_IFDIR : Z := 0x4000.
Definition S_IFCHR : Z := 0x2000.
Definition S_IFIFO : Z := 0x1000.

(** [x & m] as a condition. *)
Definition has (x m : Z) : bool := negb (Z.land x m =? 0).

(** ** Group descriptors *)

Record ext4_group_desc := mk_group_desc {
  bg_block_bitmap_lo : Z; bg_inode_bitmap_lo : Z; bg_inode_table_lo : Z;
  bg_free_blocks_count_lo : Z; bg_free_inodes_count_lo : Z;
  bg_used_dirs_count_lo : Z; bg_flags : Z; bg_reserved : Z;
  bg_itable_unused_lo : Z; bg_checksum : Z; bg_block_bitmap_hi : Z;
  bg_inode_bitmap_hi : Z; bg_inode_table_hi : Z; bg_free_blocks_count_hi : Z;
  bg_free_inodes_count_hi : Z; bg_used_dirs_count_hi : Z;
  bg_itable_unused_hi : Z; bg_reserved2_0 : Z; bg_reserved2_1 : Z;
  bg_reserved2_2 : Z
}.

Definition group_desc_eta (r : ext4_group_desc) : ext4_group_desc :=
  mk_group_desc
    (bg_block_bitmap_lo r) (bg_inode_bitmap_lo r) (bg_inode_table_lo r)
    (bg_free_blocks_count_lo r) (bg_free_inodes_count_lo r)
    (bg_used_dirs_count_lo r) (bg_flags r) (bg_reserved r)
    (bg_itable_unused_lo r) (bg_checksum r) (bg_block_bitmap_hi r)
    (bg_inode_bitmap_hi r) (bg_inode_table_hi r) (bg_free_blocks_count_hi r)
    (bg_free_inodes_count_hi r) (bg_used_dirs_count_hi r)
    (bg_itable_unused_hi r) (bg_reserved2_0 r) (bg_reserved2_1 r)
    (bg_reserved2_2 r).

Definition set_bg_block_bitmap_lo (v : Z) (r : ext4_group_desc) : ext4_group_desc :=
  ltac:(setter (group_desc_eta r) (bg_block_bitmap_lo r) v).
Definition set_bg_block_bitmap_hi (v : Z) (r : ext4_group_desc) : ext4_group_desc :=
  ltac:(setter (group_desc_eta r) (bg_block_bitmap_hi r) v).
Definition set_bg_inode_bitmap_lo (v : Z) (r : ext4_group_desc) : ext4_group_desc :=
  ltac:(setter (group_desc_eta r) (bg_inode_bitmap_lo r) v).
Definition set_bg_inode_bitmap_hi (v : Z) (r : ext4_group_desc) : ext4_group_desc :=
  ltac:(setter (group_desc_eta r) (bg_inode_bitmap_hi r) v).
Definition set_bg_inode_table_lo (v : Z) (r : ext4_group_desc) : ext4_group_desc :=
  ltac:(setter (group_desc_eta r) (bg_inode_table_lo r) v).
Definition set_bg_inode_table_hi (v : Z) (r : ext4_group_desc) : ext4_group_desc :=
  ltac:(setter (group_desc_eta r) (bg_inode_table_hi r) v).
Definition set_bg_free_blocks_count_lo (v : Z) (r : ext4_group_desc) : ext4_group_desc :=
  ltac:(setter (group_desc_eta r) (bg_free_blocks_count_lo r) v).
Definition set_bg_free_blocks_count_hi (v : Z) (r : ext4_group_desc) : ext4_group_desc :=
  ltac:(setter (group_desc_eta r) (bg_free_blocks_count_hi r) v).
Definition set_bg_free_inodes_count_lo (v : Z) (r : ext4_group_desc) : ext4_group_desc :=
  ltac:(setter (group_desc_eta r) (bg_free_inodes_count_lo r) v).
Definition set_bg_free_inodes_count_hi (v : Z) (r : ext4_group_desc) : ext4_group_desc :=
  ltac:(setter (group_desc_eta r) (bg_free_inodes_count_hi r) v).
Definition set_bg_used_dirs_count_lo (v : Z) (r : ext4_group_desc) : ext4_group_desc :=
  ltac:(setter (group_desc_eta r) (bg_used_dirs_count_lo r) v).
Definition set_bg_used_dirs_count_hi (v : Z) (r : ext4_group_desc) : ext4_group_desc :=
  ltac:(setter (group_desc_eta r) (bg_used_dirs_count_hi r) v).
Definition set_bg_itable_unused_lo (v : Z) (r : ext4_group_desc) : ext4_group_desc :=
  ltac:(setter (group_desc_eta r) (bg_itable_unused_lo r) v).
Definition set_bg_itable_unused_hi (v : Z) (r : ext4_group_desc) : ext4_group_desc :=
  ltac:(setter (group_desc_eta r) (bg_itable_unused_hi r) v).
Definition set_bg_reserved2_0 (v : Z) (r : ext4_group_desc) : ext4_group_desc :=
  ltac:(setter (group_desc_eta r) (bg_reserved2_0 r) v).

#[global, refine] Instance group_desc_struct : CStruct ext4_group_desc := {|
  widths :=
    [4; 4; 4; 2; 2; 2; 2; 8; 2; 2; 4; 4; 4; 2; 2; 2; 2; 4; 4; 4]%nat;
  to_fields r :=
    [bg_block_bitmap_lo r; bg_inode_bitmap_lo r; bg_inode_table_lo r;
    bg_free_blocks_count_lo r; bg_free_inodes_count_lo r;
    bg_used_dirs_count_lo r; bg_flags r; bg_reserved r;
    bg_itable_unused_lo r; bg_checksum r; bg_block_bitmap_hi r;
    bg_inode_bitmap_hi r; bg_inode_table_hi r; bg_free_blocks_count_hi r;
    bg_free_inodes_count_hi r; bg_used_dirs_count_hi r;
    bg_itable_unused_hi r; bg_reserved2_0 r; bg_reserved2_1 r;
    bg_reserved2_2 r];
  of_fields vs := let v := λ i, nth i vs 0 in
    mk_group_desc
      (v 0%nat) (v 1%nat) (v 2%nat) (v 3%nat) (v 4%nat) (v 5%nat) (v 6%nat)
      (v 7%nat) (v 8%nat) (v 9%nat) (v 10%nat) (v 11%nat) (v 12%nat)
      (v 13%nat) (v 14%nat) (v 15%nat) (v 16%nat) (v 17%nat) (v 18%nat)
      (v 19%nat);
  arrays_ok _ := True;
|}.
Proof.
- by intros [].
- intros vs Hl. exact (map_nth_seq vs _ Hl).
- done.
Defined.

(** ** The super block *)

Record ext4_super_block := mk_super_block {
  s_inodes_count : Z; s_blocks_count_lo : Z; s_r_blocks_count_lo : Z;
  s_free_blocks_count_lo : Z; s_free_inodes_count : Z;
  s_first_data_block : Z; s_log_block_size : Z; s_obso_log_frag_size : Z;
  s_blocks_per_group : Z; s_obso_frags_per_group : Z; s_inodes_per_group : Z;
  s_mtime : Z; s_wtime : Z; s_mnt_count : Z; s_max_mnt_count : Z;
  s_magic : Z; s_state : Z; s_errors : Z; s_minor_rev_level : Z;
  s_lastcheck : Z; s_checkinterval : Z; s_creator_os : Z; s_rev_level : Z;
  s_def_resuid : Z; s_def_resgid : Z; s_first_ino : Z; s_inode_size : Z;
  s_block_group_nr : Z; s_feature_compat : Z; s_feature_incompat : Z;
  s_feature_ro_compat : Z; s_uuid : Z; s_volume_name : Z; s_last_mounted : Z;
  s_algorithm_usage_bitmap : Z; s_prealloc_blocks : Z;
  s_prealloc_dir_blocks : Z; s_reserved_gdt_blocks : Z; s_journal_uuid : Z;
  s_journal_inum : Z; s_journal_dev : Z; s_last_orphan : Z; s_hash_seed : Z;
  s_def_hash_version : Z; s_reserved_char_pad : Z; s_desc_size : Z;
  s_default_mount_opts : Z; s_first_meta_bg : Z; s_mkfs_time : Z;
  s_jnl_blocks : Z; s_blocks_count_hi : Z; s_r_blocks_count_hi : Z;
  s_free_blocks_count_hi : Z; s_min_extra_isize : Z; s_want_extra_isize : Z;
  s_flags : Z; s_raid_stride : Z; s_mmp_interval : Z; s_mmp_block : Z;
  s_raid_stripe_width : Z; s_log_groups_per_flex : Z;
  s_reserved_char_pad2 : Z; s_reserved_pad : Z; s_kbytes_written : Z;
  s_reserved : Z
}.

Definition super_block_eta (r : ext4_super_block) : ext4_super_block :=
  mk_super_block
    (s_inodes_count r) (s_blocks_count_lo r) (s_r_blocks_count_lo r)
    (s_free_blocks_count_lo r) (s_free_inodes_count r) (s_first_data_block r)
    (s_log_block_size r) (s_obso_log_frag_size r) (s_blocks_per_group r)
    (s_obso_frags_per_group r) (s_inodes_per_group r) (s_mtime r) (s_wtime r)
    (s_mnt_count r) (s_max_mnt_count r) (s_magic r) (s_state r) (s_errors r)
    (s_minor_rev_level r) (s_lastcheck r) (s_checkinterval r)
    (s_creator_os r) (s_rev_level r) (s_def_resuid r) (s_def_resgid r)
    (s_first_ino r) (s_inode_size r) (s_block_group_nr r)
    (s_feature_compat r) (s_feature_incompat r) (s_feature_ro_compat r)
    (s_uuid r) (s_volume_name r) (s_last_mounted r)
    (s_algorithm_usage_bitmap r) (s_prealloc_blocks r)
    (s_prealloc_dir_blocks r) (s_reserved_gdt_blocks r) (s_journal_uuid r)
    (s_journal_inum r) (s_journal_dev r) (s_last_orphan r) (s_hash_seed r)
    (s_def_hash_version r) (s_reserved_char_pad r) (s_desc_size r)
    (s_default_mount_opts r) (s_first_meta_bg r) (s_mkfs_time r)
    (s_jnl_blocks r) (s_blocks_count_hi r) (s_r_blocks_count_hi r)
    (s_free_blocks_count_hi r) (s_min_extra_isize r) (s_want_extra_isize r)
    (s_flags r) (s_raid_stride r) (s_mmp_interval r) (s_mmp_block r)
    (s_raid_stripe_width r) (s_log_groups_per_flex r)
    (s_reserved_char_pad2 r) (s_reserved_pad r) (s_kbytes_written r)
    (s_reserved r).

Definition set_s_inodes_count (v : Z) (r : ext4_super_block) : ext4_super_block :=
  ltac:(setter (super_block_eta r) (s_inodes_count r) v).
Definition set_s_magic (v : Z) (r : ext4_super_block) : ext4_super_block :=
  ltac:(setter (super_block_eta r) (s_magic r) v).
Definition set_s_log_block_size (v : Z) (r : ext4_super_block) : ext4_super_block :=
  ltac:(setter (super_block_eta r) (s_log_block_size r) v).
Definition set_s_blocks_count_hi (v : Z) (r : ext4_super_block) : ext4_super_block :=
  ltac:(setter (super_block_eta r) (s_blocks_count_hi r) v).
Definition set_s_blocks_count_lo (v : Z) (r : ext4_super_block) : ext4_super_block :=
  ltac:(setter (super_block_eta r) (s_blocks_count_lo r) v).
Definition set_s_blocks_per_group (v : Z) (r : ext4_super_block) : ext4_super_block :=
  ltac:(setter (super_block_eta r) (s_blocks_per_group r) v).
Definition set_s_inode_size (v : Z) (r : ext4_super_block) : ext4_super_block :=
  ltac:(setter (super_block_eta r) (s_inode_size r) v).
Definition set_s_inodes_per_group (v : Z) (r : ext4_super_block) : ext4_super_block :=
  ltac:(setter (super_block_eta r) (s_inodes_per_group r) v).
Definition set_s_desc_size (v : Z) (r : ext4_super_block) : ext4_super_block :=
  ltac:(setter (super_block_eta r) (s_desc_size r) v).
Definition set_s_mtime (v : Z) (r : ext4_super_block) : ext4_super_block :=
  ltac:(setter (super_block_eta r) (s_mtime r) v).
Definition set_s_mnt_count (v : Z) (r : ext4_super_block) : ext4_super_block :=
  ltac:(setter (super_block_eta r) (s_mnt_count r) v).

#[global, refine] Instance super_block_struct : CStruct ext4_super_block := {|
  widths :=
    [4; 4; 4; 4; 4; 4; 4; 4; 4; 4; 4; 4; 4; 2; 2; 2; 2; 2; 2; 4; 4; 4; 4; 2;
    2; 4; 2; 2; 4; 4; 4; 16; 16; 64; 4; 1; 1; 2; 16; 4; 4; 4; 16; 1; 1; 2; 4;
    4; 4; 68; 4; 4; 4; 2; 2; 4; 2; 2; 8; 4; 1; 1; 2; 8; 640]%nat;
  to_fields r :=
    [s_inodes_count r; s_blocks_count_lo r; s_r_blocks_count_lo r;
    s_free_blocks_count_lo r; s_free_inodes_count r; s_first_data_block r;
    s_log_block_size r; s_obso_log_frag_size r; s_blocks_per_group r;
    s_obso_frags_per_group r; s_inodes_per_group r; s_mtime r; s_wtime r;
    s_mnt_count r; s_max_mnt_count r; s_magic r; s_state r; s_errors r;
    s_minor_rev_level r; s_lastcheck r; s_checkinterval r; s_creator_os r;
    s_rev_level r; s_def_resuid r; s_def_resgid r; s_first_ino r;
    s_inode_size r; s_block_group_nr r; s_feature_compat r;
    s_feature_incompat r; s_feature_ro_compat r; s_uuid r; s_volume_name r;
    s_last_mounted r; s_algorithm_usage_bitmap r; s_prealloc_blocks r;
    s_prealloc_dir_blocks r; s_reserved_gdt_blocks r; s_journal_uuid r;
    s_journal_inum r; s_journal_dev r; s_last_orphan r; s_hash_seed r;
    s_def_hash_version r; s_reserved_char_pad r; s_desc_size r;
    s_default_mount_opts r; s_first_meta_bg r; s_mkfs_time r; s_jnl_blocks r;
    s_blocks_count_hi r; s_r_blocks_count_hi r; s_free_blocks_count_hi r;
    s_min_extra_isize r; s_want_extra_isize r; s_flags r; s_raid_stride r;
    s_mmp_interval r; s_mmp_block r; s_raid_stripe_width r;
    s_log_groups_per_flex r; s_reserved_char_pad2 r; s_reserved_pad r;
    s_kbytes_written r; s_reserved r];
  of_fields vs := let v := λ i, nth i vs 0 in
    mk_super_block
      (v 0%nat) (v 1%nat) (v 2%nat) (v 3%nat) (v 4%nat) (v 5%nat) (v 6%nat)
      (v 7%nat) (v 8%nat) (v 9%nat) (v 10%nat) (v 11%nat) (v 12%nat)
      (v 13%nat) (v 14%nat) (v 15%nat) (v 16%nat) (v 17%nat) (v 18%nat)
      (v 19%nat) (v 20%nat) (v 21%nat) (v 22%nat) (v 23%nat) (v 24%nat)
      (v 25%nat) (v 26%nat) (v 27%nat) (v 28%nat) (v 29%nat) (v 30%nat)
      (v 31%nat) (v 32%nat) (v 33%nat) (v 34%nat) (v 35%nat) (v 36%nat)
      (v 37%nat) (v 38%nat) (v 39%nat) (v 40%nat) (v 41%nat) (v 42%nat)
      (v 43%nat) (v 44%nat) (v 45%nat) (v 46%nat) (v 47%nat) (v 48%nat)
      (v 49%nat) (v 50%nat) (v 51%nat) (v 52%nat) (v 53%nat) (v 54%nat)
      (v 55%nat) (v 56%nat) (v 57%nat) (v 58%nat) (v 59%nat) (v 60%nat)
      (v 61%nat) (v 62%nat) (v 63%nat) (v 64%nat);
  arrays_ok _ := True;
|}.
Proof.
- by intros [].
- intros vs Hl. exact (map_nth_seq vs _ Hl).
- done.
Defined.

(** ** Inodes

    [i_block] is the 60 bytes of the member: the code reads them as block
    pointers, as an extent tree node and as the target of a short symlink. *)

Record ext4_inode := mk_inode {
  i_mode : Z; i_uid : Z; i_size_lo : Z; i_atime : Z; i_ctime : Z;
  i_mtime : Z; i_dtime : Z; i_gid : Z; i_links_count : Z; i_blocks_lo : Z;
  i_flags : Z; l_i_version : Z; i_block : list Z; i_generation : Z;
  i_file_acl_lo : Z; i_size_high : Z; i_obso_faddr : Z; l_i_blocks_high : Z;
  l_i_file_acl_high : Z; l_i_uid_high : Z; l_i_gid_high : Z;
  l_i_checksum_lo : Z; l_i_reserved : Z; i_extra_isize : Z;
  i_checksum_hi : Z; i_ctime_extra : Z; i_mtime_extra : Z; i_atime_extra : Z;
  i_crtime : Z; i_crtime_extra : Z; i_version_hi : Z; i_projid : Z
}.

Definition inode_eta (r : ext4_inode) : ext4_inode :=
  mk_inode
    (i_mode r) (i_uid r) (i_size_lo r) (i_atime r) (i_ctime r) (i_mtime r)
    (i_dtime r) (i_gid r) (i_links_count r) (i_blocks_lo r) (i_flags r)
    (l_i_version r) (i_block r) (i_generation r) (i_file_acl_lo r)
    (i_size_high r) (i_obso_faddr r) (l_i_blocks_high r)
    (l_i_file_acl_high r) (l_i_uid_high r) (l_i_gid_high r)
    (l_i_checksum_lo r) (l_i_reserved r) (i_extra_isize r) (i_checksum_hi r)
    (i_ctime_extra r) (i_mtime_extra r) (i_atime_extra r) (i_crtime r)
    (i_crtime_extra r) (i_version_hi r) (i_projid r).

Definition set_i_mode (v : Z) (r : ext4_inode) : ext4_inode :=
  ltac:(setter (inode_eta r) (i_mode r) v).
Definition set_i_uid (v : Z) (r : ext4_inode) : ext4_inode :=
  ltac:(setter (inode_eta r) (i_uid r) v).
Definition set_i_size_lo (v : Z) (r : ext4_inode) : ext4_inode :=
  ltac:(setter (inode_eta r) (i_size_lo r) v).
Definition set_i_atime (v : Z) (r : ext4_inode) : ext4_inode :=
  ltac:(setter (inode_eta r) (i_atime r) v).
Definition set_i_ctime (v : Z) (r : ext4_inode) : ext4_inode :=
  ltac:(setter (inode_eta r) (i_ctime r) v).
Definition set_i_mtime (v : Z) (r : ext4_inode) : ext4_inode :=
  ltac:(setter (inode_eta r) (i_mtime r) v).
Definition set_i_gid (v : Z) (r : ext4_inode) : ext4_inode :=
  ltac:(setter (inode_eta r) (i_gid r) v).
Definition set_i_links_count (v : Z) (r : ext4_inode) : ext4_inode :=
  ltac:(setter (inode_eta r) (i_links_count r) v).
Definition set_i_blocks_lo (v : Z) (r : ext4_inode) : ext4_inode :=
  ltac:(setter (inode_eta r) (i_blocks_lo r) v).
Definition set_i_flags (v : Z) (r : ext4_inode) : ext4_inode :=
  ltac:(setter (inode_eta r) (i_flags r) v).
Definition set_i_block (v : list Z) (r : ext4_inode) : ext4_inode :=
  ltac:(setter (inode_eta r) (i_block r) v).
Definition set_i_size_high (v : Z) (r : ext4_inode) : ext4_inode :=
  ltac:(setter (inode_eta r) (i_size_high r) v).
Definition set_l_i_blocks_high (v : Z) (r : ext4_inode) : ext4_inode :=
  ltac:(setter (inode_eta r) (l_i_blocks_high r) v).
Definition set_l_i_uid_high (v : Z) (r : ext4_inode) : ext4_inode :=
  ltac:(setter (inode_eta r) (l_i_uid_high r) v).
Definition set_l_i_gid_high (v : Z) (r : ext4_inode) : ext4_inode :=
  ltac:(setter (inode_eta r) (l_i_gid_high r) v).

#[global, refine] Instance inode_struct : CStruct ext4_inode := {|
  widths :=
    [2; 2; 4; 4; 4; 4; 4; 2; 2; 4; 4; 4]%nat ++ replicate 60 1%nat ++
    [4; 4; 4; 4; 2; 2; 2; 2; 2; 2; 2; 2; 4; 4; 4; 4; 4; 4; 4]%nat;
  to_fields r :=
    [i_mode r; i_uid r; i_size_lo r; i_atime r; i_ctime r; i_mtime r;
    i_dtime r; i_gid r; i_links_count r; i_blocks_lo r; i_flags r;
    l_i_version r] ++
    i_block r ++
    [i_generation r; i_file_acl_lo r; i_size_high r; i_obso_faddr r;
    l_i_blocks_high r; l_i_file_acl_high r; l_i_uid_high r; l_i_gid_high r;
    l_i_checksum_lo r; l_i_reserved r; i_extra_isize r; i_checksum_hi r;
    i_ctime_extra r; i_mtime_extra r; i_atime_extra r; i_crtime r;
    i_crtime_extra r; i_version_hi r; i_projid r];
  of_fields vs := let v := λ i, nth i vs 0 in
    mk_inode
      (v 0%nat) (v 1%nat) (v 2%nat) (v 3%nat) (v 4%nat) (v 5%nat) (v 6%nat)
      (v 7%nat) (v 8%nat) (v 9%nat) (v 10%nat) (v 11%nat) (map v (seq 12 60))
      (v 72%nat) (v 73%nat) (v 74%nat) (v 75%nat) (v 76%nat) (v 77%nat)
      (v 78%nat) (v 79%nat) (v 80%nat) (v 81%nat) (v 82%nat) (v 83%nat)
      (v 84%nat) (v 85%nat) (v 86%nat) (v 87%nat) (v 88%nat) (v 89%nat)
      (v 90%nat);
  arrays_ok r := length (i_block r) = 60%nat;
|}.
Proof.
- intros [] Hb. cbn in Hb. do 60 (destruct i_block0 as [|? i_block0]; [discriminate|]).
  destruct i_block0; [done | discriminate].
- intros vs Hl. exact (map_nth_seq vs _ Hl).
- done.
Defined.

(** [memset(inode, 0, sizeof(struct ext4_inode))]. *)
Definition zero_inode : ext4_inode := of_bytes (replicate (Z.to_nat (sizeof ext4_inode)) 0).

(** Split members of the inode ([EXT4_INODE_GET_*], [EXT4_INODE_SET_*]). *)
Definition EXT4_INODE_GET_UID (i : ext4_inode) : Z :=
  Z.lor (i_uid i) (Z.shiftl (l_i_uid_high i) 16).
Definition EXT4_INODE_GET_GID (i : ext4_inode) : Z :=
  Z.lor (i_gid i) (Z.shiftl (l_i_gid_high i) 16).
Definition EXT4_INODE_SET_UID (uid : Z) (i : ext4_inode) : ext4_inode :=
  set_l_i_uid_high (Z.land (Z.shiftr uid 16) MASK_16) (set_i_uid (Z.land uid MASK_16) i).
Definition EXT4_INODE_SET_GID (gid : Z) (i : ext4_inode) : ext4_inode :=
  set_l_i_gid_high (Z.land (Z.shiftr gid 16) MASK_16) (set_i_gid (Z.land gid MASK_16) i).

Definition EXT4_INODE_GET_SIZE (i : ext4_inode) : Z :=
  Z.lor (Z.shiftl (i_size_high i) 32) (i_size_lo i).
Definition EXT4_INODE_SET_SIZE (size : Z) (i : ext4_inode) : ext4_inode :=
  set_i_size_high (u32 (Z.land (Z.shiftr (u64 size) 32) MASK_32))
    (set_i_size_lo (Z.land size MASK_32) i).

Definition EXT4_INODE_GET_BLOCKS (i : ext4_inode) : Z :=
  Z.lor (Z.shiftl (l_i_blocks_high i) 32) (i_blocks_lo i).
Definition EXT4_INODE_SET_BLOCKS (blocks : Z) (i : ext4_inode) : ext4_inode :=
  set_l_i_blocks_high (u16 (Z.shiftr (u64 blocks) 32))
    (set_i_blocks_lo (Z.land blocks MASK_32) i).

(** ** Super block and group descriptor macros *)

Definition EXT4_BLOCK_SIZE (sb : ext4_super_block) : Z :=
  u64 (Z.shiftl 1 (u32 (s_log_block_size sb + 10))).
Definition EXT4_DESC_SIZE (sb : ext4_super_block) : Z := s_desc_size sb.
Definition EXT4_S_INODE_SIZE (sb : ext4_super_block) : Z := s_inode_size sb.
Definition EXT4_BLOCKS_PER_GROUP (sb : ext4_super_block) : Z := s_blocks_per_group sb.
Definition EXT4_INODES_PER_GROUP (sb : ext4_super_block) : Z := s_inodes_per_group sb.

Definition EXT4_BLOCK_COUNT (sb : ext4_super_block) : Z :=
  Z.lor (Z.shiftl (s_blocks_count_hi sb) 32) (s_blocks_count_lo sb).
Definition EXT4_N_BLOCK_GROUPS (sb : ext4_super_block) : Z :=
  u64 (EXT4_BLOCK_COUNT sb + EXT4_BLOCKS_PER_GROUP sb - 1) / EXT4_BLOCKS_PER_GROUP sb.

Definition BLOCKS2BYTES (sb : ext4_super_block) (blks : Z) : Z :=
  u64 (u64 blks * EXT4_BLOCK_SIZE sb).
Definition BYTES2BLOCKS (sb : ext4_super_block) (bytes : Z) : Z :=
  bytes / EXT4_BLOCK_SIZE sb + (if bytes mod EXT4_BLOCK_SIZE sb =? 0 then 0 else 1).

Definition ALIGN_TO (n align : Z) : Z :=
  if n mod align =? 0 then n else Z.land n (Z.lnot (align - 1)) + align.
Definition ALIGN_TO_BLOCKSIZE (sb : ext4_super_block) (n : Z) : Z :=
  ALIGN_TO n (EXT4_BLOCK_SIZE sb).

Definition EXT4_DESC_INO_BITMAP (g : ext4_group_desc) : Z :=
  Z.lor (Z.shiftl (bg_inode_bitmap_hi g) 32) (bg_inode_bitmap_lo g).
Definition EXT4_DESC_BLOCK_BITMAP (g : ext4_group_desc) : Z :=
  Z.lor (Z.shiftl (bg_block_bitmap_hi g) 32) (bg_block_bitmap_lo g).
Definition EXT4_DESC_INODE_TABLE (g : ext4_group_desc) : Z :=
  Z.lor (Z.shiftl (bg_inode_table_hi g) 32) (bg_inode_table_lo g).

(** The counters of a descriptor, converted to the [uint32_t] they are
    assigned to. *)
Definition EXT4_GDT_FREE_BLOCKS (g : ext4_group_desc) : Z :=
  u32 (Z.lor (bg_free_blocks_count_lo g) (Z.shiftl (bg_free_blocks_count_hi g) 16)).
Definition EXT4_GDT_FREE_INODES (g : ext4_group_desc) : Z :=
  u32 (Z.lor (bg_free_inodes_count_lo g) (Z.shiftl (bg_free_inodes_count_hi g) 16)).
Definition EXT4_GDT_USED_DIRS (g : ext4_group_desc) : Z :=
  u32 (Z.lor (bg_used_dirs_count_lo g) (Z.shiftl (bg_used_dirs_count_hi g) 16)).
Definition EXT4_GDT_ITABLE_UNUSED (g : ext4_group_desc) : Z :=
  u32 (Z.lor (bg_itable_unused_lo g) (Z.shiftl (bg_itable_unused_hi g) 16)).

Definition EXT4_GDT_DIRTY_FLAG (g : ext4_group_desc) : Z := bg_reserved2_0 g.
Definition EXT4_GDT_SET_CLEAN : ext4_group_desc → ext4_group_desc :=
  set_bg_reserved2_0 EXT4_GDT_CLEAN.
Definition EXT4_GDT_SET_DIRTY : ext4_group_desc → ext4_group_desc :=
  set_bg_reserved2_0 EXT4_GDT_DIRTY.

(** ** Extents *)

Record ext4_extent := mk_extent {
  ee_block : Z; ee_len : Z; ee_start_hi : Z; ee_start_lo : Z
}.

Record ext4_extent_idx := mk_extent_idx {
  ei_block : Z; ei_leaf_lo : Z; ei_leaf_hi : Z; ei_unused : Z
}.

Record ext4_extent_header := mk_extent_header {
  eh_magic : Z; eh_entries : Z; eh_max : Z; eh_depth : Z; eh_generation : Z
}.

#[global, refine] Instance extent_struct : CStruct ext4_extent := {|
  widths := [4; 2; 2; 4]%nat;
  to_fields r := [ee_block r; ee_len r; ee_start_hi r; ee_start_lo r];
  of_fields vs := let v := λ i, nth i vs 0 in
    mk_extent (v 0%nat) (v 1%nat) (v 2%nat) (v 3%nat);
  arrays_ok _ := True;
|}.
Proof.
- by intros [].
- intros vs Hl. exact (map_nth_seq vs _ Hl).
- done.
Defined.

#[global, refine] Instance extent_idx_struct : CStruct ext4_extent_idx := {|
  widths := [4; 4; 2; 2]%nat;
  to_fields r := [ei_block r; ei_leaf_lo r; ei_leaf_hi r; ei_unused r];
  of_fields vs := let v := λ i, nth i vs 0 in
    mk_extent_idx (v 0%nat) (v 1%nat) (v 2%nat) (v 3%nat);
  arrays_ok _ := True;
|}.
Proof.
- by intros [].
- intros vs Hl. exact (map_nth_seq vs _ Hl).
- done.
Defined.

#[global, refine] Instance extent_header_struct : CStruct ext4_extent_header := {|
  widths := [2; 2; 2; 2; 4]%nat;
  to_fields r := [eh_magic r; eh_entries r; eh_max r; eh_depth r; eh_generation r];
  of_fields vs := let v := λ i, nth i vs 0 in
    mk_extent_header (v 0%nat) (v 1%nat) (v 2%nat) (v 3%nat) (v 4%nat);
  arrays_ok _ := True;
|}.
Proof.
- by intros [].
- intros vs Hl. exact (map_nth_seq vs _ Hl).
- done.
Defined.

Definition EXT4_EXT_GET_PADDR (e : ext4_extent) : Z :=
  Z.lor (Z.shiftl (ee_start_hi e) 32) (ee_start_lo e).
Definition EXT4_EXT_SET_PADDR (addr : Z) (e : ext4_extent) : ext4_extent :=
  mk_extent (ee_block e) (ee_len e)
    (Z.land (Z.shiftr addr 32) MASK_16) (Z.land addr MASK_32).
Definition EXT4_EXT_LEAF_ADDR (e : ext4_extent_idx) : Z :=
  Z.lor (Z.shiftl (ei_leaf_hi e) 32) (ei_leaf_lo e).

(** [sizeof(struct ext4_extent_tail)] is 4. *)
Definition EXT4_EXT_EH_MAX (sb : ext4_super_block) : Z :=
  u64 (EXT4_BLOCK_SIZE sb - sizeof ext4_extent_header - 4) / sizeof ext4_extent.

(** ** Directory entries

    An entry is a header of eight bytes and the name; the last twelve bytes
    of a directory block are the tail. *)

Record ext4_dir_entry_2 := mk_dir_entry {
  de_inode_idx : Z; de_rec_len : Z; de_name_len : Z; de_file_type : Z;
  de_name : list Z
}.

Record ext4_dir_entry_tail := mk_dir_entry_tail {
  det_reserved_zero1 : Z; det_rec_len : Z; det_reserved_zero2 : Z;
  det_reserved_ft : Z; det_checksum : Z
}.

#[global, refine] Instance dir_entry_tail_struct : CStruct ext4_dir_entry_tail := {|
  widths := [4; 2; 1; 1; 4]%nat;
  to_fields r := [det_reserved_zero1 r; det_rec_len r; det_reserved_zero2 r;
    det_reserved_ft r; det_checksum r];
  of_fields vs := let v := λ i, nth i vs 0 in
    mk_dir_entry_tail (v 0%nat) (v 1%nat) (v 2%nat) (v 3%nat) (v 4%nat);
  arrays_ok _ := True;
|}.
Proof.
- by intros [].
- intros vs Hl. exact (map_nth_seq vs _ Hl).
- done.
Defined.

(** The tail every writer of a directory block stores. *)
Definition new_tail : ext4_dir_entry_tail :=
  mk_dir_entry_tail 0 EXT4_DE_TAIL_SIZE 0 EXT4_FT_DIR_CSUM 0.

Definition ALIGN_TO_DENTRY (n : Z) : Z := ALIGN_TO n 4.
Definition DE_REAL_REC_LEN (name_len : Z) : Z :=
  u16 (ALIGN_TO_DENTRY (name_len + EXT4_DE_BASE_SIZE)).
Definition DE_CALC_REC_LEN (size : Z) : Z := ALIGN_TO_DENTRY (EXT4_DE_BASE_SIZE + size).

(** ** Lemmas *)

Lemma MASK_16_ones : MASK_16 = Z.ones 16.
Proof. reflexivity. Qed.
Lemma MASK_32_ones : MASK_32 = Z.ones 32.
Proof. reflexivity. Qed.

Lemma land_mask_16 x : Z.land x MASK_16 = x mod 2 ^ 16.
Proof. by apply land_mask. Qed.
Lemma land_mask_32 x : Z.land x MASK_32 = x mod 2 ^ 32.
Proof. by apply land_mask. Qed.

(** Low and high halves stored separately give the value back. *)
Lemma halves_16 x : 0 ≤ x < 2 ^ 32 →
  Z.lor (Z.land x MASK_16) (Z.shiftl (Z.land (Z.shiftr x 16) MASK_16) 16) = x.
Proof.
  intros. rewrite !land_mask_16, Z.shiftr_div_pow2 by lia.
  rewrite lor_shiftl by dlia. rewrite (Z.mod_small (x / 2 ^ 16)) by dlia. apply split_join. lia.
Qed.

Lemma halves_32 x hi : hi = x / 2 ^ 32 →
  Z.lor (Z.shiftl hi 32) (Z.land x MASK_32) = x.
Proof. intros ->. rewrite land_mask_32, lor_shiftl' by dlia. apply split_join. lia. Qed.

Lemma EXT4_BLOCK_SIZE_pow2 sb :
  0 ≤ s_log_block_size sb ≤ 53 → EXT4_BLOCK_SIZE sb = 2 ^ (s_log_block_size sb + 10).
Proof.
  intros. unfold EXT4_BLOCK_SIZE, u32, u64. rewrite (Z.mod_small (_ + 10)) by lia.
  rewrite Z.shiftl_mul_pow2 by lia. rewrite Z.mul_1_l. apply Z.mod_small.
  split; [lia|]. apply Z.pow_lt_mono_r; lia.
Qed.

Lemma land_lnot_ones n k : 0 ≤ k → Z.land n (Z.lnot (Z.ones k)) = n / 2 ^ k * 2 ^ k.
Proof.
  intros. rewrite <- Z.ldiff_land, Z.ldiff_ones_r by done.
  by rewrite Z.shiftl_mul_pow2, Z.shiftr_div_pow2 by done.
Qed.

Lemma ALIGN_TO_pow2 n k : 0 ≤ k → ALIGN_TO n (2 ^ k) = (n + 2 ^ k - 1) / 2 ^ k * 2 ^ k.
Proof.
  intros Hk. unfold ALIGN_TO. pose proof (Z.pow_pos_nonneg 2 k ltac:(lia) Hk).
  replace (2 ^ k - 1) with (Z.ones k) by (rewrite Z.ones_equiv; lia).
  rewrite land_lnot_ones by done.
  pose proof (Z.div_mod n (2 ^ k) ltac:(lia)). pose proof (Z.mod_pos_bound n (2 ^ k) ltac:(lia)).
  destruct (Z.eqb_spec (n mod 2 ^ k) 0).
  - replace (n + 2 ^ k - 1) with (n / 2 ^ k * 2 ^ k + (2 ^ k - 1)) by lia.
    rewrite Z.div_add_l, (Z.div_small (2 ^ k - 1)) by lia. lia.
  - replace (n + 2 ^ k - 1) with ((n / 2 ^ k + 1) * 2 ^ k + (n mod 2 ^ k - 1)) by lia.
    rewrite Z.div_add_l, (Z.div_small (n mod 2 ^ k - 1)) by lia. lia.
Qed.

(** ** Inodes in range

    An inode whose members have the values of their types stays one when a
    member is set. *)

Lemma byte_widths bs : Forall2 in_width (replicate (length bs) 1%nat) bs ↔ Forall byte_ok bs.
Proof.
  induction bs as [|b bs IH]; cbn [length replicate]; [by split; constructor|].
  rewrite Forall2_cons, Forall_cons, IH. done.
Qed.

Lemma inode_ok_iff (i : ext4_inode) :
  struct_ok i ↔
  length (i_block i) = 60%nat ∧ Forall byte_ok (i_block i) ∧
  Forall2 in_width [2; 2; 4; 4; 4; 4; 4; 2; 2; 4; 4; 4]%nat
    [i_mode i; i_uid i; i_size_lo i; i_atime i; i_ctime i; i_mtime i; i_dtime i; i_gid i;
     i_links_count i; i_blocks_lo i; i_flags i; l_i_version i] ∧
  Forall2 in_width [4; 4; 4; 4; 2; 2; 2; 2; 2; 2; 2; 2; 4; 4; 4; 4; 4; 4; 4]%nat
    [i_generation i; i_file_acl_lo i; i_size_high i; i_obso_faddr i; l_i_blocks_high i;
     l_i_file_acl_high i; l_i_uid_high i; l_i_gid_high i; l_i_checksum_lo i; l_i_reserved i;
     i_extra_isize i; i_checksum_hi i; i_ctime_extra i; i_mtime_extra i; i_atime_extra i;
     i_crtime i; i_crtime_extra i; i_version_hi i; i_projid i].
Proof.
  unfold struct_ok. cbn [arrays_ok inode_struct to_fields]. rewrite <- byte_widths.
  unfold widths, inode_struct. split.
  - intros (Hl & H). apply Forall2_app_inv in H as [H1 H]; [|done].
    apply Forall2_app_inv in H as [H2 H3]; [|by rewrite length_replicate]. by rewrite Hl.
  - intros (Hl & H2 & H1 & H3). rewrite Hl in H2. split; [done|]. by repeat apply Forall2_app.
Qed.

Lemma u16_width v : in_width 2 (u16 v).
Proof. apply Z.mod_pos_bound. lia. Qed.
Lemma u32_width v : in_width 4 (u32 v).
Proof. apply Z.mod_pos_bound. lia. Qed.
Lemma mask16_width v : in_width 2 (Z.land v MASK_16).
Proof. change MASK_16 with (Z.ones 16). rewrite Z.land_ones by lia. apply Z.mod_pos_bound. lia. Qed.
Lemma mask32_width v : in_width 4 (Z.land v MASK_32).
Proof. change MASK_32 with (Z.ones 32). rewrite Z.land_ones by lia. apply Z.mod_pos_bound. lia. Qed.

Create HintDb inode_ok.
#[export] Hint Resolve u16_width u32_width mask16_width mask32_width : inode_ok.

(** [struct_ok] of an inode with a member set. *)
Ltac solve_inode_ok :=
  match goal with H : struct_ok _ |- _ =>
    apply inode_ok_iff in H as (? & ? & ? & ?); apply inode_ok_iff; cbn;
    repeat match goal with F : Forall2 _ (_ :: _) (_ :: _) |- _ => apply Forall2_cons in F as [? F] end;
    split_and!; repeat (apply Forall2_cons; split); auto with inode_ok
  end.

Section setters.
Context (i : ext4_inode) (Hi : struct_ok i).
Lemma set_i_mode_ok v : struct_ok (set_i_mode (u16 v) i).
Proof. solve_inode_ok. Qed.
Lemma set_i_links_count_ok v : in_width 2 v → struct_ok (set_i_links_count v i).
Proof. intros Hv. solve_inode_ok. Qed.
Lemma set_i_atime_ok v : struct_ok (set_i_atime (u32 v) i).
Proof. solve_inode_ok. Qed.
Lemma set_i_mtime_ok v : struct_ok (set_i_mtime (u32 v) i).
Proof. solve_inode_ok. Qed.
Lemma set_i_ctime_ok v : struct_ok (set_i_ctime (u32 v) i).
Proof. solve_inode_ok. Qed.
Lemma set_i_flags_ok v : in_width 4 v → struct_ok (set_i_flags v i).
Proof. intros Hv. solve_inode_ok. Qed.
Lemma SET_UID_ok v : struct_ok (EXT4_INODE_SET_UID v i).
Proof. solve_inode_ok. Qed.
Lemma SET_GID_ok v : struct_ok (EXT4_INODE_SET_GID v i).
Proof. solve_inode_ok. Qed.
Lemma SET_SIZE_ok v : struct_ok (EXT4_INODE_SET_SIZE v i).
Proof. solve_inode_ok. Qed.
Lemma SET_BLOCKS_ok v : struct_ok (EXT4_INODE_SET_BLOCKS v i).
Proof. solve_inode_ok. Qed.
Lemma set_i_block_ok b : zlen b = 60 → Forall byte_ok b → struct_ok (set_i_block b i).
Proof. intros Hl Hb. unfold zlen in Hl. solve_inode_ok. lia. Qed.
End setters.
#[export] Hint Resolve set_i_mode_ok set_i_links_count_ok set_i_atime_ok set_i_mtime_ok set_i_ctime_ok
  set_i_flags_ok SET_UID_ok SET_GID_ok SET_SIZE_ok SET_BLOCKS_ok set_i_block_ok : inode_ok.

Lemma zero_inode_ok : struct_ok zero_inode.
Proof. apply of_bytes_ok; [done|]. apply Forall_replicate. unfold byte_ok. lia. Qed.
#[export] Hint Resolve zero_inode_ok : inode_ok.

(** ** Properties *)

(** An inode, a group descriptor and a super block survive the trip to
    the disk: for member values of the member types, the structure read back
    from the written bytes is the one written; and writing back a structure
    read from the disk leaves the bytes of the disk as they were. *)
Lemma structs_roundtrip
    (i : ext4_inode) (g : ext4_group_desc) (s : ext4_super_block) (bs : list Z)
    (Hi : struct_ok i) (Hg : struct_ok g) (Hs : struct_ok s) (Hb : Forall byte_ok bs) :
  (of_bytes (bytes_of i) = i ∧ of_bytes (bytes_of g) = g ∧ of_bytes (bytes_of s) = s) ∧
  (zlen bs = 160 → bytes_of (of_bytes bs : ext4_inode) = bs) ∧
  (zlen bs = 64 → bytes_of (of_bytes bs : ext4_group_desc) = bs) ∧
  (zlen bs = 1024 → bytes_of (of_bytes bs : ext4_super_block) = bs).
Proof.
  repeat split; intros; first [by apply of_bytes_of | by apply bytes_of_of].
Qed.

(** The split members of an inode are faithful at their widths: owner,
    group (32 bits), size (64 bits) and block count (48 bits) read back as
    set, and setting one does not disturb another. *)
Lemma inode_split_members (i : ext4_inode) (uid gid size blocks : Z)
    (Hu : 0 ≤ uid < 2 ^ 32) (Hg : 0 ≤ gid < 2 ^ 32) (Hs : 0 ≤ size < 2 ^ 64)
    (Hb : 0 ≤ blocks < 2 ^ 48) :
  let i' := EXT4_INODE_SET_BLOCKS blocks (EXT4_INODE_SET_SIZE size
              (EXT4_INODE_SET_GID gid (EXT4_INODE_SET_UID uid i))) in
  EXT4_INODE_GET_UID i' = uid ∧ EXT4_INODE_GET_GID i' = gid ∧
  EXT4_INODE_GET_SIZE i' = size ∧ EXT4_INODE_GET_BLOCKS i' = blocks ∧
  i_mode i' = i_mode i ∧ i_links_count i' = i_links_count i ∧
  i_flags i' = i_flags i ∧ i_block i' = i_block i.
Proof.
  cbv zeta.
  unfold EXT4_INODE_GET_UID, EXT4_INODE_GET_GID, EXT4_INODE_GET_SIZE, EXT4_INODE_GET_BLOCKS.
  cbn. repeat split; try by apply halves_16.
  - apply halves_32. unfold u32, u64. rewrite (Z.mod_small size), Z.shiftr_div_pow2 by lia.
    rewrite land_mask_32. rewrite !Z.mod_small by dlia. done.
  - apply halves_32. unfold u16, u64. rewrite (Z.mod_small blocks), Z.shiftr_div_pow2 by lia.
    rewrite Z.mod_small by dlia. done.
Qed.

Lemma GET_SET_SIZE size i : 0 ≤ size < 2 ^ 64 → EXT4_INODE_GET_SIZE (EXT4_INODE_SET_SIZE size i) = size.
Proof. intros Hs. by destruct (inode_split_members i 0 0 size 0) as (_ & _ & ? & _). Qed.

(** [ALIGN_TO] with a power of two rounds up: the result is the least
    multiple of the alignment that is not below the argument; so a block size
    [2^k] (every [EXT4_BLOCK_SIZE]) aligns as intended. *)
Lemma ALIGN_TO_least_multiple (n k : Z) (Hk : 0 ≤ k) :
  (2 ^ k | ALIGN_TO n (2 ^ k)) ∧ n ≤ ALIGN_TO n (2 ^ k) < n + 2 ^ k ∧
  (∀ m, n ≤ m → (2 ^ k | m) → ALIGN_TO n (2 ^ k) ≤ m).
Proof.
  rewrite ALIGN_TO_pow2 by done. pose proof (Z.pow_pos_nonneg 2 k ltac:(lia) Hk).
  pose proof (Z.div_mod (n + 2 ^ k - 1) (2 ^ k) ltac:(lia)).
  pose proof (Z.mod_pos_bound (n + 2 ^ k - 1) (2 ^ k) ltac:(lia)).
  generalize dependent (2 ^ k). intros p Hp Hd Hr.
  split_and!; [by eexists | nia | nia |]. intros m Hm [q ->].
  apply Z.mul_le_mono_nonneg_r; [lia|]. apply Z.lt_succ_r, Z.div_lt_upper_bound; nia.
Qed.
