(* ===== verification/Disk.v ===== *)
(** * The disk image

    [src/src/disk.c]: positioned reads and writes of the image file behind
    [disk_fd].  The image is a byte map with a size; bytes never written are
    zero (the image is made by [dd if=/dev/zero]).  [pread] past the end of
    the file is short, [pwrite] past it extends the file; both fail on a
    negative offset.  The mutexes serialise whole calls and are not modelled
    beyond that; logging has no effect on the state. *)

From S2P Require Import Prelude Ext4.
From stdpp Require Import base numbers list gmap.
From Stdlib Require Import ZArith Lia.

Open Scope Z_scope.
Open Scope kfs_scope.

(** ** Data *)

Record disk_t := mk_disk {
  disk_fd : Z;
  disk_bytes : gmap Z Z;
  disk_len : Z
}.

Record disk_ctx := mk_disk_ctx {
  ctx_cur : Z;   (** current offset *)
  ctx_size : Z   (** how much to read *)
}.

(** ** Operations *)

Fixpoint read_bytes (m : gmap Z Z) (a : Z) (n : nat) : list Z :=
  match n with
  | O => []
  | S n => default 0 (m !! a) :: read_bytes m (a + 1) n
  end.

Fixpoint write_bytes (m : gmap Z Z) (a : Z) (bs : list Z) : gmap Z Z :=
  match bs with
  | [] => m
  | b :: bs => write_bytes (<[a := b]> m) (a + 1) bs
  end.

(** What one call of [pread(2)] or [pwrite(2)] transfers at most on Linux. *)
Definition MAX_RW_COUNT : Z := 0x7ffff000.

(** [pread(2)]: the count (-1 on error) and the bytes. *)
Definition pread (d : disk_t) (size where_ : Z) : Z * list Z :=
  if where_ <? 0 then (-1, [])
  else
    let n := Z.max 0 (Z.min (Z.min size MAX_RW_COUNT) (disk_len d - where_)) in
    (n, read_bytes (disk_bytes d) where_ (Z.to_nat n)).

(** The file after a write, which extends it when it ends past the end. *)
Definition file_write (d : disk_t) (where_ : Z) (bs : list Z) : disk_t :=
  mk_disk (disk_fd d) (write_bytes (disk_bytes d) where_ bs)
    (if zlen bs =? 0 then disk_len d else Z.max (disk_len d) (where_ + zlen bs)).

(** What the kernel takes of a longer write. *)
Definition short_write (d : disk_t) (where_ : Z) (bs : list Z) : disk_t :=
  file_write d where_ (take (Z.to_nat MAX_RW_COUNT) bs).
Arguments short_write : simpl never.

(** [pwrite(2)] on a regular file. *)
Definition pwrite (d : disk_t) (bs : list Z) (where_ : Z) : Z * disk_t :=
  if where_ <? 0 then (-1, d)
  else if zlen bs <=? MAX_RW_COUNT then (zlen bs, file_write d where_ bs)
  else (MAX_RW_COUNT, short_write d where_ bs).

(** The result of [pread] goes through an [int]. *)
Definition pread_wrapper (d : disk_t) (size where_ : Z) : Z * list Z :=
  let '(ret, bs) := pread d size where_ in (s32 ret, bs).

(** [open(path, O_RDWR)] gave [fd]; [errno_] is meaningful when [fd < 0]. *)
Definition disk_open (fd errno_ : Z) (d : disk_t) : Z * disk_t :=
  (if fd <? 0 then - errno_ else 0, mk_disk fd (disk_bytes d) (disk_len d)).

(** [fstat] on the open image gives its size. *)
Definition disk_size (d : disk_t) : Z :=
  if disk_fd d <? 0 then 0 else u64 (disk_len d).

(** Returns the bytes read; the C return value is their number, [size]. *)
Definition disk_read (d : disk_t) (where_ size : Z) : outcome (list Z) :=
  ASSERT (0 <=? disk_fd d) ;;
  let '(pread_ret, bs) := pread_wrapper d size (s64 where_) in
  ASSERT (u64 pread_ret =? size) ;;
  Ok bs.

Definition disk_write (d : disk_t) (where_ : Z) (bs : list Z) : outcome disk_t :=
  ASSERT (0 <=? disk_fd d) ;;
  let '(pwrite_ret, d') := pwrite d bs (s64 where_) in
  ASSERT (u64 pwrite_ret =? zlen bs) ;;
  Ok d'.

Definition disk_read_block (sb : ext4_super_block) (d : disk_t) (block : Z) : outcome (list Z) :=
  disk_read d (BLOCKS2BYTES sb block) (EXT4_BLOCK_SIZE sb).

Definition disk_write_block (sb : ext4_super_block) (d : disk_t) (block : Z) (bs : list Z) :
    outcome disk_t :=
  bs ← buf_read bs 0 (EXT4_BLOCK_SIZE sb);
  disk_write d (BLOCKS2BYTES sb block) bs.

Definition disk_read_u32 (d : disk_t) (where_ : Z) : outcome Z :=
  bs ← disk_read d where_ 4; Ok (le_val bs).

Definition disk_ctx_create (where_ size len : Z) : outcome disk_ctx :=
  ASSERT (negb (size =? 0)) ;;
  Ok (mk_disk_ctx (s64 where_) (u64 (size * len))).

(** The test for an empty context after the assertion that excludes it is
    kept as in the source. *)
Definition disk_ctx_read (d : disk_t) (c : disk_ctx) (size : Z) :
    outcome (Z * list Z * disk_ctx) :=
  ASSERT (negb (ctx_size c =? 0)) ;;
  if ctx_size c =? 0 then Ok (0, [], c)
  else
    let size := if ctx_size c <? size then ctx_size c else size in
    bs ← disk_read d (ctx_cur c) size;
    let ret := zlen bs in
    Ok (ret, bs, mk_disk_ctx (s64 (ctx_cur c + ret)) (u64 (ctx_size c - ret))).

(** ** Lemmas *)

Lemma MAX_RW_COUNT_eq : MAX_RW_COUNT = 2147479552.
Proof. done. Qed.
#[local] Opaque MAX_RW_COUNT.

Lemma length_read_bytes m a n : length (read_bytes m a n) = n.
Proof. revert a; induction n; simpl; auto. Qed.

Lemma write_bytes_lookup_out m a bs x :
  x < a ∨ a + zlen bs ≤ x → write_bytes m a bs !! x = m !! x.
Proof.
  unfold zlen. revert m a. induction bs as [|b bs IH]; intros m a Hx; simpl; [done|].
  cbn [length] in Hx. rewrite IH by lia. by rewrite lookup_insert_ne by lia.
Qed.

Lemma write_bytes_lookup_in m a bs i b :
  bs !! i = Some b → write_bytes m a bs !! (a + Z.of_nat i) = Some b.
Proof.
  revert m a i. induction bs as [|b' bs IH]; intros m a [|i]; simpl; try done.
  - intros [= <-]. rewrite write_bytes_lookup_out by lia.
    rewrite Z.add_0_r. apply lookup_insert_eq.
  - intros Hi. rewrite <- (IH (<[a:=b']> m) (a + 1) i Hi). f_equal. lia.
Qed.

Lemma read_bytes_ext m m' a n :
  (∀ x, a ≤ x < a + Z.of_nat n → m !! x = m' !! x) → read_bytes m a n = read_bytes m' a n.
Proof.
  revert a. induction n as [|n IH]; intros a Hx; simpl; [done|].
  rewrite (Hx a) by lia. f_equal. apply IH. intros; apply Hx; lia.
Qed.

Lemma read_write_bytes_same m a bs : read_bytes (write_bytes m a bs) a (length bs) = bs.
Proof.
  revert m a. induction bs as [|b bs IH]; intros m a; simpl; [done|].
  rewrite IH, write_bytes_lookup_out by lia. by rewrite lookup_insert_eq.
Qed.

Lemma read_write_bytes_disjoint m a bs a' n :
  a' + Z.of_nat n ≤ a ∨ a + zlen bs ≤ a' →
  read_bytes (write_bytes m a bs) a' n = read_bytes m a' n.
Proof. intros. apply read_bytes_ext. intros x ?. apply write_bytes_lookup_out. lia. Qed.

Lemma read_bytes_app m a n k :
  read_bytes m a (n + k) = read_bytes m a n ++ read_bytes m (a + Z.of_nat n) k.
Proof.
  revert a. induction n as [|n IH]; intros a; cbn [read_bytes app Nat.add].
  - f_equal. lia.
  - rewrite IH. do 3 f_equal. lia.
Qed.

Lemma write_bytes_app m a b1 b2 :
  write_bytes m a (b1 ++ b2) = write_bytes (write_bytes m a b1) (a + zlen b1) b2.
Proof.
  unfold zlen. revert m a. induction b1 as [|b b1 IH]; intros m a; cbn [write_bytes app length].
  - f_equal. lia.
  - rewrite IH. f_equal. lia.
Qed.

Lemma s64_small x : 0 ≤ x < 2 ^ 63 → s64 x = x.
Proof.
  intros. unfold s64. rewrite Z.mod_small by lia. destruct (Z.ltb_spec x (2 ^ 63)); lia.
Qed.

Lemma s32_small x : 0 ≤ x < 2 ^ 31 → s32 x = x.
Proof.
  intros. unfold s32. rewrite Z.mod_small by lia. destruct (Z.ltb_spec x (2 ^ 31)); lia.
Qed.

(** A read inside the image returns its bytes. *)
Lemma disk_read_Ok d a n :
  0 ≤ disk_fd d → 0 ≤ a < 2 ^ 63 → 0 ≤ n ≤ MAX_RW_COUNT → a + n ≤ disk_len d →
  disk_read d a n = Ok (read_bytes (disk_bytes d) a (Z.to_nat n)).
Proof.
  pose proof MAX_RW_COUNT_eq. intros. unfold disk_read, pread_wrapper, pread.
  rewrite s64_small by lia.
  rewrite (proj2 (Z.leb_le 0 _)) by lia. cbn.
  destruct (Z.ltb_spec a 0); [lia|].
  rewrite (Z.min_l n), Z.min_l, Z.max_r by lia.
  rewrite s32_small by lia. unfold u64. rewrite Z.mod_small by lia. by rewrite Z.eqb_refl.
Qed.

Lemma s32_range x : - 2 ^ 31 ≤ s32 x < 2 ^ 31.
Proof.
  unfold s32. pose proof (Z.mod_pos_bound x (2 ^ 32) ltac:(lia)).
  destruct (Z.ltb_spec (x mod 2 ^ 32) (2 ^ 31)); lia.
Qed.

(** What a read that returned tells. *)
Lemma disk_read_inv d a n bs :
  0 ≤ n < 2 ^ 63 → disk_read d a n = Ok bs →
  0 ≤ disk_fd d ∧ n ≤ MAX_RW_COUNT ∧ 0 ≤ s64 a ∧ (0 < n → s64 a + n ≤ disk_len d) ∧
  bs = read_bytes (disk_bytes d) (s64 a) (Z.to_nat n).
Proof.
  intros Hn. unfold disk_read, pread_wrapper, pread. intros H. inv_ok.
  apply Z.leb_le in H0. destruct (Z.ltb_spec (s64 a) 0).
  - apply bind_Ok_inv in H as (? & Ha%ASSERT_Ok_inv & _).
    change (u64 (s32 (-1))) with (2 ^ 64 - 1) in Ha. lia.
  - apply bind_Ok_inv in H as (? & Ha%ASSERT_Ok_inv & [= <-]). apply Z.eqb_eq in Ha.
    pose proof MAX_RW_COUNT_eq. set (m := Z.max 0 _) in *.
    pose proof (s32_range m). unfold u64 in Ha.
    destruct (decide (s32 m < 0)).
    + rewrite <- (Z_mod_plus_full _ 1), Z.mod_small in Ha by lia. lia.
    + rewrite Z.mod_small in Ha by lia.
      rewrite s32_small in Ha by lia.
      split_and!; try lia. by rewrite Ha.
Qed.

(** A read of more than one [pread] can give fails the assertion. *)
Lemma disk_read_huge d a n : 0 ≤ disk_fd d → 0 ≤ a < 2 ^ 63 → MAX_RW_COUNT < n →
  disk_read d a n = Fault AssertFail.
Proof.
  pose proof MAX_RW_COUNT_eq. intros. unfold disk_read, pread_wrapper, pread.
  rewrite s64_small by lia. rewrite (proj2 (Z.leb_le 0 _)) by lia. cbn.
  destruct (Z.ltb_spec a 0); [lia|]. set (m := Z.max 0 _).
  assert (0 ≤ m ≤ MAX_RW_COUNT) by lia. rewrite s32_small by lia. unfold u64. rewrite Z.mod_small by lia.
  by destruct (Z.eqb_spec m n); [lia|].
Qed.

Lemma disk_write_Ok d a bs :
  0 ≤ disk_fd d → 0 ≤ a < 2 ^ 63 → zlen bs ≤ MAX_RW_COUNT →
  disk_write d a bs = Ok (file_write d a bs).
Proof.
  intros ? ? Hl. pose proof MAX_RW_COUNT_eq. unfold disk_write, pwrite. rewrite s64_small by lia.
  rewrite (proj2 (Z.leb_le 0 _)) by lia. cbn. destruct (Z.ltb_spec a 0); [lia|].
  rewrite (proj2 (Z.leb_le (zlen bs) _)) by done. pose proof (zlen_nonneg bs). unfold u64. rewrite Z.mod_small by lia. by rewrite Z.eqb_refl.
Qed.

Lemma disk_write_inv d a bs d' :
  zlen bs < 2 ^ 63 → disk_write d a bs = Ok d' →
  0 ≤ disk_fd d ∧ 0 ≤ s64 a ∧ zlen bs ≤ MAX_RW_COUNT ∧ d' = file_write d (s64 a) bs.
Proof.
  intros Hl. unfold disk_write, pwrite. intros H. inv_ok. apply Z.leb_le in H0.
  destruct (Z.ltb_spec (s64 a) 0).
  - apply bind_Ok_inv in H as (? & Ha%ASSERT_Ok_inv & _).
    change (u64 (-1)) with (2 ^ 64 - 1) in Ha. lia.
  - destruct (Z.leb_spec (zlen bs) MAX_RW_COUNT) as [Hm|Hm];
      apply bind_Ok_inv in H as (? & Ha%ASSERT_Ok_inv & [= <-]); [done|].
    rewrite MAX_RW_COUNT_eq in *. change (u64 2147479552) with 2147479552 in Ha. lia.
Qed.

Lemma disk_write_fd d a bs d' :
  zlen bs < 2 ^ 63 → disk_write d a bs = Ok d' →
  disk_fd d' = disk_fd d ∧ disk_len d ≤ disk_len d'.
Proof.
  intros Hl (? & ? & ? & ->)%disk_write_inv; [|done]. cbn. split; [done|].
  destruct (zlen bs =? 0); lia.
Qed.

(** A read returns the bytes of the last write to the same place. *)
Lemma disk_read_write_same d a bs d' :
  zlen bs < 2 ^ 63 → disk_write d a bs = Ok d' → disk_read d' a (zlen bs) = Ok bs.
Proof.
  intros Hl Hw. pose proof (zlen_nonneg bs).
  apply disk_write_inv in Hw as (? & Ha & Hm & ->); [|lia]. pose proof MAX_RW_COUNT_eq.
  unfold disk_read, pread_wrapper, pread, file_write;
    cbn [disk_fd disk_bytes disk_len].
  rewrite (proj2 (Z.leb_le 0 _)) by lia. cbn. destruct (Z.ltb_spec (s64 a) 0); [lia|].
  match goal with |- context [Z.max 0 ?m] =>
    replace (Z.max 0 m) with (zlen bs) by (destruct (Z.eqb_spec (zlen bs) 0); lia) end.
  rewrite s32_small by lia. unfold u64. rewrite Z.mod_small by lia. rewrite Z.eqb_refl.
  cbn. unfold zlen. by rewrite Nat2Z.id, read_write_bytes_same.
Qed.

(** A write changes no read beside it. *)
Lemma disk_read_write_disjoint d a bs d' a' n bs' :
  zlen bs < 2 ^ 63 → 0 ≤ n < 2 ^ 63 →
  disk_write d a bs = Ok d' → disk_read d a' n = Ok bs' →
  s64 a' + n ≤ s64 a ∨ s64 a + zlen bs ≤ s64 a' →
  disk_read d' a' n = Ok bs'.
Proof.
  intros Hl Hn Hw Hr Hd. pose proof (disk_write_fd _ _ _ _ Hl Hw) as [Hfd Hlen].
  apply disk_write_inv in Hw as (? & Ha & Hm & ->); [|lia].
  apply disk_read_inv in Hr as (? & ? & ? & Hin & ->); [|lia].
  unfold disk_read, pread_wrapper. rewrite Hfd.
  rewrite (proj2 (Z.leb_le 0 _)) by lia. cbn. unfold pread.
  destruct (Z.ltb_spec (s64 a') 0); [lia|].
  pose proof MAX_RW_COUNT_eq. match goal with |- context [Z.max 0 ?m] =>
    replace (Z.max 0 m) with n by (destruct (decide (n = 0)); lia) end.
  rewrite s32_small by lia. unfold u64. rewrite Z.mod_small by lia. rewrite Z.eqb_refl.
  cbn. f_equal.
  apply read_write_bytes_disjoint. lia.
Qed.

Lemma zlen_disk_read d a n bs : 0 ≤ n < 2 ^ 63 → disk_read d a n = Ok bs → zlen bs = n.
Proof.
  intros ? (? & ? & ? & ? & ->)%disk_read_inv; [|done].
  unfold zlen. rewrite length_read_bytes. lia.
Qed.

(** Every byte of the image is a byte. *)
Definition disk_bytes_ok (d : disk_t) : Prop :=
  ∀ a b, disk_bytes d !! a = Some b → byte_ok b.

Lemma read_bytes_ok m a n :
  (∀ a b, m !! a = Some b → byte_ok b) → Forall byte_ok (read_bytes m a n).
Proof.
  intros Hm. revert a; induction n; intros a; simpl; constructor; auto.
  destruct (m !! a) eqn:E; simpl; [eauto|]. unfold byte_ok. lia.
Qed.

Lemma disk_read_bytes_ok d a n bs :
  disk_bytes_ok d → 0 ≤ n < 2 ^ 63 → disk_read d a n = Ok bs → Forall byte_ok bs.
Proof. intros ?? (?&?&?&?&->)%disk_read_inv; [|done]. by apply read_bytes_ok. Qed.

Lemma write_bytes_ok m a bs :
  (∀ a b, m !! a = Some b → byte_ok b) → Forall byte_ok bs →
  ∀ a' b, write_bytes m a bs !! a' = Some b → byte_ok b.
Proof.
  intros Hm Hb. revert m a Hm. induction Hb as [|b bs Hb _ IH]; intros m a Hm; simpl; [done|].
  apply IH. intros a' b'. rewrite lookup_insert. case_decide; naive_solver.
Qed.

Lemma disk_write_bytes_ok d a bs d' :
  zlen bs < 2 ^ 63 → disk_bytes_ok d → Forall byte_ok bs →
  disk_write d a bs = Ok d' → disk_bytes_ok d'.
Proof.
  intros Hl Hd Hb (?&?&?&->)%disk_write_inv; [|done]. intros x y. by apply write_bytes_ok.
Qed.

(** ** Regions of the image *)

(** An open image of bytes. *)
Record disk_ready (d : disk_t) : Prop := mk_disk_ready {
  dr_fd : 0 ≤ disk_fd d;
  dr_len : disk_len d < 2 ^ 63;
  dr_bytes : disk_bytes_ok d
}.

(** The image has the bytes [bs] at [a]. *)
Definition holds (d : disk_t) (a : Z) (bs : list Z) : Prop :=
  read_bytes (disk_bytes d) a (length bs) = bs.

(** [d'] is [d] but for the [n] bytes at [a]. *)
Definition wrote (d d' : disk_t) (a n : Z) : Prop :=
  disk_fd d' = disk_fd d ∧ disk_len d' = disk_len d ∧
  ∀ x, x < a ∨ a + n ≤ x → disk_bytes d' !! x = disk_bytes d !! x.

Lemma disk_write_run d a bs : disk_ready d → 0 ≤ a → a + zlen bs ≤ disk_len d → zlen bs ≤ MAX_RW_COUNT →
  Forall byte_ok bs →
  ∃ d', disk_write d a bs = Ok d' ∧ disk_ready d' ∧ wrote d d' a (zlen bs) ∧ holds d' a bs.
Proof.
  intros [Hfd Hlen Hb] Ha Hl Hmax Hbs. pose proof (zlen_nonneg bs).
  rewrite disk_write_Ok by lia. eexists; split; [done|].
  assert (disk_len (file_write d a bs) = disk_len d) as HL.
  { unfold file_write. cbn. destruct (Z.eqb_spec (zlen bs) 0); lia. }
  split; [|split].
  - split; [done | by rewrite HL|]. intros x y. cbn. by apply write_bytes_ok.
  - split; [done|]. split; [done|]. intros x Hx. cbn. apply write_bytes_lookup_out. lia.
  - unfold holds. cbn. apply read_write_bytes_same.
Qed.

Lemma holds_lookup d a bs : holds d a bs ↔ ∀ i b, bs !! i = Some b → default 0 (disk_bytes d !! (a + Z.of_nat i)) = b.
Proof.
  unfold holds. revert a. induction bs as [|b bs IH]; intros a; cbn [length read_bytes]; [done|]. split.
  - intros [= Hb Hbs] [|i] x Hx; cbn in Hx.
    + injection Hx as <-. by rewrite Z.add_0_r.
    + rewrite <- (proj1 (IH (a + 1)) Hbs i x Hx). do 2 f_equal. lia.
  - intros Hall. f_equal.
    + by rewrite <- (Hall 0%nat b eq_refl), Z.add_0_r.
    + apply IH. intros i x Hx. rewrite <- (Hall (S i) x Hx). do 2 f_equal. lia.
Qed.

Lemma wrote_holds d d' a n b bs : wrote d d' a n → b + zlen bs ≤ a ∨ a + n ≤ b → holds d b bs → holds d' b bs.
Proof.
  intros (_ & _ & Hw) Hd Hh. rewrite holds_lookup in *. intros i x Hx. apply lookup_lt_Some in Hx as Hi.
  rewrite Hw; [by apply Hh|]. unfold zlen in Hd. lia.
Qed.

Lemma wrote_trans d1 d2 d3 a n a' n' lo hi : wrote d1 d2 a n → wrote d2 d3 a' n' →
  lo ≤ a → a + n ≤ hi → lo ≤ a' → a' + n' ≤ hi → wrote d1 d3 lo (hi - lo).
Proof.
  intros (? & ? & H1) (? & ? & H2) ? ? ? ?. split; [congruence|]. split; [congruence|].
  intros x Hx. rewrite H2, H1 by lia. done.
Qed.

Lemma holds_app d a bs1 bs2 : holds d a (bs1 ++ bs2) ↔ holds d a bs1 ∧ holds d (a + zlen bs1) bs2.
Proof.
  rewrite !holds_lookup. unfold zlen. split.
  - intros H. split; intros i b Hi.
    + apply H. by apply lookup_app_l_Some.
    + rewrite <- Z.add_assoc, <- Nat2Z.inj_add. apply H. rewrite lookup_app_r by lia.
      by rewrite Nat.add_comm, Nat.add_sub.
  - intros [H1 H2] i b [Hi|[Hl Hi]]%lookup_app_Some; [by apply H1|].
    rewrite <- (H2 _ _ Hi). do 2 f_equal. lia.
Qed.

Lemma holds_read d a bs : disk_ready d → holds d a bs → 0 ≤ a → a + zlen bs ≤ disk_len d →
  zlen bs ≤ MAX_RW_COUNT → disk_read d a (zlen bs) = Ok bs.
Proof.
  intros [] Hh ? ? ?. pose proof (zlen_nonneg bs). rewrite disk_read_Ok by lia. unfold zlen. rewrite Nat2Z.id.
  by rewrite Hh.
Qed.

(** ** Properties *)

(** The image is a memory: after [disk_write] of some bytes at an offset, [disk_read] of that range returns exactly those bytes, and
    every read that succeeded before and does not overlap the range still
    succeeds with the same bytes. *)
Lemma disk_write_read (d d' : disk_t) (a a' n : Z) (bs bs' : list Z)
    (Hl : zlen bs < 2 ^ 63) (Hn : 0 ≤ n < 2 ^ 63)
    (Hw : disk_write d a bs = Ok d') (Hr : disk_read d a' n = Ok bs')
    (Hd : s64 a' + n ≤ s64 a ∨ s64 a + zlen bs ≤ s64 a') :
  disk_read d' a (zlen bs) = Ok bs ∧ disk_read d' a' n = Ok bs'.
Proof.
  split; [by eapply disk_read_write_same|].
  eapply disk_read_write_disjoint; [| | done..]; lia.
Qed.

Definition test_disk : disk_t := mk_disk 3 ∅ 4096.

(** [disk_ctx_read] reads its range to the end in order: a read of a
    positive size from a non-empty context returns the next bytes of the
    image, never more than the context has left, and leaves the context at
    the following byte with the rest. *)
Lemma disk_ctx_read_advances (d : disk_t) (c : disk_ctx) (size : Z)
    (Hfd : 0 ≤ disk_fd d) (Hc : 0 ≤ ctx_cur c) (Hs : 0 < ctx_size c ≤ MAX_RW_COUNT)
    (Hin : ctx_cur c + ctx_size c ≤ disk_len d < 2 ^ 62) (Hsz : 0 < size < 2 ^ 64) :
  let n := Z.min size (ctx_size c) in
  disk_ctx_read d c size =
    Ok (n, read_bytes (disk_bytes d) (ctx_cur c) (Z.to_nat n),
        mk_disk_ctx (ctx_cur c + n) (ctx_size c - n)).
Proof.
  pose proof MAX_RW_COUNT_eq. cbv zeta. unfold disk_ctx_read.
  destruct (Z.eqb_spec (ctx_size c) 0); [lia|]. cbn.
  replace (if ctx_size c <? size then ctx_size c else size) with (Z.min size (ctx_size c))
    by (destruct (Z.ltb_spec (ctx_size c) size); lia).
  rewrite disk_read_Ok by lia. cbn. unfold zlen. rewrite length_read_bytes, Z2Nat.id by lia.
  rewrite s64_small by lia. unfold u64. by rewrite Z.mod_small by lia.
Qed.
