(* ===== verification/Bitmap.v ===== *)
(** * Inode and block bitmaps

    [src/src/bitmap.c], [src/src/bitmap.h] and the bit macros of
    [src/src/ext4/ext4.h]: one bit per inode, one bit per block, a bitmap per
    block group.  Data blocks are handed out in aligned clusters of
    [EXT4_INODE_PBLOCK_NUM] = 4 blocks (half a byte of the bitmap).

    The functions below take the super block and the bitmap they work on
    (globals [sb], [i_bitmap], [d_bitmap], [gdt] of the program) and return
    the new one.  A super block with zero inodes or blocks per group makes the
    C divide by zero; the theorems assume both positive. *)

From S2P Require Import Prelude Ext4 Disk.
From stdpp Require Import base numbers list gmap.
From Stdlib Require Import ZArith Lia.

Open Scope Z_scope.
Open Scope kfs_scope.

(** ** Data *)

Record bitmap_group := mk_bitmap_group {
  bg_bitmap : list Z;  (** bitmap of each block group *)
  bg_off : Z;          (** offset of each block group *)
  bg_status : Z        (** 0: valid, 1: dirty *)
}.

Record bitmap := mk_bitmap {
  bm_group : list bitmap_group;
  bm_group_num : Z
}.

Record pblock_range := mk_pblock_range {
  pr_pblock : Z;  (** start of pblock *)
  pr_len : Z      (** length of pblock *)
}.

Definition BITMAP_S_VALID : Z := 0.
Definition BITMAP_S_DIRTY : Z := 1.

(** ** Bits *)

(** True when the bit is 0. *)
Definition BIT1 (bm : list Z) (n : Z) : outcome bool :=
  b ← arr_get bm (n / 8); Ok (Z.land b (Z.shiftl 1 (n mod 8)) =? 0).

(** True when the four bits are 0. *)
Definition BIT4 (bm : list Z) (n : Z) : outcome bool :=
  b ← arr_get bm (n / 2); Ok (Z.land b (Z.shiftl 15 (n mod 2 * 4)) =? 0).

(** [*byte_ptr |= m] and [*byte_ptr &= ~m]: setting or clearing the bits of a mask in a byte. *)
Definition byte_put (b m : Z) (v : bool) : Z :=
  u8 (if v then Z.lor b m else Z.land b (Z.lnot m)).

Definition SET_BIT1 (bm : list Z) (n : Z) (v : bool) : outcome (list Z) :=
  b ← arr_get bm (n / 8);
  arr_set bm (n / 8) (byte_put b (Z.shiftl 1 (n mod 8)) v).

Definition SET_BIT4 (bm : list Z) (n : Z) (v : bool) : outcome (list Z) :=
  b ← arr_get bm (n / 2);
  arr_set bm (n / 2) (byte_put b (Z.shiftl 15 (n mod 2 * 4)) v).

(** ** Operations *)

Fixpoint bitmap_init_loop (sb : ext4_super_block) (gdt : list ext4_group_desc) (d : disk_t)
    (i : Z) (n : nat) : outcome (list bitmap_group * list bitmap_group) :=
  match n with
  | O => Ok ([], [])
  | S n =>
    g ← arr_get gdt i;
    let off := BLOCKS2BYTES sb (EXT4_DESC_INO_BITMAP g) in
    ib ← disk_read d off (EXT4_INODES_PER_GROUP sb / 8);
    let off' := BLOCKS2BYTES sb (EXT4_DESC_BLOCK_BITMAP g) in
    db ← disk_read d off' (EXT4_BLOCKS_PER_GROUP sb / 8);
    r ← bitmap_init_loop sb gdt d (i + 1) n;
    Ok (mk_bitmap_group ib off BITMAP_S_VALID :: r.1,
        mk_bitmap_group db off' BITMAP_S_VALID :: r.2)
  end.

Definition bitmap_init (sb : ext4_super_block) (gdt : list ext4_group_desc) (d : disk_t) :
    outcome (bitmap * bitmap) :=
  let group_num := u32 (EXT4_N_BLOCK_GROUPS sb) in
  r ← bitmap_init_loop sb gdt d 0 (Z.to_nat group_num);
  Ok (mk_bitmap r.1 group_num, mk_bitmap r.2 group_num).

(** The search over the other groups:
    [for (i = group_idx + 1; i != group_idx; i = (i + 1) % group_num)]. *)
Fixpoint group_loop {R} (fuel : nat) (group_num group_idx i : Z)
    (body : Z → outcome (option R)) : outcome (option R) :=
  match fuel with
  | O => Fault OutOfFuel
  | S fuel =>
    if i =? group_idx then Ok None
    else
      r ← body i;
      match r with
      | Some r => Ok (Some r)
      | None => group_loop fuel group_num group_idx (u32 (i + 1) mod group_num) body
      end
  end.

(** The scan of the bitmap of one group for a free inode. *)
Definition inode_scan (sb : ext4_super_block) (ib : bitmap) (g : Z) : outcome (option Z) :=
  for_o (Z.to_nat (EXT4_INODES_PER_GROUP sb)) 0 (λ i,
    grp ← arr_get (bm_group ib) g;
    free ← BIT1 (bg_bitmap grp) i;
    Ok (if free then Some (u32 (u32 (g * EXT4_INODES_PER_GROUP sb) + i + 1)) else None)).

(** Returns 0 when there is no free inode. *)
Definition bitmap_inode_find (sb : ext4_super_block) (ib : bitmap) (inode_idx : Z) : outcome Z :=
  let group_idx := inode_idx / EXT4_INODES_PER_GROUP sb in
  let group_num := u32 (EXT4_N_BLOCK_GROUPS sb) in
  ASSERT (group_idx <? group_num) ;;
  r ← inode_scan sb ib group_idx;
  match r with
  | Some new_inode_idx => Ok new_inode_idx
  | None =>
    r ← group_loop (S (Z.to_nat group_num)) group_num group_idx (u32 (group_idx + 1))
          (inode_scan sb ib);
    match r with
    | Some new_inode_idx => Ok new_inode_idx
    | None => Ok 0
    end
  end.

Definition bitmap_inode_set (sb : ext4_super_block) (ib : bitmap) (inode_idx : Z)
    (is_used : bool) : outcome bitmap :=
  ASSERT (negb (inode_idx =? 0)) ;;
  let inode_idx := u32 (inode_idx - 1) in
  let group_idx := inode_idx / EXT4_INODES_PER_GROUP sb in
  let index := inode_idx mod EXT4_INODES_PER_GROUP sb in
  let group_num := u32 (EXT4_N_BLOCK_GROUPS sb) in
  ASSERT (group_idx <? group_num) ;;
  grp ← arr_get (bm_group ib) group_idx;
  bm ← SET_BIT1 (bg_bitmap grp) index is_used;
  gs ← arr_set (bm_group ib) group_idx (mk_bitmap_group bm (bg_off grp) BITMAP_S_DIRTY);
  Ok (mk_bitmap gs (bm_group_num ib)).

(** The scan of the bitmap of one group for a free cluster. *)
Definition pblock_scan (sb : ext4_super_block) (db : bitmap) (g : Z) : outcome (option Z) :=
  for_o (Z.to_nat (EXT4_BLOCKS_PER_GROUP sb / EXT4_INODE_PBLOCK_NUM)) 0 (λ i,
    grp ← arr_get (bm_group db) g;
    free ← BIT4 (bg_bitmap grp) i;
    Ok (if free
        then Some (u32 (u32 (g * EXT4_BLOCKS_PER_GROUP sb) + u32 (i * EXT4_INODE_PBLOCK_NUM)))
        else None)).

(** The number [n] of blocks asked for is not used; returns [UINT64_MAX] when
    there is no free cluster. *)
Definition bitmap_pblock_find (sb : ext4_super_block) (db : bitmap) (inode_idx n : Z) : outcome Z :=
  let group_idx := inode_idx / EXT4_INODES_PER_GROUP sb in
  let group_num := u32 (EXT4_N_BLOCK_GROUPS sb) in
  ASSERT (group_idx <? group_num) ;;
  r ← pblock_scan sb db group_idx;
  match r with
  | Some new_block_idx => Ok new_block_idx
  | None =>
    r ← group_loop (S (Z.to_nat group_num)) group_num group_idx (u32 (group_idx + 1))
          (pblock_scan sb db);
    match r with
    | Some new_block_idx => Ok new_block_idx
    | None => Ok UINT64_MAX
    end
  end.

Definition bitmap_pblock_set (sb : ext4_super_block) (db : bitmap) (block_idx len : Z)
    (is_used : bool) : outcome bitmap :=
  let group_idx := u32 (block_idx / EXT4_BLOCKS_PER_GROUP sb) in
  let index := u32 (block_idx mod EXT4_BLOCKS_PER_GROUP sb) in
  let group_num := u32 (EXT4_N_BLOCK_GROUPS sb) in
  ASSERT (group_idx <? group_num) ;;
  if len =? EXT4_INODE_PBLOCK_NUM then
    grp ← arr_get (bm_group db) group_idx;
    bm ← SET_BIT4 (bg_bitmap grp) (index / EXT4_INODE_PBLOCK_NUM) is_used;
    gs ← arr_set (bm_group db) group_idx (mk_bitmap_group bm (bg_off grp) BITMAP_S_DIRTY);
    Ok (mk_bitmap gs (bm_group_num db))
  else Fault AssertFail.

(** [for (uint16_t j = 0; j < range->len; j++)] of [bitmap_pblock_free]. *)
Fixpoint pblock_free_range (sb : ext4_super_block) (db : bitmap) (pblock : Z) (j : Z) (n : nat) :
    outcome bitmap :=
  match n with
  | O => Ok db
  | S n =>
    db ← bitmap_pblock_set sb db (u64 (pblock + j)) 1 false;
    pblock_free_range sb db pblock (j + 1) n
  end.

Fixpoint bitmap_pblock_free (sb : ext4_super_block) (db : bitmap) (p_arr : list pblock_range) :
    outcome bitmap :=
  match p_arr with
  | [] => Ok db
  | range :: p_arr =>
    db ← pblock_free_range sb db (pr_pblock range) 0 (Z.to_nat (pr_len range));
    bitmap_pblock_free sb db p_arr
  end.

Definition gdt_update (sb : ext4_super_block) (gdt : list ext4_group_desc) (inode_idx : Z) :
    outcome (list ext4_group_desc) :=
  let group_idx := s32 (inode_idx / EXT4_INODES_PER_GROUP sb) in
  g ← arr_get gdt group_idx;
  let free_blocks := u32 (EXT4_GDT_FREE_BLOCKS g - 1) in
  let g := set_bg_free_blocks_count_lo (Z.land free_blocks MASK_16) g in
  let g := set_bg_free_blocks_count_hi (u16 (Z.shiftr free_blocks 16)) g in
  let free_inodes := u32 (EXT4_GDT_FREE_INODES g - 1) in
  let g := set_bg_free_inodes_count_lo (Z.land free_inodes MASK_16) g in
  let g := set_bg_free_inodes_count_hi (u16 (Z.shiftr free_inodes 16)) g in
  let used_dirs := EXT4_GDT_USED_DIRS g in
  let used_dirs := if used_dirs =? EXT4_GDT_MAX_USED_DIRS then used_dirs else u32 (used_dirs + 1) in
  let g := set_bg_used_dirs_count_lo (Z.land used_dirs MASK_16) g in
  let g := set_bg_used_dirs_count_hi (u16 (Z.shiftr used_dirs 16)) g in
  let unused_inodes := u32 (EXT4_GDT_ITABLE_UNUSED g - 1) in
  let g := set_bg_itable_unused_lo (Z.land unused_inodes MASK_16) g in
  let g := set_bg_itable_unused_hi (u16 (Z.shiftr unused_inodes 16)) g in
  arr_set gdt group_idx (EXT4_GDT_SET_DIRTY g).

(** The double loop of the two counting functions. *)
Fixpoint count_bits (bm : list Z) (j : Z) (n : nat) (acc : Z * Z) : outcome (Z * Z) :=
  match n with
  | O => Ok acc
  | S n =>
    b ← BIT1 bm j;
    count_bits bm (j + 1) n (if b then (u64 (acc.1 + 1), acc.2) else (acc.1, u64 (acc.2 + 1)))
  end.

Fixpoint count_groups (bmp : bitmap) (per_group i : Z) (n : nat) (acc : Z * Z) : outcome (Z * Z) :=
  match n with
  | O => Ok acc
  | S n =>
    grp ← arr_get (bm_group bmp) i;
    acc ← count_bits (bg_bitmap grp) 0 (Z.to_nat per_group) acc;
    count_groups bmp per_group (i + 1) n acc
  end.

(** The pair of the two counters, [used_inode_num] first. *)
Definition bitmap_inode_count (sb : ext4_super_block) (ib : bitmap) : outcome (Z * Z) :=
  count_groups ib (EXT4_INODES_PER_GROUP sb) 0 (Z.to_nat (EXT4_N_BLOCK_GROUPS sb)) (0, 0).

Definition bitmap_pblock_count (sb : ext4_super_block) (db : bitmap) : outcome (Z * Z) :=
  count_groups db (EXT4_BLOCKS_PER_GROUP sb) 0 (Z.to_nat (EXT4_N_BLOCK_GROUPS sb)) (0, 0).

(** ** Abstract view

    Bit [n] of a bitmap as a bool; outside the bitmap everything counts as
    used.  Inode numbers start at 1, block numbers at 0. *)

Definition bit_at (bm : list Z) (n : Z) : bool :=
  match bm !! Z.to_nat (n / 8) with
  | Some b => Z.testbit b (n mod 8)
  | None => true
  end.

Definition bitmap_bit (bmp : bitmap) (per n : Z) : bool :=
  match bm_group bmp !! Z.to_nat (n / per) with
  | Some g => bit_at (bg_bitmap g) (n mod per)
  | None => true
  end.

Definition inode_used (sb : ext4_super_block) (ib : bitmap) (ino : Z) : bool :=
  bitmap_bit ib (EXT4_INODES_PER_GROUP sb) (ino - 1).

Definition block_used (sb : ext4_super_block) (db : bitmap) (blk : Z) : bool :=
  bitmap_bit db (EXT4_BLOCKS_PER_GROUP sb) blk.

(** All four blocks of the cluster that starts at [blk] are free. *)
Definition cluster_free (sb : ext4_super_block) (db : bitmap) (blk : Z) : bool :=
  negb (block_used sb db blk || block_used sb db (blk + 1) ||
        block_used sb db (blk + 2) || block_used sb db (blk + 3)).

(** A geometry [mkfs] produces: whole bytes of bitmap per group, numbers
    that fit the 32-bit variables of the code. *)
Definition geometry_ok (sb : ext4_super_block) : Prop :=
  let G := EXT4_N_BLOCK_GROUPS sb in
  0 < EXT4_INODES_PER_GROUP sb ∧ EXT4_INODES_PER_GROUP sb mod 8 = 0 ∧
  0 < EXT4_BLOCKS_PER_GROUP sb ∧ EXT4_BLOCKS_PER_GROUP sb mod 8 = 0 ∧
  0 < G ∧ G * EXT4_INODES_PER_GROUP sb < 2 ^ 32 ∧ G * EXT4_BLOCKS_PER_GROUP sb < 2 ^ 32.

(** One bitmap of [per / 8] bytes per group. *)
Definition bitmap_ok (sb : ext4_super_block) (per : Z) (bmp : bitmap) : Prop :=
  zlen (bm_group bmp) = EXT4_N_BLOCK_GROUPS sb ∧
  Forall (λ g, zlen (bg_bitmap g) = per / 8 ∧ Forall byte_ok (bg_bitmap g)) (bm_group bmp).

(** ** Lemmas on single bits *)

Lemma land_bit_eqb b k : 0 ≤ k → (Z.land b (Z.shiftl 1 k) =? 0) = negb (Z.testbit b k).
Proof.
  intros Hk. destruct (Z.testbit b k) eqn:E; simpl.
  - apply Z.eqb_neq. intros H0. apply (f_equal (λ x, Z.testbit x k)) in H0.
    by rewrite Z.land_spec, E, Z.shiftl_1_l, Z.pow2_bits_true, Z.bits_0 in H0.
  - apply Z.eqb_eq. apply Z.bits_inj'. intros n Hn.
    rewrite Z.land_spec, Z.shiftl_1_l, Z.pow2_bits_eqb, Z.bits_0 by done.
    destruct (Z.eqb_spec k n) as [<-|]; [by rewrite E | apply andb_false_r].
Qed.

Lemma testbit_byte_hi b n : byte_ok b → 8 ≤ n → Z.testbit b n = false.
Proof. unfold byte_ok. intros. apply (testbit_ge b 8); lia. Qed.

Lemma byte_put_ok b m v : byte_ok (byte_put b m v).
Proof. apply Z.mod_pos_bound. lia. Qed.

Lemma byte_put_spec b m v n :
  0 ≤ n < 8 → Z.testbit (byte_put b m v) n = if Z.testbit m n then v else Z.testbit b n.
Proof.
  intros Hn. unfold byte_put, u8. rewrite Z.mod_pow2_bits_low by lia. destruct v.
  - rewrite Z.lor_spec. by destruct (Z.testbit m n), (Z.testbit b n).
  - rewrite Z.land_spec, Z.lnot_spec by lia. by destruct (Z.testbit m n), (Z.testbit b n).
Qed.

Lemma bit_at_lookup bm n b :
  bm !! Z.to_nat (n / 8) = Some b → bit_at bm n = Z.testbit b (n mod 8).
Proof. unfold bit_at. by intros ->. Qed.

Lemma BIT1_spec bm n : 0 ≤ n < 8 * zlen bm → BIT1 bm n = Ok (negb (bit_at bm n)).
Proof.
  intros Hn. destruct (arr_get_is_Ok bm (n / 8)) as [b Hb]; [dlia|].
  unfold BIT1. rewrite Hb. apply arr_get_inv in Hb as [_ Hb]. simpl.
  by rewrite land_bit_eqb, (bit_at_lookup _ _ _ Hb) by dlia.
Qed.

Lemma testbit_nibble s n : 0 ≤ s → 0 ≤ n →
  Z.testbit (Z.shiftl 15 s) n = (s <=? n) && (n <? s + 4).
Proof.
  intros. rewrite Z.shiftl_spec by done. change 15 with (Z.ones 4).
  rewrite Z.testbit_ones by lia. apply Bool.eq_iff_eq_true.
  rewrite !andb_true_iff, !Z.leb_le, !Z.ltb_lt. lia.
Qed.

Lemma land_nibble_eqb b s : 0 ≤ s →
  (Z.land b (Z.shiftl 15 s) =? 0) =
  negb (Z.testbit b s || Z.testbit b (s + 1) || Z.testbit b (s + 2) || Z.testbit b (s + 3)).
Proof.
  intros Hs. apply Bool.eq_iff_eq_true. rewrite Z.eqb_eq, negb_true_iff, !orb_false_iff.
  split.
  - intros H0. assert (∀ k, 0 ≤ k < 4 → Z.testbit b (s + k) = false) as Hk.
    { intros k ?. apply (f_equal (λ x, Z.testbit x (s + k))) in H0.
      rewrite Z.land_spec, testbit_nibble, Z.bits_0 in H0 by lia.
      rewrite (proj2 (Z.leb_le _ _)), (proj2 (Z.ltb_lt _ _)) in H0 by lia.
      by rewrite andb_true_r in H0. }
    pose proof (Hk 0). rewrite Z.add_0_r in *. auto with lia.
  - intros [[[H0 H1] H2] H3]. apply Z.bits_inj'. intros n Hn.
    rewrite Z.land_spec, testbit_nibble, Z.bits_0 by lia.
    destruct (Z.leb_spec s n), (Z.ltb_spec n (s + 4)); simpl; try apply andb_false_r.
    assert (n = s ∨ n = s + 1 ∨ n = s + 2 ∨ n = s + 3) as [-> | [-> | [-> | ->]]] by lia;
      by rewrite ?H0, ?H1, ?H2, ?H3.
Qed.

(** The bits of cluster [n] are consecutive in one byte. *)
Lemma cluster_bit n k : 0 ≤ n → 0 ≤ k < 4 →
  (4 * n + k) / 8 = n / 2 ∧ (4 * n + k) mod 8 = n mod 2 * 4 + k.
Proof. intros. dlia. Qed.

Lemma BIT4_spec bm n : 0 ≤ n < 2 * zlen bm →
  BIT4 bm n = Ok (negb (bit_at bm (4 * n) || bit_at bm (4 * n + 1) ||
                        bit_at bm (4 * n + 2) || bit_at bm (4 * n + 3))).
Proof.
  intros Hn. destruct (arr_get_is_Ok bm (n / 2)) as [b Hb]; [dlia|].
  unfold BIT4. rewrite Hb. apply arr_get_inv in Hb as [_ Hb]. simpl.
  rewrite land_nibble_eqb by dlia.
  pose proof (cluster_bit n 0 ltac:(lia) ltac:(lia)) as [H0 H0'].
  rewrite Z.add_0_r in H0, H0'. rewrite Z.add_0_r in H0'.
  assert (∀ k, 0 ≤ k < 4 → bit_at bm (4 * n + k) = Z.testbit b (n mod 2 * 4 + k)) as Hk.
  { intros k ?. destruct (cluster_bit n k) as [E1 E2]; [lia..|].
    rewrite <- E2. apply bit_at_lookup. by rewrite E1. }
  rewrite <- !Hk by lia.
  by rewrite (bit_at_lookup bm (4 * n) b), H0' by (by rewrite H0).
Qed.

(** Storing into the byte of one bit leaves the other bytes' bits. *)
Lemma bit_at_insert bm i b n : 0 ≤ i < zlen bm → 0 ≤ n →
  bit_at (<[Z.to_nat i := b]> bm) n = if n / 8 =? i then Z.testbit b (n mod 8) else bit_at bm n.
Proof.
  unfold zlen. intros. unfold bit_at. destruct (Z.eqb_spec (n / 8) i) as [->|].
  - by rewrite list_lookup_insert_eq by lia.
  - by rewrite list_lookup_insert_ne by dlia.
Qed.

Lemma SET_BIT1_spec bm n v : 0 ≤ n < 8 * zlen bm → Forall byte_ok bm →
  ∃ bm', SET_BIT1 bm n v = Ok bm' ∧ length bm' = length bm ∧ Forall byte_ok bm' ∧
    ∀ k, 0 ≤ k → bit_at bm' k = if k =? n then v else bit_at bm k.
Proof.
  intros Hn Hb. destruct (arr_get_is_Ok bm (n / 8)) as [b Hg]; [dlia|].
  unfold SET_BIT1. rewrite Hg. apply arr_get_inv in Hg as [Hr Hg]. simpl.
  rewrite arr_set_Ok by done. eexists; split_and!; [done | apply length_insert | |].
  - apply Forall_insert; [done | apply byte_put_ok].
  - intros k Hk. rewrite bit_at_insert by done.
    destruct (Z.eqb_spec (k / 8) (n / 8)) as [Ek|].
    + rewrite byte_put_spec by dlia. rewrite Z.shiftl_1_l, Z.pow2_bits_eqb by dlia.
      rewrite <- (bit_at_lookup bm k) by (by rewrite Ek).
      destruct (Z.eqb_spec (n mod 8) (k mod 8)), (Z.eqb_spec k n); dlia || done.
    + by destruct (Z.eqb_spec k n) as [->|].
Qed.

Lemma SET_BIT4_spec bm n v : 0 ≤ n < 2 * zlen bm → Forall byte_ok bm →
  ∃ bm', SET_BIT4 bm n v = Ok bm' ∧ length bm' = length bm ∧ Forall byte_ok bm' ∧
    ∀ k, 0 ≤ k → bit_at bm' k = if k / 4 =? n then v else bit_at bm k.
Proof.
  intros Hn Hb. destruct (arr_get_is_Ok bm (n / 2)) as [b Hg]; [dlia|].
  unfold SET_BIT4. rewrite Hg. apply arr_get_inv in Hg as [Hr Hg]. simpl.
  rewrite arr_set_Ok by done. eexists; split_and!; [done | apply length_insert | |].
  - apply Forall_insert; [done | apply byte_put_ok].
  - intros k Hk. rewrite bit_at_insert by done.
    destruct (Z.eqb_spec (k / 8) (n / 2)) as [Ek|].
    + rewrite byte_put_spec, testbit_nibble by dlia.
      rewrite <- (bit_at_lookup bm k) by (by rewrite Ek).
      destruct (Z.leb_spec (n mod 2 * 4) (k mod 8)), (Z.ltb_spec (k mod 8) (n mod 2 * 4 + 4)),
        (Z.eqb_spec (k / 4) n); simpl; dlia || done.
    + destruct (Z.eqb_spec (k / 4) n); [dlia | done].
Qed.

(** ** Lemmas on the groups *)

Lemma bitmap_bit_group bmp per g i grp : 0 ≤ i < per → 0 ≤ g →
  bm_group bmp !! Z.to_nat g = Some grp →
  bitmap_bit bmp per (g * per + i) = bit_at (bg_bitmap grp) i.
Proof.
  intros Hi Hg Hl. unfold bitmap_bit.
  rewrite Z.div_add_l, Z.div_small, Z.add_0_r, Hl by lia.
  by rewrite Z.add_comm, Z_mod_plus_full, Z.mod_small.
Qed.

Lemma bitmap_ok_lookup sb per bmp g grp :
  bitmap_ok sb per bmp → bm_group bmp !! g = Some grp →
  zlen (bg_bitmap grp) = per / 8 ∧ Forall byte_ok (bg_bitmap grp).
Proof. intros [_ Hf] Hl. by apply (proj1 (Forall_lookup _ _) Hf g). Qed.

Lemma bitmap_ok_group sb per bmp g :
  bitmap_ok sb per bmp → 0 ≤ g < EXT4_N_BLOCK_GROUPS sb →
  ∃ grp, arr_get (bm_group bmp) g = Ok grp ∧ bm_group bmp !! Z.to_nat g = Some grp ∧
    zlen (bg_bitmap grp) = per / 8 ∧ Forall byte_ok (bg_bitmap grp).
Proof.
  intros Hb Hg. destruct (arr_get_is_Ok (bm_group bmp) g) as [grp Hgrp].
  { destruct Hb as [-> _]. done. }
  pose proof (proj2 (arr_get_inv _ _ _ Hgrp)) as Hl. eauto using bitmap_ok_lookup.
Qed.

Lemma N_GROUPS_small sb : geometry_ok sb →
  0 < EXT4_N_BLOCK_GROUPS sb < 2 ^ 32 ∧ u32 (EXT4_N_BLOCK_GROUPS sb) = EXT4_N_BLOCK_GROUPS sb.
Proof.
  intros (?&?&?&?&?&?&?). unfold u32. assert (EXT4_N_BLOCK_GROUPS sb < 2 ^ 32) by nia.
  rewrite Z.mod_small by lia. done.
Qed.

(** Replacing the bitmap of one group. *)
Lemma bitmap_ok_insert sb per bmp g bm grp :
  bitmap_ok sb per bmp → bm_group bmp !! g = Some grp →
  length bm = length (bg_bitmap grp) → Forall byte_ok bm →
  bitmap_ok sb per
    (mk_bitmap (<[g := mk_bitmap_group bm (bg_off grp) BITMAP_S_DIRTY]> (bm_group bmp))
       (bm_group_num bmp)).
Proof.
  intros Hb Hl Hlen Hbm. pose proof (bitmap_ok_lookup _ _ _ _ _ Hb Hl) as [Hz _].
  destruct Hb as [Hn Hf]. split; cbn [bm_group].
  - unfold zlen in *. by rewrite length_insert.
  - apply Forall_insert; [done|]. cbn. unfold zlen in *. rewrite Hlen. done.
Qed.

Lemma bitmap_bit_insert bmp per g bm off st grp k :
  0 < per → 0 ≤ k → 0 ≤ g → bm_group bmp !! Z.to_nat g = Some grp →
  bitmap_bit (mk_bitmap (<[Z.to_nat g := mk_bitmap_group bm off st]> (bm_group bmp))
                (bm_group_num bmp)) per k =
  if k / per =? g then bit_at bm (k mod per) else bitmap_bit bmp per k.
Proof.
  intros Hp Hk Hg Hl. unfold bitmap_bit. cbn [bm_group].
  pose proof (Z.div_pos k per Hk Hp). destruct (Z.eqb_spec (k / per) g) as [->|].
  - rewrite list_lookup_insert_eq by (by eapply lookup_lt_Some). done.
  - by rewrite list_lookup_insert_ne by lia.
Qed.

(** A number and its group: [k = (k / per) * per + k mod per]. *)
Lemma group_split k per G : 0 < per → 0 ≤ k < G * per →
  0 ≤ k / per < G ∧ 0 ≤ k mod per < per ∧ k / per * per + k mod per = k.
Proof.
  intros. pose proof (Z.div_mod k per ltac:(lia)). pose proof (Z.mod_pos_bound k per ltac:(lia)).
  split_and!; try lia; [apply Z.div_pos; lia | apply Z.div_lt_upper_bound; lia].
Qed.

Lemma group_join g i per G : 0 ≤ g < G → 0 ≤ i < per → 0 ≤ g * per + i < G * per.
Proof. nia. Qed.

Lemma mod_add_self x G : 0 ≤ x < G → (x + G) mod G = x.
Proof. intros. rewrite <- (Z.mul_1_l G) at 1. by rewrite Z_mod_plus_full, Z.mod_small. Qed.

(** The loop over the other groups visits each of them once, in the order
    [gi + 1], [gi + 2], ... modulo the number of groups, and stops at the first
    hit. *)
Lemma group_loop_spec {R} (G gi : Z) (body : Z → outcome (option R)) (test : Z → option R)
    (Hgi : 0 ≤ gi < G) (HG : G < 2 ^ 32)
    (Hb : ∀ j, 0 ≤ j < G → body j = Ok (test j)) (n : nat) k :
  1 ≤ k ≤ G → G - k ≤ Z.of_nat n →
  (∃ m r, k ≤ m < G ∧ test ((gi + m) mod G) = Some r ∧
     (∀ m', k ≤ m' < m → test ((gi + m') mod G) = None) ∧
     group_loop (S n) G gi ((gi + k) mod G) body = Ok (Some r)) ∨
  ((∀ m, k ≤ m < G → test ((gi + m) mod G) = None) ∧
     group_loop (S n) G gi ((gi + k) mod G) body = Ok None).
Proof.
  revert k. induction n as [|n IH]; intros k Hk Hn.
  - right. split; [lia|]. assert (k = G) as -> by lia. cbn [group_loop].
    by rewrite mod_add_self, Z.eqb_refl.
  - destruct (decide (k = G)) as [->|].
    { right. split; [lia|]. cbn [group_loop]. by rewrite mod_add_self, Z.eqb_refl. }
    pose proof (Z.mod_pos_bound (gi + k) G ltac:(lia)) as Hr.
    cbn [group_loop]. destruct (Z.eqb_spec ((gi + k) mod G) gi) as [E|].
    { exfalso. assert ((gi + k - gi) mod G = 0) as E0.
      { rewrite Zminus_mod, E, (Z.mod_small gi), Z.sub_diag by lia. done. }
      replace (gi + k - gi) with k in E0 by lia. rewrite Z.mod_small in E0 by lia. lia. }
    rewrite Hb by lia. cbn [obind]. destruct (test ((gi + k) mod G)) as [r|] eqn:Et.
    + left. exists k, r. split_and!; [lia..| done | lia | done].
    + unfold u32. rewrite (Z.mod_small _ (2 ^ 32)) by lia.
      rewrite Zplus_mod_idemp_l, <- Z.add_assoc.
      destruct (IH (k + 1)) as [(m & r & ? & ? & Hm & ?)|[Hm ?]]; [lia..| |].
      * left. exists m, r. split_and!; [lia..| done | | done]. intros m' ?.
        destruct (decide (m' = k)) as [->|]; [done | apply Hm; lia].
      * right. split; [|done]. intros m ?.
        destruct (decide (m = k)) as [->|]; [done | apply Hm; lia].
Qed.

(** The place of group [g] in the order in which a search that starts at
    group [hint] visits the groups: [hint], [hint + 1], ..., wrapping around. *)
Definition search_rank (G hint g : Z) : Z := (g - hint) mod G.

Lemma search_rank_group G hint m : 0 ≤ hint < G → 0 ≤ m < G →
  search_rank G hint ((hint + m) mod G) = m.
Proof.
  intros. unfold search_rank. rewrite Zminus_mod_idemp_l.
  replace (hint + m - hint) with m by lia. by apply Z.mod_small.
Qed.

Lemma search_rank_inv G hint g : 0 ≤ hint < G → 0 ≤ g < G →
  0 ≤ search_rank G hint g < G ∧ (hint + search_rank G hint g) mod G = g.
Proof.
  intros. unfold search_rank. split; [apply Z.mod_pos_bound; lia|].
  rewrite Zplus_mod_idemp_r. replace (hint + (g - hint)) with g by lia. by apply Z.mod_small.
Qed.

Lemma search_rank_own G hint g : 0 ≤ hint < G → 0 ≤ g < G →
  search_rank G hint g = 0 ↔ g = hint.
Proof.
  intros Hh Hg. split.
  - intros E. destruct (search_rank_inv G hint g Hh Hg) as [_ <-].
    rewrite E, Z.add_0_r. by apply Z.mod_small.
  - intros ->. unfold search_rank. by rewrite Z.sub_diag.
Qed.

(** The search as [bitmap_inode_find] and [bitmap_pblock_find] make it: the
    own group first, then the others. *)
Lemma group_search {R} (G gi : Z) (body : Z → outcome (option R)) (test : Z → option R) :
  0 ≤ gi → gi + 1 < G → G < 2 ^ 32 →
  (∀ j, 0 ≤ j < G → body j = Ok (test j)) → test gi = None →
  (∃ j r, 0 ≤ j < G ∧ test j = Some r ∧
     (∀ g, 0 ≤ g < G → search_rank G gi g < search_rank G gi j → test g = None) ∧
     group_loop (S (Z.to_nat G)) G gi (u32 (gi + 1)) body = Ok (Some r)) ∨
  ((∀ j, 0 ≤ j < G → test j = None) ∧
     group_loop (S (Z.to_nat G)) G gi (u32 (gi + 1)) body = Ok None).
Proof.
  intros Hgi Hlast HG Hb Hown. unfold u32. rewrite Z.mod_small by lia.
  rewrite <- (Z.mod_small (gi + 1) G) by lia.
  assert (∀ M, (∀ m, 1 ≤ m < M → test ((gi + m) mod G) = None) →
    ∀ g, 0 ≤ g < G → search_rank G gi g < M → test g = None) as Hrank.
  { intros M HM g Hg Hr. destruct (search_rank_inv G gi g) as [? Hinv]; [lia..|].
    destruct (decide (search_rank G gi g = 0)) as [E|].
    - apply search_rank_own in E as ->; done || lia.
    - rewrite <- Hinv. apply HM. lia. }
  destruct (group_loop_spec G gi body test ltac:(lia) HG Hb (Z.to_nat G) 1)
    as [(m & r & ? & Ht & Hm & ?)|[Hn ?]]; [lia..| left | right].
  - exists ((gi + m) mod G), r. split_and!; [apply Z.mod_pos_bound; lia..| done | | done].
    intros g. rewrite search_rank_group by lia. by apply Hrank.
  - split; [|done]. intros j Hj. destruct (search_rank_inv G gi j) as [? _]; [lia..|].
    apply (Hrank G); [done..|lia].
Qed.

(** ** The scan of one group *)

Lemma inode_used_group sb ib g i grp : 0 ≤ i < EXT4_INODES_PER_GROUP sb → 0 ≤ g →
  bm_group ib !! Z.to_nat g = Some grp →
  inode_used sb ib (g * EXT4_INODES_PER_GROUP sb + i + 1) = bit_at (bg_bitmap grp) i.
Proof. intros. unfold inode_used. rewrite Z.add_simpl_r. by apply bitmap_bit_group. Qed.

Lemma block_used_group sb db g i grp : 0 ≤ i < EXT4_BLOCKS_PER_GROUP sb → 0 ≤ g →
  bm_group db !! Z.to_nat g = Some grp →
  block_used sb db (g * EXT4_BLOCKS_PER_GROUP sb + i) = bit_at (bg_bitmap grp) i.
Proof. intros. by apply bitmap_bit_group. Qed.

Section scans.
Context (sb : ext4_super_block) (Hgeo : geometry_ok sb).
Local Abbreviation ipg := (EXT4_INODES_PER_GROUP sb).
Local Abbreviation bpg := (EXT4_BLOCKS_PER_GROUP sb).
Local Abbreviation G := (EXT4_N_BLOCK_GROUPS sb).

Lemma inode_scan_spec ib g : bitmap_ok sb ipg ib → 0 ≤ g < G →
  (∃ i, 0 ≤ i < ipg ∧ inode_used sb ib (g * ipg + i + 1) = false ∧
     (∀ k, 0 ≤ k < i → inode_used sb ib (g * ipg + k + 1) = true) ∧
     inode_scan sb ib g = Ok (Some (g * ipg + i + 1))) ∨
  ((∀ i, 0 ≤ i < ipg → inode_used sb ib (g * ipg + i + 1) = true) ∧
     inode_scan sb ib g = Ok None).
Proof.
  intros Hb Hg. pose proof Hgeo as (?&?&?&?&?&?&?).
  destruct (bitmap_ok_group sb ipg ib g Hb Hg) as (grp & Hget & Hl & Hz & _).
  assert (∀ i, 0 ≤ i < ipg → u32 (u32 (g * ipg) + i + 1) = g * ipg + i + 1) as Hw.
  { intros i ?. pose proof (group_join g i ipg G Hg ltac:(lia)). unfold u32.
    rewrite (Z.mod_small (g * ipg)), Z.mod_small; nia. }
  destruct (for_o_spec (Z.to_nat ipg) 0
    (λ i, grp ← arr_get (bm_group ib) g; free ← BIT1 (bg_bitmap grp) i;
          Ok (if free then Some (u32 (u32 (g * ipg) + i + 1)) else None))
    (λ i, if negb (inode_used sb ib (g * ipg + i + 1)) then Some (g * ipg + i + 1) else None))
    as [(i & r & Hi & Ht & Hk & Hf)|[Hn Hf]].
  { intros i Hi. rewrite Hget. cbn [obind]. rewrite BIT1_spec by dlia. cbn [obind].
    rewrite (inode_used_group sb ib g i grp) by (lia || done). by rewrite Hw by lia. }
  - left. exists i. destruct (inode_used sb ib (g * ipg + i + 1)) eqn:E; [done|].
    cbn in Ht. simplify_eq. split_and!; [lia | lia | done | | done].
    intros k Hk'. specialize (Hk k Hk').
    by destruct (inode_used sb ib (g * ipg + k + 1)).
  - right. split; [|done]. intros i Hi. specialize (Hn i ltac:(lia)).
    by destruct (inode_used sb ib (g * ipg + i + 1)).
Qed.

Lemma pblock_scan_spec db g : bitmap_ok sb bpg db → 0 ≤ g < G →
  (∃ i, 0 ≤ i < bpg / 4 ∧ cluster_free sb db (g * bpg + 4 * i) = true ∧
     (∀ k, 0 ≤ k < i → cluster_free sb db (g * bpg + 4 * k) = false) ∧
     pblock_scan sb db g = Ok (Some (g * bpg + 4 * i))) ∨
  ((∀ i, 0 ≤ i < bpg / 4 → cluster_free sb db (g * bpg + 4 * i) = false) ∧
     pblock_scan sb db g = Ok None).
Proof.
  intros Hb Hg. pose proof Hgeo as (?&?&?&?&?&?&?).
  destruct (bitmap_ok_group sb bpg db g Hb Hg) as (grp & Hget & Hl & Hz & _).
  assert (∀ i, 0 ≤ i < bpg / 4 →
    u32 (u32 (g * bpg) + u32 (i * EXT4_INODE_PBLOCK_NUM)) = g * bpg + 4 * i) as Hw.
  { intros i ?. change EXT4_INODE_PBLOCK_NUM with 4. assert (4 * i + 4 ≤ bpg) by dlia.
    unfold u32. rewrite (Z.mod_small (g * bpg)), (Z.mod_small (i * 4)) by nia.
    rewrite Z.mod_small; nia. }
  destruct (for_o_spec (Z.to_nat (bpg / 4)) 0
    (λ i, grp ← arr_get (bm_group db) g; free ← BIT4 (bg_bitmap grp) i;
          Ok (if free then Some (u32 (u32 (g * bpg) + u32 (i * EXT4_INODE_PBLOCK_NUM)))
              else None))
    (λ i, if cluster_free sb db (g * bpg + 4 * i) then Some (g * bpg + 4 * i) else None))
    as [(i & r & Hi & Ht & Hk & Hf)|[Hn Hf]].
  { intros i Hi. rewrite Hget. cbn [obind]. rewrite BIT4_spec by dlia. cbn [obind].
    rewrite Hw by lia. unfold cluster_free. rewrite <- !Z.add_assoc.
    by rewrite !(block_used_group sb db g _ grp) by (done || dlia). }
  - left. exists i. destruct (cluster_free sb db (g * bpg + 4 * i)) eqn:E; [|done].
    simplify_eq. split_and!; [lia | lia | done | | done].
    intros k Hk'. specialize (Hk k Hk').
    by destruct (cluster_free sb db (g * bpg + 4 * k)).
  - right. split; [|done]. intros i Hi. specialize (Hn i ltac:(lia)).
    by destruct (cluster_free sb db (g * bpg + 4 * i)).
Qed.
End scans.

(** ** Finding and marking *)

(** Inode numbers and first blocks of clusters of the file system. *)
Definition inode_in (sb : ext4_super_block) (ino : Z) : Prop :=
  1 ≤ ino ≤ EXT4_N_BLOCK_GROUPS sb * EXT4_INODES_PER_GROUP sb.
Definition cluster_in (sb : ext4_super_block) (blk : Z) : Prop :=
  0 ≤ blk < EXT4_N_BLOCK_GROUPS sb * EXT4_BLOCKS_PER_GROUP sb ∧ blk mod 4 = 0.
Definition inode_group (sb : ext4_super_block) (ino : Z) : Z :=
  (ino - 1) / EXT4_INODES_PER_GROUP sb.
Definition block_group (sb : ext4_super_block) (blk : Z) : Z :=
  blk / EXT4_BLOCKS_PER_GROUP sb.

(** What a search for a free unit promises: the unit is free, and no unit
    before it is, where units are ordered by the rank of their group and then by
    number. *)
Definition first_free (G : Z) (In : Z → Prop) (grp : Z → Z) (free : Z → bool)
    (hint r : Z) : Prop :=
  In r ∧ free r = true ∧
  ∀ k, In k → free k = true →
    search_rank G hint (grp r) < search_rank G hint (grp k) ∨ grp k = grp r ∧ r ≤ k.

(** No unit of group [g] is free. *)
Definition group_full (In : Z → Prop) (grp : Z → Z) (free : Z → bool) (g : Z) : Prop :=
  ∀ k, In k → grp k = g → free k = false.

(** The search both allocators make, over the scan of one group. *)
Definition search (G hint : Z) (scan : Z → outcome (option Z)) (none : Z) : outcome Z :=
  r ← scan hint;
  match r with
  | Some x => Ok x
  | None =>
    r ← group_loop (S (Z.to_nat G)) G hint (u32 (hint + 1)) scan;
    match r with Some x => Ok x | None => Ok none end
  end.

Section search.
Context (G : Z) (In : Z → Prop) (grp : Z → Z) (free : Z → bool)
  (scan : Z → outcome (option Z)) (none : Z)
  (HG : G < 2 ^ 32) (Hgrp : ∀ k, In k → 0 ≤ grp k < G)
  (Hscan : ∀ g, 0 ≤ g < G →
    (∃ r, scan g = Ok (Some r) ∧ In r ∧ grp r = g ∧ free r = true ∧
       ∀ k, In k → grp k = g → k < r → free k = false) ∨
    (scan g = Ok None ∧ ∀ k, In k → grp k = g → free k = false)).

(** The unit the scan of group [j] finds. *)
Local Abbreviation hit j := (match scan j with Ok r => r | Fault _ => None end).

Lemma scan_hit j : 0 ≤ j < G → scan j = Ok (hit j).
Proof. intros Hj. by destruct (Hscan j Hj) as [(r & -> & _)|[-> _]]. Qed.

Lemma hit_None j : 0 ≤ j < G → hit j = None → group_full In grp free j.
Proof. intros Hj Hn. destruct (Hscan j Hj) as [(r & Hs & _)|[_ Hs]]; [|done]. by rewrite Hs in Hn. Qed.

(** A hit in the first group of the order that has one is the first unit. *)
Lemma hit_first hint j r : 0 ≤ hint < G → 0 ≤ j < G → hit j = Some r →
  (∀ g, 0 ≤ g < G → search_rank G hint g < search_rank G hint j → hit g = None) →
  first_free G In grp free hint r ∧ grp r = j.
Proof.
  intros Hh Hj Ht Hbefore.
  destruct (Hscan j Hj) as [(r' & Hs & ? & <- & ? & Hlt)|[Hs _]]; rewrite Hs in Ht; simplify_eq.
  split; [|done]. split_and!; try done. intros k Hk Hf.
  destruct (decide (grp k = grp r)) as [E|Hne].
  { right. split; [done|]. destruct (decide (k < r)); [|lia]. by rewrite Hlt in Hf. }
  left. destruct (Z.lt_trichotomy (search_rank G hint (grp r)) (search_rank G hint (grp k)))
    as [?|[Er|?]]; [done| |].
  - exfalso. apply Hne. destruct (search_rank_inv G hint (grp k)) as [_ <-]; [auto..|].
    destruct (search_rank_inv G hint (grp r)) as [_ <-]; [auto..|]. by rewrite Er.
  - rewrite (hit_None (grp k)) in Hf; [done | auto | apply Hbefore; auto | done..].
Qed.

(** The outcome of a search that starts at [hint], case by case.  The last
    group is special: the search of the others starts at the next index without
    wrapping around, and reads past the array of groups. *)
Lemma search_spec hint : 0 ≤ hint < G → scan G = Fault Undefined →
  (∃ r, search G hint scan none = Ok r ∧ first_free G In grp free hint r ∧
     (grp r = hint ∨ hint + 1 < G)) ∨
  (search G hint scan none = Ok none ∧ hint + 1 < G ∧ ∀ k, In k → free k = false) ∨
  (search G hint scan none = Fault Undefined ∧ hint + 1 = G ∧ group_full In grp free hint).
Proof.
  intros Hh Hend. unfold search. rewrite scan_hit by done. cbn [obind].
  destruct (hit hint) as [r|] eqn:Et.
  { left. exists r. destruct (hit_first hint hint r Hh Hh Et) as [? ?]; [|by auto].
    intros g Hg. rewrite (proj2 (search_rank_own G hint hint Hh Hh) eq_refl).
    pose proof (search_rank_inv G hint g Hh Hg). lia. }
  destruct (decide (hint + 1 = G)) as [Hl|].
  { right; right. split_and!; [|done|by apply hit_None].
    cbn [group_loop]. unfold u32. rewrite Z.mod_small by lia.
    destruct (Z.eqb_spec (hint + 1) hint); [lia|]. by rewrite Hl, Hend. }
  destruct (group_search G hint scan (λ j, hit j)) as [(j & r & Hj & Ht & Hbefore & ->)|[Hall ->]];
    [lia..| apply scan_hit | done | |]; cbn [obind].
  - left. exists r. split; [done|]. split; [by eapply hit_first | right; lia].
  - right; left. split_and!; [done | lia |]. intros k Hk. apply (hit_None (grp k)); auto.
Qed.
End search.

Section find.
Context (sb : ext4_super_block) (Hgeo : geometry_ok sb).
Local Abbreviation ipg := (EXT4_INODES_PER_GROUP sb).
Local Abbreviation bpg := (EXT4_BLOCKS_PER_GROUP sb).
Local Abbreviation G := (EXT4_N_BLOCK_GROUPS sb).

Definition inode_free (ib : bitmap) (ino : Z) : bool := negb (inode_used sb ib ino).

Lemma inode_group_join g i : 0 ≤ g < G → 0 ≤ i < ipg →
  inode_in sb (g * ipg + i + 1) ∧ inode_group sb (g * ipg + i + 1) = g.
Proof.
  intros Hg Hi. pose proof (group_join g i ipg G Hg Hi). unfold inode_in, inode_group.
  split; [lia|]. rewrite Z.add_simpl_r, Z.div_add_l, Z.div_small; lia.
Qed.

Lemma inode_group_split ino : inode_in sb ino →
  ∃ i, 0 ≤ inode_group sb ino < G ∧ 0 ≤ i < ipg ∧ ino = inode_group sb ino * ipg + i + 1.
Proof.
  intros Hin. unfold inode_in, inode_group in *. pose proof Hgeo as (?&_).
  destruct (group_split (ino - 1) ipg G) as (?&?&?); [lia..|].
  exists ((ino - 1) mod ipg). lia.
Qed.

Lemma block_group_join g i : 0 ≤ g < G → 0 ≤ i < bpg / 4 →
  cluster_in sb (g * bpg + 4 * i) ∧ block_group sb (g * bpg + 4 * i) = g.
Proof.
  intros Hg Hi. pose proof Hgeo as (_&_&?&?&_). assert (4 * i + 4 ≤ bpg) by dlia.
  pose proof (group_join g (4 * i) bpg G Hg ltac:(lia)).
  unfold cluster_in, block_group. rewrite Z.div_add_l, Z.div_small by lia.
  split_and!; try lia. replace (g * bpg) with (g * (bpg / 4) * 4) by (assert (bpg = 4 * (bpg / 4)) by dlia; nia).
  replace (g * (bpg / 4) * 4 + 4 * i) with ((g * (bpg / 4) + i) * 4) by lia. apply Z_mod_mult.
Qed.

Lemma block_group_split blk : cluster_in sb blk →
  ∃ i, 0 ≤ block_group sb blk < G ∧ 0 ≤ i < bpg / 4 ∧ blk = block_group sb blk * bpg + 4 * i.
Proof.
  intros [Hin Hm]. unfold block_group in *. pose proof Hgeo as (_&_&?&?&_).
  destruct (group_split blk bpg G) as (?&?&He); [lia..|].
  exists (blk mod bpg / 4).
  assert (blk mod bpg mod 4 = 0).
  { replace (blk mod bpg) with (blk - blk / bpg * (bpg / 4) * 4)
      by (assert (bpg = 4 * (bpg / 4)) by dlia; nia).
    rewrite Zminus_mod, Z_mod_mult, Hm. done. }
  generalize dependent (blk mod bpg). intros. split_and!; dlia.
Qed.

Lemma inode_scan_ok ib g : bitmap_ok sb ipg ib → 0 ≤ g < G →
  (∃ r, inode_scan sb ib g = Ok (Some r) ∧ inode_in sb r ∧ inode_group sb r = g ∧
     inode_free ib r = true ∧
     ∀ k, inode_in sb k → inode_group sb k = g → k < r → inode_free ib k = false) ∨
  (inode_scan sb ib g = Ok None ∧
     ∀ k, inode_in sb k → inode_group sb k = g → inode_free ib k = false).
Proof.
  intros Hb Hg. unfold inode_free.
  destruct (inode_scan_spec sb Hgeo ib g Hb Hg) as [(i & Hi & Hf & Hk & Hs)|[Hn Hs]].
  - left. destruct (inode_group_join g i Hg Hi) as [? ?]. eexists; split_and!; try done.
    { by rewrite Hf. }
    intros k Hin Hg' Hlt. destruct (inode_group_split k Hin) as (i' & ? & ? & He).
    rewrite Hg' in He. rewrite He, Hk by lia. done.
  - right. split; [done|]. intros k Hin Hg'.
    destruct (inode_group_split k Hin) as (i' & ? & ? & He).
    rewrite Hg' in He. rewrite He, Hn by lia. done.
Qed.

Lemma pblock_scan_ok db g : bitmap_ok sb bpg db → 0 ≤ g < G →
  (∃ r, pblock_scan sb db g = Ok (Some r) ∧ cluster_in sb r ∧ block_group sb r = g ∧
     cluster_free sb db r = true ∧
     ∀ k, cluster_in sb k → block_group sb k = g → k < r → cluster_free sb db k = false) ∨
  (pblock_scan sb db g = Ok None ∧
     ∀ k, cluster_in sb k → block_group sb k = g → cluster_free sb db k = false).
Proof.
  intros Hb Hg.
  destruct (pblock_scan_spec sb Hgeo db g Hb Hg) as [(i & Hi & Hf & Hk & Hs)|[Hn Hs]].
  - left. destruct (block_group_join g i Hg Hi) as [? ?]. eexists; split_and!; try done.
    intros k Hin Hg' Hlt. destruct (block_group_split k Hin) as (i' & ? & ? & He).
    rewrite Hg' in He. rewrite He, Hk by lia. done.
  - right. split; [done|]. intros k Hin Hg'.
    destruct (block_group_split k Hin) as (i' & ? & ? & He).
    rewrite Hg' in He. rewrite He, Hn by lia. done.
Qed.

Lemma bitmap_inode_find_search ib parent : 0 ≤ parent / ipg < G →
  bitmap_inode_find sb ib parent = search G (parent / ipg) (inode_scan sb ib) 0.
Proof.
  intros Hh. destruct (N_GROUPS_small sb Hgeo) as [HG HG'].
  unfold bitmap_inode_find. rewrite HG', ASSERT_Ok by (apply Z.ltb_lt; lia). done.
Qed.

Lemma bitmap_pblock_find_search db parent n : 0 ≤ parent / ipg < G →
  bitmap_pblock_find sb db parent n = search G (parent / ipg) (pblock_scan sb db) UINT64_MAX.
Proof.
  intros Hh. destruct (N_GROUPS_small sb Hgeo) as [HG HG'].
  unfold bitmap_pblock_find. rewrite HG', ASSERT_Ok by (apply Z.ltb_lt; lia). done.
Qed.

(** Past the last group there is no bitmap to scan. *)
Lemma inode_scan_end ib : bitmap_ok sb ipg ib → inode_scan sb ib G = Fault Undefined.
Proof.
  intros [Hl _]. pose proof Hgeo as (?&_). unfold inode_scan.
  replace (Z.to_nat ipg) with (S (Z.to_nat (ipg - 1))) by lia.
  cbn [for_o]. rewrite arr_get_oob; [done|]. rewrite Hl. lia.
Qed.

Lemma pblock_scan_end db : bitmap_ok sb bpg db → pblock_scan sb db G = Fault Undefined.
Proof.
  intros [Hl _]. pose proof Hgeo as (_&_&?&?&_). unfold pblock_scan.
  change EXT4_INODE_PBLOCK_NUM with 4.
  replace (Z.to_nat (bpg / 4)) with (S (Z.to_nat (bpg / 4 - 1))) by dlia.
  cbn [for_o]. rewrite arr_get_oob; [done|]. rewrite Hl. lia.
Qed.

(** The outcome of the search from the group of [parent], for any parent. *)
Lemma bitmap_inode_find_spec ib parent : bitmap_ok sb ipg ib → 0 ≤ parent →
  (∃ r, bitmap_inode_find sb ib parent = Ok r ∧
     first_free G (inode_in sb) (inode_group sb) (inode_free ib) (parent / ipg) r ∧
     (inode_group sb r = parent / ipg ∨ parent / ipg + 1 < G)) ∨
  (bitmap_inode_find sb ib parent = Ok 0 ∧ parent / ipg + 1 < G ∧
     ∀ ino, inode_in sb ino → inode_free ib ino = false) ∨
  (bitmap_inode_find sb ib parent = Fault Undefined ∧ parent / ipg + 1 = G ∧
     group_full (inode_in sb) (inode_group sb) (inode_free ib) (parent / ipg)) ∨
  (bitmap_inode_find sb ib parent = Fault AssertFail ∧ G ≤ parent / ipg).
Proof.
  intros Hb Hp. destruct (N_GROUPS_small sb Hgeo) as [HG HG']. pose proof Hgeo as (Hi&_).
  pose proof (Z.div_pos parent _ Hp Hi). destruct (decide (parent / ipg < G)).
  - rewrite bitmap_inode_find_search by lia.
    destruct (search_spec G (inode_in sb) (inode_group sb) (inode_free ib) (inode_scan sb ib) 0)
      with (parent / ipg) as [?|[?|?]]; try lia; auto.
    + intros k Hk. by destruct (inode_group_split k Hk) as (? & ? & _).
    + intros g. by apply inode_scan_ok.
    + by apply inode_scan_end.
  - right; right; right. split; [|lia]. unfold bitmap_inode_find. rewrite HG'.
    by rewrite (proj2 (Z.ltb_ge _ _)) by lia.
Qed.

Lemma bitmap_pblock_find_spec db parent n : bitmap_ok sb bpg db → 0 ≤ parent →
  (∃ r, bitmap_pblock_find sb db parent n = Ok r ∧
     first_free G (cluster_in sb) (block_group sb) (cluster_free sb db) (parent / ipg) r ∧
     (block_group sb r = parent / ipg ∨ parent / ipg + 1 < G)) ∨
  (bitmap_pblock_find sb db parent n = Ok UINT64_MAX ∧ parent / ipg + 1 < G ∧
     ∀ blk, cluster_in sb blk → cluster_free sb db blk = false) ∨
  (bitmap_pblock_find sb db parent n = Fault Undefined ∧ parent / ipg + 1 = G ∧
     group_full (cluster_in sb) (block_group sb) (cluster_free sb db) (parent / ipg)) ∨
  (bitmap_pblock_find sb db parent n = Fault AssertFail ∧ G ≤ parent / ipg).
Proof.
  intros Hb Hp. destruct (N_GROUPS_small sb Hgeo) as [HG HG']. pose proof Hgeo as (Hi&_).
  pose proof (Z.div_pos parent _ Hp Hi). destruct (decide (parent / ipg < G)).
  - rewrite bitmap_pblock_find_search by lia.
    destruct (search_spec G (cluster_in sb) (block_group sb) (cluster_free sb db)
      (pblock_scan sb db) UINT64_MAX) with (parent / ipg) as [?|[?|?]]; try lia; auto.
    + intros k Hk. by destruct (block_group_split k Hk) as (? & ? & _).
    + intros g. by apply pblock_scan_ok.
    + by apply pblock_scan_end.
  - right; right; right. split; [|lia]. unfold bitmap_pblock_find. rewrite HG'.
    by rewrite (proj2 (Z.ltb_ge _ _)) by lia.
Qed.
End find.

Section mark.
Context (sb : ext4_super_block) (Hgeo : geometry_ok sb).
Local Abbreviation ipg := (EXT4_INODES_PER_GROUP sb).
Local Abbreviation bpg := (EXT4_BLOCKS_PER_GROUP sb).
Local Abbreviation G := (EXT4_N_BLOCK_GROUPS sb).

Lemma bitmap_inode_set_spec ib ino v : bitmap_ok sb ipg ib → inode_in sb ino →
  ∃ ib', bitmap_inode_set sb ib ino v = Ok ib' ∧ bitmap_ok sb ipg ib' ∧
    ∀ k, 1 ≤ k → inode_used sb ib' k = if k =? ino then v else inode_used sb ib k.
Proof.
  intros Hb Hin. destruct (N_GROUPS_small sb Hgeo) as [HG HG'].
  pose proof Hgeo as (?&?&?&?&?&?&?). unfold bitmap_inode_set, inode_in in *.
  destruct (Z.eqb_spec ino 0); [lia|]. cbn [negb ASSERT obind].
  rewrite HG'. unfold u32. rewrite (Z.mod_small (ino - 1)) by lia.
  destruct (group_split (ino - 1) ipg G) as (Hg & Hi & He); [lia..|].
  rewrite ASSERT_Ok by (apply Z.ltb_lt; lia). cbn [obind].
  destruct (bitmap_ok_group sb ipg ib ((ino - 1) / ipg) Hb Hg) as (grp & -> & Hl & Hz & Hbk).
  cbn [obind]. destruct (SET_BIT1_spec (bg_bitmap grp) ((ino - 1) mod ipg) v)
    as (bm & -> & Hlen & Hbm & Hspec); [dlia | done |]. cbn [obind].
  destruct Hb as [Hzl Hb]. rewrite arr_set_Ok by lia. cbn [obind].
  eexists; split_and!; [done | by apply bitmap_ok_insert |].
  intros k Hk. unfold inode_used. rewrite bitmap_bit_insert with (grp := grp) by (done || lia).
  pose proof (Z.div_mod (k - 1) ipg ltac:(lia)).
  pose proof (Z.mod_pos_bound (k - 1) ipg ltac:(lia)).
  destruct (Z.eqb_spec ((k - 1) / ipg) ((ino - 1) / ipg)) as [Eg|Eg].
  - rewrite Hspec by lia.
    destruct (Z.eqb_spec ((k - 1) mod ipg) ((ino - 1) mod ipg)), (Z.eqb_spec k ino); try done;
      [nia | by subst |].
    rewrite <- Eg in Hl. unfold bitmap_bit. by rewrite Hl.
  - by destruct (Z.eqb_spec k ino) as [->|].
Qed.

Lemma bitmap_pblock_set_spec db blk v : bitmap_ok sb bpg db → cluster_in sb blk →
  ∃ db', bitmap_pblock_set sb db blk EXT4_INODE_PBLOCK_NUM v = Ok db' ∧ bitmap_ok sb bpg db' ∧
    ∀ k, 0 ≤ k → block_used sb db' k =
      if (blk <=? k) && (k <? blk + 4) then v else block_used sb db k.
Proof.
  intros Hb Hin. destruct (N_GROUPS_small sb Hgeo) as [HG HG'].
  pose proof Hgeo as (?&?&?&?&?&?&?).
  destruct (block_group_split sb Hgeo blk Hin) as (i & Hg & Hi & He).
  destruct Hin as [Hin _]. unfold block_group in *.
  assert (blk mod bpg = 4 * i) as Hm by (rewrite Z.mod_eq by lia; lia).
  unfold bitmap_pblock_set. rewrite Hm, HG'. unfold u32. rewrite !Z.mod_small by dlia.
  rewrite ASSERT_Ok by (apply Z.ltb_lt; lia).
  change EXT4_INODE_PBLOCK_NUM with 4. cbn [obind Z.eqb Pos.eqb].
  destruct (bitmap_ok_group sb bpg db (blk / bpg) Hb Hg) as (grp & -> & Hl & Hz & Hbk).
  cbn [obind]. replace (4 * i / 4) with i by dlia.
  destruct (SET_BIT4_spec (bg_bitmap grp) i v) as (bm & -> & Hlen & Hbm & Hspec);
    [dlia | done |]. cbn [obind].
  destruct Hb as [Hzl Hb]. rewrite arr_set_Ok by lia. cbn [obind].
  eexists; split_and!; [done | by apply bitmap_ok_insert |].
  intros k Hk. unfold block_used. rewrite bitmap_bit_insert with (grp := grp) by (done || lia).
  pose proof (Z.div_mod k bpg ltac:(lia)). pose proof (Z.mod_pos_bound k bpg ltac:(lia)).
  destruct (Z.eqb_spec (k / bpg) (blk / bpg)) as [Eg|Eg].
  - rewrite Hspec by lia. rewrite Eg in *.
    replace ((blk <=? k) && (k <? blk + 4)) with (k mod bpg / 4 =? i).
    2:{ apply Bool.eq_iff_eq_true. rewrite andb_true_iff, Z.eqb_eq, Z.leb_le, Z.ltb_lt.
        generalize dependent (k mod bpg). intros. dlia. }
    unfold bitmap_bit. by rewrite Eg, Hl.
  - destruct (Z.leb_spec blk k), (Z.ltb_spec k (blk + 4)); simpl; try done.
    exfalso. apply Eg. symmetry. apply Z.div_unique with (k - blk / bpg * bpg); dlia.
Qed.
End mark.

(** ** Counting *)

(** How many of the bits [j .. j + n - 1] have the value [v]. *)
Fixpoint count_bit (v : bool) (bm : list Z) (j : Z) (n : nat) : Z :=
  match n with
  | O => 0
  | S n => (if Bool.eqb (bit_at bm j) v then 1 else 0) + count_bit v bm (j + 1) n
  end.

Fixpoint count_bit_groups (v : bool) (gs : list bitmap_group) (n : nat) : Z :=
  match gs with
  | [] => 0
  | g :: gs => count_bit v (bg_bitmap g) 0 n + count_bit_groups v gs n
  end.

Lemma count_bit_range v bm j n : 0 ≤ count_bit v bm j n ≤ Z.of_nat n.
Proof.
  revert j. induction n as [|n IH]; intros j; cbn [count_bit]; [lia|].
  specialize (IH (j + 1)). destruct (Bool.eqb _ _); lia.
Qed.

Lemma count_bit_sum bm j n : count_bit false bm j n + count_bit true bm j n = Z.of_nat n.
Proof.
  revert j. induction n as [|n IH]; intros j; cbn [count_bit]; [done|].
  specialize (IH (j + 1)). destruct (bit_at bm j); simpl; lia.
Qed.

Lemma count_bit_groups_sum gs n :
  count_bit_groups false gs n + count_bit_groups true gs n = zlen gs * Z.of_nat n.
Proof.
  unfold zlen. induction gs as [|g gs IH]; cbn [count_bit_groups length]; [lia|].
  pose proof (count_bit_sum (bg_bitmap g) 0 n). lia.
Qed.

Lemma count_bit_groups_range v gs n : 0 ≤ count_bit_groups v gs n ≤ zlen gs * Z.of_nat n.
Proof.
  unfold zlen. induction gs as [|g gs IH]; cbn [count_bit_groups length]; [lia|].
  pose proof (count_bit_range v (bg_bitmap g) 0 n). lia.
Qed.

Lemma count_bits_spec bm j n x y :
  0 ≤ j → j + Z.of_nat n ≤ 8 * zlen bm → 0 ≤ x → 0 ≤ y →
  x + Z.of_nat n < 2 ^ 64 → y + Z.of_nat n < 2 ^ 64 →
  count_bits bm j n (x, y) = Ok (x + count_bit false bm j n, y + count_bit true bm j n).
Proof.
  revert j x y. induction n as [|n IH]; intros j x y ??????; cbn [count_bits count_bit].
  { by rewrite !Z.add_0_r. }
  rewrite BIT1_spec by lia. cbn [obind fst snd]. unfold u64. rewrite !Z.mod_small by lia.
  destruct (bit_at bm j); cbn [negb Bool.eqb]; rewrite IH by lia; do 2 f_equal; lia.
Qed.

Lemma count_groups_spec bmp per gs i x y :
  0 ≤ i → (∀ k g, gs !! k = Some g → bm_group bmp !! (Z.to_nat i + k)%nat = Some g) →
  0 ≤ per → Forall (λ g, per ≤ 8 * zlen (bg_bitmap g)) gs →
  0 ≤ x → 0 ≤ y → x + zlen gs * per < 2 ^ 64 → y + zlen gs * per < 2 ^ 64 →
  count_groups bmp per i (length gs) (x, y) =
    Ok (x + count_bit_groups false gs (Z.to_nat per), y + count_bit_groups true gs (Z.to_nat per)).
Proof.
  unfold zlen. revert i x y. induction gs as [|g gs IH];
    intros i x y Hi Hl Hp Hf Hx Hy Hbx Hby; cbn [length count_groups count_bit_groups].
  { by rewrite !Z.add_0_r. }
  apply Forall_cons in Hf as [Hg Hf]. cbn [length] in *.
  assert (arr_get (bm_group bmp) i = Ok g) as ->.
  { apply arr_get_Ok; [done|]. rewrite <- (Hl 0%nat g) by done. f_equal. lia. }
  rewrite Nat2Z.inj_succ, Z.mul_succ_l in Hbx, Hby.
  assert (0 ≤ Z.of_nat (length gs) * per) by nia.
  cbn [obind]. rewrite count_bits_spec by (unfold zlen; lia). cbn [obind].
  pose proof (count_bit_range false (bg_bitmap g) 0 (Z.to_nat per)).
  pose proof (count_bit_range true (bg_bitmap g) 0 (Z.to_nat per)).
  rewrite IH; try lia; [do 2 f_equal; lia | | done].
  intros k g' Hk. rewrite <- (Hl (S k) g') by done. f_equal. lia.
Qed.

(** ** Reading the bitmaps of the disk *)

Definition disk_bit (d : disk_t) (off i : Z) : bool :=
  Z.testbit (default 0 (disk_bytes d !! (off + i / 8))) (i mod 8).

Lemma read_bytes_lookup m a n k : (k < n)%nat →
  read_bytes m a n !! k = Some (default 0 (m !! (a + Z.of_nat k))).
Proof.
  revert a k. induction n as [|n IH]; intros a [|k] Hk; cbn [read_bytes]; try lia; simpl.
  - by rewrite Z.add_0_r.
  - rewrite IH by lia. do 3 f_equal. lia.
Qed.

Lemma bit_at_read_bytes d a n i : 0 ≤ i < 8 * Z.of_nat n →
  bit_at (read_bytes (disk_bytes d) a n) i = disk_bit d a i.
Proof.
  intros. unfold bit_at, disk_bit. rewrite read_bytes_lookup by dlia. do 4 f_equal. dlia.
Qed.

(** The bitmaps a descriptor points to lie inside the image. *)
Definition desc_in (sb : ext4_super_block) (d : disk_t) (g : ext4_group_desc) : Prop :=
  BLOCKS2BYTES sb (EXT4_DESC_INO_BITMAP g) + EXT4_INODES_PER_GROUP sb / 8 ≤ disk_len d ∧
  BLOCKS2BYTES sb (EXT4_DESC_BLOCK_BITMAP g) + EXT4_BLOCKS_PER_GROUP sb / 8 ≤ disk_len d.

Definition group_of_disk (sb : ext4_super_block) (d : disk_t) (blk per : Z) : bitmap_group :=
  mk_bitmap_group (read_bytes (disk_bytes d) (BLOCKS2BYTES sb blk) (Z.to_nat (per / 8)))
    (BLOCKS2BYTES sb blk) BITMAP_S_VALID.

Lemma BLOCKS2BYTES_range sb b : 0 ≤ BLOCKS2BYTES sb b < 2 ^ 64.
Proof. apply Z.mod_pos_bound. lia. Qed.

Lemma bitmap_init_loop_spec sb gdt d gs i :
  0 ≤ disk_fd d → disk_len d < 2 ^ 63 →
  0 ≤ EXT4_INODES_PER_GROUP sb / 8 ≤ MAX_RW_COUNT →
  0 ≤ EXT4_BLOCKS_PER_GROUP sb / 8 ≤ MAX_RW_COUNT →
  0 ≤ i → (∀ k g, gs !! k = Some g → gdt !! (Z.to_nat i + k)%nat = Some g) →
  Forall (desc_in sb d) gs →
  bitmap_init_loop sb gdt d i (length gs) =
    Ok (map (λ g, group_of_disk sb d (EXT4_DESC_INO_BITMAP g) (EXT4_INODES_PER_GROUP sb)) gs,
        map (λ g, group_of_disk sb d (EXT4_DESC_BLOCK_BITMAP g) (EXT4_BLOCKS_PER_GROUP sb)) gs).
Proof.
  intros Hfd Hlen Hipg Hbpg. revert i. induction gs as [|g gs IH]; intros i Hi Hl Hf; [done|].
  apply Forall_cons in Hf as [[Hgi Hgb] Hf]. cbn [length bitmap_init_loop map].
  assert (arr_get gdt i = Ok g) as ->.
  { apply arr_get_Ok; [done|]. rewrite <- (Hl 0%nat g) by done. f_equal. lia. }
  cbn [obind].
  pose proof (BLOCKS2BYTES_range sb (EXT4_DESC_INO_BITMAP g)).
  pose proof (BLOCKS2BYTES_range sb (EXT4_DESC_BLOCK_BITMAP g)).
  rewrite !disk_read_Ok by lia. cbn [obind].
  rewrite IH; [done | lia | | done].
  intros k g' Hk. rewrite <- (Hl (S k) g') by done. f_equal. lia.
Qed.

(** ** Properties *)

(** A two-group file system: 8 inodes and 16 blocks of 1024 bytes per group. *)
Definition test_sb : ext4_super_block := Eval vm_compute in
  set_s_blocks_count_lo 32 (set_s_blocks_per_group 16 (set_s_inodes_per_group 8
    (set_s_log_block_size 0 (of_bytes (replicate 1024 0))))).

Definition test_ib (b0 b1 : Z) : bitmap :=
  mk_bitmap [mk_bitmap_group [b0] 1024 0; mk_bitmap_group [b1] 9216 0] 2.
Definition test_db (b0 b1 b2 b3 : Z) : bitmap :=
  mk_bitmap [mk_bitmap_group [b0; b1] 2048 0; mk_bitmap_group [b2; b3] 10240 0] 2.

Lemma test_geometry : geometry_ok test_sb.
Proof. vm_compute. done. Defined.

Lemma test_ib_ok b0 b1 : byte_ok b0 → byte_ok b1 →
  bitmap_ok test_sb (EXT4_INODES_PER_GROUP test_sb) (test_ib b0 b1).
Proof. intros. split; [done|]. repeat first [assumption | constructor]. Defined.

Lemma test_db_ok b0 b1 b2 b3 : byte_ok b0 → byte_ok b1 → byte_ok b2 → byte_ok b3 →
  bitmap_ok test_sb (EXT4_BLOCKS_PER_GROUP test_sb) (test_db b0 b1 b2 b3).
Proof.
  intros. split; [done|]. repeat first [assumption | constructor].
Defined.

(** C10: Allocating an inode, for any parent and any well-formed bitmap.
    [bitmap_inode_find] has exactly these outcomes.  It returns the first free
    inode in its order of search: the parent's group, then the following groups
    modulo their number, and in a group the lowest number.  It returns 0 when no
    inode is free and the parent's group is not the last one.  When the parent's
    group is the last one and full it reads past the array of groups, whatever
    the other groups hold.  It aborts when the parent's group does not exist.
    After the first outcome [bitmap_inode_set] marks exactly that inode and keeps
    the bitmap well formed. *)
Theorem inode_alloc_spec (sb : ext4_super_block) (ib : bitmap) (parent : Z)
    (Hgeo : geometry_ok sb) (Hb : bitmap_ok sb (EXT4_INODES_PER_GROUP sb) ib)
    (Hp : 0 ≤ parent) :
  let G := EXT4_N_BLOCK_GROUPS sb in
  let hint := parent / EXT4_INODES_PER_GROUP sb in
  let out := bitmap_inode_find sb ib parent in
  (∃ r ib', out = Ok r ∧
     first_free G (inode_in sb) (inode_group sb) (inode_free sb ib) hint r ∧
     (inode_group sb r = hint ∨ hint + 1 < G) ∧
     bitmap_inode_set sb ib r true = Ok ib' ∧ bitmap_ok sb (EXT4_INODES_PER_GROUP sb) ib' ∧
     ∀ k, 1 ≤ k → inode_used sb ib' k = (k =? r) || inode_used sb ib k) ∨
  (out = Ok 0 ∧ hint + 1 < G ∧ ∀ ino, inode_in sb ino → inode_used sb ib ino = true) ∨
  (out = Fault Undefined ∧ hint + 1 = G ∧
     ∀ ino, inode_in sb ino → inode_group sb ino = hint → inode_used sb ib ino = true) ∨
  (out = Fault AssertFail ∧ G ≤ hint).
Proof.
  cbv zeta.
  destruct (bitmap_inode_find_spec sb Hgeo ib parent Hb Hp)
    as [(r & -> & Hf & Hg)|[(-> & Hl & Hn)|[(-> & Hl & Hn)|Ha]]]; [left | right.. ].
  - destruct (bitmap_inode_set_spec sb Hgeo ib r true Hb (proj1 Hf)) as (ib' & ? & ? & ?).
    by exists r, ib'.
  - left. split_and!; [done..|]. intros ino Hin. by apply negb_false_iff, Hn.
  - right; left. split_and!; [done..|]. intros ino Hin Hg. by apply negb_false_iff, Hn.
  - by right; right.
Qed.

Lemma inode_alloc_spec_witness :
  bitmap_inode_find test_sb (test_ib 255 7) 2 = Ok 12 ∧
  bitmap_inode_find test_sb (test_ib 255 255) 2 = Ok 0 ∧
  bitmap_inode_find test_sb (test_ib 0 255) 9 = Fault Undefined ∧
  first_free (EXT4_N_BLOCK_GROUPS test_sb) (inode_in test_sb) (inode_group test_sb)
    (inode_free test_sb (test_ib 255 7)) (2 / EXT4_INODES_PER_GROUP test_sb) 12.
Proof.
  split_and!; [vm_compute; reflexivity..|].
  destruct (inode_alloc_spec test_sb (test_ib 255 7) 2) as [(r & ib' & Hr & Hf & _)|H].
  - exact test_geometry.
  - apply test_ib_ok; split; done.
  - lia.
  - change (bitmap_inode_find test_sb (test_ib 255 7) 2) with (Ok 12) in Hr. by simplify_eq.
  - change (bitmap_inode_find test_sb (test_ib 255 7) 2) with (Ok 12) in H.
    by destruct H as [[? _]|[[? _]|[? _]]].
Defined.

(** C20: Allocating a cluster of four blocks, for any parent and any
    well-formed bitmap.  [bitmap_pblock_find] has exactly these outcomes.  It
    returns the first entirely free aligned cluster in its order of search: the
    parent's group, then the following groups modulo their number, and in a
    group the lowest number.  It returns [UINT64_MAX] when there is none and the
    parent's group is not the last one.  When the parent's group is the last one
    and has none it reads past the array of groups.  It aborts when the parent's
    group does not exist.  After the first outcome [bitmap_pblock_set] marks
    exactly the four blocks. *)
Theorem pblock_alloc_spec (sb : ext4_super_block) (db : bitmap) (parent n : Z)
    (Hgeo : geometry_ok sb) (Hb : bitmap_ok sb (EXT4_BLOCKS_PER_GROUP sb) db)
    (Hp : 0 ≤ parent) :
  let G := EXT4_N_BLOCK_GROUPS sb in
  let hint := parent / EXT4_INODES_PER_GROUP sb in
  let out := bitmap_pblock_find sb db parent n in
  (∃ r db', out = Ok r ∧
     first_free G (cluster_in sb) (block_group sb) (cluster_free sb db) hint r ∧
     (block_group sb r = hint ∨ hint + 1 < G) ∧
     bitmap_pblock_set sb db r EXT4_INODE_PBLOCK_NUM true = Ok db' ∧
     bitmap_ok sb (EXT4_BLOCKS_PER_GROUP sb) db' ∧
     ∀ k, 0 ≤ k → block_used sb db' k = (r <=? k) && (k <? r + 4) || block_used sb db k) ∨
  (out = Ok UINT64_MAX ∧ hint + 1 < G ∧
     ∀ blk, cluster_in sb blk → cluster_free sb db blk = false) ∨
  (out = Fault Undefined ∧ hint + 1 = G ∧
     ∀ blk, cluster_in sb blk → block_group sb blk = hint → cluster_free sb db blk = false) ∨
  (out = Fault AssertFail ∧ G ≤ hint).
Proof.
  cbv zeta.
  destruct (bitmap_pblock_find_spec sb Hgeo db parent n Hb Hp)
    as [(r & -> & Hf & Hg)|H]; [left | by right].
  destruct (bitmap_pblock_set_spec sb Hgeo db r true Hb (proj1 Hf)) as (db' & ? & ? & ?).
  by exists r, db'.
Qed.

Lemma pblock_alloc_spec_witness :
  bitmap_pblock_find test_sb (test_db 255 1 0 0) 2 1 = Ok 12 ∧
  bitmap_pblock_find test_sb (test_db 17 17 17 17) 2 1 = Ok UINT64_MAX ∧
  bitmap_pblock_find test_sb (test_db 0 0 17 17) 9 1 = Fault Undefined ∧
  first_free (EXT4_N_BLOCK_GROUPS test_sb) (cluster_in test_sb) (block_group test_sb)
    (cluster_free test_sb (test_db 255 1 0 0)) (2 / EXT4_INODES_PER_GROUP test_sb) 12.
Proof.
  split_and!; [vm_compute; reflexivity..|].
  destruct (pblock_alloc_spec test_sb (test_db 255 1 0 0) 2 1) as [(r & db' & Hr & Hf & _)|H].
  - exact test_geometry.
  - apply test_db_ok; split; done.
  - lia.
  - change (bitmap_pblock_find test_sb (test_db 255 1 0 0) 2 1) with (Ok 12) in Hr. by simplify_eq.
  - change (bitmap_pblock_find test_sb (test_db 255 1 0 0) 2 1) with (Ok 12) in H.
    by destruct H as [[? _]|[[? _]|[? _]]].
Defined.

(** Blocks cannot be given back: [bitmap_pblock_free] asks for single
    blocks ([len] = 1), which [bitmap_pblock_set] refuses with [ASSERT(0)],
    so freeing any list whose first range is not empty aborts the program. *)
Lemma pblock_free_aborts (sb : ext4_super_block) (db : bitmap) (r : pblock_range)
    (p_arr : list pblock_range) (Hr : 0 < pr_len r) :
  bitmap_pblock_free sb db (r :: p_arr) = Fault AssertFail.
Proof.
  cbn [bitmap_pblock_free].
  replace (Z.to_nat (pr_len r)) with (S (Z.to_nat (pr_len r - 1))) by lia.
  cbn [pblock_free_range]. unfold bitmap_pblock_set at 1. by destruct (ASSERT _) eqn:E;
    [|unfold ASSERT in E; case_match; simplify_eq].
Qed.

(** The two counters of [bitmap_inode_count] (and of
    [bitmap_pblock_count]) are the number of clear and of set bits of the
    bitmap: the one named "used" counts the clear bits.  They add up to the
    number of inodes (blocks) of the groups. *)
Lemma bitmap_count_spec (sb : ext4_super_block) (ib db : bitmap)
    (Hgeo : geometry_ok sb) (Hi : bitmap_ok sb (EXT4_INODES_PER_GROUP sb) ib)
    (Hd : bitmap_ok sb (EXT4_BLOCKS_PER_GROUP sb) db) :
  let ipg := Z.to_nat (EXT4_INODES_PER_GROUP sb) in
  let bpg := Z.to_nat (EXT4_BLOCKS_PER_GROUP sb) in
  (∃ used free, bitmap_inode_count sb ib = Ok (used, free) ∧
     used = count_bit_groups false (bm_group ib) ipg ∧
     free = count_bit_groups true (bm_group ib) ipg ∧
     used + free = EXT4_N_BLOCK_GROUPS sb * EXT4_INODES_PER_GROUP sb) ∧
  (∃ used free, bitmap_pblock_count sb db = Ok (used, free) ∧
     used = count_bit_groups false (bm_group db) bpg ∧
     free = count_bit_groups true (bm_group db) bpg ∧
     used + free = EXT4_N_BLOCK_GROUPS sb * EXT4_BLOCKS_PER_GROUP sb).
Proof.
  cbv zeta. pose proof Hgeo as (?&?&?&?&?&?&?).
  assert (∀ bmp per, bitmap_ok sb per bmp → 0 < per → per mod 8 = 0 →
    EXT4_N_BLOCK_GROUPS sb * per < 2 ^ 32 →
    count_groups bmp per 0 (Z.to_nat (EXT4_N_BLOCK_GROUPS sb)) (0, 0) =
      Ok (count_bit_groups false (bm_group bmp) (Z.to_nat per),
          count_bit_groups true (bm_group bmp) (Z.to_nat per)) ∧
    count_bit_groups false (bm_group bmp) (Z.to_nat per) +
    count_bit_groups true (bm_group bmp) (Z.to_nat per) = EXT4_N_BLOCK_GROUPS sb * per) as Hc.
  { intros bmp per [Hz Hf] ???. rewrite count_bit_groups_sum, Hz, Z2Nat.id by lia.
    split; [|done]. rewrite <- Hz at 1. unfold zlen. rewrite Nat2Z.id.
    rewrite count_groups_spec with (gs := bm_group bmp); try lia; [done | done |].
    eapply Forall_impl; [done|]. intros g [-> _]. dlia. }
  destruct (Hc ib _ Hi) as [Hci Hsi]; [lia..|]. destruct (Hc db _ Hd) as [Hcd Hsd]; [lia..|].
  split; eexists _, _; split_and!; done.
Qed.

(** [bitmap_init] loads the bitmaps of every group: an inode (a block) is in
    use exactly when its bit is set in the bitmap block its group descriptor
    points to. *)
Definition bitmap_of_disk (sb : ext4_super_block) (d : disk_t) (f : ext4_group_desc → Z) (per : Z)
    (gdt : list ext4_group_desc) : bitmap :=
  mk_bitmap (map (λ g, group_of_disk sb d (f g) per) gdt) (zlen gdt).

Section bitmap_of_disk.
Context (sb : ext4_super_block) (gdt : list ext4_group_desc) (d : disk_t).
Context (Hgeo : geometry_ok sb) (Hgdt : zlen gdt = EXT4_N_BLOCK_GROUPS sb) (Hok : disk_bytes_ok d).
Local Abbreviation ib := (bitmap_of_disk sb d EXT4_DESC_INO_BITMAP (EXT4_INODES_PER_GROUP sb) gdt).
Local Abbreviation db := (bitmap_of_disk sb d EXT4_DESC_BLOCK_BITMAP (EXT4_BLOCKS_PER_GROUP sb) gdt).

Lemma bitmap_init_run : 0 ≤ disk_fd d → disk_len d < 2 ^ 63 → Forall (desc_in sb d) gdt →
  bitmap_init sb gdt d = Ok (ib, db).
Proof.
  intros Hfd Hlen Hin. destruct (N_GROUPS_small sb Hgeo) as [HG HG']. pose proof Hgeo as (?&?&?&?&?&?&?).
  unfold bitmap_init. rewrite HG', <- Hgdt. unfold zlen at 1. rewrite Nat2Z.id.
  rewrite bitmap_init_loop_spec by
    (done || (rewrite MAX_RW_COUNT_eq; split; [dlia|]; apply Z.lt_le_incl, Z.div_lt_upper_bound; nia)).
  done.
Qed.

Lemma bitmap_of_disk_ok f per : 0 ≤ per → bitmap_ok sb per (bitmap_of_disk sb d f per gdt).
Proof.
  intros Hper. split; cbn [bm_group bitmap_of_disk].
  - rewrite <- Hgdt. unfold zlen. by rewrite length_map.
  - apply Forall_map, Forall_true. intros g. cbn. unfold zlen. rewrite length_read_bytes.
    split; [dlia | by apply read_bytes_ok].
Qed.

Lemma inode_used_of_disk g desc i : gdt !! g = Some desc → 0 ≤ i < EXT4_INODES_PER_GROUP sb →
  inode_used sb ib (Z.of_nat g * EXT4_INODES_PER_GROUP sb + i + 1) =
  disk_bit d (BLOCKS2BYTES sb (EXT4_DESC_INO_BITMAP desc)) i.
Proof.
  intros Hg Hi. pose proof Hgeo as (?&?&?&?&?&?&?). rewrite inode_used_group with
    (grp := group_of_disk sb d (EXT4_DESC_INO_BITMAP desc) (EXT4_INODES_PER_GROUP sb));
    [apply bit_at_read_bytes; dlia | done | lia |].
  cbn. by rewrite Nat2Z.id, list_lookup_fmap, Hg.
Qed.

Lemma block_used_of_disk g desc i : gdt !! g = Some desc → 0 ≤ i < EXT4_BLOCKS_PER_GROUP sb →
  block_used sb db (Z.of_nat g * EXT4_BLOCKS_PER_GROUP sb + i) =
  disk_bit d (BLOCKS2BYTES sb (EXT4_DESC_BLOCK_BITMAP desc)) i.
Proof.
  intros Hg Hi. pose proof Hgeo as (?&?&?&?&?&?&?). rewrite block_used_group with
    (grp := group_of_disk sb d (EXT4_DESC_BLOCK_BITMAP desc) (EXT4_BLOCKS_PER_GROUP sb));
    [apply bit_at_read_bytes; dlia | done | lia |].
  cbn. by rewrite Nat2Z.id, list_lookup_fmap, Hg.
Qed.
End bitmap_of_disk.

(** A counter of a descriptor split in two 16-bit members. *)
Lemma halves_store x : 0 ≤ x < 2 ^ 32 →
  u32 (Z.lor (Z.land x MASK_16) (Z.shiftl (u16 (Z.shiftr x 16)) 16)) = x.
Proof.
  intros. unfold u16. rewrite <- (land_mask_16 (Z.shiftr x 16)), halves_16 by done.
  unfold u32. by rewrite Z.mod_small.
Qed.

Lemma u32_range x : 0 ≤ u32 x < 2 ^ 32.
Proof. apply Z.mod_pos_bound. lia. Qed.

(** [gdt_update] charges one inode and one block to the group of the
    inode: the 32-bit counters of free blocks, free inodes and unused inodes
    go down by one (modulo 2^32), the directory counter goes up by one unless
    it is at its maximum, the descriptor becomes dirty, the addresses it holds
    and every other descriptor stay. *)
Lemma gdt_update_spec (sb : ext4_super_block) (gdt : list ext4_group_desc) (inode_idx : Z)
    (g : ext4_group_desc) (Hg : arr_get gdt (inode_idx / EXT4_INODES_PER_GROUP sb) = Ok g)
    (Hr : inode_idx / EXT4_INODES_PER_GROUP sb < 2 ^ 31) :
  ∃ gdt' g', gdt_update sb gdt inode_idx = Ok gdt' ∧
    arr_get gdt' (inode_idx / EXT4_INODES_PER_GROUP sb) = Ok g' ∧
    (∀ k, k ≠ inode_idx / EXT4_INODES_PER_GROUP sb → arr_get gdt' k = arr_get gdt k) ∧
    EXT4_GDT_FREE_BLOCKS g' = u32 (EXT4_GDT_FREE_BLOCKS g - 1) ∧
    EXT4_GDT_FREE_INODES g' = u32 (EXT4_GDT_FREE_INODES g - 1) ∧
    EXT4_GDT_ITABLE_UNUSED g' = u32 (EXT4_GDT_ITABLE_UNUSED g - 1) ∧
    EXT4_GDT_USED_DIRS g' = (if EXT4_GDT_USED_DIRS g =? EXT4_GDT_MAX_USED_DIRS
                             then EXT4_GDT_USED_DIRS g else EXT4_GDT_USED_DIRS g + 1) ∧
    EXT4_GDT_DIRTY_FLAG g' = EXT4_GDT_DIRTY ∧
    EXT4_DESC_INO_BITMAP g' = EXT4_DESC_INO_BITMAP g ∧
    EXT4_DESC_BLOCK_BITMAP g' = EXT4_DESC_BLOCK_BITMAP g ∧
    EXT4_DESC_INODE_TABLE g' = EXT4_DESC_INODE_TABLE g.
Proof.
  pose proof (arr_get_inv _ _ _ Hg) as [Hrange _].
  unfold gdt_update. rewrite s32_small, Hg by lia. cbn [obind]. cbv zeta.
  rewrite arr_set_Ok by done. eexists _, _; split; [done|]. split.
  { eapply arr_get_set_same. by rewrite arr_set_Ok. }
  split. { intros k Hk. eapply arr_get_set_ne; [by rewrite arr_set_Ok | done]. }
  split_and!; try done; try (apply halves_store; apply u32_range).
  pose proof (u32_range (Z.lor (bg_used_dirs_count_lo g) (Z.shiftl (bg_used_dirs_count_hi g) 16)))
    as Hu. fold (EXT4_GDT_USED_DIRS g) in Hu.
  etransitivity; [apply halves_store|]; change (EXT4_GDT_USED_DIRS (_ _)) with (EXT4_GDT_USED_DIRS g);
    change EXT4_GDT_MAX_USED_DIRS with (2 ^ 32 - 1);
    destruct (Z.eqb_spec (EXT4_GDT_USED_DIRS g) (2 ^ 32 - 1)); try done; [apply u32_range|].
  unfold u32. by rewrite Z.mod_small by lia.
Qed.
