(* ===== verification/Alloc.v ===== *)
(** * Allocation as an interface

    Inodes and block clusters are allocated the same way all over the
    handlers ([op_create], [op_mkdir], [op_symlink], [op_write], [ctl_add]):
    a [find] gives a unit or a "none" value, a [set] marks it.  The class
    states what the two operations promise; the inode bitmap and the block
    bitmap of [src/src/bitmap.c] are its instances.  What clients rely on, that
    successive allocations never hand out a unit twice, is proved once against
    the interface. *)

From S2P Require Import Prelude Ext4 Bitmap.
From stdpp Require Import base numbers list.
From Stdlib Require Import ZArith Lia.

Open Scope Z_scope.
Open Scope kfs_scope.

(** ** The interface *)

Class Allocator (S : Type) := {
  alloc_find : S → Z → outcome Z;      (** with a hint *)
  alloc_mark : S → Z → outcome S;
  alloc_none : Z;
  alloc_unit : Z → Prop;               (** the units there are *)
  alloc_free : S → Z → bool;
  alloc_stuck : S → Z → Prop;          (** hints from which the search fails *)
  alloc_ok : S → Prop
}.

Class AllocatorLaws (S : Type) `{Allocator S} := {
  alloc_find_law s h : alloc_ok s → 0 ≤ h →
    (alloc_stuck s h ∧ ∃ f, alloc_find s h = Fault f) ∨
    (¬ alloc_stuck s h ∧ ∃ r, alloc_find s h = Ok r ∧
      ((r = alloc_none ∧ ∀ k, alloc_unit k → alloc_free s k = false) ∨
       (alloc_unit r ∧ alloc_free s r = true)));
  alloc_none_law : ¬ alloc_unit alloc_none;
  alloc_mark_law s r : alloc_ok s → alloc_unit r →
    ∃ s', alloc_mark s r = Ok s' ∧ alloc_ok s' ∧
      ∀ k, alloc_unit k → alloc_free s' k = negb (k =? r) && alloc_free s k
}.

(** ** A client: one allocation per hint, until there is none *)

Section client.
Context {S : Type} {A : Allocator S} {L : AllocatorLaws S}.

Fixpoint alloc_many (s : S) (hints : list Z) : outcome (list Z * S) :=
  match hints with
  | [] => Ok ([], s)
  | h :: hints =>
    r ← alloc_find s h;
    if r =? alloc_none then Ok ([], s)
    else
      s ← alloc_mark s r;
      '(rs, s) ← alloc_many s hints;
      Ok (r :: rs, s)
  end.

(** What the allocations [rs] made of the state [s]: every unit was free and
    is handed out once, and nothing else is taken. *)
Definition allocated (s s' : S) (rs : list Z) : Prop :=
  alloc_ok s' ∧ NoDup rs ∧ Forall (λ r, alloc_unit r ∧ alloc_free s r = true) rs ∧
  ∀ k, alloc_unit k → alloc_free s' k = alloc_free s k && negb (bool_decide (k ∈ rs)).

Lemma allocated_nil s : alloc_ok s → allocated s s [].
Proof.
  intros. split_and!; [done | constructor | constructor |].
  intros k _. by rewrite andb_true_r.
Qed.

Lemma allocated_cons s s1 s' r rs : alloc_unit r → alloc_free s r = true →
  (∀ k, alloc_unit k → alloc_free s1 k = negb (k =? r) && alloc_free s k) →
  allocated s1 s' rs → allocated s s' (r :: rs).
Proof.
  intros Hu Hf Hf1 (Hok & Hnd & Hall & Hrest). split_and!; [done | | |].
  - constructor; [|done]. intros Hin. rewrite Forall_forall in Hall.
    destruct (Hall r Hin) as [_ Hff]. rewrite Hf1, Z.eqb_refl in Hff by done. done.
  - constructor; [done|]. eapply Forall_impl; [done|]. intros k [Hk Hkf].
    split; [done|]. rewrite Hf1 in Hkf by done. by apply andb_true_iff in Hkf as [_ ?].
  - intros k Hk. rewrite Hrest, Hf1 by done.
    rewrite (bool_decide_ext (k ∈ r :: rs) (k = r ∨ k ∈ rs)) by apply elem_of_cons.
    destruct (Z.eqb_spec k r) as [->|Hne].
    + rewrite (bool_decide_true (r = r ∨ r ∈ rs)) by auto. by rewrite andb_false_r.
    + cbn [negb andb]. do 2 f_equal. apply bool_decide_ext.
      split; [by right | by intros [?|?]].
Qed.

(** Any sequence of allocations: a prefix of it returns with its units
    allocated, fewer of them than calls only when none is left; and that prefix
    is the whole sequence, or the next call is stuck. *)
Lemma alloc_many_spec s hints : alloc_ok s → Forall (λ h, 0 ≤ h) hints →
  ∃ n rs s', alloc_many s (take n hints) = Ok (rs, s') ∧ allocated s s' rs ∧
    (length rs ≠ length (take n hints) → ∀ k, alloc_unit k → alloc_free s' k = false) ∧
    (take n hints = hints ∨
     length rs = n ∧ ∃ h f, hints !! n = Some h ∧ alloc_stuck s' h ∧
       alloc_many s hints = Fault f).
Proof.
  intros Hok Hh. revert s Hok. induction Hh as [|h hints Hh _ IH]; intros s Hok.
  { exists 0%nat, [], s. split_and!; [done | by apply allocated_nil | done | by left]. }
  destruct (alloc_find_law s h Hok Hh) as [[Hst [f Hf]]|(_ & r & Hfd & Hr)].
  { exists 0%nat, [], s. split_and!; [done | by apply allocated_nil | done |].
    right. split; [done|]. exists h, f. cbn [alloc_many]. by rewrite Hf. }
  destruct (Z.eqb_spec r alloc_none) as [->|Hn].
  { destruct Hr as [[_ Hfull]|[Hu _]]; [|by apply alloc_none_law in Hu].
    exists (length (h :: hints)), [], s. rewrite take_ge by done. cbn [alloc_many].
    rewrite Hfd. cbn [obind]. rewrite Z.eqb_refl.
    split_and!; [done | by apply allocated_nil | done | by left]. }
  destruct Hr as [[? _]|[Hu Hf]]; [done|].
  destruct (alloc_mark_law s r Hok Hu) as (s1 & Hm & Hok1 & Hf1).
  destruct (IH s1 Hok1) as (n & rs & s' & Hrun & Hal & Hfew & Hend).
  exists (Datatypes.S n), (r :: rs), s'. cbn [take alloc_many length lookup list_lookup].
  rewrite Hfd. cbn [obind]. rewrite (proj2 (Z.eqb_neq _ _) Hn), Hm. cbn [obind].
  rewrite Hrun. split_and!; [done | by eapply allocated_cons | |].
  - intros Hl. apply Hfew. lia.
  - destruct Hend as [->|(<- & h' & f & ? & ? & Hmany)]; [by left | right].
    split; [done|]. exists h', f. by rewrite Hmany.
Qed.
End client.

(** ** The instances *)

Section instances.
Context (sb : ext4_super_block) (Hgeo : geometry_ok sb).

(** Parents for which the search does not return: their group does not
    exist, or it is the last one and has no free unit. *)
Definition inode_stuck (ib : bitmap) (parent : Z) : Prop :=
  let hint := parent / EXT4_INODES_PER_GROUP sb in
  EXT4_N_BLOCK_GROUPS sb ≤ hint ∨
  hint + 1 = EXT4_N_BLOCK_GROUPS sb ∧
    ∀ k, inode_in sb k → inode_group sb k = hint → inode_free sb ib k = false.
Definition cluster_stuck (db : bitmap) (parent : Z) : Prop :=
  let hint := parent / EXT4_INODES_PER_GROUP sb in
  EXT4_N_BLOCK_GROUPS sb ≤ hint ∨
  hint + 1 = EXT4_N_BLOCK_GROUPS sb ∧
    ∀ k, cluster_in sb k → block_group sb k = hint → cluster_free sb db k = false.

Definition inode_allocator : Allocator bitmap := {|
  alloc_find := bitmap_inode_find sb;
  alloc_mark ib ino := bitmap_inode_set sb ib ino true;
  alloc_none := 0;
  alloc_unit := inode_in sb;
  alloc_free := inode_free sb;
  alloc_stuck := inode_stuck;
  alloc_ok := bitmap_ok sb (EXT4_INODES_PER_GROUP sb)
|}.

(** [EXT4_INODE_PBLOCK_NUM] blocks at a time, as [inode_init_pblock] does. *)
Definition cluster_allocator : Allocator bitmap := {|
  alloc_find db parent := bitmap_pblock_find sb db parent EXT4_INODE_PBLOCK_NUM;
  alloc_mark db blk := bitmap_pblock_set sb db blk EXT4_INODE_PBLOCK_NUM true;
  alloc_none := UINT64_MAX;
  alloc_unit := cluster_in sb;
  alloc_free := cluster_free sb;
  alloc_stuck := cluster_stuck;
  alloc_ok := bitmap_ok sb (EXT4_BLOCKS_PER_GROUP sb)
|}.

Lemma inode_allocator_laws : @AllocatorLaws bitmap inode_allocator.
Proof.
  split; cbn.
  - intros ib h Hok Hh. unfold inode_stuck.
    destruct (bitmap_inode_find_spec sb Hgeo ib h Hok Hh)
      as [(r & -> & (Hin & Hf & _) & Hg)|[(-> & ? & ?)|[(-> & ? & ?)|[-> ?]]]]; [| |left; eauto..].
    + right. split; [|eauto]. intros [?|[? Hn]]; [|by destruct Hg as [Hg|?]; [rewrite Hn in Hf|lia]].
      destruct (inode_group_split sb Hgeo r Hin) as (? & ? & _). lia.
    + right. split; [lia | eauto].
  - unfold inode_in. lia.
  - intros ib ino Hok Hin. destruct (bitmap_inode_set_spec sb Hgeo ib ino true Hok Hin)
      as (ib' & -> & Hok' & Hs).
    exists ib'. split_and!; try done. intros k Hk. unfold inode_free.
    rewrite Hs by (unfold inode_in in Hk; lia). by destruct (k =? ino).
Qed.

Lemma cluster_allocator_laws : @AllocatorLaws bitmap cluster_allocator.
Proof.
  split; cbn.
  - intros db h Hok Hh. unfold cluster_stuck.
    destruct (bitmap_pblock_find_spec sb Hgeo db h EXT4_INODE_PBLOCK_NUM Hok Hh)
      as [(r & -> & (Hin & Hf & _) & Hg)|[(-> & ? & ?)|[(-> & ? & ?)|[-> ?]]]]; [| |left; eauto..].
    + right. split; [|eauto]. intros [?|[? Hn]]; [|by destruct Hg as [Hg|?]; [rewrite Hn in Hf|lia]].
      destruct (block_group_split sb Hgeo r Hin) as (? & ? & _). lia.
    + right. split; [lia | eauto].
  - unfold cluster_in, UINT64_MAX. pose proof Hgeo as (?&?&?&?&?&?&?). lia.
  - intros db blk Hok Hin. destruct (bitmap_pblock_set_spec sb Hgeo db blk true Hok Hin)
      as (db' & -> & Hok' & Hs).
    exists db'. split_and!; try done. intros k Hk. unfold cluster_free.
    destruct Hin as [Hin Hm], Hk as [Hk Hkm]. rewrite !Hs by lia.
    destruct (Z.eqb_spec k blk) as [->|Hne].
    + by rewrite (proj2 (Z.leb_le blk blk)), (proj2 (Z.ltb_lt blk (blk + 4))) by lia.
    + assert (k + 4 ≤ blk ∨ blk + 4 ≤ k) as Hap by dlia.
      assert (∀ j, 0 ≤ j < 4 → (blk <=? k + j) && (k + j <? blk + 4) = false) as Ho.
      { intros j Hj. destruct (Z.leb_spec blk (k + j)), (Z.ltb_spec (k + j) (blk + 4)); lia. }
      pose proof (Ho 0 ltac:(lia)) as H0. rewrite Z.add_0_r in H0. by rewrite H0, !Ho by lia.
Qed.
End instances.

(** ** Properties *)

(** C27: Successive allocations hand out no inode and no block cluster
    twice, for any sequence of parents.  Some prefix of the calls returns: its
    units are distinct and were free, exactly they are taken afterwards, and
    there are fewer units than calls only when nothing is left.  That prefix is
    the whole sequence, or the parent of the next call is in a group that does
    not exist, or in the last group with nothing free there: the calls then
    abort or read past the array of groups. *)
Theorem allocations_distinct (sb : ext4_super_block) (ib db : bitmap) (parents : list Z)
    (Hgeo : geometry_ok sb) (Hi : bitmap_ok sb (EXT4_INODES_PER_GROUP sb) ib)
    (Hd : bitmap_ok sb (EXT4_BLOCKS_PER_GROUP sb) db) (Hp : Forall (λ p, 0 ≤ p) parents) :
  (∃ n inos ib', alloc_many (A := inode_allocator sb) ib (take n parents) = Ok (inos, ib') ∧
     NoDup inos ∧ Forall (λ ino, inode_in sb ino ∧ inode_used sb ib ino = false) inos ∧
     (∀ k, inode_in sb k → inode_used sb ib' k = inode_used sb ib k || bool_decide (k ∈ inos)) ∧
     (length inos ≠ length (take n parents) → ∀ k, inode_in sb k → inode_used sb ib' k = true) ∧
     (take n parents = parents ∨
      length inos = n ∧ ∃ p f, parents !! n = Some p ∧ inode_stuck sb ib' p ∧
        alloc_many (A := inode_allocator sb) ib parents = Fault f)) ∧
  (∃ n blks db', alloc_many (A := cluster_allocator sb) db (take n parents) = Ok (blks, db') ∧
     NoDup blks ∧ Forall (λ blk, cluster_in sb blk ∧ cluster_free sb db blk = true) blks ∧
     (∀ k, cluster_in sb k →
        cluster_free sb db' k = cluster_free sb db k && negb (bool_decide (k ∈ blks))) ∧
     (length blks ≠ length (take n parents) →
        ∀ k, cluster_in sb k → cluster_free sb db' k = false) ∧
     (take n parents = parents ∨
      length blks = n ∧ ∃ p f, parents !! n = Some p ∧ cluster_stuck sb db' p ∧
        alloc_many (A := cluster_allocator sb) db parents = Fault f)).
Proof.
  split.
  - destruct (alloc_many_spec (A := inode_allocator sb) (L := inode_allocator_laws sb Hgeo)
      ib parents Hi Hp) as (n & inos & ib' & He & (_ & Hnd & Hall & Hk) & Hf & Hend).
    exists n, inos, ib'. cbn in *. unfold inode_free in *. split_and!; try done.
    + eapply Forall_impl; [done|]. intros k [? Hu]. by apply negb_true_iff in Hu.
    + intros k Hin. specialize (Hk k Hin). destruct (inode_used sb ib' k), (inode_used sb ib k),
        (bool_decide (k ∈ inos)); done.
    + intros Hl k Hin. by apply negb_false_iff, Hf.
  - destruct (alloc_many_spec (A := cluster_allocator sb) (L := cluster_allocator_laws sb Hgeo)
      db parents Hd Hp) as (n & blks & db' & He & (_ & Hnd & Hall & Hk) & Hf & Hend).
    by exists n, blks, db'.
Qed.

(** From group 0 the five calls take what is free in both groups; the fifth
    finds nothing.  With the last parent in group 1 it would be stuck. *)
Lemma allocations_distinct_witness :
  (∃ ib', alloc_many (A := inode_allocator test_sb) (test_ib 127 31) [2; 2; 5; 2; 2] =
     Ok ([8; 14; 15; 16], ib')) ∧
  alloc_many (A := inode_allocator test_sb) (test_ib 127 127) [9; 9; 2] = Fault Undefined ∧
  ∃ n inos ib', alloc_many (A := inode_allocator test_sb) (test_ib 127 127) (take n [9; 9; 2]) =
    Ok (inos, ib') ∧ NoDup inos.
Proof.
  split; [eexists; vm_compute; reflexivity|]. split; [vm_compute; reflexivity|].
  destruct (allocations_distinct test_sb (test_ib 127 127) (test_db 255 1 0 0) [9; 9; 2])
    as [(n & inos & ib' & He & Hnd & _) _].
  - apply test_geometry.
  - by apply test_ib_ok.
  - by apply test_db_ok.
  - repeat constructor; lia.
  - by exists n, inos, ib'.
Defined.
