(* ===== verification/InodeMap.v ===== *)
(** * What an inode says

    The part of [src/src/inode.c] that reads inodes without touching the
    caches: the place of an inode in the inode tables ([inode_get_offset]),
    the map from logical to physical blocks ([inode_get_data_pblock], extents
    or direct/indirect pointers), the list of blocks to free
    ([inode_get_all_pblocks]), the permission check and the file type. *)

From S2P Require Import Prelude Ext4 Disk Bitmap Extents.
From stdpp Require Import base numbers list.
From Stdlib Require Import ZArith Lia.

Open Scope Z_scope.
Open Scope kfs_scope.

(** ** The inode tables *)

Definition inode_get_offset (sb : ext4_super_block) (gdt : list ext4_group_desc)
    (inode_idx : Z) : outcome Z :=
  ASSERT (negb (inode_idx =? 0)) ;;
  let inode_idx := u32 (inode_idx - 1) in
  let group_idx := inode_idx / EXT4_INODES_PER_GROUP sb in
  ASSERT (group_idx <? EXT4_N_BLOCK_GROUPS sb) ;;
  g ← arr_get gdt group_idx;
  Ok (u64 (BLOCKS2BYTES sb (EXT4_DESC_INODE_TABLE g) +
           u32 (inode_idx mod EXT4_INODES_PER_GROUP sb * EXT4_S_INODE_SIZE sb))).

(** ** Block pointers *)

Definition ADDRESSES_IN_IND_BLOCK (sb : ext4_super_block) : Z := EXT4_BLOCK_SIZE sb / 4.
Definition ADDRESSES_IN_DIND_BLOCK (sb : ext4_super_block) : Z :=
  u64 (ADDRESSES_IN_IND_BLOCK sb * ADDRESSES_IN_IND_BLOCK sb).
Definition ADDRESSES_IN_TIND_BLOCK (sb : ext4_super_block) : Z :=
  u64 (ADDRESSES_IN_DIND_BLOCK sb * ADDRESSES_IN_IND_BLOCK sb).
Definition MAX_IND_BLOCK (sb : ext4_super_block) : Z :=
  u64 (EXT4_NDIR_BLOCKS + ADDRESSES_IN_IND_BLOCK sb).
Definition MAX_DIND_BLOCK (sb : ext4_super_block) : Z :=
  u64 (MAX_IND_BLOCK sb + ADDRESSES_IN_DIND_BLOCK sb).
Definition MAX_TIND_BLOCK (sb : ext4_super_block) : Z :=
  u64 (MAX_DIND_BLOCK sb + ADDRESSES_IN_TIND_BLOCK sb).

Definition inode_get_data_pblock_ind (sb : ext4_super_block) (d : disk_t)
    (lblock index_block : Z) : outcome Z :=
  ASSERT (lblock <? ADDRESSES_IN_IND_BLOCK sb) ;;
  disk_read_u32 d (u64 (BLOCKS2BYTES sb index_block + lblock * 4)).

Definition inode_get_data_pblock_dind (sb : ext4_super_block) (d : disk_t)
    (lblock dindex_block : Z) : outcome Z :=
  ASSERT (lblock <? ADDRESSES_IN_DIND_BLOCK sb) ;;
  let index_block_offset_in_dindex := u32 (lblock / ADDRESSES_IN_IND_BLOCK sb * 4) in
  let lblock := lblock mod ADDRESSES_IN_IND_BLOCK sb in
  index_block ← disk_read_u32 d (u64 (BLOCKS2BYTES sb dindex_block + index_block_offset_in_dindex));
  inode_get_data_pblock_ind sb d lblock index_block.

Definition inode_get_data_pblock_tind (sb : ext4_super_block) (d : disk_t)
    (lblock tindex_block : Z) : outcome Z :=
  ASSERT (lblock <? ADDRESSES_IN_TIND_BLOCK sb) ;;
  let dindex_block_offset_in_tindex := u32 (lblock / ADDRESSES_IN_DIND_BLOCK sb * 4) in
  let lblock := u32 (lblock mod ADDRESSES_IN_DIND_BLOCK sb) in
  dindex_block ← disk_read_u32 d
    (u64 (BLOCKS2BYTES sb tindex_block + dindex_block_offset_in_tindex));
  inode_get_data_pblock_dind sb d lblock dindex_block.

(** [inode->i_block[i]]. *)
Definition i_block_at (inode : ext4_inode) (i : Z) : outcome Z := buf_load 4 (i_block inode) (4 * i).

(** The physical block and the value stored through [extent_len], if any
    (only the extent lookup stores one). *)
Definition inode_get_data_pblock (sb : ext4_super_block) (d : disk_t) (inode : ext4_inode)
    (lblock : Z) : outcome (Z * option Z) :=
  if has (i_flags inode) EXT4_EXTENTS_FL then extent_get_pblock sb d (i_block inode) lblock
  else
    ASSERT (lblock <=? BYTES2BLOCKS sb (EXT4_INODE_GET_SIZE inode)) ;;
    p ← (if lblock <? EXT4_NDIR_BLOCKS then i_block_at inode lblock
         else if lblock <? MAX_IND_BLOCK sb then
           index_block ← i_block_at inode EXT4_IND_BLOCK;
           inode_get_data_pblock_ind sb d (u32 (lblock - EXT4_NDIR_BLOCKS)) index_block
         else if lblock <? MAX_DIND_BLOCK sb then
           dindex_block ← i_block_at inode EXT4_DIND_BLOCK;
           inode_get_data_pblock_dind sb d (u32 (lblock - MAX_IND_BLOCK sb)) dindex_block
         else if lblock <? MAX_TIND_BLOCK sb then
           tindex_block ← i_block_at inode EXT4_TIND_BLOCK;
           inode_get_data_pblock_tind sb d (u32 (lblock - MAX_DIND_BLOCK sb)) tindex_block
         else Fault AssertFail);
    Ok (p, None).

(** ** The blocks to free *)

Fixpoint get_ranges (exts : list Z) (i : Z) (n : nat) : outcome (list pblock_range) :=
  match n with
  | O => Ok []
  | S n =>
    ee ← ee_at exts i;
    r ← get_ranges exts (i + 1) n;
    Ok (mk_pblock_range (EXT4_EXT_GET_PADDR ee) (ee_len ee) :: r)
  end.

(** The [pblock_arr] filled in; [len] is the length of the list. *)
Definition inode_get_all_pblocks (inode : ext4_inode) : outcome (list pblock_range) :=
  if has (i_flags inode) EXT4_EXTENTS_FL then
    eh ← eh_of (i_block inode);
    if eh_depth eh =? 0 then
      if eh_entries eh =? 0 then Ok []
      else
        ASSERT (eh_magic eh =? EXT4_EXT_MAGIC) ;;
        get_ranges (i_block inode) 0 (Z.to_nat (eh_entries eh))
    else Fault AssertFail
  else Fault AssertFail.

(** ** Permissions and types *)

Inductive access_mode_t : Set := READ | WRITE | RDWR | EXEC.

Definition S_IRUSR : Z := 0x100.
Definition S_IWUSR : Z := 0x80.
Definition S_IXUSR : Z := 0x40.
Definition S_IRGRP : Z := 0x20.
Definition S_IWGRP : Z := 0x10.
Definition S_IXGRP : Z := 0x8.
Definition S_IROTH : Z := 0x4.
Definition S_IWOTH : Z := 0x2.
Definition S_IXOTH : Z := 0x1.

(** [struct fuse_context]: the caller; [None] is the NULL [fuse_get_context]
    may return. *)
Record fuse_context := mk_fuse_context { fc_uid : Z; fc_gid : Z; fc_umask : Z }.

Definition ctx_uid (cntx : option fuse_context) : Z := from_option fc_uid 0 cntx.
Definition ctx_gid (cntx : option fuse_context) : Z := from_option fc_gid 0 cntx.

(** The condition the three checks repeat, over the bits of one class. *)
Definition mode_grants (i_mode : Z) (mode : access_mode_t) (r w x : Z) : bool :=
  match mode with
  | READ => has i_mode r
  | WRITE => has i_mode w
  | RDWR => has i_mode r && has i_mode w
  | EXEC => has i_mode x
  end.

Definition inode_check_permission (cntx : option fuse_context) (inode : ext4_inode)
    (mode : access_mode_t) : Z :=
  let uid := ctx_uid cntx in
  let gid := ctx_gid cntx in
  let i_uid := EXT4_INODE_GET_UID inode in
  let i_gid := EXT4_INODE_GET_GID inode in
  if uid =? 0 then 0
  else if (i_uid =? uid) && mode_grants (i_mode inode) mode S_IRUSR S_IWUSR S_IXUSR then 0
  else if i_gid =? gid then
    if mode_grants (i_mode inode) mode S_IRGRP S_IWGRP S_IXGRP then 0 else - EACCES
  else
    if mode_grants (i_mode inode) mode S_IROTH S_IWOTH S_IXOTH then 0 else - EACCES.

Definition inode_mode2type (mode : Z) : Z :=
  if has mode S_IFDIR then EXT4_FT_DIR
  else if has mode S_IFREG then EXT4_FT_REG_FILE
  else if has mode S_IFLNK then EXT4_FT_SYMLINK
  else if has mode S_IFCHR then EXT4_FT_CHRDEV
  else if has mode S_IFBLK then EXT4_FT_BLKDEV
  else if has mode S_IFIFO then EXT4_FT_FIFO
  else if has mode S_IFSOCK then EXT4_FT_SOCK
  else EXT4_FT_UNKNOWN.

(** ** Reference definitions *)

(** The way to a logical block through the pointers of an inode: the member
    of [i_block] to start from, and the entry taken in each index block. *)
Definition ind_path (sb : ext4_super_block) (lblock : Z) : Z * list Z :=
  let A := EXT4_BLOCK_SIZE sb / 4 in
  if lblock <? 12 then (lblock, [])
  else let l := lblock - 12 in
  if l <? A then (12, [l])
  else let l := l - A in
  if l <? A * A then (13, [l / A; l mod A])
  else let l := l - A * A in
  (14, [l / (A * A); l / A mod A; l mod A]).

(** Entry [i] of an index block, and of those the path goes through. *)
Fixpoint ind_walk (sb : ext4_super_block) (d : disk_t) (blk : Z) (path : list Z) : outcome Z :=
  match path with
  | [] => Ok blk
  | i :: path => blk ← disk_read_u32 d (u64 (BLOCKS2BYTES sb blk + 4 * i)); ind_walk sb d blk path
  end.

(** The permission bits a mode asks for, as offsets in the three bits of a
    class (4, 2 and 1: read, write, execute), and whether a class has them.  The
    bits of the owner start at bit 6 of the mode, those of the group at bit 3,
    those of the others at bit 0. *)
Definition bits_asked (mode : access_mode_t) : list Z :=
  match mode with READ => [2] | WRITE => [1] | RDWR => [2; 1] | EXEC => [0] end.
Definition class_has (i_mode class : Z) (mode : access_mode_t) : Prop :=
  Forall (λ b, Z.testbit i_mode (class + b) = true) (bits_asked mode).

(** The file type by the format field of the mode, as [S_ISDIR] and the
    like read it. *)
Definition mode_format_type (mode : Z) : Z :=
  let f := Z.land mode S_IFMT in
  if f =? S_IFDIR then EXT4_FT_DIR
  else if f =? S_IFREG then EXT4_FT_REG_FILE
  else if f =? S_IFLNK then EXT4_FT_SYMLINK
  else if f =? S_IFCHR then EXT4_FT_CHRDEV
  else if f =? S_IFBLK then EXT4_FT_BLKDEV
  else if f =? S_IFIFO then EXT4_FT_FIFO
  else if f =? S_IFSOCK then EXT4_FT_SOCK
  else EXT4_FT_UNKNOWN.

(** ** Lemmas *)

(** Block sizes 1K to 64K: the constants of the index blocks do not wrap. *)
Lemma addresses_eq sb : 0 ≤ s_log_block_size sb ≤ 6 →
  let A := EXT4_BLOCK_SIZE sb / 4 in
  256 ≤ A ≤ 2 ^ 14 ∧ ADDRESSES_IN_IND_BLOCK sb = A ∧ ADDRESSES_IN_DIND_BLOCK sb = A * A ∧
  ADDRESSES_IN_TIND_BLOCK sb = A * A * A ∧ MAX_IND_BLOCK sb = 12 + A ∧
  MAX_DIND_BLOCK sb = 12 + A + A * A ∧ MAX_TIND_BLOCK sb = 12 + A + A * A + A * A * A.
Proof.
  intros Hl A. assert (256 ≤ A ≤ 2 ^ 14) as HA.
  { unfold A. rewrite EXT4_BLOCK_SIZE_pow2 by lia.
    pose proof (Z.pow_le_mono_r 2 10 (s_log_block_size sb + 10) ltac:(lia) ltac:(lia)).
    pose proof (Z.pow_le_mono_r 2 (s_log_block_size sb + 10) 16 ltac:(lia) ltac:(lia)). dlia. }
  assert (0 ≤ A * A ≤ 2 ^ 28) as HAA by nia.
  assert (0 ≤ A * A * A ≤ 2 ^ 42) by nia.
  unfold MAX_TIND_BLOCK, MAX_DIND_BLOCK, MAX_IND_BLOCK, ADDRESSES_IN_TIND_BLOCK,
    ADDRESSES_IN_DIND_BLOCK, ADDRESSES_IN_IND_BLOCK, EXT4_NDIR_BLOCKS, u64.
  fold A. rewrite !(Z.mod_small (A * A)), !(Z.mod_small (A * A * A)), !(Z.mod_small (12 + A)) by lia.
  rewrite !(Z.mod_small (12 + A + A * A)), !(Z.mod_small (12 + A + A * A + A * A * A)) by lia.
  done.
Qed.

Lemma ind_walk_ind sb d blk i : 0 ≤ s_log_block_size sb ≤ 6 → 0 ≤ i < EXT4_BLOCK_SIZE sb / 4 →
  inode_get_data_pblock_ind sb d i blk = ind_walk sb d blk [i].
Proof.
  intros Hl Hi. destruct (addresses_eq sb Hl) as (_ & HA & _).
  unfold inode_get_data_pblock_ind. rewrite HA, (proj2 (Z.ltb_lt _ _)) by lia. cbn.
  rewrite (Z.mul_comm i). by destruct (disk_read_u32 _ _).
Qed.

Lemma ind_walk_dind sb d blk l : 0 ≤ s_log_block_size sb ≤ 6 →
  let A := EXT4_BLOCK_SIZE sb / 4 in 0 ≤ l < A * A →
  inode_get_data_pblock_dind sb d l blk = ind_walk sb d blk [l / A; l mod A].
Proof.
  intros Hl A Hi. destruct (addresses_eq sb Hl) as (HA & HA1 & HA2 & _).
  fold A in HA, HA1, HA2.
  pose proof (Z.mod_pos_bound l A ltac:(lia)).
  assert (0 ≤ l / A < A) by (split; [apply Z.div_pos | apply Z.div_lt_upper_bound]; lia).
  unfold inode_get_data_pblock_dind. rewrite HA1, HA2, (proj2 (Z.ltb_lt _ _)) by lia.
  cbn [ASSERT obind ind_walk]. unfold u32. rewrite (Z.mod_small (l / A * 4)) by nia.
  rewrite (Z.mul_comm (l / A)). destruct (disk_read_u32 _ _); [|done]. cbn [obind].
  by rewrite ind_walk_ind.
Qed.

Lemma ind_walk_tind sb d blk l : 0 ≤ s_log_block_size sb ≤ 6 →
  let A := EXT4_BLOCK_SIZE sb / 4 in 0 ≤ l < A * A * A →
  inode_get_data_pblock_tind sb d l blk = ind_walk sb d blk [l / (A * A); l / A mod A; l mod A].
Proof.
  intros Hl A Hi. destruct (addresses_eq sb Hl) as (HA & HA1 & HA2 & HA3 & _).
  fold A in HA, HA1, HA2, HA3.
  assert (0 < A * A ≤ 2 ^ 28) as HAA by nia.
  pose proof (Z.mod_pos_bound l (A * A) ltac:(lia)).
  assert (0 ≤ l / (A * A) < A) by (split; [apply Z.div_pos | apply Z.div_lt_upper_bound]; lia).
  unfold inode_get_data_pblock_tind. rewrite HA2, HA3, (proj2 (Z.ltb_lt _ _)) by lia.
  cbn [ASSERT obind]. unfold u32. rewrite (Z.mod_small (l / (A * A) * 4)) by nia.
  rewrite (Z.mod_small (l mod (A * A))) by lia. cbn [ind_walk].
  rewrite (Z.mul_comm (l / (A * A))). destruct (disk_read_u32 _ _); [|done]. cbn [obind].
  rewrite ind_walk_dind by (done || lia). fold A.
  rewrite Z.rem_mul_r by lia.
  replace ((l mod A + A * (l / A mod A)) / A) with (l / A mod A).
  - by rewrite (Z.mul_comm A), Z_mod_plus_full, Z.mod_mod by lia.
  - rewrite (Z.mul_comm A), Z.div_add by lia.
    rewrite (Z.div_small (l mod A)) by (apply Z.mod_pos_bound; lia). lia.
Qed.

(** [ind_path] is a positional system: it determines the block. *)
Lemma ind_path_inj sb l1 l2 : 0 ≤ s_log_block_size sb ≤ 6 → 0 ≤ l1 → 0 ≤ l2 →
  ind_path sb l1 = ind_path sb l2 → l1 = l2.
Proof.
  intros Hl H1 H2. destruct (addresses_eq sb Hl) as (HA & _). unfold ind_path.
  set (A := EXT4_BLOCK_SIZE sb / 4) in *. assert (0 < A * A) by nia.
  assert (∀ x y, x / A = y / A → x mod A = y mod A → x = y) as Hdig.
  { intros x y Hd Hm. rewrite (Z.div_mod x A), (Z.div_mod y A) by lia. by rewrite Hd, Hm. }
  destruct (Z.ltb_spec l1 12), (Z.ltb_spec l2 12), (Z.ltb_spec (l1 - 12) A),
    (Z.ltb_spec (l2 - 12) A), (Z.ltb_spec (l1 - 12 - A) (A * A)),
    (Z.ltb_spec (l2 - 12 - A) (A * A)); intros Heq; simplify_eq; try lia.
  - enough (l1 - 12 - A = l2 - 12 - A) by lia. by apply Hdig.
  - enough (l1 - 12 - A - A * A = l2 - 12 - A - A * A) by lia.
    set (x := l1 - 12 - A - A * A) in *. set (y := l2 - 12 - A - A * A) in *.
    apply Hdig; [|done]. apply Hdig; [|done]. by rewrite !Z.div_div by lia.
Qed.

(** ** Inode tables apart *)

Definition table_off (sb : ext4_super_block) (g : ext4_group_desc) : Z :=
  BLOCKS2BYTES sb (EXT4_DESC_INODE_TABLE g).
Definition table_size (sb : ext4_super_block) : Z :=
  EXT4_INODES_PER_GROUP sb * EXT4_S_INODE_SIZE sb.

(** One descriptor per group, tables that do not overlap and whose offsets do
    not wrap. *)
Definition tables_ok (sb : ext4_super_block) (gdt : list ext4_group_desc) : Prop :=
  zlen gdt = EXT4_N_BLOCK_GROUPS sb ∧ 0 < EXT4_S_INODE_SIZE sb ∧ table_size sb < 2 ^ 32 ∧
  Forall (λ g, table_off sb g + table_size sb < 2 ^ 63) gdt ∧
  ∀ i j a b, gdt !! i = Some a → gdt !! j = Some b → i ≠ j →
    table_off sb a + table_size sb ≤ table_off sb b ∨
    table_off sb b + table_size sb ≤ table_off sb a.

(** The same without that they do not overlap, in numbers: the table of a
    group starts at its block. *)
Definition tables_placed (sb : ext4_super_block) (gdt : list ext4_group_desc) : Prop :=
  zlen gdt = EXT4_N_BLOCK_GROUPS sb ∧ 0 < EXT4_S_INODE_SIZE sb ∧ table_size sb < 2 ^ 32 ∧
  Forall (λ g, 0 ≤ EXT4_DESC_INODE_TABLE g ∧
    EXT4_DESC_INODE_TABLE g * EXT4_BLOCK_SIZE sb + table_size sb < 2 ^ 63) gdt.
Definition tables_fit (sb : ext4_super_block) (gdt : list ext4_group_desc) : Prop :=
  zlen gdt = EXT4_N_BLOCK_GROUPS sb ∧ 0 < EXT4_S_INODE_SIZE sb ∧ table_size sb < 2 ^ 32 ∧
  Forall (λ g, table_off sb g + table_size sb < 2 ^ 63) gdt.

Lemma tables_ok_fit sb gdt : tables_ok sb gdt → tables_fit sb gdt.
Proof. by intros (? & ? & ? & ? & _). Qed.

Lemma table_off_eq sb g : 0 ≤ EXT4_DESC_INODE_TABLE g →
  0 ≤ EXT4_DESC_INODE_TABLE g * EXT4_BLOCK_SIZE sb < 2 ^ 64 →
  table_off sb g = EXT4_DESC_INODE_TABLE g * EXT4_BLOCK_SIZE sb.
Proof.
  intros Hb Hr. unfold table_off, BLOCKS2BYTES.
  assert (0 ≤ EXT4_BLOCK_SIZE sb) by (apply Z.mod_pos_bound; lia).
  destruct (decide (EXT4_BLOCK_SIZE sb = 0)) as [->|]; [by rewrite !Z.mul_0_r|].
  unfold u64. rewrite (Z.mod_small (EXT4_DESC_INODE_TABLE g)) by nia. by apply Z.mod_small.
Qed.

Lemma slots_apart x y s : x ≠ y → 0 < s → x * s + s ≤ y * s ∨ y * s + s ≤ x * s.
Proof. intros. assert (x + 1 ≤ y ∨ y + 1 ≤ x) as [?|?] by lia; [left | right]; nia. Qed.

Lemma slot_end x n s : 0 ≤ x < n → 0 < s → 0 ≤ x * s ∧ x * s + s ≤ n * s.
Proof. nia. Qed.

Lemma inode_get_offset_spec sb gdt ino :
  geometry_ok sb → tables_fit sb gdt → inode_in sb ino →
  ∃ g, gdt !! Z.to_nat (inode_group sb ino) = Some g ∧ 0 ≤ inode_group sb ino ∧
    0 ≤ table_off sb g ∧ table_off sb g + table_size sb < 2 ^ 63 ∧
    0 ≤ (ino - 1) mod EXT4_INODES_PER_GROUP sb < EXT4_INODES_PER_GROUP sb ∧
    inode_get_offset sb gdt ino =
      Ok (table_off sb g + (ino - 1) mod EXT4_INODES_PER_GROUP sb * EXT4_S_INODE_SIZE sb).
Proof.
  intros Hgeo (Hz & Hs & Ht & Hf) Hin. pose proof Hgeo as (?&?&?&?&?&?&?).
  unfold inode_in in Hin.
  destruct (group_split (ino - 1) (EXT4_INODES_PER_GROUP sb) (EXT4_N_BLOCK_GROUPS sb))
    as (Hg & Hm & _); [lia..|].
  destruct (arr_get_is_Ok gdt (inode_group sb ino)) as [g Hgg]; [unfold inode_group; lia|].
  pose proof (arr_get_inv _ _ _ Hgg) as [_ Hl]. exists g.
  pose proof (BLOCKS2BYTES_range sb (EXT4_DESC_INODE_TABLE g)) as Hr.
  fold (table_off sb g) in Hr. pose proof (proj1 (Forall_lookup _ _) Hf _ _ Hl) as Hfit.
  cbn in Hfit. split_and!; try done; try (unfold inode_group; lia).
  unfold inode_get_offset. destruct (Z.eqb_spec ino 0); [lia|]. cbn [negb ASSERT obind].
  assert (u32 (ino - 1) = ino - 1) as -> by (unfold u32; rewrite Z.mod_small; lia).
  fold (inode_group sb ino). rewrite ASSERT_Ok by (apply Z.ltb_lt; unfold inode_group; lia).
  cbn [obind]. rewrite Hgg. cbn [obind]. fold (table_off sb g). unfold table_size in *.
  set (m := (ino - 1) mod _) in *. unfold u32. rewrite (Z.mod_small (m * _)) by nia.
  unfold u64. by rewrite Z.mod_small by nia.
Qed.

(** The slots of two inodes do not overlap. *)
Lemma offsets_apart (sb : ext4_super_block) (gdt : list ext4_group_desc) (i j : Z)
    (Hgeo : geometry_ok sb) (Ht : tables_ok sb gdt)
    (Hi : inode_in sb i) (Hj : inode_in sb j) (Hij : i ≠ j) :
  ∃ oi oj, inode_get_offset sb gdt i = Ok oi ∧ inode_get_offset sb gdt j = Ok oj ∧
    (oi + EXT4_S_INODE_SIZE sb ≤ oj ∨ oj + EXT4_S_INODE_SIZE sb ≤ oi).
Proof.
  pose proof Hgeo as (?&_).
  destruct (inode_get_offset_spec sb gdt i Hgeo (tables_ok_fit _ _ Ht) Hi) as (gi & Hgi & ? & ? & ? & ? & ->).
  destruct (inode_get_offset_spec sb gdt j Hgeo (tables_ok_fit _ _ Ht) Hj) as (gj & Hgj & ? & ? & ? & ? & ->).
  eexists _, _; split_and!; [done..|]. destruct Ht as (_ & ? & _ & _ & Hd).
  unfold table_size, inode_group in *.
  pose proof (Z.div_mod (i - 1) (EXT4_INODES_PER_GROUP sb) ltac:(lia)) as Di.
  pose proof (Z.div_mod (j - 1) (EXT4_INODES_PER_GROUP sb) ltac:(lia)) as Dj.
  destruct (decide ((i - 1) / EXT4_INODES_PER_GROUP sb = (j - 1) / EXT4_INODES_PER_GROUP sb)) as [E|E].
  - rewrite <- E in Hgj, Dj. simplify_eq.
    destruct (slots_apart ((i - 1) mod EXT4_INODES_PER_GROUP sb)
      ((j - 1) mod EXT4_INODES_PER_GROUP sb) (EXT4_S_INODE_SIZE sb)); lia.
  - pose proof (slot_end ((i - 1) mod EXT4_INODES_PER_GROUP sb) _ (EXT4_S_INODE_SIZE sb)
      ltac:(eassumption) ltac:(lia)) as Hei.
    pose proof (slot_end ((j - 1) mod EXT4_INODES_PER_GROUP sb) _ (EXT4_S_INODE_SIZE sb)
      ltac:(eassumption) ltac:(lia)) as Hej.
    destruct (Hd _ _ _ _ Hgi Hgj); lia.
Qed.

(** ** Properties *)

(** C22: Without extents, the block pointers are walked as ext2 lays them out:
    for block sizes of 1K to 64K and a block inside the file and below the
    triple-indirect limit, [inode_get_data_pblock] returns what the walk along
    [ind_path] finds, and two different blocks have different paths. *)
Theorem inode_data_pblock_walk (sb : ext4_super_block) (d : disk_t) (inode : ext4_inode)
    (lblock : Z) (Hs : 0 ≤ s_log_block_size sb ≤ 6)
    (Hf : has (i_flags inode) EXT4_EXTENTS_FL = false) (Hl : 0 ≤ lblock < 2 ^ 32)
    (Hsize : lblock ≤ BYTES2BLOCKS sb (EXT4_INODE_GET_SIZE inode))
    (Hmax : lblock < MAX_TIND_BLOCK sb) :
  inode_get_data_pblock sb d inode lblock =
    (let '(i, path) := ind_path sb lblock in
     blk ← i_block_at inode i; p ← ind_walk sb d blk path; Ok (p, None)) ∧
  (∀ lblock', 0 ≤ lblock' → ind_path sb lblock' = ind_path sb lblock → lblock' = lblock).
Proof.
  split; [|intros l' ??; apply (ind_path_inj sb); done || lia].
  destruct (addresses_eq sb Hs) as (HA & HA1 & HA2 & HA3 & HM1 & HM2 & HM3).
  unfold inode_get_data_pblock, ind_path. rewrite Hf, (proj2 (Z.leb_le _ _)) by done.
  cbn [ASSERT obind]. rewrite HM1, HM2, HM3 in *. change EXT4_NDIR_BLOCKS with 12.
  set (A := EXT4_BLOCK_SIZE sb / 4) in *. assert (0 < A * A) by nia.
  destruct (Z.ltb_spec lblock 12); [by destruct (i_block_at inode lblock)|].
  destruct (Z.ltb_spec lblock (12 + A)), (Z.ltb_spec (lblock - 12) A); try lia.
  { destruct (i_block_at inode _); [|done]. cbn [obind].
    unfold u32. rewrite Z.mod_small, ind_walk_ind by lia. done. }
  destruct (Z.ltb_spec lblock (12 + A + A * A)), (Z.ltb_spec (lblock - 12 - A) (A * A)); try lia.
  { destruct (i_block_at inode _); [|done]. cbn [obind].
    unfold u32. rewrite Z.mod_small, ind_walk_dind by lia. by rewrite Z.sub_add_distr. }
  rewrite (proj2 (Z.ltb_lt lblock _)) by lia.
  destruct (i_block_at inode _); [|done]. cbn [obind].
  unfold u32. rewrite Z.mod_small, ind_walk_tind by lia. by rewrite !Z.sub_add_distr.
Qed.

(** A 300-block file of 1K blocks: pointer 2 of [i_block] is 77, block 50 is
    its double index block. *)
Definition test_inode_ind : ext4_inode :=
  set_i_block (le_bytes 4 9 ++ le_bytes 4 0 ++ le_bytes 4 77 ++ replicate 40 0 ++ le_bytes 4 50 ++
    le_bytes 4 0) (set_i_size_lo (300 * 1024) zero_inode).
Definition test_ind_disk : disk_t :=
  mk_disk 3 (write_bytes (write_bytes ∅ (50 * 1024) (le_bytes 4 51)) (51 * 1024 + 28) (le_bytes 4 99))
    (64 * 1024).

Lemma inode_data_pblock_walk_witness :
  inode_get_data_pblock test_sb0 test_ind_disk test_inode_ind 2 = Ok (77, None) ∧
  inode_get_data_pblock test_sb0 test_ind_disk test_inode_ind 275 = Ok (99, None).
Proof.
  split.
  - rewrite (proj1 (inode_data_pblock_walk test_sb0 test_ind_disk test_inode_ind 2
      ltac:(split; discriminate) eq_refl ltac:(lia) ltac:(vm_compute; discriminate) eq_refl)).
    vm_compute. reflexivity.
  - rewrite (proj1 (inode_data_pblock_walk test_sb0 test_ind_disk test_inode_ind 275
      ltac:(split; discriminate) eq_refl ltac:(lia) ltac:(vm_compute; discriminate) eq_refl)).
    vm_compute. reflexivity.
Defined.

Lemma has_bit x k : 0 ≤ k → has x (Z.shiftl 1 k) = Z.testbit x k.
Proof. intros. unfold has. by rewrite land_bit_eqb, negb_involutive. Qed.

(** The condition of the code over the masks of a class is [class_has]. *)
Lemma mode_grants_class i_mode class mode r w x : 0 ≤ class →
  r = Z.shiftl 1 (class + 2) → w = Z.shiftl 1 (class + 1) → x = Z.shiftl 1 (class + 0) →
  mode_grants i_mode mode r w x = true ↔ class_has i_mode class mode.
Proof.
  intros Hc -> -> ->. unfold class_has.
  destruct mode; cbn [mode_grants bits_asked];
    rewrite ?andb_true_iff, !has_bit, !Forall_cons, Forall_nil by lia; intuition done.
Qed.

(** C36: Whom the permission check lets through, for every caller, inode and
    access mode.  It returns 0 for user 0, for an owner whose owner bits have
    what the mode asks for, for a caller of the file's group when the group bits
    have it, and for any other group when the other bits have it, and [-EACCES]
    in all other cases.  So for a user who is not the owner one class decides,
    while an owner the owner bits refuse is still let through by the group or
    other bits. *)
Theorem check_permission_classes (cntx : option fuse_context) (inode : ext4_inode)
    (mode : access_mode_t) :
  let uid := match cntx with Some c => fc_uid c | None => 0 end in
  let gid := match cntx with Some c => fc_gid c | None => 0 end in
  let r := inode_check_permission cntx inode mode in
  let has_bits class := class_has (i_mode inode) class mode in
  (r = 0 ∨ r = - EACCES) ∧
  (r = 0 ↔ uid = 0 ∨ (uid = EXT4_INODE_GET_UID inode ∧ has_bits 6) ∨
     (gid = EXT4_INODE_GET_GID inode ∧ has_bits 3) ∨
     (gid ≠ EXT4_INODE_GET_GID inode ∧ has_bits 0)).
Proof.
  cbv zeta. unfold inode_check_permission, EACCES.
  change (match cntx with Some c => fc_uid c | None => 0 end) with (ctx_uid cntx).
  change (match cntx with Some c => fc_gid c | None => 0 end) with (ctx_gid cntx).
  pose proof (mode_grants_class (i_mode inode) 6 mode S_IRUSR S_IWUSR S_IXUSR) as <-; [|done..].
  pose proof (mode_grants_class (i_mode inode) 3 mode S_IRGRP S_IWGRP S_IXGRP) as <-; [|done..].
  pose proof (mode_grants_class (i_mode inode) 0 mode S_IROTH S_IWOTH S_IXOTH) as <-; [|done..].
  destruct (Z.eqb_spec (ctx_uid cntx) 0), (Z.eqb_spec (EXT4_INODE_GET_UID inode) (ctx_uid cntx)),
    (Z.eqb_spec (EXT4_INODE_GET_GID inode) (ctx_gid cntx)),
    (mode_grants (i_mode inode) mode S_IRUSR S_IWUSR S_IXUSR),
    (mode_grants (i_mode inode) mode S_IRGRP S_IWGRP S_IXGRP),
    (mode_grants (i_mode inode) mode S_IROTH S_IWOTH S_IXOTH); cbn; intuition (congruence || lia).
Qed.

(** Owner 1000 of another group, and the mode 0007: the owner bits refuse,
    the other bits grant. *)
Lemma check_permission_classes_witness :
  let inode := set_i_mode 7 (EXT4_INODE_SET_GID 100 (EXT4_INODE_SET_UID 1000 zero_inode)) in
  inode_check_permission (Some (mk_fuse_context 1000 5 18)) inode RDWR = 0 ∧
  ¬ class_has (i_mode inode) 6 RDWR.
Proof.
  cbv zeta. split.
  - apply (check_permission_classes (Some (mk_fuse_context 1000 5 18))). right; right; right. split.
    + vm_compute. discriminate.
    + repeat constructor.
  - intros Hc. apply Forall_cons in Hc as [Hc _]. vm_compute in Hc. discriminate.
Defined.

(** [inode_mode2type] is right for directories, regular files and FIFOs,
    and wrong for the other formats, whose bits overlap: symbolic links become
    regular files, character devices symbolic links, block devices and sockets
    directories. *)
Lemma mode2type_formats (perm : Z) (Hp : 0 ≤ perm < 2 ^ 12) :
  (∀ f, f ∈ [S_IFDIR; S_IFREG; S_IFIFO] →
     inode_mode2type (f + perm) = mode_format_type (f + perm)) ∧
  inode_mode2type (S_IFLNK + perm) = EXT4_FT_REG_FILE ∧
  inode_mode2type (S_IFCHR + perm) = EXT4_FT_SYMLINK ∧
  inode_mode2type (S_IFBLK + perm) = EXT4_FT_DIR ∧
  inode_mode2type (S_IFSOCK + perm) = EXT4_FT_DIR.
Proof.
  assert (∀ f m, f mod 2 ^ 12 = 0 → m mod 2 ^ 12 = 0 → Z.land (f + perm) m = Z.land f m) as Hm.
  { intros f m Hf Hm. replace (f + perm) with (Z.lor f perm).
    - rewrite Z.land_lor_distr_l. replace (Z.land perm m) with 0; [apply Z.lor_0_r|].
      apply Z.bits_inj'. intros n Hn. rewrite Z.bits_0, Z.land_spec.
      destruct (decide (n < 12)).
      + rewrite <- (Z.mod_pow2_bits_low m 12) by lia. rewrite Hm, Z.bits_0. by rewrite andb_false_r.
      + by rewrite (testbit_ge perm 12 n) by lia.
    - rewrite (Z.div_mod f (2 ^ 12)) by lia. rewrite Hf, Z.add_0_r.
      rewrite (Z.mul_comm (2 ^ 12)), <- Z.shiftl_mul_pow2 by lia.
      rewrite lor_shiftl', Z.shiftl_mul_pow2 by lia. lia. }
  unfold inode_mode2type, mode_format_type, has. split_and!.
  - intros f Hf. repeat (apply elem_of_cons in Hf as [-> | Hf]; [by rewrite !Hm|]).
    by apply elem_of_nil in Hf.
  - by rewrite !Hm.
  - by rewrite !Hm.
  - by rewrite !Hm.
  - by rewrite !Hm.
Qed.

(** Where the record of an inode lies: in the table of its group [g]. *)
Definition slot_in_table (sb : ext4_super_block) (g : ext4_group_desc) (off : Z) : Prop :=
  let start := EXT4_DESC_INODE_TABLE g * EXT4_BLOCK_SIZE sb in
  start ≤ off ∧ off + EXT4_S_INODE_SIZE sb ≤ start + table_size sb.

Lemma tables_placed_fit sb gdt : geometry_ok sb → tables_placed sb gdt → tables_fit sb gdt ∧
  ∀ g, g ∈ gdt → table_off sb g = EXT4_DESC_INODE_TABLE g * EXT4_BLOCK_SIZE sb.
Proof.
  intros (?&_) (Hz & Hs & Ht & Hf). assert (0 ≤ EXT4_BLOCK_SIZE sb) by (apply Z.mod_pos_bound; lia).
  assert (0 ≤ table_size sb) by (unfold table_size; nia).
  assert (∀ g, g ∈ gdt → table_off sb g = EXT4_DESC_INODE_TABLE g * EXT4_BLOCK_SIZE sb) as Hoff.
  { intros g Hg. rewrite Forall_forall in Hf. destruct (Hf g Hg) as [? ?]. apply table_off_eq; [done|nia]. }
  split; [|done]. split_and!; try done. rewrite Forall_forall in *. intros g Hg.
  rewrite Hoff by done. by apply Hf.
Qed.

(** C23: The place of an inode on the disk.  With one descriptor per group
    and tables inside the address range, [inode_get_offset] succeeds for each
    inode number of the file system, and the record lies in the inode table of
    the inode's group, at the slot of its index in the group.  The records of two
    different inodes do not overlap when they are in the same group, or when the
    tables of their groups do not overlap. *)
Theorem inode_offsets_apart (sb : ext4_super_block) (gdt : list ext4_group_desc) (i j : Z)
    (Hgeo : geometry_ok sb) (Ht : tables_placed sb gdt)
    (Hi : inode_in sb i) (Hj : inode_in sb j) (Hij : i ≠ j) :
  let start g := EXT4_DESC_INODE_TABLE g * EXT4_BLOCK_SIZE sb in
  ∃ gi gj oi oj, gdt !! Z.to_nat (inode_group sb i) = Some gi ∧
    gdt !! Z.to_nat (inode_group sb j) = Some gj ∧
    inode_get_offset sb gdt i = Ok oi ∧ inode_get_offset sb gdt j = Ok oj ∧
    oi = start gi + (i - 1) mod EXT4_INODES_PER_GROUP sb * EXT4_S_INODE_SIZE sb ∧
    slot_in_table sb gi oi ∧ slot_in_table sb gj oj ∧
    (inode_group sb i = inode_group sb j ∨
     start gi + table_size sb ≤ start gj ∨ start gj + table_size sb ≤ start gi →
     oi + EXT4_S_INODE_SIZE sb ≤ oj ∨ oj + EXT4_S_INODE_SIZE sb ≤ oi).
Proof.
  cbv zeta. pose proof Hgeo as (?&_). destruct (tables_placed_fit sb gdt Hgeo Ht) as [Hfit Hstart].
  destruct (inode_get_offset_spec sb gdt i Hgeo Hfit Hi) as (gi & Hgi & ? & ? & ? & Hmi & Hoi).
  destruct (inode_get_offset_spec sb gdt j Hgeo Hfit Hj) as (gj & Hgj & ? & ? & ? & Hmj & Hoj).
  rewrite (Hstart gi) in Hoi by (by eapply list_elem_of_lookup_2).
  rewrite (Hstart gj) in Hoj by (by eapply list_elem_of_lookup_2).
  destruct Hfit as (_ & Hsz & _).
  pose proof (slot_end _ _ _ Hmi Hsz). pose proof (slot_end _ _ _ Hmj Hsz).
  exists gi, gj. eexists _, _. unfold slot_in_table, table_size in *.
  split_and!; [done | done | exact Hoi | exact Hoj | done | lia..|]. intros [E|[?|?]]; [|lia..].
  rewrite <- E in Hgj. simplify_eq. unfold inode_group in *.
  pose proof (Z.div_mod (i - 1) (EXT4_INODES_PER_GROUP sb) ltac:(lia)) as Di.
  pose proof (Z.div_mod (j - 1) (EXT4_INODES_PER_GROUP sb) ltac:(lia)) as Dj. rewrite <- E in Dj.
  destruct (slots_apart ((i - 1) mod EXT4_INODES_PER_GROUP sb)
    ((j - 1) mod EXT4_INODES_PER_GROUP sb) (EXT4_S_INODE_SIZE sb)); lia.
Qed.

Definition test_tables : list ext4_group_desc :=
  let g := of_bytes (replicate 64 0) in [set_bg_inode_table_lo 3 g; set_bg_inode_table_lo 11 g].
Definition test_sb_tables : ext4_super_block := Eval vm_compute in set_s_inode_size 160 test_sb.

Lemma inode_offsets_apart_witness :
  ∃ gi gj oi oj, inode_get_offset test_sb_tables test_tables 2 = Ok oi ∧
    inode_get_offset test_sb_tables test_tables 9 = Ok oj ∧
    slot_in_table test_sb_tables gi oi ∧ slot_in_table test_sb_tables gj oj ∧
    (oi + EXT4_S_INODE_SIZE test_sb_tables ≤ oj ∨ oj + EXT4_S_INODE_SIZE test_sb_tables ≤ oi).
Proof.
  destruct (inode_offsets_apart test_sb_tables test_tables 2 9)
    as (gi & gj & oi & oj & Hgi & Hgj & Hoi & Hoj & _ & Hsi & Hsj & Hap).
  - vm_compute. done.
  - split; [vm_compute; reflexivity|]. split; [vm_compute; reflexivity|].
    split; [vm_compute; reflexivity|].
    repeat constructor; vm_compute; (reflexivity || discriminate).
  - split; vm_compute; discriminate.
  - split; vm_compute; discriminate.
  - lia.
  - exists gi, gj, oi, oj. split_and!; try assumption. apply Hap. right; left.
    injection Hgi as <-. injection Hgj as <-. vm_compute. discriminate.
Defined.

(** For an inode with a one-level extent tree, the list of blocks to free
    is the list of its extents. *)
Lemma all_pblocks_extents (sb : ext4_super_block) (d : disk_t) (inode : ext4_inode)
    (es : list ext4_extent) (Hf : has (i_flags inode) EXT4_EXTENTS_FL = true)
    (Ht : extents_of sb d 0 (i_block inode) es) :
  inode_get_all_pblocks inode =
    Ok (map (λ e, mk_pblock_range (EXT4_EXT_GET_PADDR e) (ee_len e)) es).
Proof.
  destruct Ht as ((eh & Heh & Hm & _ & Hen & Hd) & _ & _ & Hat).
  unfold inode_get_all_pblocks. rewrite Hf, Heh. cbn [obind]. rewrite Hd, Hen, Hm, Z.eqb_refl.
  destruct (Z.eqb_spec (Z.of_nat (length es)) 0) as [E|_]; [by destruct es|].
  cbn [ASSERT obind]. rewrite Nat2Z.id.
  assert (∀ i, (∀ k e, es !! k = Some e → ee_at (i_block inode) (i + Z.of_nat k) = Ok e) →
    get_ranges (i_block inode) i (length es) =
      Ok (map (λ e, mk_pblock_range (EXT4_EXT_GET_PADDR e) (ee_len e)) es)) as Hr;
    [|by apply Hr].
  clear. induction es as [|e es IH]; intros i Hat; [done|]. cbn [length get_ranges map].
  assert (ee_at (i_block inode) i = Ok e) as -> by (rewrite <- (Hat 0%nat e) by done; f_equal; lia).
  cbn [obind]. rewrite IH; [done|]. intros k e' Hk. rewrite <- (Hat (S k) e') by done. f_equal. lia.
Qed.
