(* ===== verification/Decache.v ===== *)
(** * The directory entry cache

    The decache of [src/src/cache.c]: a tree of names with inode numbers.
    Every node has a first and a last child; the children of a node are a
    doubly linked list with at most [DCACHE_MAX_CHILDREN] of them, the most
    recent first.

    Nodes live in a heap of locations, as [calloc] and [free] manage them: a
    freed location is not in the heap, and an access through it (or through
    NULL) is [Undefined]. *)

From S2P Require Import Prelude Ext4.
From stdpp Require Import strings base numbers list gmap pmap.
From Stdlib Require Import ZArith Lia.

Open Scope Z_scope.
Open Scope kfs_scope.

(** ** Data *)

Abbreviation loc := positive.

Record decache_entry := mk_decache_entry {
  dce_parent : option loc;
  dce_childs : option loc;
  dce_last_child : option loc;
  dce_prev : option loc;
  dce_next : option loc;
  dce_inode_idx : Z;
  dce_count : Z;
  dce_name : list Z
}.

Definition dce_eta (e : decache_entry) : decache_entry :=
  mk_decache_entry (dce_parent e) (dce_childs e) (dce_last_child e) (dce_prev e) (dce_next e)
    (dce_inode_idx e) (dce_count e) (dce_name e).

Definition set_dce_childs (v : option loc) (e : decache_entry) : decache_entry :=
  ltac:(setter (dce_eta e) (dce_childs e) v).
Definition set_dce_last_child (v : option loc) (e : decache_entry) : decache_entry :=
  ltac:(setter (dce_eta e) (dce_last_child e) v).
Definition set_dce_prev (v : option loc) (e : decache_entry) : decache_entry :=
  ltac:(setter (dce_eta e) (dce_prev e) v).
Definition set_dce_next (v : option loc) (e : decache_entry) : decache_entry :=
  ltac:(setter (dce_eta e) (dce_next e) v).
Definition set_dce_inode_idx (v : Z) (e : decache_entry) : decache_entry :=
  ltac:(setter (dce_eta e) (dce_inode_idx e) v).
Definition set_dce_count (v : Z) (e : decache_entry) : decache_entry :=
  ltac:(setter (dce_eta e) (dce_count e) v).
Definition set_dce_name (v : list Z) (e : decache_entry) : decache_entry :=
  ltac:(setter (dce_eta e) (dce_name e) v).

(** The heap, the next location [calloc] returns, and [root]. *)
Record decache := mk_decache {
  dh_heap : gmap loc decache_entry;
  dh_fresh : loc;
  dh_root : loc
}.

(** [NAME_MAX] of [linux/limits.h]. *)
Definition NAME_MAX : Z := 255.
Definition DCACHE_ENTRY_NAME_LEN : Z := NAME_MAX.
Definition DCACHE_MAX_CHILDREN : Z := 20.

(** ** Heap *)

Abbreviation heap := (gmap loc decache_entry).

(** [p->...]. *)
Definition h_get (h : heap) (p : option loc) : outcome decache_entry :=
  l ← deref p; deref (h !! l).

(** [p->field = ...]. *)
Definition h_upd (h : heap) (p : option loc) (f : decache_entry → decache_entry) : outcome heap :=
  l ← deref p; e ← deref (h !! l); Ok (<[l := f e]> h).

(** [free(p)] of an allocated location. *)
Definition h_free (h : heap) (p : loc) : outcome heap :=
  match h !! p with Some _ => Ok (delete p h) | None => Fault Undefined end.

(** ** Paths *)

Definition IS_PATH_SEPARATOR (c : Z) : bool := c =? SLASH.

Fixpoint skip_trailing_backslash (path : list Z) : list Z :=
  match path with
  | c :: path' => if IS_PATH_SEPARATOR c then skip_trailing_backslash path' else path
  | [] => []
  end.

Fixpoint get_path_token_len (path : list Z) : Z :=
  match path with
  | c :: path => if (c =? SLASH) || (c =? 0) then 0 else 1 + get_path_token_len path
  | [] => 0
  end.

(** ** Operations *)

Definition decache_init_root (n : Z) : decache :=
  mk_decache {[ 1%positive := mk_decache_entry None None None None None n 0 [SLASH] ]} 2%positive 1%positive.

(** [strncmp(iter->name, name, namelen) == 0 && iter->name[namelen] == 0]:
    [name] starts with the [namelen] characters looked for. *)
Definition name_is (entry_name name : list Z) (namelen : Z) : bool :=
  strncmp_eq entry_name name namelen && (zlen entry_name =? namelen).

(** The loop over the siblings.  More steps than the heap has nodes is a
    cycle. *)
Fixpoint walk_siblings (fuel : nat) (h : heap) (iter : loc) (name : list Z) (namelen : Z) :
    outcome (option loc) :=
  match fuel with
  | O => Fault OutOfFuel
  | S fuel =>
    e ← h_get h (Some iter);
    if name_is (dce_name e) name namelen then Ok (Some iter)
    else match dce_next e with
         | None => Ok None
         | Some next => walk_siblings fuel h next name namelen
         end
  end.

Definition decache_walk (dc : decache) (parent : option loc) (name : list Z) (namelen : Z) :
    outcome (option loc) :=
  let parent := match parent with None => dh_root dc | Some p => p end in
  p ← h_get (dh_heap dc) (Some parent);
  match dce_childs p with
  | None => ASSERT (dce_count p =? 0) ;; Ok None
  | Some iter =>
    if EXT4_NAME_LEN <? namelen then ASSERT (dce_count p =? 0) ;; Ok None
    else walk_siblings (S (size (dh_heap dc))) (dh_heap dc) iter name namelen
  end.

(** The deepest cached prefix of the path and the rest of the path. *)
Fixpoint decache_find_loop (fuel : nat) (dc : decache) (next : option loc) (path : list Z) :
    outcome (option loc * list Z) :=
  match fuel with
  | O => Fault OutOfFuel
  | S fuel =>
    let path := skip_trailing_backslash path in
    let path_len := get_path_token_len path in
    let ret := next in
    if path_len =? 0 then Ok (ret, path)
    else
      next ← decache_walk dc ret path path_len;
      match next with
      | Some _ => decache_find_loop fuel dc next (drop (Z.to_nat path_len) path)
      | None => Ok (ret, path)
      end
  end.

Definition decache_find (dc : decache) (path : list Z) : outcome (option loc * list Z) :=
  decache_find_loop (S (length path)) dc None path.

(** [decache_free]: the children, then the node.  A recursion deeper than
    the heap is a cycle. *)
Fixpoint decache_free_loop (free_entry : heap → loc → outcome heap) (h : heap)
    (iter : option loc) (n : nat) : outcome heap :=
  match n with
  | O => Ok h
  | S n =>
    e ← h_get h iter;
    let iter_next := dce_next e in
    l ← deref iter;
    h ← free_entry h l;
    decache_free_loop free_entry h iter_next n
  end.

Fixpoint decache_free_rec (fuel : nat) (h : heap) (entry : loc) : outcome heap :=
  match fuel with
  | O => Fault OutOfFuel
  | S fuel =>
    e ← h_get h (Some entry);
    h ← decache_free_loop (decache_free_rec fuel) h (dce_childs e) (Z.to_nat (dce_count e));
    h_free h entry
  end.

Definition decache_free (h : heap) (entry : option loc) : outcome heap :=
  match entry with
  | None => Ok h
  | Some entry => decache_free_rec (S (size h)) h entry
  end.

(** [decache_insert] once the parent is known: the links, and the oldest child
    freed when there are too many. *)
Definition insert_heap (h : heap) (new_entry parent : loc) (name : list Z) (n : Z) : outcome heap :=
  let h := <[new_entry := mk_decache_entry (Some parent) None None None None n 0 name]> h in
  p ← h_get h (Some parent);
  if dce_count p =? 0 then
    h_upd h (Some parent) (λ p,
      set_dce_last_child (Some new_entry) (set_dce_count 1 (set_dce_childs (Some new_entry) p)))
  else
    h ← (if dce_count p =? DCACHE_MAX_CHILDREN then
           let iter := dce_last_child p in
           it ← h_get h iter;
           h ← h_upd h (dce_prev it) (set_dce_next None);
           it ← h_get h iter;
           h ← h_upd h (Some parent) (λ p,
                 set_dce_count (u32 (dce_count p - 1)) (set_dce_last_child (dce_prev it) p));
           decache_free h iter
         else Ok h);
    p ← h_get h (Some parent);
    h ← h_upd h (Some new_entry) (λ e, set_dce_prev None (set_dce_next (dce_childs p) e));
    h ← h_upd h (dce_childs p) (set_dce_prev (Some new_entry));
    h_upd h (Some parent) (λ p,
      set_dce_count (u32 (dce_count p + 1)) (set_dce_childs (Some new_entry) p)).

(** The new entry, NULL for a name that does not fit. *)
Definition decache_insert (dc : decache) (parent : option loc) (name : list Z) (namelen n : Z) :
    outcome (option loc * decache) :=
  if DCACHE_ENTRY_NAME_LEN <? namelen + 1 then Ok (None, dc)
  else
    parent ← (match parent with
              | Some p => Ok p
              | None =>
                r ← h_get (dh_heap dc) (Some (dh_root dc));
                ASSERT (negb (dce_inode_idx r =? 0)) ;; Ok (dh_root dc)
              end);
    let new_entry := dh_fresh dc in
    h ← insert_heap (dh_heap dc) new_entry parent (take (Z.to_nat namelen) name) n;
    Ok (Some new_entry, mk_decache h (Pos.succ new_entry) (dh_root dc)).

Definition decache_delete (dc : decache) (path : list Z) : outcome decache :=
  '(entry, _) ← decache_find dc path;
  match entry with
  | None => Ok dc
  | Some entry =>
    let h := dh_heap dc in
    e ← h_get h (Some entry);
    let parent := dce_parent e in
    p ← h_get h parent;
    ASSERT (negb (dce_count p =? 0)) ;;
    h ← h_upd h parent (set_dce_count (dce_count p - 1));
    p ← h_get h parent;
    h ← (if dce_count p =? 0 then
           ASSERT (match dce_childs p with Some _ => true | None => false end) ;;
           h ← h_free h entry;
           h_upd h parent (λ p, set_dce_last_child None (set_dce_childs None p))
         else
           e ← h_get h (Some entry);
           h ← (match dce_prev e, dce_next e with
                | None, next =>
                  h ← h_upd h next (set_dce_prev None);
                  h_upd h parent (set_dce_childs next)
                | Some prev, None =>
                  h ← h_upd h (Some prev) (set_dce_next None);
                  h_upd h parent (set_dce_last_child (Some prev))
                | Some _, Some _ => Ok h
                end);
           decache_free h (Some entry));
    Ok (mk_decache h (dh_fresh dc) (dh_root dc))
  end.

(** ** Abstract view

    The tree is given by the lists of children: [tr !! p] are the children
    of node [p], the most recent first. *)

Abbreviation tree := (gmap loc (list loc)).

(** The siblings [ls], linked in both directions, after [prev]. *)
Fixpoint sibs (h : heap) (prev : option loc) (ls : list loc) : Prop :=
  match ls with
  | [] => True
  | l :: ls =>
    (∃ e, h !! l = Some e ∧ dce_prev e = prev ∧ dce_next e = head ls) ∧ sibs h (Some l) ls
  end.

Record kids (h : heap) (p : loc) (ls : list loc) : Prop := mk_kids {
  k_entry : ∃ e, h !! p = Some e ∧ dce_childs e = head ls ∧ dce_last_child e = last ls ∧
              dce_count e = zlen ls;
  k_sibs : sibs h None ls;
  k_nodup : NoDup ls;
  k_max : zlen ls ≤ DCACHE_MAX_CHILDREN
}.

(** Every node is in the tree, below a parent that was made before it. *)
Record tree_ok (h : heap) (root fresh : loc) (tr : tree) : Prop := mk_tree_ok {
  t_dom : ∀ p, is_Some (h !! p) ↔ is_Some (tr !! p);
  t_fresh : ∀ p, is_Some (h !! p) → (p < fresh)%positive;
  t_root : ∃ r, h !! root = Some r ∧ dce_parent r = None ∧ dce_inode_idx r ≠ 0;
  t_kids : ∀ p ls, tr !! p = Some ls → kids h p ls;
  t_down : ∀ p ls l, tr !! p = Some ls → l ∈ ls →
    (p < l)%positive ∧ ∃ e, h !! l = Some e ∧ dce_parent e = Some p;
  t_up : ∀ l e, h !! l = Some e → l ≠ root →
    ∃ p ls, dce_parent e = Some p ∧ tr !! p = Some ls ∧ l ∈ ls
}.

Definition decache_ok (dc : decache) (tr : tree) : Prop :=
  tree_ok (dh_heap dc) (dh_root dc) (dh_fresh dc) tr.

(** The first child with a name. *)
Fixpoint child_named (h : heap) (ls : list loc) (name : list Z) : option loc :=
  match ls with
  | [] => None
  | l :: ls =>
    if bool_decide (dce_name <$> h !! l = Some name) then Some l else child_named h ls name
  end.

(** The components of a path. *)
Fixpoint split_path (path cur : list Z) : list (list Z) :=
  match path with
  | [] => if bool_decide (cur = []) then [] else [cur]
  | c :: path =>
    if c =? SLASH then
      if bool_decide (cur = []) then split_path path [] else cur :: split_path path []
    else split_path path (cur ++ [c])
  end.

(** The node a list of components leads to. *)
Fixpoint resolve (h : heap) (tr : tree) (p : loc) (names : list (list Z)) : option loc :=
  match names with
  | [] => Some p
  | n :: names =>
    match child_named h (default [] (tr !! p)) n with
    | Some c => resolve h tr c names
    | None => None
    end
  end.

(** The nodes below [x], itself included. *)
Inductive desc (tr : tree) (x : loc) : loc → Prop :=
| desc_refl : desc tr x x
| desc_child y ls z : desc tr x y → tr !! y = Some ls → z ∈ ls → desc tr x z.

(** ** Lemmas on siblings *)

Lemma name_is_token en name n : 0 ≤ n ≤ zlen name →
  name_is en name n = bool_decide (en = take (Z.to_nat n) name).
Proof.
  intros Hn. unfold name_is, strncmp_eq. unfold zlen in *.
  destruct (Z.eqb_spec (Z.of_nat (length en)) n) as [<-|Hne].
  - rewrite andb_true_r, Nat2Z.id. apply bool_decide_ext.
    rewrite take_app_length, take_app_le by lia. done.
  - rewrite andb_false_r. symmetry. apply bool_decide_false. intros ->.
    rewrite length_take in Hne. lia.
Qed.

Lemma sibs_lookup h prev ls l : sibs h prev ls → l ∈ ls → is_Some (h !! l).
Proof.
  revert prev. induction ls as [|l' ls IH]; intros prev; [by intros _ ?%not_elem_of_nil|].
  intros [(e & He & _) Hs] [->|Hl]%elem_of_cons; [by rewrite He|eauto].
Qed.

Lemma walk_siblings_ok h prev ls name n fuel :
  sibs h prev ls → ls ≠ [] → 0 ≤ n ≤ zlen name → (length ls ≤ fuel)%nat →
  ∀ l, head ls = Some l →
  walk_siblings fuel h l name n = Ok (child_named h ls (take (Z.to_nat n) name)).
Proof.
  intros Hs Hne Hn. revert prev fuel Hs Hne. induction ls as [|l ls IH]; [done|].
  intros prev fuel [(e & He & _ & Hnext) Hs] _ Hf l' [= <-]. destruct fuel as [|fuel]; [cbn in Hf; lia|].
  cbn [walk_siblings child_named]. unfold h_get, deref. cbn [obind]. rewrite He. cbn [obind fmap option_fmap option_map].
  rewrite name_is_token by done.
  rewrite (bool_decide_ext (Some (dce_name e) = Some _) (dce_name e = take (Z.to_nat n) name))
    by (split; [by intros [= ?] | by intros ->]).
  case_bool_decide; [done|]. rewrite Hnext. destruct ls as [|l2 ls]; [done|]. cbn [head].
  eapply IH; [done..| cbn in *; lia | done].
Qed.

(** A list of children is not longer than the heap. *)
Lemma kids_size h p ls : kids h p ls → (length ls ≤ size h)%nat.
Proof.
  intros [_ Hs Hnd _]. rewrite <- (size_list_to_set (C := gset loc) ls Hnd).
  rewrite <- (size_dom (D := gset loc) h). apply subseteq_size. intros l Hl. apply elem_of_list_to_set in Hl.
  apply elem_of_dom. by eapply sibs_lookup.
Qed.

(** The children of a node the walk starts from. *)
Definition start_of (dc : decache) (parent : option loc) : loc := default (dh_root dc) parent.

Lemma decache_walk_ok dc tr parent ls name n :
  decache_ok dc tr → tr !! start_of dc parent = Some ls → 0 ≤ n ≤ zlen name →
  (n ≤ EXT4_NAME_LEN ∨ ls = []) →
  decache_walk dc parent name n = Ok (child_named (dh_heap dc) ls (take (Z.to_nat n) name)).
Proof.
  intros Hok Hls Hn Hlen. pose proof (t_kids _ _ _ _ Hok _ _ Hls) as Hk.
  destruct (k_entry _ _ _ Hk) as (e & He & Hch & _ & Hcnt).
  unfold decache_walk. fold (start_of dc parent). unfold h_get, deref. cbn [obind].
  replace (match parent with Some p => p | None => dh_root dc end) with (start_of dc parent)
    by by destruct parent.
  rewrite He. cbn [obind]. rewrite Hch. destruct ls as [|l ls].
  - cbn. by rewrite Hcnt.
  - cbn [head]. destruct Hlen as [Hlen|?]; [|done].
    destruct (Z.ltb_spec EXT4_NAME_LEN n); [lia|].
    eapply walk_siblings_ok; [apply Hk | done.. | |done]. apply le_S. by eapply kids_size.
Qed.

(** The outcome of a walk for any length: beyond [EXT4_NAME_LEN] it aborts in a
    directory with cached entries. *)
Lemma decache_walk_run dc tr parent ls name n :
  decache_ok dc tr → tr !! start_of dc parent = Some ls → 0 ≤ n ≤ zlen name →
  decache_walk dc parent name n =
    if (EXT4_NAME_LEN <? n) && negb (bool_decide (ls = [])) then Fault AssertFail
    else Ok (child_named (dh_heap dc) ls (take (Z.to_nat n) name)).
Proof.
  intros Hok Hls Hn. destruct ((EXT4_NAME_LEN <? n) && negb (bool_decide (ls = []))) eqn:E.
  - apply andb_true_iff in E as [Hlong Hne%negb_true_iff%bool_decide_eq_false].
    pose proof (t_kids _ _ _ _ Hok _ _ Hls) as Hk. destruct (k_entry _ _ _ Hk) as (e & He & Hch & _ & Hcnt).
    unfold decache_walk. replace (match parent with Some p => p | None => dh_root dc end)
      with (start_of dc parent) by by destruct parent.
    unfold h_get, deref. cbn [obind]. rewrite He. cbn [obind]. rewrite Hch, Hlong, Hcnt.
    destruct ls as [|l ls]; [done|]. cbn [head]. rewrite zlen_cons. pose proof (zlen_nonneg ls).
    by rewrite (proj2 (Z.eqb_neq _ _)) by lia.
  - apply (decache_walk_ok dc tr); try done. apply andb_false_iff in E as [?%Z.ltb_ge|E]; [by left|].
    right. by apply negb_false_iff, bool_decide_eq_true in E.
Qed.

(** ** Lemmas on paths *)

Lemma split_path_skip path : split_path (skip_trailing_backslash path) [] = split_path path [].
Proof.
  induction path as [|c path IH]; [done|]. cbn. unfold IS_PATH_SEPARATOR.
  destruct (Z.eqb_spec c SLASH) as [->|Hc]; [done|]. cbn.
  by destruct (Z.eqb_spec c SLASH).
Qed.

Lemma skip_head path c path' : skip_trailing_backslash path = c :: path' → c ≠ SLASH.
Proof.
  induction path as [|c' path IH]; [done|]. cbn. unfold IS_PATH_SEPARATOR.
  destruct (Z.eqb_spec c' SLASH); [done|]. by intros [= <- <-].
Qed.

Lemma skip_suffix path : ∃ pre, path = pre ++ skip_trailing_backslash path.
Proof.
  induction path as [|c path [pre IH]]; [by exists []|]. cbn. unfold IS_PATH_SEPARATOR.
  destruct (Z.eqb_spec c SLASH).
  - exists (c :: pre). cbn. by rewrite <- IH.
  - by exists [].
Qed.

Lemma token_len_range path : 0 ≤ get_path_token_len path ≤ zlen path.
Proof.
  induction path as [|c path IH]; [done|]. rewrite zlen_cons. cbn.
  destruct ((c =? SLASH) || (c =? 0)); lia.
Qed.

Lemma token_len_pos c path : c ≠ SLASH → c ≠ 0 → 0 < get_path_token_len (c :: path).
Proof.
  intros H1 H0. cbn. destruct (Z.eqb_spec c SLASH), (Z.eqb_spec c 0); try done. cbn.
  pose proof (token_len_range path). lia.
Qed.

Lemma split_path_token path cur : 0 ∉ path → cur ≠ [] ∨ 0 < get_path_token_len path →
  split_path path cur =
    (cur ++ take (Z.to_nat (get_path_token_len path)) path) ::
    split_path (drop (Z.to_nat (get_path_token_len path)) path) [].
Proof.
  revert cur. induction path as [|c path IH]; intros cur H0 Hne.
  - cbn in Hne. destruct Hne as [Hne|]; [|lia]. cbn. rewrite bool_decide_false by done.
    by rewrite app_nil_r.
  - rewrite not_elem_of_cons in H0. destruct H0 as [Hc H0]. cbn [get_path_token_len] in *.
    destruct (Z.eqb_spec c SLASH) as [->|Hs].
    + cbn in *. destruct Hne as [Hne|]; [|lia]. rewrite bool_decide_false by done.
      by rewrite app_nil_r.
    + destruct (Z.eqb_spec c 0); [congruence|]. cbn [orb] in *. cbn [split_path].
      pose proof (token_len_range path).
      destruct (Z.eqb_spec c SLASH); [done|]. rewrite IH by (done || left; by destruct cur).
      replace (Z.to_nat (1 + get_path_token_len path)) with
        (S (Z.to_nat (get_path_token_len path))) by lia.
      cbn. by rewrite <- app_assoc.
Qed.

Lemma child_named_elem h ls name l : child_named h ls name = Some l → l ∈ ls.
Proof.
  induction ls as [|l' ls IH]; [done|]. cbn. case_bool_decide.
  - intros [= ->]. apply list_elem_of_here.
  - intros ?. apply list_elem_of_further. auto.
Qed.

Lemma tree_child h root fresh tr p ls l : tree_ok h root fresh tr → tr !! p = Some ls → l ∈ ls →
  is_Some (tr !! l).
Proof.
  intros Hok Hls Hl. destruct (t_down _ _ _ _ Hok _ _ _ Hls Hl) as (_ & e & He & _).
  apply (t_dom _ _ _ _ Hok). by exists e.
Qed.

(** The next component is too long for the cache, in a directory with
    cached entries. *)
Definition too_long (dc : decache) (tr : tree) (node : option loc) (rest : list Z) : bool :=
  match split_path rest [] with
  | t :: _ => (EXT4_NAME_LEN <? zlen t) && negb (bool_decide (tr !! start_of dc node = Some []))
  | [] => false
  end.

(** The loop of [decache_find] from a node [p] that some components led to. *)
Lemma decache_find_loop_run dc tr fuel next path :
  decache_ok dc tr → is_Some (tr !! start_of dc next) → 0 ∉ path → (length path < fuel)%nat →
  ∃ names node rest,
    decache_find_loop fuel dc next path =
      (if too_long dc tr node rest then Fault AssertFail else Ok (node, rest)) ∧
    split_path path [] = names ++ split_path rest [] ∧
    (∃ pre, path = pre ++ rest) ∧
    resolve (dh_heap dc) tr (start_of dc next) names = Some (start_of dc node) ∧
    (names = [] → node = next) ∧ (names ≠ [] → node ≠ None) ∧
    match split_path rest [] with
    | [] => True
    | n :: _ => too_long dc tr node rest = true ∨
        child_named (dh_heap dc) (default [] (tr !! start_of dc node)) n = None
    end.
Proof.
  intros Hok. revert next path. induction fuel as [|fuel IH]; intros next path [ls Hls] H0 Hf; [lia|].
  cbn [decache_find_loop]. destruct (skip_suffix path) as [pre Hpre].
  rewrite <- split_path_skip in *. set (path' := skip_trailing_backslash path) in *.
  assert (0 ∉ path') as H0' by (rewrite Hpre, not_elem_of_app in H0; apply H0).
  destruct (Z.eqb_spec (get_path_token_len path') 0) as [El|El].
  - assert (path' = []) as E.
    { destruct path' as [|c p] eqn:E; [done|]. pose proof (skip_head path c p E).
      rewrite not_elem_of_cons in H0'. destruct H0' as [Hc _].
      pose proof (token_len_pos c p ltac:(done) ltac:(congruence)). lia. }
    exists [], next, path'. rewrite E in *. split_and!; try done. by exists pre.
  - pose proof (token_len_range path') as Hr. set (n := get_path_token_len path') in *.
    pose proof (split_path_token path' [] H0' ltac:(right; unfold n in *; lia)) as Hsp. cbn [app] in Hsp.
    fold n in Hsp. assert (zlen (take (Z.to_nat n) path') = n) as Hzn
      by (unfold zlen in *; rewrite length_take; lia).
    rewrite (decache_walk_run dc tr next ls path' n Hok Hls) by lia.
    assert (too_long dc tr next path' = (EXT4_NAME_LEN <? n) && negb (bool_decide (ls = []))) as Htl.
    { unfold too_long. rewrite Hsp, Hzn, Hls. do 2 f_equal. apply bool_decide_ext. split; congruence. }
    destruct ((EXT4_NAME_LEN <? n) && negb (bool_decide (ls = []))) eqn:Elong.
    { exists [], next, path'. rewrite Htl. split_and!; try done; [by exists pre|]. rewrite Hsp. by left. }
    cbn [obind]. destruct (child_named (dh_heap dc) ls (take (Z.to_nat n) path')) as [c|] eqn:Ec.
    + destruct (IH (Some c) (drop (Z.to_nat n) path')) as (names & node & rest & -> & Hs & [pre' Hp] & Hres & He & Hne & Hstop).
      * eapply tree_child; [done..|by eapply child_named_elem].
      * intros Hin. apply H0'. rewrite <- (take_drop (Z.to_nat n) path'), elem_of_app. by right.
      * rewrite Hpre, length_app in Hf. rewrite length_drop. unfold zlen in Hr. lia.
      * exists (take (Z.to_nat n) path' :: names), node, rest. split_and!; try done.
        -- by rewrite Hsp, Hs.
        -- exists (pre ++ take (Z.to_nat n) path' ++ pre'). rewrite Hpre at 1.
           rewrite <- !app_assoc. f_equal. by rewrite <- Hp, take_drop.
        -- cbn [resolve]. rewrite Hls. cbn [default from_option id]. by rewrite Ec.
        -- intros _. destruct names as [|? ?]; [by rewrite He|by apply Hne].
    + exists [], next, path'. rewrite Htl. split_and!; try done; [by exists pre|].
      rewrite Hsp, Hls. by right.
Qed.

(** With components that fit it does not abort. *)
Lemma decache_find_loop_ok dc tr fuel next path :
  decache_ok dc tr → is_Some (tr !! start_of dc next) → 0 ∉ path →
  Forall (λ t, zlen t ≤ EXT4_NAME_LEN) (split_path path []) → (length path < fuel)%nat →
  ∃ names node rest, decache_find_loop fuel dc next path = Ok (node, rest) ∧
    split_path path [] = names ++ split_path rest [] ∧
    (∃ pre, path = pre ++ rest) ∧
    resolve (dh_heap dc) tr (start_of dc next) names = Some (start_of dc node) ∧
    (names = [] → node = next) ∧ (names ≠ [] → node ≠ None) ∧
    match split_path rest [] with
    | [] => True
    | n :: _ => child_named (dh_heap dc) (default [] (tr !! start_of dc node)) n = None
    end.
Proof.
  intros Hok Hn H0 Hlen Hf.
  destruct (decache_find_loop_run dc tr fuel next path Hok Hn H0 Hf)
    as (names & node & rest & Hrun & Hs & Hp & Hres & He & Hne & Hstop).
  assert (too_long dc tr node rest = false) as Htl.
  { unfold too_long. rewrite Hs in Hlen. apply Forall_app in Hlen as [_ Hlen].
    destruct (split_path rest []) as [|t ts]; [done|]. apply Forall_cons in Hlen as [? _].
    by rewrite (proj2 (Z.ltb_ge _ _)) by done. }
  rewrite Htl in *. exists names, node, rest. split_and!; try done.
  destruct (split_path rest []); [done|]. by destruct Hstop.
Qed.

(** ** Subtrees *)

Section subtree.
Context (h0 : heap) (root fresh : loc) (tr : tree) (Hok : tree_ok h0 root fresh tr).

Lemma desc_le x y : desc tr x y → (x ≤ y)%positive.
Proof.
  induction 1 as [|y ls z _ IH Hls Hz]; [lia|].
  destruct (t_down _ _ _ _ Hok _ _ _ Hls Hz) as [? _]. lia.
Qed.

Lemma parent_unique p ls q ls' l : tr !! p = Some ls → tr !! q = Some ls' → l ∈ ls → l ∈ ls' → p = q.
Proof.
  intros Hp Hq Hl Hl'. destruct (t_down _ _ _ _ Hok _ _ _ Hp Hl) as (_ & e & He & Hpe).
  destruct (t_down _ _ _ _ Hok _ _ _ Hq Hl') as (_ & e' & He' & Hqe). congruence.
Qed.

Lemma desc_compare x y l : desc tr x l → desc tr y l → desc tr x y ∨ desc tr y x.
Proof.
  intros Hx. revert y. induction Hx as [|p ls l Hp IH Hls Hl]; intros y Hy; [by right|].
  inversion Hy as [|p' ls' l' Hp' Hls' Hl' E]; subst.
  - left. by econstructor.
  - assert (p' = p) as -> by (by eapply parent_unique). eauto.
Qed.

(** The subtrees of two children are apart, and the parent is in none. *)
Lemma desc_apart p ls x y l : tr !! p = Some ls → x ∈ ls → y ∈ ls → x ≠ y →
  desc tr x l → ¬ desc tr y l.
Proof.
  intros Hls. assert (∀ x y, x ∈ ls → y ∈ ls → x ≠ y → ¬ desc tr x y) as Hno.
  { intros a b Ha Hb Hne Hd. inversion Hd as [|q ls' z Hq Hls' Hz]; subst; [done|].
    assert (q = p) as -> by (by eapply parent_unique). apply desc_le in Hq.
    destruct (t_down _ _ _ _ Hok _ _ _ Hls Ha) as [? _]. lia. }
  intros Hx Hy Hne Hd Hd'. destruct (desc_compare x y l Hd Hd').
  - by apply (Hno x y).
  - by apply (Hno y x).
Qed.

Lemma desc_above p ls x : tr !! p = Some ls → x ∈ ls → ¬ desc tr x p.
Proof.
  intros Hls Hx Hd%desc_le. destruct (t_down _ _ _ _ Hok _ _ _ Hls Hx) as [? _]. lia.
Qed.

(** The number of nodes not older than [x] bounds the depth below it. *)
Definition rank (x : loc) : nat := size (filter (λ kv : loc * decache_entry, (x ≤ kv.1)%positive) h0).

Lemma rank_child p ls x : tr !! p = Some ls → x ∈ ls → (rank x < rank p)%nat.
Proof.
  intros Hls Hx. destruct (t_down _ _ _ _ Hok _ _ _ Hls Hx) as [Hlt _].
  destruct (proj2 (t_dom _ _ _ _ Hok p) ltac:(eauto)) as [e He].
  unfold rank. apply map_subset_size. split.
  - apply map_filter_strong_subseteq_ext. cbn. intros l e' [? ?]. split; [lia|done].
  - intros Hsub. eapply lookup_weaken in Hsub; [|apply map_lookup_filter_Some_2; [exact He|cbn; lia]].
    apply map_lookup_filter_Some in Hsub as [_ ?]. cbn in *. lia.
Qed.

Lemma rank_fuel (h : heap) x : (dom h0 : gset loc) ⊆ dom h → (rank x < S (size h))%nat.
Proof.
  intros Hd. apply Nat.lt_succ_r. transitivity (size h0); [apply map_subseteq_size, map_filter_subseteq|].
  rewrite <- !(size_dom (D := gset loc)). by apply subseteq_size.
Qed.

(** [h'] is [h] without the nodes of [D]. *)
Definition without (h h' : heap) (D : loc → Prop) : Prop :=
  (∀ l, D l → h' !! l = None) ∧ (∀ l, ¬ D l → h' !! l = h !! l).

Lemma free_loop_ok free ls prev h :
  (∀ h x, x ∈ ls → (∀ l, desc tr x l → h !! l = h0 !! l) →
     ∃ h', free h x = Ok h' ∧ without h h' (desc tr x)) →
  (∀ x y l, x ∈ ls → y ∈ ls → x ≠ y → desc tr x l → ¬ desc tr y l) →
  sibs h0 prev ls → NoDup ls → (∀ x l, x ∈ ls → desc tr x l → h !! l = h0 !! l) →
  ∃ h', decache_free_loop free h (head ls) (length ls) = Ok h' ∧
    without h h' (λ l, ∃ x, x ∈ ls ∧ desc tr x l).
Proof.
  revert prev h. induction ls as [|x ls IH]; intros prev h Hfree Hap Hs Hnd Hag.
  - exists h. split; [done|]. split; [intros l (? & ?%not_elem_of_nil & _); done | done].
  - destruct Hs as [(e & He & _ & Hnext) Hs]. apply NoDup_cons in Hnd as [Hx Hnd].
    cbn [head decache_free_loop length]. unfold h_get, deref. cbn [obind].
    rewrite (Hag x x) by (apply list_elem_of_here || constructor). rewrite He. cbn [obind].
    destruct (Hfree h x) as (h1 & -> & Hw1 & Hw2);
      [apply list_elem_of_here | intros l; apply Hag, list_elem_of_here |]. cbn [obind].
    rewrite Hnext. destruct (IH (Some x) h1) as (h' & -> & Hv1 & Hv2).
    + intros h2 y Hy. apply Hfree. by apply list_elem_of_further.
    + intros y z l Hy Hz. apply Hap; by apply list_elem_of_further.
    + done.
    + done.
    + intros y l Hy Hd. rewrite Hw2; [apply (Hag y); [by apply list_elem_of_further | done]|].
      apply (Hap y x); [by apply list_elem_of_further | apply list_elem_of_here | by intros -> | done].
    + exists h'. split; [done|]. split.
      * intros l (y & [->|Hy]%elem_of_cons & Hd); [|by apply Hv1; eauto].
        destruct (decide (h' !! l = None)) as [|Hsome]; [done|].
        rewrite Hv2; [by apply Hw1|]. intros (z & Hz & Hd'). by apply Hsome, Hv1; eauto.
      * intros l Hn. rewrite Hv2, Hw2; [done | |].
        -- intros Hd. apply Hn. exists x. split; [apply list_elem_of_here | done].
        -- intros (z & Hz & Hd'). apply Hn. exists z. split; [by apply list_elem_of_further | done].
Qed.

(** [decache_free] of a node frees its subtree and nothing else. *)
Lemma free_rec_ok fuel x h : is_Some (h0 !! x) → (rank x < fuel)%nat →
  (∀ l, desc tr x l → h !! l = h0 !! l) →
  ∃ h', decache_free_rec fuel h x = Ok h' ∧ without h h' (desc tr x).
Proof.
  revert x h. induction fuel as [|fuel IH]; intros x h Hx Hr Hag; [lia|].
  destruct (proj1 (t_dom _ _ _ _ Hok x) Hx) as [ls Hls].
  pose proof (t_kids _ _ _ _ Hok _ _ Hls) as Hk. destruct (k_entry _ _ _ Hk) as (e & He & Hch & _ & Hcnt).
  cbn [decache_free_rec]. unfold h_get, deref. cbn [obind]. rewrite (Hag x) by constructor.
  rewrite He. cbn [obind]. rewrite Hch, Hcnt. unfold zlen. rewrite Nat2Z.id.
  destruct (free_loop_ok (decache_free_rec fuel) ls None h) as (h1 & -> & Hw1 & Hw2).
  - intros h2 y Hy. apply IH; [|pose proof (rank_child _ _ _ Hls Hy); lia].
    destruct (t_down _ _ _ _ Hok _ _ _ Hls Hy) as (_ & e' & He' & _). by exists e'.
  - intros y z l Hy Hz. by eapply desc_apart.
  - apply Hk.
  - apply Hk.
  - intros y l Hy Hd. apply Hag. clear -Hls Hy Hd. induction Hd; [|by econstructor].
    econstructor; [constructor | done..].
  - cbn [obind]. assert (h1 !! x = Some e) as Hx1.
    { rewrite Hw2; [by rewrite Hag by constructor|]. intros (y & Hy & Hd). by eapply desc_above. }
    unfold h_free. rewrite Hx1. eexists; split; [done|]. split.
    + intros l Hd. destruct (decide (l = x)) as [->|Hne]; [by rewrite lookup_delete_eq|].
      rewrite lookup_delete_ne by done. apply Hw1. clear -Hls Hd Hne.
      induction Hd as [|p ls' z Hp IHp Hls' Hz]; [done|].
      destruct (decide (p = x)) as [->|Hpx].
      * exists z. rewrite Hls in Hls'. injection Hls' as <-. split; [done | constructor].
      * destruct (IHp Hpx) as (y & Hy & Hdy). exists y. split; [done | by econstructor].
    + intros l Hn. assert (l ≠ x) by (intros ->; apply Hn; constructor).
      rewrite lookup_delete_ne by done. apply Hw2. intros (y & Hy & Hd). apply Hn.
      clear -Hls Hy Hd. induction Hd; [|by econstructor]. econstructor; [constructor | done..].
Qed.
End subtree.

(** ** Changing the links *)

Lemma sibs_frame h h' prev ls :
  (∀ l e, l ∈ ls → h !! l = Some e →
     ∃ e', h' !! l = Some e' ∧ dce_prev e' = dce_prev e ∧ dce_next e' = dce_next e) →
  sibs h prev ls → sibs h' prev ls.
Proof.
  revert prev. induction ls as [|l ls IH]; intros prev Hf; [done|]. cbn.
  intros [(e & He & Hp & Hn) Hs]. split.
  - destruct (Hf l e) as (e' & ? & ? & ?); [apply list_elem_of_here | done |].
    exists e'. split_and!; congruence.
  - apply IH; [|done]. intros l' e' ?. apply Hf. by apply list_elem_of_further.
Qed.

Lemma kids_frame h h' p ls e e' :
  kids h p ls → h !! p = Some e → h' !! p = Some e' →
  dce_childs e' = dce_childs e → dce_last_child e' = dce_last_child e → dce_count e' = dce_count e →
  (∀ l e, l ∈ ls → h !! l = Some e →
     ∃ e', h' !! l = Some e' ∧ dce_prev e' = dce_prev e ∧ dce_next e' = dce_next e) →
  kids h' p ls.
Proof.
  intros [(e0 & He0 & ? & ? & ?) Hs Hnd Hm] He He' Hc Hl Hn Hf. split; [|by eapply sibs_frame|done..].
  rewrite He in He0. injection He0 as <-. exists e'. split_and!; congruence.
Qed.

(** The new node [x] becomes the first child of [p]. *)
Section link.
Context (h : heap) (root x : loc) (tr : tree) (Hok : tree_ok h root x tr).
Context (p : loc) (ls : list loc) (ep : decache_entry) (n : Z) (name : list Z).
Context (Hls : tr !! p = Some ls) (Hep : h !! p = Some ep) (Hmax : zlen ls < DCACHE_MAX_CHILDREN).

Definition linked (h3 : heap) : Prop :=
  h3 !! x = Some (mk_decache_entry (Some p) None None None (head ls) n 0 name) ∧
  h3 !! p = Some (set_dce_last_child (last (x :: ls)) (set_dce_count (zlen ls + 1)
                    (set_dce_childs (Some x) ep))) ∧
  (∀ l e, head ls = Some l → h !! l = Some e → h3 !! l = Some (set_dce_prev (Some x) e)) ∧
  (∀ l, l ≠ x → l ≠ p → head ls ≠ Some l → h3 !! l = h !! l).

Lemma x_new : h !! x = None.
Proof.
  destruct (h !! x) eqn:E; [|done]. pose proof (t_fresh _ _ _ _ Hok x ltac:(eauto)). lia.
Qed.

Lemma head_kid l : head ls = Some l → l ∈ ls.
Proof. destruct ls; [done|]. intros [= ->]. apply list_elem_of_here. Qed.

(** Every old node, after the change. *)
Lemma linked_old h3 l e : linked h3 → h !! l = Some e → ∃ e', h3 !! l = Some e' ∧
  dce_parent e' = dce_parent e ∧ dce_next e' = dce_next e ∧ dce_name e' = dce_name e ∧
  dce_inode_idx e' = dce_inode_idx e ∧
  (head ls ≠ Some l → dce_prev e' = dce_prev e) ∧
  (l ≠ p → dce_childs e' = dce_childs e ∧ dce_last_child e' = dce_last_child e ∧
           dce_count e' = dce_count e).
Proof.
  intros (_ & Hp & Hh & Hr) He. pose proof x_new.
  destruct (decide (l = p)) as [->|Hlp].
  { rewrite Hp. eexists; split; [done|]. rewrite Hep in He. injection He as <-. by split_and!. }
  destruct (decide (head ls = Some l)) as [Hl|Hl].
  { rewrite (Hh l e) by done. eexists; split; [done|]. by split_and!. }
  rewrite Hr by congruence. exists e. by split_and!.
Qed.

Lemma linked_sibs h3 : linked h3 → sibs h3 None (x :: ls).
Proof.
  intros Hl. pose proof Hl as (Hx & Hp & Hh & Hr). cbn. split; [by eexists; split_and!|].
  pose proof (t_kids _ _ _ _ Hok _ _ Hls) as [_ Hs Hnd _]. destruct ls as [|l ls'] eqn:Els; [done|].
  cbn in Hs |- *. destruct Hs as [(e & He & Hpr & Hnx) Hs]. split.
  - rewrite (Hh l e) by done. by eexists.
  - eapply sibs_frame; [|done]. intros l' e' Hl' He'. apply NoDup_cons in Hnd as [Hnl _].
    destruct (linked_old h3 l' e' Hl He') as (e2 & ? & _ & ? & _ & _ & Hpv & _).
    exists e2. split_and!; [done | apply Hpv; rewrite Els; by intros [= ->] | done].
Qed.

Lemma linked_dom h3 l : linked h3 → is_Some (h3 !! l) ↔ l = x ∨ is_Some (h !! l).
Proof.
  intros Hl. pose proof Hl as (Hx & Hp & Hh & Hr).
  destruct (decide (l = x)) as [->|]; [rewrite Hx; split; eauto|].
  split; [|intros [?|[e He]]; [done|]; by destruct (linked_old h3 l e Hl He) as (? & -> & _); eauto].
  intros [e He]. right. destruct (decide (l = p)) as [->|]; [eauto|].
  destruct (decide (head ls = Some l)) as [Hhd|]; [|rewrite <- Hr by done; eauto].
  pose proof (t_kids _ _ _ _ Hok _ _ Hls) as [_ Hs _ _]. eapply sibs_lookup; [done|by apply head_kid].
Qed.

Local Abbreviation tr' := (<[x := []]> (<[p := x :: ls]> tr)).

Lemma linked_kids h3 q lsq : linked h3 → tr' !! q = Some lsq → kids h3 q lsq.
Proof.
  intros Hl. pose proof Hl as (Hx & Hp & Hh & Hr). pose proof x_new as Hnew.
  rewrite !lookup_insert. case_decide as Hq; [subst q|case_decide as Hq'].
  - intros [= <-]. split; [by eexists; split_and! | done | constructor | done].
  - subst q. intros [= <-]. split; [eexists; split_and!; [done..|] | by apply linked_sibs | |].
    + cbn [dce_count set_dce_count set_dce_last_child]. by rewrite zlen_cons.
    + constructor; [|apply (t_kids _ _ _ _ Hok _ _ Hls)]. intros Hin.
      destruct (t_down _ _ _ _ Hok _ _ _ Hls Hin) as (_ & e & ? & _). congruence.
    + rewrite zlen_cons. lia.
  - intros Hlsq. destruct (proj2 (t_dom _ _ _ _ Hok q) ltac:(eauto)) as [e He].
    destruct (linked_old h3 q e Hl He) as (e' & He' & _ & _ & _ & _ & _ & Hsame).
    destruct (Hsame ltac:(congruence)) as (? & ? & ?).
    eapply kids_frame; [by eapply t_kids | done..|]. intros l el Hin Hel.
    destruct (linked_old h3 l el Hl Hel) as (e2 & ? & _ & ? & _ & _ & Hpv & _).
    exists e2. split_and!; [done | | done]. apply Hpv. intros Hhd%head_kid.
    apply Hq'. symmetry. eapply parent_unique; [exact Hok|exact Hlsq|exact Hls|done..].
Qed.

Lemma linked_down h3 q lsq l : linked h3 → tr' !! q = Some lsq → l ∈ lsq →
  (q < l)%positive ∧ ∃ e, h3 !! l = Some e ∧ dce_parent e = Some q.
Proof.
  intros Hl. pose proof Hl as (Hx & _). assert (∀ lsq, tr !! q = Some lsq → l ∈ lsq →
    (q < l)%positive ∧ ∃ e, h3 !! l = Some e ∧ dce_parent e = Some q) as Hold.
  { intros lsq' Hlsq Hin. destruct (t_down _ _ _ _ Hok _ _ _ Hlsq Hin) as (? & e & He & ?).
    split; [done|]. destruct (linked_old h3 l e Hl He) as (e' & ? & ? & _). exists e'. split; congruence. }
  rewrite !lookup_insert. case_decide as Hq; [subst q|case_decide as Hq'; [subst q|by apply Hold]].
  - intros [= <-] ?%not_elem_of_nil. done.
  - intros [= <-] [->|Hin]%elem_of_cons; [|by eapply Hold]. split; [|by rewrite Hx; eexists].
    pose proof (t_fresh _ _ _ _ Hok p ltac:(eauto)). lia.
Qed.

Lemma linked_ok h3 : linked h3 → tree_ok h3 root (Pos.succ x) tr'.
Proof.
  intros Hl. pose proof Hl as (Hx & Hp & Hh & Hr). pose proof x_new as Hnew.
  assert (x ≠ p) as Hxp by congruence. split.
  - intros l. rewrite (linked_dom h3 l Hl), (t_dom _ _ _ _ Hok). rewrite !lookup_insert_is_Some'. split.
    + intros [->|?]; auto.
    + intros [->|[->|?]]; eauto.
  - intros l [->|Hl']%(linked_dom h3 l Hl); [lia|]. pose proof (t_fresh _ _ _ _ Hok l Hl'). lia.
  - destruct (t_root _ _ _ _ Hok) as (r & Hr0 & Hpr & Hi).
    destruct (linked_old h3 root r Hl Hr0) as (r' & ? & ? & _ & _ & ? & _). exists r'. split_and!; congruence.
  - intros q lsq. by apply linked_kids.
  - intros q lsq l. by apply linked_down.
  - intros l e He Hroot. destruct (decide (l = x)) as [->|Hlx].
    + rewrite Hx in He. injection He as <-. exists p, (x :: ls). split_and!; [done| |apply list_elem_of_here].
      rewrite lookup_insert_ne by done. by rewrite lookup_insert_eq.
    + destruct (proj1 (linked_dom h3 l Hl) ltac:(eauto)) as [?|[e0 He0]]; [done|].
      destruct (linked_old h3 l e0 Hl He0) as (e' & He' & Hpar & _). rewrite He in He'. injection He' as <-.
      destruct (t_up _ _ _ _ Hok _ _ He0 Hroot) as (q & lsq & ? & Hlsq & Hin).
      assert (q ≠ x). { intros ->. pose proof (proj2 (t_dom _ _ _ _ Hok x) ltac:(eauto)) as [? ?]. congruence. }
      rewrite Hpar. destruct (decide (q = p)) as [->|].
      * exists p, (x :: ls). split_and!; [done| |].
        -- rewrite lookup_insert_ne by done. by rewrite lookup_insert_eq.
        -- apply list_elem_of_further. congruence.
      * exists q, lsq. split_and!; [done| |done]. by rewrite !lookup_insert_ne by done.
Qed.
End link.

(** The last child [z] of [p] goes, with its subtree; [y] is the one before. *)
Section unlink.
Context (h : heap) (root fresh : loc) (tr : tree) (Hok : tree_ok h root fresh tr).
Context (p y z : loc) (ls : list loc) (ep ey : decache_entry).
Context (Hls : tr !! p = Some (ls ++ [z])) (Hy : last ls = Some y).
Context (Hep : h !! p = Some ep) (Hey : h !! y = Some ey).

Definition unlinked (h' : heap) : Prop :=
  (∀ l, desc tr z l → h' !! l = None) ∧
  h' !! p = Some (set_dce_count (zlen ls) (set_dce_last_child (Some y) ep)) ∧
  h' !! y = Some (set_dce_next None ey) ∧
  (∀ l, ¬ desc tr z l → l ≠ p → l ≠ y → h' !! l = h !! l).

Lemma z_kid : z ∈ ls ++ [z].
Proof. rewrite elem_of_app, list_elem_of_singleton. by right. Qed.

Lemma y_kid : y ∈ ls ++ [z] ∧ y ≠ z ∧ y ≠ p.
Proof.
  assert (y ∈ ls) as Hin by (by apply last_Some_elem_of). split; [rewrite elem_of_app; by left|].
  pose proof (k_nodup _ _ _ (t_kids _ _ _ _ Hok _ _ Hls)) as Hnd.
  apply NoDup_app in Hnd as (_ & Hnd & _). split.
  - intros E. apply (Hnd y Hin). rewrite E. by apply list_elem_of_singleton.
  - intros E. destruct (t_down _ _ _ _ Hok _ _ y Hls) as [? _]; [rewrite elem_of_app; by left | lia].
Qed.

Lemma unlinked_old h' l e : unlinked h' → ¬ desc tr z l → h !! l = Some e → ∃ e', h' !! l = Some e' ∧
  dce_parent e' = dce_parent e ∧ dce_prev e' = dce_prev e ∧ dce_name e' = dce_name e ∧
  dce_inode_idx e' = dce_inode_idx e ∧ (l ≠ y → dce_next e' = dce_next e) ∧
  (l ≠ p → dce_childs e' = dce_childs e ∧ dce_last_child e' = dce_last_child e ∧
           dce_count e' = dce_count e).
Proof.
  intros (_ & Hp & Hyy & Hr) Hd He.
  destruct (decide (l = p)) as [->|Hlp].
  { rewrite Hp. eexists; split; [done|]. rewrite Hep in He. injection He as <-. by split_and!. }
  destruct (decide (l = y)) as [->|Hly].
  { rewrite Hyy. eexists; split; [done|]. rewrite Hey in He. injection He as <-. by split_and!. }
  rewrite Hr by done. exists e. by split_and!.
Qed.

Lemma unlinked_dom h' l : unlinked h' → is_Some (h' !! l) ↔ is_Some (h !! l) ∧ ¬ desc tr z l.
Proof.
  intros Hu. pose proof Hu as (Hd & Hp & Hyy & Hr). split.
  - intros Hs. assert (¬ desc tr z l) as Hn by (intros ?; rewrite Hd in Hs by done; by destruct Hs).
    split; [|done]. destruct (decide (l = p)) as [->|]; [eauto|].
    destruct (decide (l = y)) as [->|]; [eauto|]. by rewrite <- Hr.
  - intros [[e He] Hn]. by destruct (unlinked_old h' l e Hu Hn He) as (? & -> & _); eauto.
Qed.

Lemma root_not_desc : ¬ desc tr z root.
Proof.
  intros Hd. destruct (t_root _ _ _ _ Hok) as (r & Hr & Hpr & _).
  assert (∃ q lsq, tr !! q = Some lsq ∧ root ∈ lsq) as (q & lsq & Hq & Hin).
  { inversion Hd as [E|q lsq ? _ Hq Hin E]; [|by eauto]. exists p, (ls ++ [z]). split; [done|].
    rewrite <- E. apply z_kid. }
  destruct (t_down _ _ _ _ Hok _ _ _ Hq Hin) as (_ & e & ? & ?). congruence.
Qed.

(** A child of a node that stays, other than [z], stays. *)
Lemma kid_stays q lsq l : tr !! q = Some lsq → l ∈ lsq → ¬ desc tr z q → l ≠ z → ¬ desc tr z l.
Proof.
  intros Hq Hl Hn Hz Hd. inversion Hd as [E|q' lsq' ? Hd' Hq' Hl' E]; [congruence|].
  assert (q' = q) as -> by (eapply parent_unique; [exact Hok|exact Hq'|exact Hq|done..]). done.
Qed.

Lemma p_stays : ¬ desc tr z p.
Proof. eapply desc_above; [exact Hok | exact Hls | apply z_kid]. Qed.

Definition pruned (h' : heap) : tree :=
  filter (λ kv : loc * list loc, is_Some (h' !! kv.1)) (<[p := ls]> tr).

Lemma pruned_lookup h' q lsq : unlinked h' → pruned h' !! q = Some lsq →
  ¬ desc tr z q ∧ (q = p ∧ lsq = ls ∨ q ≠ p ∧ tr !! q = Some lsq).
Proof.
  intros Hu [Hq Hs]%map_lookup_filter_Some. cbn in Hs. apply (unlinked_dom h' q Hu) in Hs as [_ Hn].
  split; [done|]. rewrite lookup_insert in Hq. case_decide as E; [left | right]; split; congruence.
Qed.

(** The siblings that are left. *)
Lemma unlinked_sibs h' : unlinked h' → sibs h' None ls.
Proof.
  intros Hu. pose proof Hu as (_ & _ & Hyy & _).
  pose proof (t_kids _ _ _ _ Hok _ _ Hls) as [_ Hs Hnd _].
  assert (∀ l e, l ∈ ls → h !! l = Some e → ∃ e', h' !! l = Some e' ∧ dce_prev e' = dce_prev e ∧
    (l ≠ y → dce_next e' = dce_next e)) as Hf.
  { intros l e Hl He. destruct (unlinked_old h' l e Hu) as (e' & ? & _ & ? & _ & _ & ? & _); [|done|eauto].
    eapply kid_stays; [exact Hls | rewrite elem_of_app; by left | apply p_stays |].
    apply NoDup_app in Hnd as (_ & Hnd & _). intros ->. apply (Hnd z Hl). by apply list_elem_of_singleton. }
  assert (dce_next <$> h' !! y = Some None) as Hyn by by rewrite Hyy.
  apply NoDup_app in Hnd as (Hnd & _). clear Hyy Hu Hls. revert Hs Hf Hnd Hy. generalize (@None loc).
  induction ls as [|l ls' IH]; intros prev Hs Hf Hnd Hlast; [done|].
  cbn [app sibs] in *. destruct Hs as [(e & He & Hp & Hn) Hs]. apply NoDup_cons in Hnd as [Hnl Hnd].
  destruct (Hf l e ltac:(apply list_elem_of_here) He) as (e' & He' & Hpv & Hnx). split.
  - exists e'. split_and!; [done | congruence |]. destruct ls' as [|l2 ls''].
    + cbn in Hlast. injection Hlast as ->. rewrite He' in Hyn. cbn in Hyn |- *. congruence.
    + rewrite Hnx; [done|]. intros ->. apply Hnl. change (last (l2 :: ls'') = Some y) in Hlast.
      by apply last_Some_elem_of in Hlast.
  - destruct ls' as [|l2 ls'']; [done|]. apply IH; [done | | done | done].
    intros l3 e3 Hl3. apply Hf. by apply list_elem_of_further.
Qed.

Lemma unlinked_kids h' q lsq : unlinked h' → pruned h' !! q = Some lsq → kids h' q lsq.
Proof.
  intros Hu Hq. pose proof Hu as (_ & Hp & _).
  destruct (pruned_lookup h' q lsq Hu Hq) as [Hn [[-> ->]|[Hqp Hlsq]]].
  - pose proof (t_kids _ _ _ _ Hok _ _ Hls) as [(e & He & Hch & _) _ Hnd Hm].
    rewrite zlen_app in Hm. pose proof (zlen_nonneg [z]).
    split; [|by apply unlinked_sibs | by apply NoDup_app in Hnd as [? _] | lia].
    eexists; split_and!; [done| |done|done]. cbn. rewrite Hep in He. injection He as <-.
    rewrite Hch. by destruct ls.
  - destruct (proj2 (t_dom _ _ _ _ Hok q) ltac:(eauto)) as [e He].
    destruct (unlinked_old h' q e Hu Hn He) as (e' & He' & _ & _ & _ & _ & _ & Hsame).
    destruct (Hsame Hqp) as (? & ? & ?).
    assert (∀ l, l ∈ lsq → l ∈ ls ++ [z] → False) as Hno.
    { intros l Hl Hl'. apply Hqp. eapply parent_unique; [exact Hok|exact Hlsq|exact Hls|done..]. }
    eapply kids_frame; [by eapply t_kids | done..|]. intros l el Hin Hel.
    destruct (unlinked_old h' l el Hu) as (e2 & ? & _ & ? & _ & _ & Hnx & _); [|done|].
    { eapply kid_stays; [done..|]. intros ->. apply (Hno z Hin), z_kid. }
    exists e2. split_and!; [done..|]. apply Hnx. intros ->. apply (Hno y Hin). apply y_kid.
Qed.

Lemma unlinked_ok h' : unlinked h' → tree_ok h' root fresh (pruned h').
Proof.
  intros Hu. split.
  - intros l. split.
    + intros Hs. destruct (proj1 (unlinked_dom h' l Hu) Hs) as [[e He] Hn].
      destruct (proj1 (t_dom _ _ _ _ Hok l) ltac:(eauto)) as [lsl Hlsl].
      destruct (decide (p = l)) as [<-|].
      * exists ls. apply map_lookup_filter_Some. by rewrite lookup_insert_eq.
      * exists lsl. apply map_lookup_filter_Some. by rewrite lookup_insert_ne.
    + intros [lsl Hl]. by apply map_lookup_filter_Some in Hl as [_ ?].
  - intros l [Hs _]%(unlinked_dom h' l Hu). by apply (t_fresh _ _ _ _ Hok).
  - destruct (t_root _ _ _ _ Hok) as (r & Hr & Hpr & Hi).
    destruct (unlinked_old h' root r Hu root_not_desc Hr) as (r' & ? & ? & _ & _ & ? & _).
    exists r'. split_and!; congruence.
  - intros q lsq. by apply unlinked_kids.
  - intros q lsq l Hq Hl. destruct (pruned_lookup h' q lsq Hu Hq) as [Hn Hc].
    assert (∃ lsq', tr !! q = Some lsq' ∧ l ∈ lsq' ∧ l ≠ z) as (lsq' & Hlsq & Hin & Hz).
    { destruct Hc as [[-> ->]|[Hqp Hlsq]].
      - exists (ls ++ [z]). rewrite elem_of_app. split_and!; [done|by left|]. intros ->.
        pose proof (k_nodup _ _ _ (t_kids _ _ _ _ Hok _ _ Hls)) as Hnd.
        apply NoDup_app in Hnd as (_ & Hnd & _).
        apply (Hnd z Hl). by apply list_elem_of_singleton.
      - exists lsq. split_and!; [done..|]. intros ->. apply Hqp.
        eapply parent_unique; [exact Hok|exact Hlsq|exact Hls|done|apply z_kid]. }
    destruct (t_down _ _ _ _ Hok _ _ _ Hlsq Hin) as (? & e & He & Hpe). split; [done|].
    destruct (unlinked_old h' l e Hu) as (e' & ? & ? & _); [by eapply kid_stays|done|].
    exists e'. split; congruence.
  - intros l e He Hroot. pose proof (proj1 (unlinked_dom h' l Hu) ltac:(eauto)) as [[e0 He0] Hn].
    destruct (unlinked_old h' l e0 Hu Hn He0) as (e' & He' & Hpar & _). rewrite He in He'. injection He' as <-.
    destruct (t_up _ _ _ _ Hok _ _ He0 Hroot) as (q & lsq & ? & Hlsq & Hin).
    assert (¬ desc tr z q) as Hnq by (intros Hd; apply Hn; by econstructor).
    assert (is_Some (h' !! q)) as Hsq.
    { apply (unlinked_dom h' q Hu). split; [|done]. apply (t_dom _ _ _ _ Hok). eauto. }
    rewrite Hpar. destruct (decide (p = q)) as [<-|].
    + exists p, ls. split_and!; [done| |].
      * apply map_lookup_filter_Some. by rewrite lookup_insert_eq.
      * rewrite Hls in Hlsq. injection Hlsq as <-. rewrite elem_of_app, list_elem_of_singleton in Hin.
        destruct Hin as [?| ->]; [done|]. destruct Hn. constructor.
    + exists q, lsq. split_and!; [done| |done]. apply map_lookup_filter_Some. by rewrite lookup_insert_ne.
Qed.
End unlink.

(** ** [decache_insert] *)

Lemma h_upd_run h l e f : h !! l = Some e → h_upd h (Some l) f = Ok (<[l := f e]> h).
Proof. intros He. unfold h_upd, deref. cbn [obind]. by rewrite He. Qed.

Lemma h_get_run h l e : h !! l = Some e → h_get h (Some l) = Ok e.
Proof. intros He. unfold h_get, deref. cbn [obind]. by rewrite He. Qed.

(** The node before the last one. *)
Lemma sibs_last_prev h prev ls z y : sibs h prev (ls ++ [z]) → last ls = Some y →
  ∃ e, h !! z = Some e ∧ dce_prev e = Some y.
Proof.
  revert prev. induction ls as [|l ls IH]; intros prev; [done|]. intros [_ Hs] Hy.
  destruct ls as [|l2 ls]; [|by eapply IH].
  cbn in Hy. injection Hy as ->. destruct Hs as [(e & He & Hp & _) _]. by exists e.
Qed.

Lemma sibs_last_next h prev ls z e : sibs h prev (ls ++ [z]) → h !! z = Some e → dce_next e = None.
Proof.
  revert prev. induction ls as [|l ls IH]; intros prev Hs He; [|destruct Hs as [_ Hs]; by eapply IH].
  destruct Hs as [(e' & He' & _ & Hn) _]. cbn in Hn. congruence.
Qed.

(** Linking the new node when there are children already. *)
Lemma link_ops hb root x tr p l ls ep n name :
  tree_ok hb root x tr → tr !! p = Some (l :: ls) → hb !! p = Some ep →
  zlen (l :: ls) < DCACHE_MAX_CHILDREN →
  ∃ h3, (let h := <[x := mk_decache_entry (Some p) None None None None n 0 name]> hb in
    pe ← h_get h (Some p);
    h ← h_upd h (Some x) (λ e, set_dce_prev None (set_dce_next (dce_childs pe) e));
    h ← h_upd h (dce_childs pe) (set_dce_prev (Some x));
    h_upd h (Some p) (λ pe, set_dce_count (u32 (dce_count pe + 1)) (set_dce_childs (Some x) pe))) =
      Ok h3 ∧ linked hb x p (l :: ls) ep n name h3.
Proof.
  intros Hok Hls Hep Hmax. pose proof (x_new hb root x tr Hok) as Hx.
  assert (x ≠ p) as Hxp by congruence.
  pose proof (t_kids _ _ _ _ Hok _ _ Hls) as [(e0 & He0 & Hch & Hlc & Hcnt) [(el & Hel & _) _] _ _].
  rewrite Hep in He0. injection He0 as <-. cbn in Hch.
  destruct (t_down _ _ _ _ Hok _ _ l Hls ltac:(apply list_elem_of_here)) as [Hpl _].
  assert (x ≠ l) as Hxl by congruence. assert (p ≠ l) as Hpl' by lia.
  cbv zeta. erewrite h_get_run by (by rewrite lookup_insert_ne). cbn [obind]. rewrite Hch.
  erewrite h_upd_run by (apply lookup_insert_eq). cbn [obind].
  erewrite h_upd_run by (rewrite !lookup_insert_ne by done; exact Hel). cbn [obind].
  erewrite h_upd_run by (rewrite !lookup_insert_ne by done; exact Hep).
  eexists; split; [done|]. split_and!.
  - rewrite !lookup_insert_ne by done. by rewrite lookup_insert_eq.
  - rewrite lookup_insert_eq, Hcnt. pose proof (zlen_nonneg (l :: ls)). unfold DCACHE_MAX_CHILDREN in Hmax.
    unfold u32. rewrite Z.mod_small by lia. change (last (x :: l :: ls)) with (last (l :: ls)).
    rewrite <- Hlc. by destruct ep.
  - intros l' e [= <-] He. rewrite lookup_insert_ne, lookup_insert_eq by done. congruence.
  - intros l' ? ? Hl'. cbn in Hl'. by rewrite !lookup_insert_ne by congruence.
Qed.

Lemma link_only hb root x tr p ep n name :
  tree_ok hb root x tr → hb !! p = Some ep →
  ∃ h3, h_upd (<[x := mk_decache_entry (Some p) None None None None n 0 name]> hb) (Some p) (λ p,
          set_dce_last_child (Some x) (set_dce_count 1 (set_dce_childs (Some x) p))) = Ok h3 ∧
    linked hb x p [] ep n name h3.
Proof.
  intros Hok Hep. pose proof (x_new hb root x tr Hok) as Hx. assert (x ≠ p) as Hxp by congruence.
  erewrite h_upd_run by (by rewrite lookup_insert_ne). eexists; split; [done|]. split_and!.
  - rewrite lookup_insert_ne by done. by rewrite lookup_insert_eq.
  - by rewrite lookup_insert_eq.
  - done.
  - intros l' ? ? _. by rewrite !lookup_insert_ne by done.
Qed.

(** The subtree of the last child does not hold the nodes that are changed. *)
Lemma evicted_apart h root x tr p ls z y l :
  tree_ok h root x tr → tr !! p = Some (ls ++ [z]) → last ls = Some y → desc tr z l →
  l ≠ x ∧ l ≠ p ∧ l ≠ y.
Proof.
  intros Hok Hls Hy Hd. pose proof (x_new h root x tr Hok) as Hx.
  destruct (y_kid h root x tr Hok p y z ls Hls Hy) as (Hyk & Hyz & Hyp). split_and!.
  - intros ->. inversion Hd as [E|q lsq ? _ Hq Hin E].
    + subst. destruct (t_down _ _ _ _ Hok _ _ _ Hls (z_kid x ls)) as (_ & e & ? & _). congruence.
    + destruct (t_down _ _ _ _ Hok _ _ _ Hq Hin) as (_ & e & ? & _). congruence.
  - intros ->. by eapply (p_stays h root x tr Hok p z ls).
  - intros ->. eapply (desc_apart h root x tr Hok p _ z y y Hls); [apply z_kid|done|congruence|done|constructor].
Qed.

(** Dropping the last of the children, with a new node [x] not yet linked. *)
Lemma evict_ops h root x tr p ls z y ep new :
  tree_ok h root x tr → tr !! p = Some (ls ++ [z]) → last ls = Some y → h !! p = Some ep →
  ∃ hb, (let h := <[x := new]> h in
    it ← h_get h (Some z);
    h ← h_upd h (dce_prev it) (set_dce_next None);
    it ← h_get h (Some z);
    h ← h_upd h (Some p) (λ p, set_dce_count (u32 (dce_count p - 1)) (set_dce_last_child (dce_prev it) p));
    decache_free h (Some z)) = Ok (<[x := new]> hb) ∧
  ∃ ey, h !! y = Some ey ∧ unlinked h tr p y z ls ep ey hb.
Proof.
  intros Hok Hls Hy Hep. pose proof (x_new h root x tr Hok) as Hx.
  pose proof (t_kids _ _ _ _ Hok _ _ Hls) as [(e0 & He0 & _ & _ & Hcnt) Hs _ Hm].
  rewrite Hep in He0. injection He0 as <-.
  destruct (sibs_last_prev h None ls z y Hs Hy) as (ez & Hez & Hpz).
  destruct (y_kid h root x tr Hok p y z ls Hls Hy) as (Hyk & Hyz & Hyp).
  destruct (t_down _ _ _ _ Hok _ _ _ Hls Hyk) as (_ & ey & Hey & _).
  destruct (t_down _ _ _ _ Hok _ _ _ Hls (z_kid z ls)) as (Hpz' & _).
  assert (x ≠ p ∧ x ≠ y ∧ x ≠ z ∧ p ≠ z) as (? & ? & ? & ?) by (split_and!; [congruence..|lia]).
  cbv zeta. erewrite h_get_run by (by rewrite lookup_insert_ne). cbn [obind]. rewrite Hpz.
  erewrite h_upd_run by (rewrite lookup_insert_ne by done; exact Hey). cbn [obind].
  erewrite h_get_run by (rewrite !lookup_insert_ne by done; exact Hez). cbn [obind]. rewrite Hpz.
  erewrite h_upd_run by (rewrite !lookup_insert_ne by done; exact Hep). cbn [obind decache_free].
  set (h2 := <[p := _]> (<[y := _]> (<[x := new]> h))).
  assert (∀ l, l ≠ x → l ≠ p → l ≠ y → h2 !! l = h !! l) as Hh2.
  { intros l ? ? ?. unfold h2. by rewrite !lookup_insert_ne by congruence. }
  assert (∀ l, desc tr z l → l ≠ x ∧ l ≠ p ∧ l ≠ y) as Hd by (intros l; by eapply evicted_apart).
  destruct (free_rec_ok h root x tr Hok (S (size h2)) z h2) as (hE & -> & Hw1 & Hw2).
  - by exists ez.
  - apply rank_fuel. intros l Hl. unfold h2. rewrite !dom_insert, !elem_of_union. auto.
  - intros l Hl. destruct (Hd l Hl) as (? & ? & ?). by apply Hh2.
  - exists (delete x hE). split.
    + f_equal. rewrite insert_delete_eq. symmetry. apply insert_id. rewrite Hw2.
      * unfold h2. rewrite !lookup_insert_ne by done. apply lookup_insert_eq.
      * intros Hl. by destruct (Hd x Hl).
    + exists ey. split; [done|]. split_and!.
      * intros l Hl. destruct (Hd l Hl) as (? & _). rewrite lookup_delete_ne by done. by apply Hw1.
      * rewrite lookup_delete_ne by done. rewrite Hw2 by (intros Hl; by destruct (Hd p Hl) as (_ & ? & _)).
        unfold h2. rewrite lookup_insert_eq, Hcnt, zlen_app. change (zlen [z]) with 1.
        rewrite zlen_app in Hm. change (zlen [z]) with 1 in Hm. unfold DCACHE_MAX_CHILDREN in Hm.
        pose proof (zlen_nonneg ls). unfold u32. rewrite Z.mod_small by lia. by rewrite Z.add_simpl_r.
      * rewrite lookup_delete_ne by done. rewrite Hw2 by (intros Hl; by destruct (Hd y Hl) as (_ & _ & ?)).
        unfold h2. rewrite lookup_insert_ne by done. by rewrite lookup_insert_eq.
      * intros l Hl ? ?. destruct (decide (l = x)) as [->|]; [by rewrite lookup_delete_eq|].
        rewrite lookup_delete_ne by done. rewrite Hw2 by done. by apply Hh2.
Qed.

(** The children the code keeps beside a new one. *)
Definition kept (ls : list loc) : list loc := take (Z.to_nat DCACHE_MAX_CHILDREN - 1) ls.

(** What is left of the old nodes: their data, and all but the subtree of the
    child that had to go. *)
Definition survive (h h' : heap) (tr : tree) (x : loc) (ls : list loc) : Prop :=
  ∀ l, l ≠ x →
    (is_Some (h' !! l) ↔ is_Some (h !! l) ∧
       ∀ z, ls !! (Z.to_nat DCACHE_MAX_CHILDREN - 1)%nat = Some z → ¬ desc tr z l) ∧
    (∀ e', h' !! l = Some e' → ∃ e, h !! l = Some e ∧ dce_name e' = dce_name e ∧
       dce_inode_idx e' = dce_inode_idx e ∧ dce_parent e' = dce_parent e).

(** What [decache_insert] leaves: a tree again, in which the new node [x] is
    the first child of [p], before the children of [p] that are kept. *)
Record inserted (h : heap) (root x : loc) (tr : tree) (p : loc) (ls : list loc) (n : Z)
    (name : list Z) (h' : heap) (tr' : tree) : Prop := mk_inserted {
  ins_ok : tree_ok h' root (Pos.succ x) tr';
  ins_new : tr' !! x = Some [];
  ins_kids : tr' !! p = Some (x :: kept ls);
  ins_others : ∀ q, q ≠ x → q ≠ p → is_Some (h' !! q) → tr' !! q = tr !! q;
  ins_entry : ∃ e, h' !! x = Some e ∧ dce_name e = name ∧ dce_inode_idx e = n ∧ dce_parent e = Some p;
  ins_survive : survive h h' tr x ls
}.

Lemma kept_all ls : zlen ls < DCACHE_MAX_CHILDREN →
  kept ls = ls ∧ ls !! (Z.to_nat DCACHE_MAX_CHILDREN - 1)%nat = None.
Proof.
  unfold kept, zlen, DCACHE_MAX_CHILDREN. intros. split; [apply take_ge | apply lookup_ge_None_2]; lia.
Qed.

Lemma linked_inserted h root x tr p ls ep n name h3 :
  tree_ok h root x tr → tr !! p = Some ls → h !! p = Some ep → zlen ls < DCACHE_MAX_CHILDREN →
  linked h x p ls ep n name h3 →
  inserted h root x tr p ls n name h3 (<[x := []]> (<[p := x :: ls]> tr)).
Proof.
  intros Hok Hls Hep Hmax Hl. destruct (kept_all ls Hmax) as [Hk Hnone].
  assert (x ≠ p) as Hxp by (intros ->; pose proof (x_new h root p tr Hok); congruence).
  split.
  - by eapply linked_ok.
  - apply lookup_insert_eq.
  - by rewrite lookup_insert_ne, lookup_insert_eq, Hk by done.
  - intros q ? ? _. by rewrite !lookup_insert_ne by done.
  - destruct Hl as [Hx _]. eexists; split; [exact Hx | done].
  - intros l Hlx. pose proof (linked_dom h root x tr Hok p ls ep n name Hls Hep Hmax h3 l Hl) as Hd.
    split; [rewrite Hd, Hnone; split; [intros [?|?]; done | intros [? _]; auto]|].
    intros e' He'. destruct (proj1 Hd ltac:(eauto)) as [?|[e He]]; [done|].
    destruct (linked_old h root x tr Hok p ls ep n name Hep h3 l e Hl He) as (e2 & ? & ? & _ & ? & ? & _).
    exists e. split_and!; congruence.
Qed.

Lemma evicted_inserted h root x tr p y z ls ep ey eb hb n name h3 :
  tree_ok h root x tr → tr !! p = Some (ls ++ [z]) → last ls = Some y →
  h !! p = Some ep → h !! y = Some ey → zlen (ls ++ [z]) = DCACHE_MAX_CHILDREN →
  unlinked h tr p y z ls ep ey hb → hb !! p = Some eb → linked hb x p ls eb n name h3 →
  inserted h root x tr p (ls ++ [z]) n name h3 (<[x := []]> (<[p := x :: ls]> (pruned tr p ls hb))).
Proof.
  intros Hok Hls Hy Hep Hey Hlen Hu Heb Hl.
  rewrite zlen_app in Hlen. change (zlen [z]) with 1 in Hlen.
  pose proof (unlinked_ok h root x tr Hok p y z ls ep ey Hls Hy Hep Hey hb Hu) as Hokb.
  assert (pruned tr p ls hb !! p = Some ls) as Hlsb.
  { apply map_lookup_filter_Some. split; [apply lookup_insert_eq | by exists eb]. }
  destruct (linked_inserted hb root x _ p ls eb n name h3 Hokb Hlsb Heb ltac:(lia) Hl)
    as [Hok3 Hx Hp Hq He Hs].
  assert (kept (ls ++ [z]) = ls ∧ (ls ++ [z]) !! (Z.to_nat DCACHE_MAX_CHILDREN - 1)%nat = Some z) as [Hk Hz].
  { unfold kept, zlen, DCACHE_MAX_CHILDREN in *. split; [by rewrite take_app_length' by lia|].
    rewrite lookup_app_r by lia. by replace (_ - _)%nat with 0%nat by lia. }
  destruct (kept_all ls ltac:(lia)) as [Hkl Hnone]. split; [done|done|by rewrite Hk, Hp, Hkl| |done|].
  - intros q Hqx Hqp Hsome. rewrite Hq by done. apply Hs in Hsome as [Hb _]; [|done].
    unfold pruned. rewrite map_lookup_filter, lookup_insert_ne by done.
    destruct (tr !! q); [|done]. cbn. by rewrite option_guard_True.
  - intros l Hlx. destruct (Hs l Hlx) as [Hd Hdata].
    pose proof (unlinked_dom h tr p y z ls ep ey Hep Hey hb l Hu) as Hdb. split.
    + rewrite Hd, Hdb, Hz, Hnone. split.
      * intros [[? ?] _]. split; [done|]. by intros ? [= <-].
      * intros [? Hn]. split; [|done]. auto.
    + intros e' He'. destruct (Hdata e' He') as (e1 & He1 & -> & -> & ->).
      destruct (proj1 Hdb ltac:(eauto)) as [[e0 He0] Hn].
      destruct (unlinked_old h tr p y z ls ep ey Hep Hey hb l e0 Hu Hn He0)
        as (e2 & ? & ? & _ & ? & ? & _).
      exists e0. split_and!; congruence.
Qed.

Lemma insert_heap_ok h root x tr p ls n name :
  tree_ok h root x tr → tr !! p = Some ls →
  ∃ h' tr', insert_heap h x p name n = Ok h' ∧ inserted h root x tr p ls n name h' tr'.
Proof.
  intros Hok Hls. pose proof (t_kids _ _ _ _ Hok _ _ Hls) as [(ep & Hep & Hch & Hlc & Hcnt) _ _ Hm].
  pose proof (x_new _ _ _ _ Hok) as Hx. assert (x ≠ p) as Hxp by congruence.
  unfold insert_heap. erewrite h_get_run by (by rewrite lookup_insert_ne). cbn [obind]. rewrite Hcnt.
  destruct (Z.eqb_spec (zlen ls) 0) as [H0|H0].
  { assert (ls = []) as -> by (unfold zlen in H0; apply length_zero_iff_nil; lia).
    destruct (link_only h root x tr p ep n name Hok Hep) as (h3 & Hh3 & Hl).
    exists h3, (<[x := []]> (<[p := [x]]> tr)). split; [done|]. by eapply linked_inserted. }
  destruct (Z.eqb_spec (zlen ls) DCACHE_MAX_CHILDREN) as [Hfull|Hfull].
  - destruct (exists_last (l := ls)) as (ls' & z & ->); [by intros ->|].
    destruct (last ls') as [y|] eqn:Hy.
    2:{ apply last_None in Hy as ->. by unfold DCACHE_MAX_CHILDREN, zlen in Hfull. }
    rewrite Hlc, last_snoc. cbv zeta.
    destruct (evict_ops h root x tr p ls' z y ep
      (mk_decache_entry (Some p) None None None None n 0 name) Hok Hls Hy Hep) as (hb & Hb & ey & Hey & Hu).
    cbv zeta in Hb. rewrite Hb. cbn [obind].
    pose proof (unlinked_ok h root x tr Hok p y z ls' ep ey Hls Hy Hep Hey hb Hu) as Hokb.
    pose proof Hu as (_ & Hpb & _). destruct ls' as [|l ls']; [done|].
    destruct (link_ops hb root x _ p l ls' _ n name Hokb
      ltac:(apply map_lookup_filter_Some; split; [apply lookup_insert_eq | by eexists]) Hpb) as (h3 & Hh3 & Hl).
    { rewrite zlen_app in Hfull. change (zlen [z]) with 1 in Hfull. lia. }
    cbv zeta in Hh3. rewrite Hh3. eexists h3, _. split; [done|]. by eapply evicted_inserted.
  - cbn [obind]. destruct ls as [|l ls]; [done|].
    destruct (link_ops h root x tr p l ls ep n name Hok Hls Hep ltac:(lia)) as (h3 & Hh3 & Hl).
    cbv zeta in Hh3. rewrite Hh3. eexists h3, _. split; [done|]. eapply linked_inserted; [done..|lia|done].
Qed.

Lemma decache_insert_ok dc tr parent ls name namelen n :
  decache_ok dc tr → tr !! start_of dc parent = Some ls → 0 ≤ namelen < DCACHE_ENTRY_NAME_LEN →
  ∃ dc' tr', decache_insert dc parent name namelen n = Ok (Some (dh_fresh dc), dc') ∧
    dh_root dc' = dh_root dc ∧ dh_fresh dc' = Pos.succ (dh_fresh dc) ∧
    inserted (dh_heap dc) (dh_root dc) (dh_fresh dc) tr (start_of dc parent) ls n
      (take (Z.to_nat namelen) name) (dh_heap dc') tr'.
Proof.
  intros Hok Hls Hlen. unfold decache_insert. destruct (Z.ltb_spec DCACHE_ENTRY_NAME_LEN (namelen + 1)); [lia|].
  destruct (t_root _ _ _ _ Hok) as (r & Hr & _ & Hri).
  destruct (insert_heap_ok _ _ _ _ _ _ n (take (Z.to_nat namelen) name) Hok Hls) as (h' & tr' & Hh & Hi).
  exists (mk_decache h' (Pos.succ (dh_fresh dc)) (dh_root dc)), tr'.
  split; [|done]. unfold start_of in Hh. destruct parent as [p|]; cbn [default from_option id obind] in *.
  - by rewrite Hh.
  - rewrite (h_get_run _ _ _ Hr). cbn [obind]. destruct (Z.eqb_spec (dce_inode_idx r) 0); [done|].
    cbn [negb obind ASSERT]. by rewrite Hh.
Qed.

(** ** [decache_delete] of a child between two others *)

(** The walk of the siblings runs into a freed node [x]. *)
Lemma walk_siblings_dangling h h' prev l1 x ls name n fuel :
  sibs h prev (l1 ++ x :: ls) → l1 ≠ [] → (∀ l, l ∈ l1 → h' !! l = h !! l) → h' !! x = None →
  0 ≤ n ≤ zlen name → child_named h l1 (take (Z.to_nat n) name) = None → (length l1 < fuel)%nat →
  ∃ l, head l1 = Some l ∧ walk_siblings fuel h' l name n = Fault Undefined.
Proof.
  revert prev fuel. induction l1 as [|l l1 IH]; intros prev fuel Hs Hne Hag Hx Hn Hc Hf; [done|].
  exists l. split; [done|]. destruct fuel as [|fuel]; [lia|]. cbn [length] in Hf.
  destruct Hs as [(e & He & _ & Hnext) Hs]. cbn [child_named] in Hc. case_bool_decide as Hnm; [done|].
  cbn [walk_siblings]. erewrite h_get_run by (rewrite Hag by apply list_elem_of_here; exact He). cbn [obind].
  rewrite (name_is_token _ _ _ Hn), bool_decide_eq_false_2 by (rewrite He in Hnm; cbn in Hnm; congruence).
  rewrite Hnext. destruct l1 as [|l2 l1].
  - cbn [head app]. destruct fuel as [|fuel]; [lia|]. cbn [walk_siblings]. unfold h_get, deref. cbn [obind].
    by rewrite Hx.
  - cbn [head app]. destruct (IH (Some l) fuel Hs) as (l' & [= <-] & ->); try done; [|cbn [length] in *; lia].
    intros l' ?. apply Hag. by apply list_elem_of_further.
Qed.

Lemma sibs_middle h prev l1 y x r : sibs h prev (l1 ++ y :: x :: r) →
  ∃ ey ex, h !! y = Some ey ∧ dce_next ey = Some x ∧
    h !! x = Some ex ∧ dce_prev ex = Some y ∧ dce_next ex = head r.
Proof.
  revert prev. induction l1 as [|l l1 IH]; intros prev Hs; [|destruct Hs as [_ Hs]; by eapply IH].
  destruct Hs as [(ey & ? & _ & ?) [(ex & ? & ? & ?) _]]. by exists ey, ex.
Qed.

(** The nodes that a call of [decache_delete] for a middle child leaves. *)
Lemma delete_middle_ok dc tr p l1 y x z l2 path rest :
  decache_ok dc tr → tr !! p = Some (l1 ++ y :: x :: z :: l2) → decache_find dc path = Ok (Some x, rest) →
  ∃ dc' ep, decache_delete dc path = Ok dc' ∧ dh_heap dc !! p = Some ep ∧
    without (<[p := set_dce_count (dce_count ep - 1) ep]> (dh_heap dc)) (dh_heap dc') (desc tr x).
Proof.
  intros Hok Hls Hfind. pose proof (t_kids _ _ _ _ Hok _ _ Hls) as [(ep & Hep & _ & _ & Hcnt) Hs _ _].
  assert (x ∈ l1 ++ y :: x :: z :: l2) as Hin by (rewrite elem_of_app, !elem_of_cons; auto).
  destruct (t_down _ _ _ _ Hok _ _ _ Hls Hin) as (Hpx & ex & Hex & Hpar).
  destruct (sibs_middle _ _ _ _ _ _ Hs) as (_ & ex' & _ & _ & Hex' & Hprev & Hnext).
  rewrite Hex in Hex'. injection Hex' as <-. cbn [head] in Hnext.
  assert (3 ≤ zlen (l1 ++ y :: x :: z :: l2)) as Hlen.
  { rewrite zlen_app, !zlen_cons. pose proof (zlen_nonneg l1). pose proof (zlen_nonneg l2). lia. }
  unfold decache_delete. rewrite Hfind. cbn [obind]. rewrite (h_get_run _ _ _ Hex). cbn [obind].
  rewrite Hpar, (h_get_run _ _ _ Hep). cbn [obind]. destruct (Z.eqb_spec (dce_count ep) 0); [lia|].
  cbn [negb ASSERT obind]. rewrite (h_upd_run _ _ _ _ Hep). cbn [obind].
  erewrite h_get_run by apply lookup_insert_eq. cbn [obind]. set (h1 := <[p := _]> (dh_heap dc)).
  cbn [dce_count set_dce_count]. destruct (Z.eqb_spec (dce_count ep - 1) 0); [lia|].
  assert (h1 !! x = Some ex) as Hx1 by (unfold h1; rewrite lookup_insert_ne by lia; done).
  rewrite (h_get_run _ _ _ Hx1). cbn [obind]. rewrite Hprev, Hnext. cbn [obind decache_free].
  destruct (free_rec_ok (dh_heap dc) _ _ tr Hok (S (size h1)) x h1) as (h' & -> & Hw).
  - by exists ex.
  - apply rank_fuel. intros l Hl. unfold h1. rewrite dom_insert, elem_of_union. auto.
  - intros l Hl. unfold h1. rewrite lookup_insert_ne; [done|]. intros <-.
    by eapply (desc_above _ _ _ _ Hok p).
  - cbn [obind]. by eexists _, ep.
Qed.

(** Removing the last of several children unlinks it and frees its subtree. *)
Lemma delete_last_ok dc tr p ls y z path rest :
  decache_ok dc tr → tr !! p = Some (ls ++ [z]) → last ls = Some y → decache_find dc path = Ok (Some z, rest) →
  ∃ dc' ep ey, decache_delete dc path = Ok dc' ∧ dh_root dc' = dh_root dc ∧ dh_fresh dc' = dh_fresh dc ∧
    dh_heap dc !! p = Some ep ∧ dh_heap dc !! y = Some ey ∧
    unlinked (dh_heap dc) tr p y z ls ep ey (dh_heap dc').
Proof.
  intros Hok Hls Hy Hfind. pose proof (t_kids _ _ _ _ Hok _ _ Hls) as [(ep & Hep & _ & _ & Hcnt) Hs _ _].
  destruct (sibs_last_prev _ None ls z y Hs Hy) as (ez & Hez & Hprev).
  destruct (t_down _ _ _ _ Hok _ _ _ Hls (z_kid z ls)) as (Hpz & ez' & Hez' & Hpar).
  rewrite Hez in Hez'. injection Hez' as <-. pose proof (sibs_last_next _ _ _ _ _ Hs Hez) as Hnext.
  destruct (y_kid _ _ _ tr Hok p y z ls Hls Hy) as (Hyk & Hyz & Hyp).
  destruct (t_down _ _ _ _ Hok _ _ _ Hls Hyk) as (_ & ey & Hey & _).
  rewrite zlen_app in Hcnt. change (zlen [z]) with 1 in Hcnt.
  assert (0 < zlen ls) by (destruct ls; [done|]; rewrite zlen_cons; pose proof (zlen_nonneg ls); lia).
  unfold decache_delete. rewrite Hfind. cbn [obind]. rewrite (h_get_run _ _ _ Hez). cbn [obind].
  rewrite Hpar, (h_get_run _ _ _ Hep). cbn [obind]. destruct (Z.eqb_spec (dce_count ep) 0); [lia|].
  cbn [negb ASSERT obind]. rewrite (h_upd_run _ _ _ _ Hep). cbn [obind].
  erewrite h_get_run by apply lookup_insert_eq. cbn [obind dce_count set_dce_count].
  destruct (Z.eqb_spec (dce_count ep - 1) 0); [lia|].
  erewrite h_get_run by (rewrite lookup_insert_ne by lia; exact Hez). cbn [obind]. rewrite Hprev, Hnext.
  erewrite h_upd_run by (rewrite lookup_insert_ne by done; exact Hey). cbn [obind].
  erewrite h_upd_run by (rewrite lookup_insert_ne by done; apply lookup_insert_eq). cbn [obind decache_free].
  set (h2 := <[p := _]> (<[y := _]> (<[p := _]> (dh_heap dc)))).
  assert (∀ l, desc tr z l → l ≠ p ∧ l ≠ y) as Hd by (intros l Hl; by destruct (evicted_apart _ _ _ _ _ _ _ _ _ Hok Hls Hy Hl) as (_ & ? & ?)).
  assert (∀ l, l ≠ p → l ≠ y → h2 !! l = dh_heap dc !! l) as Hh2
    by (intros l ? ?; unfold h2; by rewrite !lookup_insert_ne by congruence).
  destruct (free_rec_ok _ _ _ tr Hok (S (size h2)) z h2) as (h' & -> & Hw1 & Hw2).
  - by exists ez.
  - apply rank_fuel. intros l Hl. unfold h2. rewrite !dom_insert, !elem_of_union. auto.
  - intros l Hl. destruct (Hd l Hl). by apply Hh2.
  - cbn [obind]. eexists _, ep, ey. split; [done|]. cbn [dh_heap dh_root dh_fresh]. do 4 (split; [done|]). split_and!.
    + done.
    + rewrite Hw2 by (intros Hl; by destruct (Hd p Hl)). unfold h2. rewrite lookup_insert_eq.
      rewrite Hcnt, Z.add_simpl_r. by destruct ep.
    + rewrite Hw2 by (intros Hl; by destruct (Hd y Hl)). unfold h2.
      by rewrite lookup_insert_ne, lookup_insert_eq by done.
    + intros l Hl ? ?. rewrite Hw2 by done. by apply Hh2.
Qed.

(** Every node is below the root. *)
Lemma root_desc h root fresh tr l : tree_ok h root fresh tr → is_Some (h !! l) → desc tr root l.
Proof.
  intros Hok. remember (Pos.to_nat l) as k eqn:Hk. revert l Hk.
  induction k as [k IH] using lt_wf_ind. intros l -> [e He].
  destruct (decide (l = root)) as [->|Hne]; [constructor|].
  destruct (t_up _ _ _ _ Hok l e He Hne) as (p & ls & _ & Hls & Hl).
  destruct (t_down _ _ _ _ Hok _ _ _ Hls Hl) as [Hlt _].
  econstructor; [|done..]. eapply IH; [|done|]; [lia|]. apply (t_dom _ _ _ _ Hok). by exists ls.
Qed.

Lemma init_root_ok n : n ≠ 0 → decache_ok (decache_init_root n) {[ 1%positive := [] ]}.
Proof.
  intros Hn. unfold decache_ok, decache_init_root. cbn [dh_heap dh_root dh_fresh]. split.
  - intros p. destruct (decide (p = 1%positive)) as [->|]; [rewrite !lookup_singleton_eq|rewrite !lookup_singleton_ne by done];
      split; intros [? ?]; done || by eexists.
  - intros p [e [<- _]%lookup_singleton_Some]. lia.
  - eexists. split; [apply lookup_singleton_eq | done].
  - intros p ls [<- <-]%lookup_singleton_Some. split; [|done|constructor|by compute].
    eexists. split; [apply lookup_singleton_eq | done].
  - intros p ls l [<- <-]%lookup_singleton_Some Hl. by apply not_elem_of_nil in Hl.
  - intros l e [<- _]%lookup_singleton_Some. done.
Qed.

(** ** Histories

    The calls on the cache that respect its links: any insertion whose name
    fits, and the removal of the last of several children. *)
Inductive decache_reach (n : Z) : decache → Prop :=
| reach_init : decache_reach n (decache_init_root n)
| reach_insert dc parent name namelen idx x dc' :
    decache_reach n dc → is_Some (dh_heap dc !! start_of dc parent) → 0 ≤ namelen →
    decache_insert dc parent name namelen idx = Ok (x, dc') → decache_reach n dc'
| reach_delete dc path rest z ez y dc' :
    decache_reach n dc → decache_find dc path = Ok (Some z, rest) →
    dh_heap dc !! z = Some ez → dce_next ez = None → dce_prev ez = Some y →
    decache_delete dc path = Ok dc' → decache_reach n dc'.

(** A node without a next sibling is the last child. *)
Lemma last_child_split h root fresh tr z e y :
  tree_ok h root fresh tr → h !! z = Some e → dce_next e = None → dce_prev e = Some y → z ≠ root →
  ∃ p ls, tr !! p = Some (ls ++ [z]) ∧ last ls = Some y.
Proof.
  intros Hok He Hnext Hprev Hz. destruct (t_up _ _ _ _ Hok z e He Hz) as (p & ls & _ & Hls & Hin).
  exists p. pose proof (t_kids _ _ _ _ Hok _ _ Hls) as [_ Hs _ _].
  apply list_elem_of_split in Hin as (l1 & l2 & ->).
  assert (l2 = [] ∧ last l1 = Some y) as [-> Hy].
  { assert (∀ prev, sibs h prev (l1 ++ z :: l2) → l2 = [] ∧ (last l1 = Some y ∨ l1 = [] ∧ prev = Some y)) as Hgen.
    { clear Hs Hls. induction l1 as [|l l1 IH]; intros prev Hs.
      - destruct Hs as [(e' & He' & Hp & Hn) _]. rewrite He in He'. injection He' as <-.
        destruct l2; [|cbn in Hn; congruence]. split; [done|]. right. split; congruence.
      - destruct Hs as [_ Hs]. destruct (IH _ Hs) as [-> [Hl|[-> [= ->]]]]; (split; [done|]); left; [|done].
        destruct l1; [done | by rewrite last_cons_cons]. }
    destruct (Hgen _ Hs) as [? [?|[_ ?]]]; done. }
  by exists l1.
Qed.

Lemma decache_reach_ok n dc : n ≠ 0 → decache_reach n dc → ∃ tr, decache_ok dc tr.
Proof.
  intros Hn. induction 1 as [|dc parent name namelen idx x dc' _ [tr Hok] Hp H0 Hi
                             |dc path rest z ez y dc' _ [tr Hok] Hf Hz Hnx Hpv Hd].
  - eexists. by apply init_root_ok.
  - destruct (proj1 (t_dom _ _ _ _ Hok _) Hp) as [ls Hls].
    destruct (Z.ltb_spec DCACHE_ENTRY_NAME_LEN (namelen + 1)) as [Hlong|Hfit].
    { revert Hi. unfold decache_insert. destruct (Z.ltb_spec DCACHE_ENTRY_NAME_LEN (namelen + 1)); [|lia].
      intros [= <- <-]. by exists tr. }
    destruct (decache_insert_ok dc tr parent ls name namelen idx Hok Hls ltac:(lia)) as (dc2 & tr' & Hi2 & Hr & Hfr & Hins).
    rewrite Hi in Hi2. injection Hi2 as _ <-. exists tr'. unfold decache_ok. rewrite Hr, Hfr. apply Hins.
  - assert (z ≠ dh_root dc) as Hzr.
    { intros ->. destruct (t_root _ _ _ _ Hok) as (r & Hr & Hpar & _). rewrite Hz in Hr. injection Hr as <-.
      revert Hd. unfold decache_delete. rewrite Hf. cbn [obind]. rewrite (h_get_run _ _ _ Hz). cbn [obind].
      by rewrite Hpar. }
    destruct (last_child_split _ _ _ _ _ _ _ Hok Hz Hnx Hpv Hzr) as (p & ls & Hls & Hy).
    destruct (delete_last_ok dc tr p ls y z path rest Hok Hls Hy Hf) as (dc2 & ep & ey & Hd2 & Hr & Hfr & Hep & Hey & Hu).
    rewrite Hd in Hd2. injection Hd2 as <-. eexists. unfold decache_ok. rewrite Hr, Hfr. by eapply unlinked_ok.
Qed.

(** ** A small cache: [/a/d], [/b] and [/c] *)

Definition test_decache : decache := Eval vm_compute in
  match
    '(a, dc) ← decache_insert (decache_init_root 2) None (cstr "a") 1 12;
    '(_, dc) ← decache_insert dc None (cstr "b") 1 13;
    '(_, dc) ← decache_insert dc None (cstr "c/x") 1 14;
    '(_, dc) ← decache_insert dc a (cstr "d") 1 15;
    Ok dc
  with Ok dc => dc | Fault _ => decache_init_root 0 end.

Definition test_tree : tree := Eval vm_compute in
  list_to_map [(1, [4; 3; 2]); (2, [5]); (3, []); (4, []); (5, [])]%positive.

(** The entries of a map given by its elements, one by one. *)
Ltac each_entry H :=
  apply elem_of_map_to_list in H;
  match type of H with _ ∈ ?l => let l' := eval vm_compute in l in change l with l' in H end;
  repeat match type of H with
  | _ ∈ _ :: _ => apply elem_of_cons in H as [H|H]; [injection H as -> ->|]
  | _ ∈ [] => by apply not_elem_of_nil in H
  end.

Lemma test_decache_ok : decache_ok test_decache test_tree.
Proof.
  split.
  - intros p. rewrite <- !(elem_of_dom (D := gset loc)).
    by replace (dom (dh_heap test_decache) : gset loc) with (dom test_tree : gset loc) by (vm_compute; reflexivity).
  - intros p [e He]. each_entry He; vm_compute; reflexivity.
  - eexists. split; [vm_compute; reflexivity | done].
  - intros p ls Hp. each_entry Hp; (split; [| |by apply (bool_decide_unpack _); vm_compute|by vm_compute]);
      cbn; repeat (split || eexists).
  - intros p ls l Hp Hl. each_entry Hp;
      repeat (apply elem_of_cons in Hl as [->|Hl]; [split; [vm_compute; reflexivity | eexists; split; vm_compute; reflexivity]|]);
      by apply not_elem_of_nil in Hl.
  - intros l e He Hl. each_entry He; try done;
      eexists _, _; (split; [reflexivity|]); (split; [vm_compute; reflexivity|]); apply (bool_decide_unpack _); vm_compute; exact I.
Qed.

(** ** Properties *)

(** C32: [decache_find] on every cache whose links are a tree, for every path.
    It walks the longest prefix of the components that is cached, [names], to the
    entry [node].  When the next component is longer than [EXT4_NAME_LEN] and the
    entry has cached children, it aborts; otherwise it returns the entry (NULL
    for the root) and the rest of the path, and the next component has no cached
    entry below it. *)
Theorem decache_find_spec dc tr path :
  decache_ok dc tr → 0 ∉ path →
  ∃ names node rest,
    split_path path [] = names ++ split_path rest [] ∧ (∃ pre, path = pre ++ rest) ∧
    resolve (dh_heap dc) tr (dh_root dc) names = Some (start_of dc node) ∧
    (node = None ↔ names = []) ∧
    match split_path rest [] with
    | [] => decache_find dc path = Ok (node, rest)
    | t :: _ =>
      (EXT4_NAME_LEN < zlen t ∧ tr !! start_of dc node ≠ Some [] ∧
         decache_find dc path = Fault AssertFail) ∨
      ((zlen t ≤ EXT4_NAME_LEN ∨ tr !! start_of dc node = Some []) ∧
         decache_find dc path = Ok (node, rest) ∧
         child_named (dh_heap dc) (default [] (tr !! start_of dc node)) t = None)
    end.
Proof.
  intros Hok H0. destruct (t_root _ _ _ _ Hok) as (r & Hr & _).
  destruct (decache_find_loop_run dc tr (S (length path)) None path Hok) as (names & node & rest & Hf & Hs & Hp & Hres & He & Hne & Hstop);
    [apply (t_dom _ _ _ _ Hok); by exists r | done | lia |].
  exists names, node, rest. split_and!; try done.
  { split; [|done]. intros ->. destruct names; [done | by destruct (Hne ltac:(done))]. }
  unfold decache_find. rewrite Hf. unfold too_long in *. destruct (split_path rest []) as [|t ts]; [done|].
  destruct (Z.ltb_spec EXT4_NAME_LEN (zlen t)); cbn [andb negb] in *.
  - case_bool_decide as E; cbn [negb] in *; [|by left]. destruct Hstop; [done|]. right; auto.
  - destruct Hstop; [done|]. right; auto.
Qed.

Lemma decache_find_spec_witness :
  decache_find test_decache (cstr "/a//d/e") = Ok (Some 5%positive, cstr "e") ∧
  decache_find test_decache (cstr "/a/" ++ replicate 255 98) = Fault AssertFail ∧
  ∃ names node rest, split_path (cstr "/a//d/e") [] = names ++ split_path rest [] ∧
    resolve (dh_heap test_decache) test_tree (dh_root test_decache) names =
      Some (start_of test_decache node).
Proof.
  split; [by vm_compute|]. split; [by vm_compute|].
  destruct (decache_find_spec test_decache test_tree (cstr "/a//d/e")) as (names & node & rest & Hs & _ & Hr & _);
    [apply test_decache_ok | apply (bool_decide_unpack _); by vm_compute |].
  exists names, node, rest. split; [exact Hs | exact Hr].
Defined.

(** C31: [decache_insert] of a name that fits keeps the links a tree.  The new
    entry is the first child of the parent, with the name and the inode number
    given, and the next walk finds it.  When the parent had the largest number
    of children, the oldest one is gone with its subtree; every other entry
    keeps its name, inode number, parent and children. *)
Theorem decache_insert_spec dc tr parent ls name namelen n :
  decache_ok dc tr → tr !! start_of dc parent = Some ls →
  0 ≤ namelen < DCACHE_ENTRY_NAME_LEN → namelen ≤ zlen name →
  let x := dh_fresh dc in
  ∃ dc' tr' e, decache_insert dc parent name namelen n = Ok (Some x, dc') ∧
    decache_ok dc' tr' ∧ dh_root dc' = dh_root dc ∧ dh_heap dc' !! x = Some e ∧
    dce_name e = take (Z.to_nat namelen) name ∧ dce_inode_idx e = n ∧
    decache_walk dc' parent name namelen = Ok (Some x) ∧
    tr' !! x = Some [] ∧ tr' !! start_of dc parent = Some (x :: kept ls) ∧
    (∀ q, q ≠ x → q ≠ start_of dc parent → is_Some (dh_heap dc' !! q) → tr' !! q = tr !! q) ∧
    survive (dh_heap dc) (dh_heap dc') tr x ls.
Proof.
  intros Hok Hls Hlen Hname x.
  destruct (decache_insert_ok dc tr parent ls name namelen n Hok Hls Hlen) as (dc' & tr' & Hi & Hr & Hf & Hins).
  destruct Hins as [Hok' Hnew Hp Hq (e & He & Hn & Hidx & _) Hs].
  assert (start_of dc' parent = start_of dc parent) as Hst by (unfold start_of; by rewrite Hr).
  assert (decache_ok dc' tr') as Hdc by (unfold decache_ok; by rewrite Hr, Hf).
  exists dc', tr', e. split_and!; try done.
  rewrite (decache_walk_ok dc' tr' parent (x :: kept ls) name namelen Hdc) by
    (rewrite ?Hst; done || lia || (left; unfold DCACHE_ENTRY_NAME_LEN, NAME_MAX, EXT4_NAME_LEN in *; lia)).
  cbn [child_named]. fold x in He. rewrite He. cbn [fmap option_fmap option_map]. by rewrite Hn, bool_decide_eq_true_2.
Qed.

Lemma decache_insert_spec_witness : ∃ dc' tr',
  decache_insert test_decache (Some 2%positive) (cstr "e") 1 16 = Ok (Some 6%positive, dc') ∧
  decache_ok dc' tr' ∧ tr' !! 2%positive = Some [6; 5]%positive.
Proof.
  destruct (decache_insert_spec test_decache test_tree (Some 2%positive) [5%positive] (cstr "e") 1 16)
    as (dc' & tr' & e & Hi & Hok & _ & _ & _ & _ & _ & _ & Hp & _);
    [apply test_decache_ok | vm_compute; reflexivity | by vm_compute | by vm_compute |].
  exists dc', tr'. split; [exact Hi|]. split; [exact Hok | exact Hp].
Defined.

(** [decache_free] of the root returns and leaves no entry allocated: the
    recursion reaches every entry exactly once. *)
Lemma decache_free_all dc tr :
  decache_ok dc tr → decache_free (dh_heap dc) (Some (dh_root dc)) = Ok ∅.
Proof.
  intros Hok. destruct (t_root _ _ _ _ Hok) as (r & Hr & _). cbn [decache_free].
  destruct (free_rec_ok _ _ _ tr Hok (S (size (dh_heap dc))) (dh_root dc) (dh_heap dc)) as (h' & -> & Hw1 & Hw2);
    [by exists r | by apply rank_fuel | done |].
  f_equal. apply map_empty. intros l. destruct (dh_heap dc !! l) as [e|] eqn:He.
  - apply Hw1. eapply root_desc; [done | by exists e].
  - destruct (h' !! l) as [e|] eqn:He'; [|done]. rewrite Hw2 in He'; [congruence|]. intros Hd. by rewrite Hw1 in He'.
Qed.

(** C35: From the cache [decache_init_root] makes, whatever entries are
    inserted, and whichever entries are removed that are the last of several
    children, the links are a tree: every entry is reached from the root in one
    way, siblings are linked in both directions, and the counts are the numbers of
    children, at most [DCACHE_MAX_CHILDREN].  In such a cache a walk from any
    entry finds the first child with the name, and aborts exactly for a name longer
    than [EXT4_NAME_LEN] below an entry with children. *)
Theorem decache_reach_safe n dc : n ≠ 0 → decache_reach n dc →
  ∃ tr, decache_ok dc tr ∧
  ∀ parent, is_Some (dh_heap dc !! start_of dc parent) →
    ∃ ls e, tr !! start_of dc parent = Some ls ∧ dh_heap dc !! start_of dc parent = Some e ∧
      dce_count e = zlen ls ∧ zlen ls ≤ DCACHE_MAX_CHILDREN ∧
      ∀ name namelen, 0 ≤ namelen ≤ zlen name →
        decache_walk dc parent name namelen =
          if (EXT4_NAME_LEN <? namelen) && negb (bool_decide (ls = [])) then Fault AssertFail
          else Ok (child_named (dh_heap dc) ls (take (Z.to_nat namelen) name)).
Proof.
  intros Hn Hr. destruct (decache_reach_ok n dc Hn Hr) as [tr Hok]. exists tr. split; [done|].
  intros parent Hp. destruct (proj1 (t_dom _ _ _ _ Hok _) Hp) as [ls Hls].
  pose proof (t_kids _ _ _ _ Hok _ _ Hls) as [(e & He & _ & _ & Hc) _ _ Hm].
  exists ls, e. split_and!; try done. intros name namelen Hlen. by apply (decache_walk_run dc tr).
Qed.

(** Two entries inserted, then the older one removed. *)
Definition test_dc1 : decache := Eval vm_compute in
  match decache_insert (decache_init_root 2) None (cstr "a") 1 12 with Ok (_, dc) => dc | Fault _ => decache_init_root 0 end.
Definition test_dc2 : decache := Eval vm_compute in
  match decache_insert test_dc1 None (cstr "b") 1 13 with Ok (_, dc) => dc | Fault _ => decache_init_root 0 end.
Definition test_dc3 : decache := Eval vm_compute in
  match decache_delete test_dc2 (cstr "/a") with Ok dc => dc | Fault _ => decache_init_root 0 end.

Lemma test_dc3_reach : decache_reach 2 test_dc3.
Proof.
  eapply (reach_delete 2 test_dc2 (cstr "/a")).
  - eapply (reach_insert 2 test_dc1 None (cstr "b") 1 13).
    + eapply (reach_insert 2 _ None (cstr "a") 1 12); [apply reach_init | by eexists | lia | vm_compute; reflexivity].
    + by eexists.
    + lia.
    + vm_compute. reflexivity.
  - vm_compute. reflexivity.
  - vm_compute. reflexivity.
  - reflexivity.
  - reflexivity.
  - vm_compute. reflexivity.
Qed.

Lemma decache_reach_safe_witness : ∃ tr, decache_ok test_dc3 tr ∧
  dh_heap test_dc3 !! 2%positive = None ∧ is_Some (dh_heap test_dc3 !! 3%positive).
Proof.
  destruct (decache_reach_safe 2 test_dc3) as (tr & Hok & _); [lia | exact test_dc3_reach |].
  exists tr. split; [exact Hok|]. split; [vm_compute; reflexivity | by eexists].
Defined.

(** C37: [decache_delete] of a child that has a sibling on each side frees the
    entry but leaves it linked: the sibling before it still points to the
    freed memory, and the next walk for a name that is not among the entries
    before it reads it. *)
Theorem decache_delete_dangling dc tr p l1 y x z l2 path rest name n :
  decache_ok dc tr → tr !! p = Some (l1 ++ y :: x :: z :: l2) →
  decache_find dc path = Ok (Some x, rest) → 0 ≤ n ≤ zlen name → n ≤ EXT4_NAME_LEN →
  child_named (dh_heap dc) (l1 ++ [y]) (take (Z.to_nat n) name) = None →
  ∃ dc' e, decache_delete dc path = Ok dc' ∧ dh_heap dc' !! x = None ∧
    dh_heap dc' !! y = Some e ∧ dce_next e = Some x ∧
    decache_walk dc' (Some p) name n = Fault Undefined.
Proof.
  intros Hok Hls Hf Hn Hmax Hname.
  destruct (delete_middle_ok dc tr p l1 y x z l2 path rest Hok Hls Hf) as (dc' & ep & Hd & Hep & Hw1 & Hw2).
  pose proof (t_kids _ _ _ _ Hok _ _ Hls) as [(ep' & Hep' & Hch & _ & _) Hs Hnd _].
  rewrite Hep in Hep'. injection Hep' as <-.
  destruct (sibs_middle _ _ _ _ _ _ Hs) as (ey & _ & Hey & Hny & _).
  replace (l1 ++ y :: x :: z :: l2) with ((l1 ++ [y]) ++ x :: z :: l2) in * by by rewrite <- app_assoc.
  set (pre := l1 ++ [y]) in *. assert (x ∈ pre ++ x :: z :: l2) as Hx by (rewrite elem_of_app, elem_of_cons; auto).
  assert (∀ l, l ∈ pre → dh_heap dc' !! l = dh_heap dc !! l) as Hag.
  { intros l Hl. assert (l ∈ pre ++ x :: z :: l2) as Hl' by (rewrite elem_of_app; by left).
    rewrite Hw2.
    - rewrite lookup_insert_ne; [done|]. destruct (t_down _ _ _ _ Hok _ _ _ Hls Hl'). lia.
    - eapply (desc_apart _ _ _ _ Hok p _ l x l Hls); [done|done| |constructor].
      intros ->. apply NoDup_app in Hnd as (_ & Hnd & _). apply (Hnd x Hl), list_elem_of_here. }
  assert (dh_heap dc' !! x = None) as Hx0 by (apply Hw1; constructor).
  exists dc', ey. do 2 (split; [done|]). split; [by rewrite Hag by (unfold pre; rewrite elem_of_app, list_elem_of_singleton; auto)|].
  split; [done|]. unfold decache_walk. assert (dh_heap dc' !! p = Some (set_dce_count (dce_count ep - 1) ep)) as Hp'.
  { rewrite Hw2, lookup_insert_eq; [done|]. by eapply desc_above. }
  rewrite (h_get_run _ _ _ Hp'). cbn [obind]. change (dce_childs (set_dce_count _ ep)) with (dce_childs ep).
  destruct (walk_siblings_dangling (dh_heap dc) (dh_heap dc') None pre x (z :: l2) name n (S (size (dh_heap dc'))))
    as (l & Hhead & Hwalk); try done; [by unfold pre; destruct l1| |].
  - apply Nat.lt_succ_r. apply NoDup_app in Hnd as (Hnd & _). rewrite <- (size_list_to_set (C := gset loc) pre Hnd).
    rewrite <- (size_dom (D := gset loc)). apply subseteq_size. intros l Hl%elem_of_list_to_set.
    apply elem_of_dom. rewrite Hag by done. eapply sibs_lookup; [exact Hs | rewrite elem_of_app; by left].
  - rewrite Hch. destruct pre as [|l' pre']; [done|]. cbn in Hhead |- *. injection Hhead as ->.
    destruct (Z.ltb_spec EXT4_NAME_LEN n); [lia | done].
Qed.

Lemma decache_delete_dangling_witness : ∃ dc' e,
  decache_delete test_decache (cstr "/b") = Ok dc' ∧ dh_heap dc' !! 3%positive = None ∧
  dh_heap dc' !! 4%positive = Some e ∧ dce_next e = Some 3%positive ∧
  decache_walk dc' (Some 1%positive) (cstr "e") 1 = Fault Undefined.
Proof.
  apply (decache_delete_dangling test_decache test_tree 1 [] 4 3 2 [] (cstr "/b") []);
    [apply test_decache_ok | vm_compute; reflexivity | vm_compute; reflexivity | by vm_compute | by vm_compute
    | vm_compute; reflexivity].
Defined.
