(* ===== verification/Fs.v ===== *)
(** * The state of the mounted file system

    The globals of the daemon: the image, the super block and the group
    descriptors ([op_init.c]), the two bitmaps ([bitmap.c]), the three caches
    ([cache.c]), and what a request carries: the caller's [fuse_context] and
    the clock.

    A [struct ext4_inode *] always points into [icache->entries]; it is the
    number of the slot.  A [struct ext4_dir_entry_2 *] always points into
    [dcache->buf]; it is the offset in the buffer. *)

From S2P Require Import Prelude Ext4 Disk Bitmap InodeMap Decache.
From stdpp Require Import base numbers list gmap.
From Stdlib Require Import ZArith Lia.

Open Scope Z_scope.
Open Scope kfs_scope.

(** ** Data *)

Record icache_entry := mk_icache_entry {
  ic_inode : ext4_inode;
  ic_inode_idx : Z;
  ic_lru_count : Z;
  ic_status : Z;
  ic_last_de : option Z
}.

Definition ICACHE_MAX_COUNT : Z := 64.
Definition ICACHE_S_INVAL : Z := 0.
Definition ICACHE_S_VALID : Z := 1.
Definition ICACHE_S_DIRTY : Z := 2.

Record icache_t := mk_icache {
  icache_entries : list icache_entry;
  icache_count : Z
}.

Record dcache_t := mk_dcache {
  dc_inode_idx : Z;
  dc_lblock : Z;
  dc_pblock : Z;
  dc_buf : list Z
}.

Record fs := mk_fs {
  fs_disk : disk_t;
  fs_sb : ext4_super_block;
  fs_gdt : list ext4_group_desc;
  fs_i_bitmap : bitmap;
  fs_d_bitmap : bitmap;
  fs_dcache : dcache_t;
  fs_icache : icache_t;
  fs_decache : decache;
  fs_capable : Z;
  fs_context : option fuse_context;
  fs_now : Z
}.

Definition fs_eta (s : fs) : fs :=
  mk_fs (fs_disk s) (fs_sb s) (fs_gdt s) (fs_i_bitmap s) (fs_d_bitmap s) (fs_dcache s)
    (fs_icache s) (fs_decache s) (fs_capable s) (fs_context s) (fs_now s).

Definition set_fs_disk (v : disk_t) (s : fs) : fs :=
  ltac:(setter (fs_eta s) (fs_disk s) v).
Definition set_fs_sb (v : ext4_super_block) (s : fs) : fs :=
  ltac:(setter (fs_eta s) (fs_sb s) v).
Definition set_fs_gdt (v : list ext4_group_desc) (s : fs) : fs :=
  ltac:(setter (fs_eta s) (fs_gdt s) v).
Definition set_fs_i_bitmap (v : bitmap) (s : fs) : fs :=
  ltac:(setter (fs_eta s) (fs_i_bitmap s) v).
Definition set_fs_d_bitmap (v : bitmap) (s : fs) : fs :=
  ltac:(setter (fs_eta s) (fs_d_bitmap s) v).
Definition set_fs_dcache (v : dcache_t) (s : fs) : fs :=
  ltac:(setter (fs_eta s) (fs_dcache s) v).
Definition set_fs_icache (v : icache_t) (s : fs) : fs :=
  ltac:(setter (fs_eta s) (fs_icache s) v).
Definition set_fs_decache (v : decache) (s : fs) : fs :=
  ltac:(setter (fs_eta s) (fs_decache s) v).
Definition set_fs_context (v : option fuse_context) (s : fs) : fs :=
  ltac:(setter (fs_eta s) (fs_context s) v).
Definition set_fs_now (v : Z) (s : fs) : fs :=
  ltac:(setter (fs_eta s) (fs_now s) v).

Abbreviation K := (M fs).

(** ** Access to the state *)

Definition inode_slot : Set := Z.

Definition get_entry (i : inode_slot) : K icache_entry := λ s,
  e ← arr_get (icache_entries (fs_icache s)) i; Ok (e, s).

Definition set_entry (i : inode_slot) (e : icache_entry) : K unit := λ s,
  es ← arr_set (icache_entries (fs_icache s)) i e;
  Ok (tt, set_fs_icache (mk_icache es (icache_count (fs_icache s))) s).

(** [*inode]. *)
Definition get_inode (i : inode_slot) : K ext4_inode := e ⇐ get_entry i; ret (ic_inode e).

(** [inode->... = ...]. *)
Definition upd_inode (i : inode_slot) (f : ext4_inode → ext4_inode) : K unit :=
  e ⇐ get_entry i;
  set_entry i (mk_icache_entry (f (ic_inode e)) (ic_inode_idx e) (ic_lru_count e) (ic_status e)
    (ic_last_de e)).

Definition set_status (i : inode_slot) (st : Z) : K unit :=
  e ⇐ get_entry i;
  set_entry i (mk_icache_entry (ic_inode e) (ic_inode_idx e) (ic_lru_count e) st (ic_last_de e)).

Definition ICACHE_SET_INVAL (i : inode_slot) : K unit := set_status i ICACHE_S_INVAL.
Definition ICACHE_SET_DIRTY (i : inode_slot) : K unit := set_status i ICACHE_S_DIRTY.
Definition ICACHE_IS_DIRTY (i : inode_slot) : K bool :=
  e ⇐ get_entry i; ret (ic_status e =? ICACHE_S_DIRTY).
Definition ICACHE_IS_VALID (i : inode_slot) : K bool :=
  e ⇐ get_entry i; ret (negb (ic_status e =? ICACHE_S_INVAL)).

Definition ICACHE_LRU_INC (i : inode_slot) : K unit :=
  e ⇐ get_entry i;
  if ic_lru_count e <? UINT32_MAX then
    set_entry i (mk_icache_entry (ic_inode e) (ic_inode_idx e) (ic_lru_count e + 1) (ic_status e)
      (ic_last_de e))
  else ret tt.

Definition ICACHE_GET_LAST_DE (i : inode_slot) : K (option Z) :=
  e ⇐ get_entry i; ret (ic_last_de e).
Definition ICACHE_SET_LAST_DE (i : inode_slot) (de : option Z) : K unit :=
  e ⇐ get_entry i;
  set_entry i (mk_icache_entry (ic_inode e) (ic_inode_idx e) (ic_lru_count e) (ic_status e) de).
Definition ICACHE_CHECK_LAST_DE (i : inode_slot) : K bool :=
  v ⇐ ICACHE_IS_VALID i;
  de ⇐ ICACHE_GET_LAST_DE i;
  ret (v && match de with Some _ => true | None => false end).

(** A function of the state that does not change it. *)
Definition reads {A} (f : fs → outcome A) : K A := λ s, r ← f s; Ok (r, s).

(** The bitmap, descriptor and disk operations on the globals. *)
Definition k_disk_read (where_ size : Z) : K (list Z) :=
  reads (λ s, disk_read (fs_disk s) where_ size).
Definition k_disk_write (where_ : Z) (bs : list Z) : K unit := λ s,
  d ← disk_write (fs_disk s) where_ bs; Ok (tt, set_fs_disk d s).
Definition k_disk_read_block (block : Z) : K (list Z) :=
  reads (λ s, disk_read_block (fs_sb s) (fs_disk s) block).
Definition k_disk_write_block (block : Z) (bs : list Z) : K unit := λ s,
  d ← disk_write_block (fs_sb s) (fs_disk s) block bs; Ok (tt, set_fs_disk d s).

Definition k_bitmap_inode_find (inode_idx : Z) : K Z :=
  reads (λ s, bitmap_inode_find (fs_sb s) (fs_i_bitmap s) inode_idx).
Definition k_bitmap_inode_set (inode_idx : Z) (is_used : bool) : K unit := λ s,
  b ← bitmap_inode_set (fs_sb s) (fs_i_bitmap s) inode_idx is_used; Ok (tt, set_fs_i_bitmap b s).
Definition k_bitmap_pblock_find (inode_idx n : Z) : K Z :=
  reads (λ s, bitmap_pblock_find (fs_sb s) (fs_d_bitmap s) inode_idx n).
Definition k_bitmap_pblock_set (block_idx len : Z) (is_used : bool) : K unit := λ s,
  b ← bitmap_pblock_set (fs_sb s) (fs_d_bitmap s) block_idx len is_used;
  Ok (tt, set_fs_d_bitmap b s).
Definition k_bitmap_pblock_free (p_arr : list pblock_range) : K unit := λ s,
  b ← bitmap_pblock_free (fs_sb s) (fs_d_bitmap s) p_arr; Ok (tt, set_fs_d_bitmap b s).
Definition k_gdt_update (inode_idx : Z) : K unit := λ s,
  g ← gdt_update (fs_sb s) (fs_gdt s) inode_idx; Ok (tt, set_fs_gdt g s).

Definition k_inode_get_offset (inode_idx : Z) : K Z :=
  reads (λ s, inode_get_offset (fs_sb s) (fs_gdt s) inode_idx).
Definition k_inode_get_data_pblock (inode : ext4_inode) (lblock : Z) : K (Z * option Z) :=
  reads (λ s, inode_get_data_pblock (fs_sb s) (fs_disk s) inode lblock).

Definition k_decache_find (path : list Z) : K (option loc * list Z) :=
  reads (λ s, decache_find (fs_decache s) path).
Definition k_decache_insert (parent : option loc) (name : list Z) (namelen n : Z) :
    K (option loc) := λ s,
  '(e, dc) ← decache_insert (fs_decache s) parent name namelen n; Ok (e, set_fs_decache dc s).
Definition k_decache_delete (path : list Z) : K unit := λ s,
  dc ← decache_delete (fs_decache s) path; Ok (tt, set_fs_decache dc s).

(** The permission check of the caller. *)
Definition k_check_permission (i : inode_slot) (mode : access_mode_t) : K Z :=
  inode ⇐ get_inode i;
  cntx ⇐ gets fs_context;
  ret (inode_check_permission cntx inode mode).

(** ** Lemmas *)

Lemma get_inode_run s i e : arr_get (icache_entries (fs_icache s)) i = Ok e →
  get_inode i s = Ok (ic_inode e, s).
Proof. intros He. unfold get_inode, get_entry, sbind, ret. by rewrite He. Qed.
