(* ===== verification/Cache.v ===== *)
(** * The inode cache and the directory block cache

    [src/src/cache.c] (icache, dcache) and [inode_get_by_number] of
    [src/src/inode.c].  The icache keeps up to [ICACHE_MAX_COUNT] inodes and
    writes a dirty one back when it is replaced; the dcache holds one block
    of one directory. *)

From S2P Require Import Prelude Ext4 Disk Bitmap InodeMap Decache Fs.
From stdpp Require Import base numbers list gmap.
From Stdlib Require Import ZArith Lia.

Open Scope Z_scope.
Open Scope kfs_scope.

(** ** Initialisation *)

(** [calloc(ICACHE_MAX_COUNT, sizeof(struct icache_entry))]. *)
Definition icache_init : icache_t :=
  mk_icache (replicate (Z.to_nat ICACHE_MAX_COUNT)
    (mk_icache_entry zero_inode 0 0 ICACHE_S_INVAL None)) 0.

(** [buf] is what [malloc] left in the buffer. *)
Definition dcache_alloc (buf : list Z) : dcache_t := mk_dcache 0 (u32 (-1)) (u32 (-1)) buf.

Definition cache_init (buf : list Z) : K unit := λ s,
  Ok (tt, set_fs_icache icache_init (set_fs_dcache (dcache_alloc buf)
            (set_fs_decache (decache_init_root EXT4_ROOT_INO) s))).

(** ** The inode cache *)

(** [NULL] when the inode is not cached. *)
Definition icache_find_in (ic : icache_t) (inode_idx : Z) : outcome (option inode_slot) :=
  for_o (Z.to_nat (icache_count ic)) 0 (λ i,
    e ← arr_get (icache_entries ic) i;
    Ok (if negb (ic_status e =? ICACHE_S_INVAL) && (ic_inode_idx e =? inode_idx)
        then Some i else None)).

Definition icache_find (inode_idx : Z) : K (option inode_slot) := λ s,
  r ← icache_find_in (fs_icache s) inode_idx; Ok (r, s).

Definition icache_write_back (i : inode_slot) : K unit :=
  e ⇐ get_entry i;
  off ⇐ k_inode_get_offset (ic_inode_idx e);
  k_disk_write off (bytes_of (ic_inode e)).

(** The entry filled in for [inode_idx]: the inode from the disk, or left as
    it was. *)
Definition icache_fill (i : inode_slot) (inode_idx : Z) (read_from_disk : bool) : K unit :=
  e ⇐ get_entry i;
  inode ⇐ (if read_from_disk then
             off ⇐ k_inode_get_offset inode_idx;
             bs ⇐ k_disk_read off (sizeof ext4_inode);
             ret (of_bytes bs)
           else ret (ic_inode e));
  set_entry i (mk_icache_entry inode inode_idx 0 ICACHE_S_VALID None).

(** The loop of [icache_lru_replace]: [inl i] is an invalid entry, [inr] the
    least recently used one and its count. *)
Fixpoint lru_scan (es : list icache_entry) (i : Z) (n : nat) (lru_idx lru_count : Z) :
    outcome (Z + Z * Z) :=
  match n with
  | O => Ok (inr (lru_idx, lru_count))
  | S n =>
    e ← arr_get es i;
    if ic_status e =? ICACHE_S_INVAL then Ok (inl i)
    else if ic_lru_count e <? lru_count then lru_scan es (i + 1) n i (ic_lru_count e)
    else lru_scan es (i + 1) n lru_idx lru_count
  end.

Definition icache_lru_replace (inode_idx : Z) (read_from_disk : bool) : K inode_slot :=
  ic ⇐ gets fs_icache;
  r ⇐ lift (lru_scan (icache_entries ic) 0 (Z.to_nat (icache_count ic)) (-1) INT_MAX);
  match r with
  | inl i => icache_fill i inode_idx read_from_disk ;;; ret i
  | inr (lru_idx, _) =>
    dirty ⇐ ICACHE_IS_DIRTY lru_idx;
    (if dirty : bool then icache_write_back lru_idx else ret tt) ;;;
    icache_fill lru_idx inode_idx read_from_disk ;;;
    ret lru_idx
  end.

Definition icache_insert (inode_idx : Z) (read_from_disk : bool) : K inode_slot :=
  ic ⇐ gets fs_icache;
  if icache_count ic =? ICACHE_MAX_COUNT then icache_lru_replace inode_idx read_from_disk
  else
    icache_fill (icache_count ic) inode_idx read_from_disk ;;;
    modify (λ s, set_fs_icache
      (mk_icache (icache_entries (fs_icache s)) (icache_count (fs_icache s) + 1)) s) ;;;
    ret (icache_count ic).

(** The return value ([-ENOENT] for inode 0) and the inode. *)
Definition inode_get_by_number (inode_idx : Z) : K (Z + inode_slot) :=
  if inode_idx =? 0 then ret (inl (- ENOENT))
  else
    ic_entry ⇐ icache_find inode_idx;
    inode ⇐ (match ic_entry with
             | Some i => ret i
             | None => icache_insert inode_idx true
             end);
    ICACHE_LRU_INC inode ;;;
    ret (inr inode).

(** ** The directory block cache *)

Definition dcache_load_lblock (i : inode_slot) (lblock : Z) : K unit :=
  inode ⇐ get_inode i;
  '(pblock, _) ⇐ k_inode_get_data_pblock inode lblock;
  buf ⇐ k_disk_read_block pblock;
  modify (λ s, set_fs_dcache
    (mk_dcache (dc_inode_idx (fs_dcache s)) lblock (u32 pblock) buf) s).

Definition dcache_init (i : inode_slot) (inode_idx : Z) : K unit :=
  massert (negb (inode_idx =? 0)) ;;;
  ICACHE_LRU_INC i ;;;
  dc ⇐ gets fs_dcache;
  if (dc_inode_idx dc =? inode_idx) && (dc_lblock dc =? 0) then ret tt
  else
    modify (λ s, set_fs_dcache
      (mk_dcache inode_idx (dc_lblock (fs_dcache s)) (dc_pblock (fs_dcache s))
         (dc_buf (fs_dcache s))) s) ;;;
    dcache_load_lblock i 0.

Definition dcache_write_back : K unit :=
  dc ⇐ gets fs_dcache;
  k_disk_write_block (dc_pblock dc) (dc_buf dc).

(** [dcache->buf = ...]. *)
Definition set_dc_buf (buf : list Z) : K unit :=
  modify (λ s, set_fs_dcache
    (mk_dcache (dc_inode_idx (fs_dcache s)) (dc_lblock (fs_dcache s)) (dc_pblock (fs_dcache s))
       buf) s).

(** ** Abstract view

    What the file system takes inode [ino] to be: the cached copy if there is
    one, and the copy in the inode table otherwise. *)

Definition inode_on_disk (s : fs) (ino : Z) : outcome ext4_inode :=
  off ← inode_get_offset (fs_sb s) (fs_gdt s) ino;
  bs ← disk_read (fs_disk s) off (sizeof ext4_inode);
  Ok (of_bytes bs).

Definition inode_view (s : fs) (ino : Z) : outcome ext4_inode :=
  r ← icache_find_in (fs_icache s) ino;
  match r with
  | Some i => e ← arr_get (icache_entries (fs_icache s)) i; Ok (ic_inode e)
  | None => inode_on_disk s ino
  end.

(** Entry [k] is in use for inode [ino]. *)
Definition cached (s : fs) (ino : Z) (k : nat) (e : icache_entry) : Prop :=
  icache_entries (fs_icache s) !! k = Some e ∧ Z.of_nat k < icache_count (fs_icache s) ∧
  ic_status e ≠ ICACHE_S_INVAL ∧ ic_inode_idx e = ino.

(** The inode tables are in the image. *)
Record mounted (s : fs) : Prop := mk_mounted {
  mt_geo : geometry_ok (fs_sb s);
  mt_tables : tables_ok (fs_sb s) (fs_gdt s);
  mt_size : sizeof ext4_inode ≤ EXT4_S_INODE_SIZE (fs_sb s);
  mt_fd : 0 ≤ disk_fd (fs_disk s);
  mt_image : Forall (λ g, table_off (fs_sb s) g + table_size (fs_sb s) ≤ disk_len (fs_disk s)) (fs_gdt s);
  mt_bytes : disk_bytes_ok (fs_disk s)
}.

(** The cache holds an inode at most once, and an entry that is not dirty
    agrees with the inode table. *)
Record icache_ok (s : fs) : Prop := mk_icache_ok {
  io_len : zlen (icache_entries (fs_icache s)) = ICACHE_MAX_COUNT;
  io_count : 0 ≤ icache_count (fs_icache s) ≤ ICACHE_MAX_COUNT;
  io_once : ∀ ino k e k' e', cached s ino k e → cached s ino k' e' → k = k';
  io_entry : ∀ ino k e, cached s ino k e → inode_in (fs_sb s) ino ∧ struct_ok (ic_inode e);
  io_clean : ∀ ino k e, cached s ino k e → ic_status e ≠ ICACHE_S_DIRTY →
    inode_on_disk s ino = Ok (ic_inode e)
}.

(** The [n] bytes at [a] are outside the inode tables. *)
Definition outside_tables (s : fs) (a n : Z) : Prop :=
  Forall (λ g, a + n ≤ table_off (fs_sb s) g ∨ table_off (fs_sb s) g + table_size (fs_sb s) ≤ a) (fs_gdt s).

(** The image with bytes written inside it. *)
Definition image_write (d : disk_t) (a : Z) (bs : list Z) : disk_t :=
  mk_disk (disk_fd d) (write_bytes (disk_bytes d) a bs) (disk_len d).

Lemma image_write_run d a bs : 0 ≤ disk_fd d → 0 ≤ a < 2 ^ 63 → zlen bs ≤ MAX_RW_COUNT → a + zlen bs ≤ disk_len d →
  disk_write d a bs = Ok (image_write d a bs).
Proof.
  intros. rewrite disk_write_Ok by done. unfold file_write, image_write. do 2 f_equal.
  pose proof (zlen_nonneg bs). destruct (Z.eqb_spec (zlen bs) 0); lia.
Qed.

(** The images differ in the inode tables at most. *)
Definition same_data (s s' : fs) : Prop :=
  disk_fd (fs_disk s') = disk_fd (fs_disk s) ∧ disk_len (fs_disk s') = disk_len (fs_disk s) ∧
  ∀ a, outside_tables s a 1 → disk_bytes (fs_disk s') !! a = disk_bytes (fs_disk s) !! a.

(** The parts of the state the inode cache does not touch. *)
Definition same_rest (s s' : fs) : Prop :=
  fs_sb s' = fs_sb s ∧ fs_gdt s' = fs_gdt s ∧ fs_i_bitmap s' = fs_i_bitmap s ∧
  fs_d_bitmap s' = fs_d_bitmap s ∧ fs_dcache s' = fs_dcache s ∧ fs_decache s' = fs_decache s ∧
  fs_capable s' = fs_capable s ∧ fs_context s' = fs_context s ∧ fs_now s' = fs_now s ∧ same_data s s'.

(** ** Lemmas on the inode tables *)

Lemma inode_size_val : sizeof ext4_inode = 160.
Proof. reflexivity. Qed.

(** Where the slot of an inode is. *)
Lemma mounted_slot s ino : mounted s → inode_in (fs_sb s) ino →
  ∃ off, inode_get_offset (fs_sb s) (fs_gdt s) ino = Ok off ∧ 0 ≤ off ∧
    off + sizeof ext4_inode ≤ disk_len (fs_disk s) ∧ off + sizeof ext4_inode < 2 ^ 63 ∧
    ∀ a, outside_tables s a 1 → a < off ∨ off + sizeof ext4_inode ≤ a.
Proof.
  intros [Hg Ht Hs Hfd Him Hb] Hin.
  destruct (inode_get_offset_spec _ _ ino Hg (tables_ok_fit _ _ Ht) Hin) as (g & Hl & _ & H0 & Hfit & Hm & ->).
  eexists; split; [done|]. pose proof (proj1 (Forall_lookup _ _) Him _ _ Hl) as Hlen. cbn in Hlen.
  pose proof (slot_end _ _ (EXT4_S_INODE_SIZE (fs_sb s)) Hm ltac:(rewrite inode_size_val in *; lia)) as [? ?].
  unfold table_size in *. split; [lia|]. split; [lia|]. split; [lia|]. intros a Ha.
  pose proof (proj1 (Forall_lookup _ _) Ha _ _ Hl) as Hap. cbn in Hap. unfold table_size in Hap. lia.
Qed.

Lemma mounted_read s ino : mounted s → inode_in (fs_sb s) ino →
  ∃ inode, inode_on_disk s ino = Ok inode ∧ struct_ok inode.
Proof.
  intros Hm Hin. destruct (mounted_slot s ino Hm Hin) as (off & Hoff & H0 & Hlen & Hmax & Hout).
  pose proof MAX_RW_COUNT_eq. unfold inode_on_disk. rewrite Hoff. cbn [obind].
  pose proof (disk_read_Ok (fs_disk s) off (sizeof ext4_inode) ltac:(apply Hm)
    ltac:(rewrite inode_size_val in *; lia) ltac:(rewrite inode_size_val in *; lia) ltac:(lia)) as Hr.
  rewrite Hr. eexists; split; [done|]. apply of_bytes_ok.
  - by eapply zlen_disk_read in Hr.
  - eapply disk_read_bytes_ok; [apply Hm | | exact Hr]. rewrite inode_size_val. lia.
Qed.

(** Writing an inode to its slot. *)
Lemma write_slot s ino inode : mounted s → inode_in (fs_sb s) ino → struct_ok inode →
  ∃ off d', inode_get_offset (fs_sb s) (fs_gdt s) ino = Ok off ∧
    disk_write (fs_disk s) off (bytes_of inode) = Ok d' ∧
    mounted (set_fs_disk d' s) ∧ same_data s (set_fs_disk d' s) ∧
    inode_on_disk (set_fs_disk d' s) ino = Ok inode ∧
    ∀ j, inode_in (fs_sb s) j → j ≠ ino → inode_on_disk (set_fs_disk d' s) j = inode_on_disk s j.
Proof.
  intros Hm Hin Hst. destruct (mounted_slot s ino Hm Hin) as (off & Hoff & H0 & Hlen & Hmax & Hout).
  pose proof (zlen_bytes_of inode Hst) as Hz. pose proof MAX_RW_COUNT_eq. rewrite inode_size_val in *.
  pose proof (image_write_run (fs_disk s) off (bytes_of inode) ltac:(apply Hm) ltac:(lia) ltac:(lia) ltac:(lia)) as Hw.
  assert (zlen (bytes_of inode) < 2 ^ 63) as Hz' by lia.
  assert (same_data s (set_fs_disk (image_write (fs_disk s) off (bytes_of inode)) s)) as Hsd.
  { split; [done|]. split; [done|]. intros a Ha. apply write_bytes_lookup_out.
    rewrite Hz. by apply Hout. }
  set (d' := image_write _ _ _) in *. clearbody d'. exists off, d'. split; [done|]. split; [done|].
  destruct (disk_write_fd _ _ _ _ Hz' Hw) as [Hfd Hl']. split_and!.
  - destruct Hm. split; cbn; try done; [lia| |].
    + eapply Forall_impl; [done|]. cbn. intros; lia.
    + eapply disk_write_bytes_ok; [|done| |exact Hw]; [lia | apply bytes_of_bytes_ok].
  - done.
  - unfold inode_on_disk. cbn [set_fs_disk fs_sb fs_gdt fs_disk]. rewrite Hoff. cbn [obind]. rewrite inode_size_val, <- Hz.
    rewrite (disk_read_write_same _ _ _ _ Hz' Hw). cbn [obind]. by rewrite of_bytes_of.
  - intros j Hj Hji. unfold inode_on_disk. cbn [set_fs_disk fs_sb fs_gdt fs_disk].
    destruct (offsets_apart (fs_sb s) (fs_gdt s) ino j) as (oi & oj & Hoi & Hoj & Hap); try apply Hm; try done.
    destruct (mounted_slot s j Hm Hj) as (oj' & Hoj' & ? & ? & ? & _).
    pose proof (mt_size s Hm). rewrite Hoff in Hoi. rewrite Hoj in Hoj'. rewrite Hoj. cbn [obind]. simplify_eq.
    rewrite inode_size_val in *.
    pose proof (disk_read_Ok (fs_disk s) oj' 160 ltac:(apply Hm) ltac:(lia) ltac:(lia) ltac:(lia)) as Hr.
    rewrite Hr. erewrite (disk_read_write_disjoint _ _ _ _ oj' 160); [done| | |exact Hw|exact Hr|]; [lia | lia |].
    rewrite !s64_small by lia. lia.
Qed.

(** Such a write changes no inode of the tables. *)
Lemma write_outside s a bs : mounted s → Forall byte_ok bs → outside_tables s a (zlen bs) →
  let s' := set_fs_disk (image_write (fs_disk s) a bs) s in
  mounted s' ∧ ∀ j, inode_in (fs_sb s) j → inode_on_disk s' j = inode_on_disk s j.
Proof.
  intros Hm Hb Hout s'. split.
  - destruct Hm. split; try done. intros x y. cbn. by apply write_bytes_ok.
  - intros j Hj. pose proof (mt_size s Hm) as Hsz.
    destruct (inode_get_offset_spec _ _ j (mt_geo s Hm) (tables_ok_fit _ _ (mt_tables s Hm)) Hj) as (g & Hl & _ & H0 & Hfit & Hmod & Hoff).
    pose proof (proj1 (Forall_lookup _ _) (mt_image s Hm) _ _ Hl) as Hlen. cbn in Hlen.
    pose proof (proj1 (Forall_lookup _ _) Hout _ _ Hl) as Hap. cbn in Hap.
    pose proof (slot_end _ _ (EXT4_S_INODE_SIZE (fs_sb s)) Hmod ltac:(rewrite inode_size_val in *; lia)) as [? ?].
    unfold table_size in *. set (off := _ + _ * _) in Hoff. assert (disk_read (fs_disk s) off (sizeof ext4_inode) =
      disk_read (fs_disk s') off (sizeof ext4_inode)) as Heq.
    { pose proof MAX_RW_COUNT_eq. pose proof (mt_fd s Hm). rewrite inode_size_val in *.
      rewrite !disk_read_Ok by (cbn [s' set_fs_disk fs_disk image_write disk_fd disk_len]; lia).
      cbn [s' set_fs_disk fs_disk image_write disk_bytes]. f_equal. symmetry. apply read_write_bytes_disjoint. lia. }
    unfold inode_on_disk. cbn [s' set_fs_disk fs_sb fs_gdt]. rewrite Hoff. cbn [obind].
    fold s'. by rewrite Heq.
Qed.

(** A disk with the same inode tables. *)
Lemma tables_frame s d' : mounted s → disk_fd d' = disk_fd (fs_disk s) → disk_len d' = disk_len (fs_disk s) →
  disk_bytes_ok d' → (∀ x, ¬ outside_tables s x 1 → disk_bytes d' !! x = disk_bytes (fs_disk s) !! x) →
  mounted (set_fs_disk d' s) ∧ ∀ j, inode_in (fs_sb s) j → inode_on_disk (set_fs_disk d' s) j = inode_on_disk s j.
Proof.
  intros Hm Hfd Hlen Hb Hx. split.
  - destruct Hm. split; try done; cbn; [lia|]. by rewrite Hlen.
  - intros j Hj. destruct (mounted_slot s j Hm Hj) as (off & Hoff & H0 & Hl & Hmax & Hout).
    pose proof MAX_RW_COUNT_eq. pose proof (mt_fd s Hm). rewrite inode_size_val in *.
    unfold inode_on_disk. cbn [set_fs_disk fs_sb fs_gdt fs_disk]. rewrite Hoff. cbn [obind].
    rewrite inode_size_val, !disk_read_Ok by lia. cbn [obind]. do 2 f_equal. apply list_eq. intros i.
    destruct (decide (i < 160)%nat); [|rewrite !lookup_ge_None_2 by (rewrite length_read_bytes; lia); done].
    rewrite !read_bytes_lookup by lia. rewrite Hx; [done|]. intros Ho%Hout. lia.
Qed.

(** ** Lemmas on the entries *)

Lemma icache_find_ok s ino : icache_ok s →
  (∃ k e, icache_find_in (fs_icache s) ino = Ok (Some (Z.of_nat k)) ∧ cached s ino k e) ∨
  (icache_find_in (fs_icache s) ino = Ok None ∧ ∀ k e, ¬ cached s ino k e).
Proof.
  intros [Hlen Hcnt _ _ _]. set (es := icache_entries (fs_icache s)) in *.
  set (test := λ i, match es !! Z.to_nat i with
    | Some e => if negb (ic_status e =? ICACHE_S_INVAL) && (ic_inode_idx e =? ino) then Some i else None
    | None => None end).
  destruct (for_o_spec (Z.to_nat (icache_count (fs_icache s))) 0 (λ i,
    e ← arr_get es i;
    Ok (if negb (ic_status e =? ICACHE_S_INVAL) && (ic_inode_idx e =? ino) then Some i else None)) test)
    as [(j & r & Hj & Ht & _ & Hf)|[Hn Hf]].
  - intros j Hj. destruct (arr_get_is_Ok es j ltac:(lia)) as [e He]. rewrite He. cbn [obind].
    apply arr_get_inv in He as [_ He]. unfold test. by rewrite He.
  - left. unfold test in Ht. destruct (es !! Z.to_nat j) as [e|] eqn:He; [|done].
    destruct (Z.eqb_spec (ic_status e) ICACHE_S_INVAL), (Z.eqb_spec (ic_inode_idx e) ino); try done.
    injection Ht as <-. exists (Z.to_nat j), e. unfold icache_find_in. fold es. rewrite Hf.
    split; [by rewrite Z2Nat.id by lia | split_and!; try done; lia].
  - right. split; [done|]. intros k e (He & Hk & Hs & Hi). specialize (Hn (Z.of_nat k) ltac:(lia)).
    unfold test in Hn. rewrite Nat2Z.id in Hn. fold es in He. rewrite He in Hn.
    destruct (Z.eqb_spec (ic_status e) ICACHE_S_INVAL), (Z.eqb_spec (ic_inode_idx e) ino); done.
Qed.

Lemma view_cached s ino k e : icache_ok s → cached s ino k e → inode_view s ino = Ok (ic_inode e).
Proof.
  intros Hok Hc. unfold inode_view. destruct (icache_find_ok s ino Hok) as [(k' & e' & -> & Hc')|[_ Hn]].
  - cbn [obind]. destruct (io_once s Hok _ _ _ _ _ Hc Hc'). destruct Hc as (He & _).
    by rewrite (arr_get_Ok _ _ e) by (rewrite ?Nat2Z.id; done || lia).
  - by destruct (Hn k e).
Qed.

Lemma view_uncached s ino : icache_ok s → (∀ k e, ¬ cached s ino k e) → inode_view s ino = inode_on_disk s ino.
Proof.
  intros Hok Hn. unfold inode_view. destruct (icache_find_ok s ino Hok) as [(k & e & _ & Hc)|[-> _]]; [|done].
  by destruct (Hn k e).
Qed.

(** The state with entry [l] replaced. *)
Definition put_entry (l : nat) (e : icache_entry) (count : Z) (s : fs) : fs :=
  set_fs_icache (mk_icache (<[l := e]> (icache_entries (fs_icache s))) count) s.

(** Entry [l] is taken for inode [ino]: nothing but the view of [ino] can
    change, as long as the inode that was there is in the inode table. *)
Section put.
Context (s : fs) (Hok : icache_ok s) (l : nat) (e : icache_entry) (count ino : Z).
Context (Hl : Z.of_nat l < count ≤ ICACHE_MAX_COUNT) (Hcnt : icache_count (fs_icache s) ≤ count).
Context (Hnew : ∀ k, icache_count (fs_icache s) ≤ Z.of_nat k < count → k = l).
Context (Hst : ic_status e ≠ ICACHE_S_INVAL) (Hino : ic_inode_idx e = ino).
Context (Hin : inode_in (fs_sb s) ino) (Hgood : struct_ok (ic_inode e)).
Context (Hclean : ic_status e ≠ ICACHE_S_DIRTY → inode_on_disk s ino = Ok (ic_inode e)).
Context (Honly : ∀ k e', cached s ino k e' → k = l).
Context (Hold : ∀ j e', cached s j l e' → j ≠ ino → inode_on_disk s j = Ok (ic_inode e')).

Let s' := put_entry l e count s.

Lemma put_cached j k e' :
  cached s' j k e' ↔ (k = l ∧ e' = e ∧ j = ino) ∨ (k ≠ l ∧ cached s j k e').
Proof.
  unfold cached, s', put_entry; cbn. pose proof (io_len s Hok) as Hlen. unfold zlen in Hlen.
  destruct (decide (k = l)) as [->|Hkl].
  - rewrite list_lookup_insert_eq by lia. split.
    + intros ([= <-] & _ & _ & <-). by left.
    + intros [(_ & -> & ->)|[? _]]; [|done]. split_and!; done || lia.
  - rewrite list_lookup_insert_ne by done. split.
    + intros (? & Hk & ? & ?). right. split; [done|]. split_and!; try done.
      destruct (Z.lt_ge_cases (Z.of_nat k) (icache_count (fs_icache s))); [done|].
      by destruct Hkl; apply Hnew.
    + intros [(? & _)|(_ & ? & ? & ? & ?)]; [done|]. split_and!; done || lia.
Qed.

Lemma put_ok : icache_ok s'.
Proof.
  pose proof Hok as [Hlen Hc Honce Hent Hcl]. split.
  - cbn. unfold zlen in *. by rewrite length_insert.
  - cbn. lia.
  - intros j k e1 k' e2 [(-> & -> & ->)|[Hk H1]]%put_cached [(-> & -> & Ej)|[Hk' H2]]%put_cached; [done| | |by eapply Honce].
    + by destruct Hk'; eapply Honly.
    + subst j. by destruct Hk; eapply Honly.
  - intros j k e' [(-> & -> & ->)|[_ H]]%put_cached; [done | by eapply Hent].
  - intros j k e' [(-> & -> & ->)|[_ H]]%put_cached Hd; [by apply Hclean | by eapply Hcl].
Qed.

Lemma put_view_same : inode_view s' ino = Ok (ic_inode e).
Proof. apply (view_cached s' ino l e put_ok), put_cached. by left. Qed.

Lemma put_view_other j : j ≠ ino → inode_view s' j = inode_view s j.
Proof.
  intros Hj. destruct (icache_find_ok s j Hok) as [(k & e' & _ & Hc)|[_ Hn]].
  - rewrite (view_cached s j k e' Hok Hc). destruct (decide (k = l)) as [->|Hk].
    + rewrite view_uncached; [by eapply Hold | apply put_ok |].
      intros k' e2 [(_ & _ & ->)|[Hk' Hc']]%put_cached; [done|]. apply Hk'. by eapply (io_once s Hok).
    + apply (view_cached s' j k e' put_ok), put_cached. by right.
  - rewrite view_uncached, (view_uncached s); try done; [apply put_ok|].
    intros k' e2 [(_ & _ & ->)|[_ Hc']]%put_cached; [done | by eapply Hn].
Qed.
End put.

(** ** Runs of the operations *)

Lemma get_entry_run s k e : icache_entries (fs_icache s) !! k = Some e →
  get_entry (Z.of_nat k) s = Ok (e, s).
Proof.
  intros He. unfold get_entry. by rewrite (arr_get_Ok _ _ e) by (rewrite ?Nat2Z.id; done || lia).
Qed.

Lemma set_entry_run s k e : icache_ok s → Z.of_nat k < ICACHE_MAX_COUNT →
  set_entry (Z.of_nat k) e s = Ok (tt, put_entry k e (icache_count (fs_icache s)) s).
Proof.
  intros Hok Hk. unfold set_entry. rewrite arr_set_Ok by (rewrite (io_len s Hok); lia). cbn [obind].
  by rewrite Nat2Z.id.
Qed.

Lemma entry_exists s k : icache_ok s → Z.of_nat k < ICACHE_MAX_COUNT →
  ∃ e, icache_entries (fs_icache s) !! k = Some e.
Proof.
  intros Hok Hk. apply lookup_lt_is_Some_2. pose proof (io_len s Hok). unfold zlen in *. lia.
Qed.

(** What is read from the disk into a free slot. *)
Lemma icache_fill_run s k ino inode : icache_ok s → Z.of_nat k < ICACHE_MAX_COUNT →
  inode_on_disk s ino = Ok inode →
  icache_fill (Z.of_nat k) ino true s =
    Ok (tt, put_entry k (mk_icache_entry inode ino 0 ICACHE_S_VALID None) (icache_count (fs_icache s)) s).
Proof.
  intros Hok Hk Hd. destruct (entry_exists s k Hok Hk) as [e He]. unfold icache_fill.
  rewrite (M_bind_Ok _ _ _ _ _ (get_entry_run s k e He)). unfold inode_on_disk in Hd.
  apply bind_Ok_inv in Hd as (off & Hoff & Hd). apply bind_Ok_inv in Hd as (bs & Hbs & [= <-]).
  erewrite M_bind_Ok.
  2:{ erewrite M_bind_Ok by (unfold k_inode_get_offset, reads; by rewrite Hoff).
      erewrite M_bind_Ok by (unfold k_disk_read, reads; by rewrite Hbs). reflexivity. }
  by apply set_entry_run.
Qed.

(** Writing entry [k] back leaves the cache, the other slots and every view
    alone. *)
Lemma write_back_slot s ino k e : mounted s → icache_ok s → cached s ino k e →
  ∃ s', icache_write_back (Z.of_nat k) s = Ok (tt, s') ∧ mounted s' ∧ icache_ok s' ∧ same_rest s s' ∧
    fs_icache s' = fs_icache s ∧ inode_on_disk s' ino = Ok (ic_inode e) ∧
    (∀ j, inode_in (fs_sb s) j → j ≠ ino → inode_on_disk s' j = inode_on_disk s j) ∧
    ∀ j, inode_in (fs_sb s) j → inode_view s' j = inode_view s j.
Proof.
  intros Hm Hok Hc. destruct (io_entry s Hok _ _ _ Hc) as [Hin Hst].
  destruct (write_slot s ino (ic_inode e) Hm Hin Hst) as (off & d' & Hoff & Hw & Hm' & Hsd & Hsame & Hother).
  pose proof Hc as (He & _ & _ & Hidx).
  exists (set_fs_disk d' s). assert (icache_ok (set_fs_disk d' s)) as Hok'.
  { destruct Hok as [? ? Honce Hent Hcl]. split; cbn; try done. intros j k' e' Hc' Hd'.
    destruct (decide (j = ino)) as [->|Hj].
    - destruct (Honce _ _ _ _ _ Hc Hc'). destruct Hc' as (He' & _). cbn in He'. congruence.
    - rewrite Hother by (done || by eapply (Hent j)). by eapply Hcl. }
  split; [|split_and!; try done].
  - unfold icache_write_back. rewrite (M_bind_Ok _ _ _ _ _ (get_entry_run s k e He)). rewrite Hidx.
    erewrite M_bind_Ok by (unfold k_inode_get_offset, reads; by rewrite Hoff).
    unfold k_disk_write. by rewrite Hw.
  - intros j Hj. destruct (icache_find_ok s j Hok) as [(k' & e' & _ & Hc')|[_ Hn]].
    + rewrite (view_cached s j k' e' Hok Hc'). by apply (view_cached _ j k').
    + rewrite !view_uncached; try done. apply Hother; [done|]. intros ->. by eapply Hn.
Qed.

Lemma write_back_ok s ino k e : mounted s → icache_ok s → cached s ino k e →
  ∃ s', icache_write_back (Z.of_nat k) s = Ok (tt, s') ∧ mounted s' ∧ icache_ok s' ∧ same_rest s s' ∧
    fs_icache s' = fs_icache s ∧ inode_on_disk s' ino = Ok (ic_inode e) ∧
    ∀ j, inode_in (fs_sb s) j → inode_view s' j = inode_view s j.
Proof.
  intros Hm Hok Hc. destruct (write_back_slot s ino k e Hm Hok Hc) as (s' & ? & ? & ? & ? & ? & ? & _ & ?). by exists s'.
Qed.

(** Bytes written outside the inode tables leave the cache and every view
    alone. *)
Lemma write_outside_ok s a bs : mounted s → icache_ok s → Forall byte_ok bs → outside_tables s a (zlen bs) →
  let s' := set_fs_disk (image_write (fs_disk s) a bs) s in
  mounted s' ∧ icache_ok s' ∧ ∀ j, inode_in (fs_sb s) j → inode_view s' j = inode_view s j.
Proof.
  intros Hm Hok Hb Hout s'. destruct (write_outside s a bs Hm Hb Hout) as [Hm' Hd]. fold s' in Hm', Hd.
  assert (icache_ok s') as Hok'.
  { destruct Hok as [? ? Honce Hent Hcl]. split; try done. intros j k e Hc Hdirty.
    rewrite Hd by by eapply (Hent j). by eapply Hcl. }
  split; [done|]. split; [done|]. intros j Hj.
  destruct (icache_find_ok s j Hok) as [(k & e & _ & Hc)|[_ Hn]].
  - rewrite (view_cached s j k e Hok Hc). by apply (view_cached s' j k).
  - rewrite !view_uncached by done. by apply Hd.
Qed.

(** The slot [lru_scan] chooses. *)
Lemma lru_scan_ok es i n idx cnt : 0 ≤ i → i + Z.of_nat n ≤ zlen es →
  ∃ r, lru_scan es i n idx cnt = Ok r ∧
  match r with
  | inl j => i ≤ j < i + Z.of_nat n ∧ ∃ e, es !! Z.to_nat j = Some e ∧ ic_status e = ICACHE_S_INVAL
  | inr (j, c) =>
    (∀ k e, i ≤ k < i + Z.of_nat n → es !! Z.to_nat k = Some e →
       ic_status e ≠ ICACHE_S_INVAL ∧ c ≤ ic_lru_count e) ∧ c ≤ cnt ∧
    (j = idx ∧ c = cnt ∨
     c < cnt ∧ i ≤ j < i + Z.of_nat n ∧ ∃ e, es !! Z.to_nat j = Some e ∧ ic_lru_count e = c)
  end.
Proof.
  revert i idx cnt. induction n as [|n IH]; intros i idx cnt H0 Hn; cbn [lru_scan].
  { eexists; split; [done|]. cbn. split; [lia|]. split; [lia | by left]. }
  destruct (arr_get_is_Ok es i ltac:(lia)) as [e He]. rewrite He. cbn [obind].
  apply arr_get_inv in He as [_ He]. destruct (Z.eqb_spec (ic_status e) ICACHE_S_INVAL) as [Hs|Hs].
  { eexists; split; [done|]. cbn. split; [lia | by exists e]. }
  assert (∀ idx' cnt', cnt' ≤ cnt → cnt' ≤ ic_lru_count e → (idx' = idx ∧ cnt' = cnt ∨ cnt' < cnt ∧ idx' = i ∧ cnt' = ic_lru_count e) →
    ∃ r, lru_scan es (i + 1) n idx' cnt' = Ok r ∧
    match r with
    | inl j => i ≤ j < i + Z.of_nat (S n) ∧ ∃ e, es !! Z.to_nat j = Some e ∧ ic_status e = ICACHE_S_INVAL
    | inr (j, c) =>
      (∀ k e, i ≤ k < i + Z.of_nat (S n) → es !! Z.to_nat k = Some e →
         ic_status e ≠ ICACHE_S_INVAL ∧ c ≤ ic_lru_count e) ∧ c ≤ cnt ∧
      (j = idx ∧ c = cnt ∨
       c < cnt ∧ i ≤ j < i + Z.of_nat (S n) ∧ ∃ e, es !! Z.to_nat j = Some e ∧ ic_lru_count e = c)
    end) as Hstep.
  { intros idx' cnt' Hle Hle' Hcase. destruct (IH (i + 1) idx' cnt' ltac:(lia) ltac:(lia)) as (r & -> & Hr).
    eexists; split; [done|]. destruct r as [j|[j c]].
    - destruct Hr as [? ?]. split; [lia | done].
    - destruct Hr as (Hall & Hc & Hj). split_and!; [|lia|].
      + intros k e' Hk He'. destruct (decide (k = i)) as [->|]; [|apply (Hall k); [lia | done]].
        rewrite He in He'. injection He' as <-. split; [done | lia].
      + destruct Hj as [[-> ->]|(? & ? & Hex)]; [|right; split_and!; lia || done].
        destruct Hcase as [[-> ->]|(? & -> & ->)]; [by left|]. right. split; [lia|]. split; [lia | by exists e]. }
  destruct (Z.ltb_spec (ic_lru_count e) cnt); apply Hstep; try lia.
Qed.

(** Some entry can be replaced: its use count is in the range of an [int]. *)
Definition lru_room (s : fs) : Prop :=
  icache_count (fs_icache s) = ICACHE_MAX_COUNT →
  ∃ k e, icache_entries (fs_icache s) !! k = Some e ∧
    (ic_status e = ICACHE_S_INVAL ∨ ic_lru_count e < INT_MAX).

(** Inode [ino] is cached, or there is room for it. *)
Definition can_load (s : fs) (ino : Z) : Prop := (∃ k e, cached s ino k e) ∨ lru_room s.

(** The state [s'] shows the same inodes as [s], and entry [k] is for
    [ino]. *)
Definition now_cached (s s' : fs) (ino : Z) (k : nat) : Prop :=
  mounted s' ∧ icache_ok s' ∧ same_rest s s' ∧ (∃ e, cached s' ino k e) ∧
  ∀ j, inode_in (fs_sb s) j → inode_view s' j = inode_view s j.

Lemma fill_ok s k ino count : mounted s → icache_ok s → inode_in (fs_sb s) ino →
  (∀ k e, ¬ cached s ino k e) → Z.of_nat k < count ≤ ICACHE_MAX_COUNT →
  icache_count (fs_icache s) ≤ count → (∀ k', icache_count (fs_icache s) ≤ Z.of_nat k' < count → k' = k) →
  (∀ j e, cached s j k e → inode_on_disk s j = Ok (ic_inode e)) →
  ∃ e, icache_fill (Z.of_nat k) ino true s = Ok (tt, put_entry k e (icache_count (fs_icache s)) s) ∧
    now_cached s (put_entry k e count s) ino k.
Proof.
  intros Hm Hok Hin Hnone Hk Hc Hnew Hold. destruct (mounted_read s ino Hm Hin) as (inode & Hd & Hst).
  set (e := mk_icache_entry inode ino 0 ICACHE_S_VALID None). exists e.
  split; [apply icache_fill_run; [done | lia | done]|].
  assert (∀ k' e', cached s ino k' e' → k' = k) as Honly by (intros k' e' H; by destruct (Hnone k' e')).
  assert (∀ j e', cached s j k e' → j ≠ ino → inode_on_disk s j = Ok (ic_inode e')) as Hold' by (intros; by eapply Hold).
  unfold now_cached. split_and!; try done.
  - by destruct Hm.
  - by eapply put_ok.
  - exists e. eapply put_cached; try done. by left.
  - intros j Hj. destruct (decide (j = ino)) as [->|Hne]; [|by eapply put_view_other].
    rewrite (view_uncached s ino Hok Hnone), Hd. by eapply (put_view_same s Hok k e).
Qed.

Lemma same_rest_trans s1 s2 s3 : same_rest s1 s2 → same_rest s2 s3 → same_rest s1 s3.
Proof.
  unfold same_rest. intros (Hsb & Hgdt & ? & ? & ? & ? & ? & ? & ? & ? & ? & Hb1) (? & ? & ? & ? & ? & ? & ? & ? & ? & ? & ? & Hb2).
  split_and!; try congruence. split_and!; try congruence.
  intros a Ha. rewrite Hb2; [by apply Hb1|]. unfold outside_tables. by rewrite Hsb, Hgdt.
Qed.

(** Slot [k] of [s1] can be taken for [ino]: [s1] shows the inodes of [s], and
    the inode in the slot, if any, is in the inode table. *)
Record free_slot (s s1 : fs) (ino : Z) (k : nat) (count : Z) : Prop := mk_free_slot {
  sl_mounted : mounted s1;
  sl_ok : icache_ok s1;
  sl_rest : same_rest s s1;
  sl_icache : fs_icache s1 = fs_icache s;
  sl_view : ∀ j, inode_in (fs_sb s) j → inode_view s1 j = inode_view s j;
  sl_range : Z.of_nat k < count ≤ ICACHE_MAX_COUNT;
  sl_count : icache_count (fs_icache s1) ≤ count;
  sl_new : ∀ k', icache_count (fs_icache s1) ≤ Z.of_nat k' < count → k' = k;
  sl_old : ∀ j e, cached s1 j k e → inode_on_disk s1 j = Ok (ic_inode e)
}.

(** What is written back before slot [k] is used again. *)
Lemma evict_slot s ino k e : mounted s → icache_ok s → icache_count (fs_icache s) = ICACHE_MAX_COUNT →
  cached s (ic_inode_idx e) k e →
  ∃ s1, (dirty ⇐ ICACHE_IS_DIRTY (Z.of_nat k);
    if dirty : bool then icache_write_back (Z.of_nat k) else ret tt) s = Ok (tt, s1) ∧
    free_slot s s1 ino k ICACHE_MAX_COUNT.
Proof.
  intros Hm Hok Hfull Hc. pose proof Hc as (He & Hk & _).
  run (ltac:(unfold ICACHE_IS_DIRTY; erewrite M_bind_Ok by (by apply get_entry_run); reflexivity) :
    ICACHE_IS_DIRTY (Z.of_nat k) s = Ok (ic_status e =? ICACHE_S_DIRTY, s)).
  assert (∃ s1, (if ic_status e =? ICACHE_S_DIRTY then icache_write_back (Z.of_nat k) else ret tt) s = Ok (tt, s1) ∧
    mounted s1 ∧ icache_ok s1 ∧ same_rest s s1 ∧ fs_icache s1 = fs_icache s ∧
    inode_on_disk s1 (ic_inode_idx e) = Ok (ic_inode e) ∧
    ∀ j, inode_in (fs_sb s) j → inode_view s1 j = inode_view s j) as (s1 & Hs1 & Hm1 & Hok1 & Hrest1 & Hic & Hd1 & Hv1).
  { destruct (Z.eqb_spec (ic_status e) ICACHE_S_DIRTY); [by apply write_back_ok|].
    exists s. split_and!; try done. by eapply (io_clean s Hok). }
  exists s1. split; [done|]. split; try done; rewrite ?Hic; try lia.
  intros j e' (He' & _ & _ & <-). rewrite Hic, He in He'. by injection He' as <-.
Qed.

Lemma lru_replace_slot s ino flag : mounted s → icache_ok s →
  icache_count (fs_icache s) = ICACHE_MAX_COUNT → lru_room s →
  ∃ k s1, free_slot s s1 ino k ICACHE_MAX_COUNT ∧
    ∀ e, icache_fill (Z.of_nat k) ino flag s1 = Ok (tt, put_entry k e (icache_count (fs_icache s1)) s1) →
      icache_lru_replace ino flag s = Ok (Z.of_nat k, put_entry k e ICACHE_MAX_COUNT s1).
Proof.
  intros Hm Hok Hfull Hroom. pose proof (io_len s Hok) as Hlen.
  destruct (lru_scan_ok (icache_entries (fs_icache s)) 0 (Z.to_nat ICACHE_MAX_COUNT) (-1) INT_MAX ltac:(lia))
    as (r & Hr & Hspec); [rewrite Hlen; by vm_compute|].
  change (0 + Z.of_nat (Z.to_nat ICACHE_MAX_COUNT)) with ICACHE_MAX_COUNT in Hspec.
  assert (icache_lru_replace ino flag s = match r with
    | inl i => (icache_fill i ino flag ;;; ret i) s
    | inr (lru_idx, _) => (dirty ⇐ ICACHE_IS_DIRTY lru_idx;
        (if dirty : bool then icache_write_back lru_idx else ret tt) ;;;
        icache_fill lru_idx ino flag ;;; ret lru_idx) s end) as Hrep.
  { unfold icache_lru_replace. run. unfold gets. rewrite Hfull. erewrite M_bind_Ok by (unfold lift; by rewrite Hr).
    by destruct r as [|[]]. }
  destruct r as [j|[j c]].
  - destruct Hspec as [Hj (e & He & Hs)]. rewrite <- (Z2Nat.id j) in Hrep by lia. set (k := Z.to_nat j) in *.
    exists k, s. split.
    + split; try done; try lia. intros j' e' (He' & _ & Hs' & _). congruence.
    + intros e' Hf. rewrite Hrep. run Hf. by rewrite Hfull.
  - destruct Hspec as (Hall & _ & [[-> ->]|(_ & Hj & e & He & _)]).
    { destruct (Hroom Hfull) as (k & e & He & Hlow). apply lookup_lt_Some in He as Hk. unfold zlen in Hlen.
      destruct (Hall (Z.of_nat k) e) as [? ?]; [lia | by rewrite Nat2Z.id|]. destruct Hlow; [done | lia]. }
    destruct (Hall j e Hj He) as [Hs _]. rewrite <- (Z2Nat.id j) in Hrep by lia. set (k := Z.to_nat j) in *.
    destruct (evict_slot s ino k e Hm Hok Hfull) as (s1 & Hs1 & Hslot); [split_and!; try done; lia|].
    exists k, s1. split; [done|]. intros e' Hf. rewrite Hrep.
    apply M_bind_Ok_inv in Hs1 as (d & s0 & Hd & Hs1). run Hd. run Hs1. run Hf.
    by rewrite (sl_icache _ _ _ _ _ Hslot), Hfull.
Qed.

Lemma icache_insert_slot s ino flag : mounted s → icache_ok s → lru_room s →
  ∃ k s1 count, free_slot s s1 ino k count ∧
    ∀ e, icache_fill (Z.of_nat k) ino flag s1 = Ok (tt, put_entry k e (icache_count (fs_icache s1)) s1) →
      icache_insert ino flag s = Ok (Z.of_nat k, put_entry k e count s1).
Proof.
  intros Hm Hok Hroom. pose proof (io_count s Hok) as Hc. unfold icache_insert, sbind at 1, gets.
  destruct (Z.eqb_spec (icache_count (fs_icache s)) ICACHE_MAX_COUNT).
  { destruct (lru_replace_slot s ino flag) as (k & s1 & ? & ?); try done. by exists k, s1, ICACHE_MAX_COUNT. }
  set (k := Z.to_nat (icache_count (fs_icache s))). replace (icache_count (fs_icache s)) with (Z.of_nat k) by lia.
  exists k, s, (Z.of_nat k + 1). split.
  - split; try done; try lia. intros j e (_ & Hk & _). lia.
  - intros e Hf. run Hf. fold k. cbn. unfold put_entry. cbn. replace (icache_count (fs_icache s) + 1) with (Z.of_nat k + 1) by lia. done.
Qed.

Lemma icache_insert_ok s ino : mounted s → icache_ok s → inode_in (fs_sb s) ino →
  (∀ k e, ¬ cached s ino k e) → lru_room s →
  ∃ k s', icache_insert ino true s = Ok (Z.of_nat k, s') ∧ now_cached s s' ino k.
Proof.
  intros Hm Hok Hin Hnone Hroom.
  destruct (icache_insert_slot s ino true Hm Hok Hroom) as (k & s1 & count & [? ? Hr Hic Hv ? ? ? ?] & Hins).
  pose proof Hr as (Hsb & _).
  destruct (fill_ok s1 k ino count) as (e & Hf & Hnow); try done; try (by rewrite Hsb).
  { intros k' e'. unfold cached. rewrite Hic. apply Hnone. }
  exists k. eexists. split; [by apply Hins|]. destruct Hnow as (? & ? & ? & ? & Hv').
  unfold now_cached. split_and!; try done; try by eapply same_rest_trans.
  intros j Hj. rewrite Hv' by (by rewrite Hsb). by apply Hv.
Qed.

(** A new inode in a slot of its own, whatever the slot held. *)
Lemma icache_new_ok s ino : mounted s → icache_ok s → inode_in (fs_sb s) ino →
  (∀ k e, ¬ cached s ino k e) → lru_room s →
  ∃ k s0, icache_insert ino false s = Ok (Z.of_nat k, s0) ∧ same_rest s s0 ∧
  ∀ inode, struct_ok inode →
  ∃ s', (upd_inode (Z.of_nat k) (λ _, inode) ;;; ICACHE_SET_DIRTY (Z.of_nat k)) s0 = Ok (tt, s') ∧
    mounted s' ∧ icache_ok s' ∧ same_rest s s' ∧
    cached s' ino k (mk_icache_entry inode ino 0 ICACHE_S_DIRTY None) ∧ inode_view s' ino = Ok inode ∧
    ∀ j, inode_in (fs_sb s) j → j ≠ ino → inode_view s' j = inode_view s j.
Proof.
  intros Hm Hok Hin Hnone Hroom.
  destruct (icache_insert_slot s ino false Hm Hok Hroom) as (k & s1 & count & [Hm1 Hok1 Hr Hic Hv Hk Hcnt Hnew Hold] & Hins).
  pose proof Hr as (Hsb & _). destruct (entry_exists s1 k Hok1 ltac:(lia)) as [e0 He0].
  pose proof (io_len s1 Hok1) as Hlen. unfold zlen in Hlen.
  exists k. eexists. split.
  { apply Hins. unfold icache_fill. run (get_entry_run s1 k e0 He0). run. apply set_entry_run; [done | lia]. }
  split; [by eapply same_rest_trans; [exact Hr|]|]. intros inode Hst.
  set (e := mk_icache_entry inode ino 0 ICACHE_S_DIRTY None). exists (put_entry k e count s1). split.
  - erewrite M_bind_Ok.
    2:{ unfold upd_inode. erewrite M_bind_Ok by (apply get_entry_run; apply list_lookup_insert_eq; lia).
        unfold set_entry. cbn. rewrite arr_set_Ok by (unfold zlen; rewrite length_insert; lia). reflexivity. }
    rewrite Nat2Z.id, list_insert_insert_eq. cbn [ic_inode_idx ic_lru_count ic_status ic_last_de].
    unfold ICACHE_SET_DIRTY, set_status.
    erewrite M_bind_Ok by (apply get_entry_run; apply list_lookup_insert_eq; lia).
    unfold set_entry. cbn. rewrite arr_set_Ok by (unfold zlen; rewrite length_insert; lia). cbn [obind].
    by rewrite Nat2Z.id, list_insert_insert_eq.
  - assert (∀ k' e', cached s1 ino k' e' → k' = k) as Honly.
    { intros k' e' Hc. destruct (Hnone k' e'). unfold cached. by rewrite <- Hic. }
    assert (inode_in (fs_sb s1) ino) as Hin1 by (by rewrite Hsb).
    assert (∀ j e', cached s1 j k e' → j ≠ ino → inode_on_disk s1 j = Ok (ic_inode e')) as Hold' by (intros; by eapply Hold).
    split_and!.
    + by destruct Hm1.
    + by eapply put_ok.
    + by eapply same_rest_trans; [exact Hr|].
    + eapply put_cached; try done. by left.
    + by eapply (put_view_same s1 Hok1 k e).
    + intros j Hj Hne. rewrite <- Hv by done. by eapply put_view_other.
Qed.

(** Storing into entry [k] what is for the same inode. *)
Lemma restore_ok s ino k e e' : mounted s → icache_ok s → cached s ino k e →
  ic_status e' ≠ ICACHE_S_INVAL → ic_inode_idx e' = ino → struct_ok (ic_inode e') →
  (ic_status e' ≠ ICACHE_S_DIRTY → inode_on_disk s ino = Ok (ic_inode e')) →
  let s' := put_entry k e' (icache_count (fs_icache s)) s in
  mounted s' ∧ icache_ok s' ∧ same_rest s s' ∧ cached s' ino k e' ∧
  inode_view s' ino = Ok (ic_inode e') ∧ ∀ j, j ≠ ino → inode_view s' j = inode_view s j.
Proof.
  intros Hm Hok Hc Hs Hi Hst Hcl s'. pose proof Hc as (He & Hk & _ & Hidx).
  pose proof (io_count s Hok). destruct (io_entry s Hok _ _ _ Hc) as [Hin _].
  assert (∀ k' e2, cached s ino k' e2 → k' = k) as Honly by (intros k' e2 H2; by eapply (io_once s Hok)).
  assert (∀ j e2, cached s j k e2 → j ≠ ino → inode_on_disk s j = Ok (ic_inode e2)) as Hold.
  { intros j e2 (He2 & _ & _ & Hj) Hne. congruence. }
  assert (∀ k', icache_count (fs_icache s) ≤ Z.of_nat k' < icache_count (fs_icache s) → k' = k) as Hnew by lia.
  assert (Z.of_nat k < icache_count (fs_icache s) ≤ ICACHE_MAX_COUNT) as Hkc by lia.
  split_and!; try done.
  - by destruct Hm.
  - by eapply put_ok.
  - by eapply put_cached; [..|left].
  - by eapply (put_view_same s Hok k e').
  - intros j Hj. by eapply put_view_other.
Qed.

Lemma lru_inc_ok s ino k e : mounted s → icache_ok s → cached s ino k e →
  ∃ s' e', ICACHE_LRU_INC (Z.of_nat k) s = Ok (tt, s') ∧ mounted s' ∧ icache_ok s' ∧ same_rest s s' ∧
    cached s' ino k e' ∧ ic_inode e' = ic_inode e ∧ ∀ j, inode_view s' j = inode_view s j.
Proof.
  intros Hm Hok Hc. pose proof Hc as (He & Hk & Hst & Hidx). pose proof (io_count s Hok).
  unfold ICACHE_LRU_INC. rewrite (M_bind_Ok _ _ _ _ _ (get_entry_run s k e He)).
  destruct (ic_lru_count e <? UINT32_MAX); [|by exists s, e].
  rewrite set_entry_run by (done || lia).
  set (e' := mk_icache_entry _ _ _ _ _).
  destruct (restore_ok s ino k e e' Hm Hok Hc) as (? & ? & ? & ? & Hv & Hvo); try done.
  { by apply (io_entry s Hok _ _ _ Hc). }
  { intros Hd. exact (io_clean s Hok ino k e Hc Hd). }
  eexists _, e'. split; [done|]. split_and!; try done.
  intros j. destruct (decide (j = ino)) as [->|]; [|by apply Hvo]. by rewrite Hv, (view_cached s ino k e).
Qed.

Lemma inode_get_ok s ino : mounted s → icache_ok s → can_load s ino → inode_in (fs_sb s) ino →
  ∃ k s' e, inode_get_by_number ino s = Ok (inr (Z.of_nat k), s') ∧
    mounted s' ∧ icache_ok s' ∧ same_rest s s' ∧ cached s' ino k e ∧
    ∀ j, inode_in (fs_sb s) j → inode_view s' j = inode_view s j.
Proof.
  intros Hm Hok Hroom Hin. unfold inode_get_by_number.
  destruct (Z.eqb_spec ino 0); [unfold inode_in in Hin; lia|].
  assert (∃ k s1, (ic_entry ⇐ icache_find ino;
      match ic_entry with Some i => ret i | None => icache_insert ino true end) s = Ok (Z.of_nat k, s1) ∧
    now_cached s s1 ino k) as (k & s1 & Hrun & Hm1 & Hok1 & Hr1 & [e Hc] & Hv1).
  { destruct (icache_find_ok s ino Hok) as [(k & e & Hf & Hc)|[Hf Hnone]];
      erewrite M_bind_Ok by (unfold icache_find; by rewrite Hf).
    - exists k, s. split; [done|]. unfold now_cached. split_and!; try done. by exists e.
    - destruct Hroom as [(k & e & Hc)|Hroom]; [by destruct (Hnone k e) | by apply icache_insert_ok]. }
  destruct (lru_inc_ok s1 ino k e Hm1 Hok1 Hc) as (s' & e' & Hinc & Hm' & Hok' & Hr' & Hc' & _ & Hv').
  exists k, s', e'. split.
  - apply M_bind_Ok_inv in Hrun as (r & s0 & Hr & Hrun).
    rewrite (M_bind_Ok _ _ _ _ _ Hr), (M_bind_Ok _ _ _ _ _ Hrun), (M_bind_Ok _ _ _ _ _ Hinc). done.
  - do 2 (split; [done|]). split; [by eapply same_rest_trans|]. split; [done|].
    intros j Hj. rewrite Hv'. by apply Hv1.
Qed.

(** An entry with another use count and last entry. *)
Definition touch (e : icache_entry) (lru : Z) (de : option Z) : icache_entry :=
  mk_icache_entry (ic_inode e) (ic_inode_idx e) lru (ic_status e) de.

Definition touched (s : fs) (k : nat) (e : icache_entry) (lru : Z) (de : option Z) : fs :=
  put_entry k (touch e lru de) (icache_count (fs_icache s)) s.

Lemma touched_ok s ino k e lru de : mounted s → icache_ok s → cached s ino k e →
  let s' := touched s k e lru de in
  mounted s' ∧ icache_ok s' ∧ same_rest s s' ∧ cached s' ino k (touch e lru de) ∧
  ∀ j, inode_view s' j = inode_view s j.
Proof.
  intros Hm Hok Hc s'. pose proof Hc as (_ & _ & Hst & Hidx).
  destruct (restore_ok s ino k e (touch e lru de) Hm Hok Hc) as (? & ? & ? & ? & Hv & Hvo); try done.
  { by apply (io_entry s Hok _ _ _ Hc). }
  { intros Hd. exact (io_clean s Hok ino k e Hc Hd). }
  split_and!; try done. intros j. destruct (decide (j = ino)) as [->|]; [|by apply Hvo].
  rewrite (view_cached s ino k e Hok Hc). exact Hv.
Qed.

Lemma touched_cached s ino k e lru de j k' x : cached s ino k e → cached (touched s k e lru de) j k' x →
  ∃ x', cached s j k' x'.
Proof.
  intros Hc (Hx & Hk' & Hst & Hj). destruct (decide (k' = k)) as [->|Hne].
  - exists e. pose proof Hc as (He & _). cbn in Hx. rewrite list_lookup_insert_eq in Hx by by eapply lookup_lt_Some.
    by injection Hx as <-.
  - exists x. cbn in Hx. by rewrite list_lookup_insert_ne in Hx by done.
Qed.

Lemma touched_touched s k e lru de lru' de' :
  touched (touched s k e lru de) k (touch e lru de) lru' de' = touched s k e lru' de'.
Proof. unfold touched, put_entry, touch. cbn. by rewrite list_insert_insert_eq. Qed.

Lemma touched_self s ino k e : cached s ino k e → touched s k e (ic_lru_count e) (ic_last_de e) = s.
Proof.
  intros (He & _). unfold touched, put_entry. replace (touch e _ _) with e by by destruct e.
  rewrite list_insert_id by done. by destruct s as [? ? ? ? ? ? [] ? ? ? ?].
Qed.

Lemma lru_inc_run s ino k e : icache_ok s → cached s ino k e →
  ∃ lru, ICACHE_LRU_INC (Z.of_nat k) s = Ok (tt, touched s k e lru (ic_last_de e)) ∧
    lru ≤ ic_lru_count e + 1.
Proof.
  intros Hok Hc. pose proof Hc as (He & Hk & _). pose proof (io_count s Hok).
  unfold ICACHE_LRU_INC. rewrite (M_bind_Ok _ _ _ _ _ (get_entry_run s k e He)).
  destruct (ic_lru_count e <? UINT32_MAX).
  - exists (ic_lru_count e + 1). rewrite set_entry_run by (done || lia). split; [done | lia].
  - exists (ic_lru_count e). rewrite (touched_self s ino) by done. split; [done | lia].
Qed.

Lemma set_last_de_run s ino k e de : icache_ok s → cached s ino k e →
  ICACHE_SET_LAST_DE (Z.of_nat k) de s = Ok (tt, touched s k e (ic_lru_count e) de).
Proof.
  intros Hok Hc. pose proof Hc as (He & Hk & _). pose proof (io_count s Hok).
  unfold ICACHE_SET_LAST_DE. rewrite (M_bind_Ok _ _ _ _ _ (get_entry_run s k e He)).
  by rewrite set_entry_run by (done || lia).
Qed.

(** An inode that is cached. *)
Lemma inode_get_hit s ino k e : icache_ok s → cached s ino k e → ino ≠ 0 →
  ∃ lru, inode_get_by_number ino s = Ok (inr (Z.of_nat k), touched s k e lru (ic_last_de e)) ∧
    lru ≤ ic_lru_count e + 1.
Proof.
  intros Hok Hc H0. destruct (lru_inc_run s ino k e Hok Hc) as (lru & Hinc & Hle). exists lru. split; [|done].
  unfold inode_get_by_number. rewrite (proj2 (Z.eqb_neq _ _) H0).
  destruct (icache_find_ok s ino Hok) as [(k' & e' & Hf & Hc')|[_ Hn]]; [|by destruct (Hn k e)].
  destruct (io_once s Hok _ _ _ _ _ Hc Hc'). erewrite M_bind_Ok by (unfold icache_find; by rewrite Hf).
  run. by run Hinc.
Qed.

(** A block outside the inode tables reads the same. *)
Lemma same_data_read s s' a n : mounted s → mounted s' → fs_sb s' = fs_sb s → same_data s s' →
  0 ≤ a → 0 ≤ n ≤ MAX_RW_COUNT → a + n ≤ disk_len (fs_disk s) → a < 2 ^ 63 → outside_tables s a n →
  disk_read (fs_disk s') a n = disk_read (fs_disk s) a n.
Proof.
  intros Hm Hm' Hsb (Hfd & Hlen & Hb) Ha Hn Hl Hmax Hout.
  rewrite !disk_read_Ok by (rewrite ?Hlen; apply Hm || apply Hm' || lia). f_equal. apply read_bytes_ext.
  intros j Hj. apply Hb. eapply Forall_impl; [exact Hout|]. cbn. intros g Hg. lia.
Qed.

(** Changing a cached inode and marking the entry dirty. *)
Definition dirtied (e : icache_entry) (n : ext4_inode) : icache_entry :=
  mk_icache_entry n (ic_inode_idx e) (ic_lru_count e) ICACHE_S_DIRTY (ic_last_de e).

Lemma upd_dirty_run s ino k e f : icache_ok s → cached s ino k e →
  (upd_inode (Z.of_nat k) f ;;; ICACHE_SET_DIRTY (Z.of_nat k)) s =
    Ok (tt, put_entry k (dirtied e (f (ic_inode e))) (icache_count (fs_icache s)) s).
Proof.
  intros Hok (He & Hk & _). pose proof (io_count s Hok).
  set (e1 := mk_icache_entry (f (ic_inode e)) (ic_inode_idx e) (ic_lru_count e) (ic_status e) (ic_last_de e)).
  assert (upd_inode (Z.of_nat k) f s = Ok (tt, put_entry k e1 (icache_count (fs_icache s)) s)) as Hu.
  { unfold upd_inode. rewrite (M_bind_Ok _ _ _ _ _ (get_entry_run s k e He)).
    apply set_entry_run; [done | lia]. }
  rewrite (M_bind_Ok _ _ _ _ _ Hu). unfold ICACHE_SET_DIRTY, set_status.
  pose proof (io_len s Hok) as Hlen. unfold zlen in Hlen.
  erewrite M_bind_Ok by (apply get_entry_run; cbn; apply list_lookup_insert_eq; lia).
  unfold set_entry. cbn. rewrite arr_set_Ok by (unfold zlen; rewrite length_insert; lia). cbn [obind].
  rewrite Nat2Z.id, list_insert_insert_eq. done.
Qed.

Lemma upd_dirty_ok s ino k e f : mounted s → icache_ok s → cached s ino k e → struct_ok (f (ic_inode e)) →
  ∃ s', (upd_inode (Z.of_nat k) f ;;; ICACHE_SET_DIRTY (Z.of_nat k)) s = Ok (tt, s') ∧
    mounted s' ∧ icache_ok s' ∧ same_rest s s' ∧ (∃ e', cached s' ino k e' ∧ ic_inode e' = f (ic_inode e)) ∧
    inode_view s' ino = Ok (f (ic_inode e)) ∧ ∀ j, j ≠ ino → inode_view s' j = inode_view s j.
Proof.
  intros Hm Hok Hc Hst. pose proof Hc as (_ & _ & _ & Hidx).
  destruct (restore_ok s ino k e (dirtied e (f (ic_inode e))) Hm Hok Hc) as (? & ? & ? & ? & Hv & Hvo); try done.
  eexists. split; [by apply (upd_dirty_run s ino)|]. split_and!; try done. by eexists.
Qed.

(** ** Properties *)

(** C11: The inode cache is invisible: [inode_get_by_number] of an inode of the
    file system returns an entry that holds the inode as the file system has
    it (the cached copy, or the one of the inode table), and no inode
    changes, even when the call replaces a dirty entry, which is written back
    first.  The cache holds each inode at most once and stays in step with
    the inode table. *)
Theorem inode_cache_coherent (s : fs) (ino : Z) :
  mounted s → icache_ok s → can_load s ino → inode_in (fs_sb s) ino →
  ∃ k s' e, inode_get_by_number ino s = Ok (inr (Z.of_nat k), s') ∧
    mounted s' ∧ icache_ok s' ∧ same_rest s s' ∧
    cached s' ino k e ∧ inode_view s ino = Ok (ic_inode e) ∧
    ∀ j, inode_in (fs_sb s) j → inode_view s' j = inode_view s j.
Proof.
  intros Hm Hok Hroom Hin.
  destruct (inode_get_ok s ino Hm Hok Hroom Hin) as (k & s' & e & Hrun & Hm' & Hok' & Hr & Hc & Hv).
  exists k, s', e. split_and!; try done. rewrite <- Hv by done. by eapply view_cached.
Qed.

(** A mounted image of zeros with an empty cache. *)
Definition test_fs : fs :=
  mk_fs (mk_disk 3 ∅ 65536) test_sb_tables test_tables (mk_bitmap [] 0) (mk_bitmap [] 0)
    (dcache_alloc []) icache_init (decache_init_root EXT4_ROOT_INO) (2 ^ 20) None 0.

Lemma test_fs_mounted : mounted test_fs.
Proof.
  split.
  - vm_compute. done.
  - split; [vm_compute; reflexivity|]. split; [vm_compute; reflexivity|].
    split; [vm_compute; reflexivity|]. split; [repeat constructor; vm_compute; reflexivity|].
    intros [|[|i]] [|[|j]] a b [= <-] [= <-] ?; [done| | |done]; vm_compute; [left | right]; discriminate.
  - vm_compute. discriminate.
  - vm_compute. discriminate.
  - repeat constructor; vm_compute; discriminate.
  - intros a b. cbn. by rewrite lookup_empty.
Qed.

Lemma empty_cache_ok s : fs_icache s = icache_init → icache_ok s ∧ lru_room s.
Proof.
  intros E. assert (∀ ino k e, ¬ cached s ino k e) as Hn.
  { intros ino k e (_ & Hk & _). rewrite E in Hk. cbn in Hk. lia. }
  split; [|intros Hc; by rewrite E in Hc].
  split; [rewrite E; reflexivity | rewrite E; vm_compute; split; discriminate | intros; exfalso; by eapply Hn..].
Qed.

Lemma inode_cache_coherent_witness :
  ∃ k s' e, inode_get_by_number 9 test_fs = Ok (inr (Z.of_nat k), s') ∧
    mounted s' ∧ icache_ok s' ∧ same_rest test_fs s' ∧
    cached s' 9 k e ∧ inode_view test_fs 9 = Ok (ic_inode e) ∧
    ∀ j, inode_in (fs_sb test_fs) j → inode_view s' j = inode_view test_fs j.
Proof.
  apply (inode_cache_coherent test_fs 9);
    [apply test_fs_mounted | by apply empty_cache_ok | right; by apply empty_cache_ok | split; vm_compute; discriminate].
Defined.
