(* ===== verification/Dentry.v ===== *)
(** * Directory entries

    [src/src/dentry.c]: the records of a directory block in [dcache->buf].
    A record has its inode number at offset 0 (four bytes), the length of the
    record at 4 (two bytes), the length of the name at 6, the file type at 7
    and the name from 8 on; the records of a block follow each other by their
    lengths and the last twelve bytes of the block are the tail. *)

From S2P Require Import Prelude Ext4 Disk Bitmap Extents InodeMap Decache Fs Cache.
From stdpp Require Import base numbers list gmap strings.
From Stdlib Require Import ZArith Lia.

Open Scope Z_scope.
Open Scope kfs_scope.

(** ** Records in a buffer *)

Definition rec_inode_idx (buf : list Z) (p : Z) : outcome Z := buf_load 4 buf p.
Definition rec_rec_len (buf : list Z) (p : Z) : outcome Z := buf_load 2 buf (p + 4).
Definition rec_name_len (buf : list Z) (p : Z) : outcome Z := buf_load 1 buf (p + 6).
Definition rec_file_type (buf : list Z) (p : Z) : outcome Z := buf_load 1 buf (p + 7).

(** [strncmp(de->name, s, strlen(s)) == 0] for a string [s] without NUL:
    reads up to the first difference. *)
Fixpoint rec_name_eq (buf : list Z) (p : Z) (s : list Z) : outcome bool :=
  match s with
  | [] => Ok true
  | c :: s => b ← arr_get buf p; if b =? c then rec_name_eq buf (p + 1) s else Ok false
  end.

(** The tail of a block. *)
Definition write_tail (sb : ext4_super_block) (buf : list Z) : outcome (list Z) :=
  buf_write buf (EXT4_BLOCK_SIZE sb - EXT4_DE_TAIL_SIZE) (bytes_of new_tail).

(** Members other than [rec_len] of a record and its name, with the NUL. *)
Definition write_rec (buf : list Z) (p inode_idx rec_len name_len file_type : Z) (name : list Z) :
    outcome (list Z) :=
  buf ← buf_store 4 buf p inode_idx;
  buf ← buf_store 1 buf (p + 6) name_len;
  buf ← buf_store 2 buf (p + 4) rec_len;
  buf ← buf_store 1 buf (p + 7) file_type;
  buf ← buf_write buf (p + 8) name;
  buf_write buf (p + 8 + zlen name) [0].

(** ** The dcache buffer *)

Definition with_buf {A} (f : list Z → outcome A) : K A :=
  buf ⇐ gets (λ s, dc_buf (fs_dcache s)); lift (f buf).
Definition upd_buf (f : list Z → outcome (list Z)) : K unit :=
  buf ⇐ with_buf f; set_dc_buf buf.

Definition de_get_inode_idx (de : Z) : K Z := with_buf (λ b, rec_inode_idx b de).
Definition de_get_rec_len (de : Z) : K Z := with_buf (λ b, rec_rec_len b de).
Definition de_get_name_len (de : Z) : K Z := with_buf (λ b, rec_name_len b de).
Definition de_get_file_type (de : Z) : K Z := with_buf (λ b, rec_file_type b de).
Definition de_set_rec_len (de v : Z) : K unit := upd_buf (λ b, buf_store 2 b (de + 4) v).
Definition de_set_inode_idx (de v : Z) : K unit := upd_buf (λ b, buf_store 4 b de v).
Definition de_set_file_type (de v : Z) : K unit := upd_buf (λ b, buf_store 1 b (de + 7) v).

(** ** Operations *)

(** A second load of the same block cannot be needed unless the block number
    does not fit 32 bits, where the C recursion does not end. *)
Fixpoint dentry_next_rec (fuel : nat) (i : inode_slot) (inode_idx offset : Z) : K (option Z) :=
  match fuel with
  | O => lift (Fault OutOfFuel)
  | S fuel =>
    sb ⇐ gets fs_sb;
    let lblock := offset / EXT4_BLOCK_SIZE sb in
    let blk_offset := offset mod EXT4_BLOCK_SIZE sb in
    inode ⇐ get_inode i;
    let inode_size := EXT4_INODE_GET_SIZE inode in
    massert (offset <=? inode_size) ;;;
    if inode_size =? offset then
      (if inode_size <? u64 (EXT4_INODE_GET_BLOCKS inode * EXT4_BLOCK_SIZE sb)
       then upd_inode i (EXT4_INODE_SET_SIZE (inode_size + EXT4_BLOCK_SIZE sb))
       else ret tt) ;;;
      ret None
    else
      dc ⇐ gets fs_dcache;
      if lblock =? dc_lblock dc then ret (Some blk_offset)
      else dcache_load_lblock i (u32 lblock) ;;; dentry_next_rec fuel i inode_idx offset
  end.

Definition dentry_next : inode_slot → Z → Z → K (option Z) := dentry_next_rec 2.

(** The tail: inode number and name length 0; its type must be 0xDE. *)
Definition de_is_tail (de : Z) : K bool :=
  ino ⇐ de_get_inode_idx de;
  if ino =? 0 then
    len ⇐ de_get_name_len de;
    if len =? 0 then
      ft ⇐ de_get_file_type de;
      massert (ft =? EXT4_FT_DIR_CSUM) ;;; ret true
    else ret false
  else ret false.

(** The loop of [dentry_find]; [name] is [None] for NULL.  The result is the
    entry and the one before it.  Each step moves [offset] by a record
    length, so more steps than the directory has bytes means a record of
    length 0, where the C loop does not end. *)
Fixpoint dentry_find_loop (fuel : nat) (i : inode_slot) (inode_idx : Z) (name : option (list Z))
    (de : option Z) (offset : Z) : K (option Z * option Z) :=
  match fuel with
  | O => lift (Fault OutOfFuel)
  | S fuel =>
    de_next ⇐ dentry_next i inode_idx offset;
    match de_next with
    | None => ret (None, None)
    | Some de_next =>
      tail ⇐ de_is_tail de_next;
      if tail : bool then
        match name with
        | None => ICACHE_SET_LAST_DE i de ;;; ret (de, None)
        | Some _ => ret (None, None)
        end
      else
        rec_len ⇐ de_get_rec_len de_next;
        let offset := u64 (offset + rec_len) in
        len ⇐ de_get_name_len de_next;
        let s := default [] name in
        eq ⇐ (if zlen s =? len then with_buf (λ b, rec_name_eq b (de_next + 8) s)
              else ret false);
        if eq : bool then ret (Some de_next, de)
        else dentry_find_loop fuel i inode_idx name (Some de_next) offset
    end
  end.

Definition dentry_find (i : inode_slot) (inode_idx : Z) (name : option (list Z)) :
    K (option Z * option Z) :=
  dcache_init i inode_idx ;;;
  inode ⇐ get_inode i;
  dentry_find_loop (Z.to_nat (EXT4_INODE_GET_SIZE inode + 2)) i inode_idx name None 0.

Definition dentry_last (i : inode_slot) (inode_idx : Z) : K (option Z) :=
  dcache_init i inode_idx ;;;
  cached ⇐ ICACHE_CHECK_LAST_DE i;
  if cached : bool then ICACHE_GET_LAST_DE i
  else '(de, _) ⇐ dentry_find i inode_idx None; ret de.

(** [dentry_create] on a buffer: the new record and the buffer. *)
Definition create_rec (buf : list Z) (de : Z) (name : list Z) (inode_idx file_type : Z) :
    outcome (Z * list Z) :=
  left_space ← rec_rec_len buf de;
  name_len ← rec_name_len buf de;
  let rec_len := DE_REAL_REC_LEN name_len in
  buf ← buf_store 2 buf (de + 4) rec_len;
  let new_de := de + rec_len in
  let new_len := u8 (zlen name) in
  buf ← write_rec buf new_de inode_idx (left_space - rec_len) new_len file_type
          (take (Z.to_nat new_len) name);
  Ok (new_de, buf).

Definition dentry_create (de : Z) (name : list Z) (inode_idx file_type : Z) : K Z :=
  '(new_de, buf) ⇐ with_buf (λ b, create_rec b de name inode_idx file_type);
  set_dc_buf buf ;;;
  ret new_de.

(** [dentry_init] on a buffer: the tail, "." and "..". *)
Definition init_dir (sb : ext4_super_block) (buf : list Z) (parent_idx inode_idx : Z) :
    outcome (list Z) :=
  buf ← write_tail sb buf;
  buf ← write_rec buf 0 inode_idx EXT4_DE_DOT_SIZE 1 EXT4_FT_DIR (cstr ".");
  write_rec buf EXT4_DE_DOT_SIZE parent_idx
    (EXT4_BLOCK_SIZE sb - EXT4_DE_DOT_SIZE - EXT4_DE_TAIL_SIZE) 2 EXT4_FT_DIR (cstr "..").

Definition dentry_init (parent_idx inode_idx : Z) : K unit :=
  modify (λ s, set_fs_dcache
    (mk_dcache inode_idx 0 (dc_pblock (fs_dcache s)) (dc_buf (fs_dcache s))) s) ;;;
  sb ⇐ gets fs_sb;
  upd_buf (λ b, init_dir sb b parent_idx inode_idx).

(** [de_before->rec_len += de->rec_len]. *)
Definition merge_rec (buf : list Z) (de_before de : Z) : outcome (list Z) :=
  l1 ← rec_rec_len buf de_before;
  l2 ← rec_rec_len buf de;
  buf_store 2 buf (de_before + 4) (l1 + l2).

Definition dentry_delete (i : inode_slot) (inode_idx : Z) (name : list Z) : K unit :=
  dcache_init i inode_idx ;;;
  '(de, de_before) ⇐ dentry_find i inode_idx (Some name);
  match de with
  | None => lift (Fault AssertFail)
  | Some de =>
    before ⇐ lift (deref de_before);
    upd_buf (λ b, merge_rec b before de) ;;;
    last ⇐ ICACHE_GET_LAST_DE i;
    if bool_decide (last = Some de) then ICACHE_SET_LAST_DE i de_before else ret tt
  end.

(** On a buffer: 0 or [-ENOSPC]. *)
Definition rec_has_enough_space (buf : list Z) (de name_len : Z) : outcome Z :=
  rl ← rec_rec_len buf de;
  nl ← rec_name_len buf de;
  let rec_len := u16 (DE_CALC_REC_LEN name_len) in
  let left_space := u16 (rl - DE_REAL_REC_LEN nl) in
  Ok (if left_space <? rec_len then - ENOSPC else 0).

Definition dentry_has_enough_space (de name_len : Z) : K Z :=
  with_buf (λ b, rec_has_enough_space b de name_len).

(** ** Abstract view

    A directory block holds a list of entries; [dents_at B buf p ds] says
    that the records from offset [p] to the tail of the block are [ds]. *)

Record dent := mk_dent {
  d_ino : Z;
  d_len : Z;
  d_type : Z;
  d_name : list Z
}.

Definition set_d_len (v : Z) (d : dent) : dent := mk_dent (d_ino d) v (d_type d) (d_name d).

Definition rec_at (buf : list Z) (p ino rec_len name_len file_type : Z) (name : list Z) : Prop :=
  rec_inode_idx buf p = Ok ino ∧ rec_rec_len buf p = Ok rec_len ∧
  rec_name_len buf p = Ok name_len ∧ rec_file_type buf p = Ok file_type ∧
  buf_read buf (p + 8) (zlen name) = Ok name.

(** Room for the name, and not a tail. *)
Definition dent_ok (d : dent) : Prop :=
  zlen (d_name d) ≤ 255 ∧ DE_REAL_REC_LEN (zlen (d_name d)) ≤ d_len d < 2 ^ 16 ∧
  (d_ino d ≠ 0 ∨ d_name d ≠ []).

Definition dent_at (buf : list Z) (p : Z) (d : dent) : Prop :=
  rec_at buf p (d_ino d) (d_len d) (zlen (d_name d)) (d_type d) (d_name d) ∧ dent_ok d.

Definition tail_at (buf : list Z) (p : Z) : Prop :=
  buf_read buf p 8 = Ok [0; 0; 0; 0; EXT4_DE_TAIL_SIZE; 0; 0; EXT4_FT_DIR_CSUM].

Fixpoint dents_at (B : Z) (buf : list Z) (p : Z) (ds : list dent) : Prop :=
  match ds with
  | [] => p = B - EXT4_DE_TAIL_SIZE ∧ tail_at buf p
  | d :: ds => dent_at buf p d ∧ dents_at B buf (p + d_len d) ds
  end.

Definition dents_len (ds : list dent) : Z := foldr (λ d n, d_len d + n) 0 ds.
Arguments dents_len : simpl never.

(** What [dentry_find] is to return: the offset of the first entry with the
    name, and of the entry before it. *)
Fixpoint find_in (ds : list dent) (name : list Z) (p : Z) (before : option Z) :
    option Z * option Z :=
  match ds with
  | [] => (None, None)
  | d :: ds =>
    if bool_decide (d_name d = name) then (Some p, before)
    else find_in ds name (p + d_len d) (Some p)
  end.

Fixpoint last_in (ds : list dent) (p : Z) (before : option Z) : option Z :=
  match ds with
  | [] => before
  | d :: ds => last_in ds (p + d_len d) (Some p)
  end.

(** ** Lemmas on records *)

Lemma real_len n : 0 ≤ n ≤ 255 →
  DE_REAL_REC_LEN n = DE_CALC_REC_LEN n ∧ n + 8 ≤ DE_CALC_REC_LEN n < n + 12 ∧
  DE_CALC_REC_LEN n mod 4 = 0.
Proof.
  intros Hn. unfold DE_REAL_REC_LEN, DE_CALC_REC_LEN, ALIGN_TO_DENTRY, EXT4_DE_BASE_SIZE, u16.
  rewrite (Z.add_comm 8). change 4 with (2 ^ 2). rewrite ALIGN_TO_pow2 by lia.
  change (2 ^ 2) with 4. rewrite Z.mod_small by dlia. dlia.
Qed.

(** The records of a buffer that agrees on their bytes. *)
Lemma rec_at_frame buf buf' p ino rl nl ft name :
  (∀ q n, p ≤ q → q + n ≤ p + 8 + zlen name → buf_read buf' q n = buf_read buf q n) →
  rec_at buf p ino rl nl ft name → rec_at buf' p ino rl nl ft name.
Proof.
  intros Hf. pose proof (zlen_nonneg name).
  unfold rec_at, rec_inode_idx, rec_rec_len, rec_name_len, rec_file_type, buf_load.
  by rewrite !Hf by lia.
Qed.

Lemma write_rec_ok buf p ino rl nl ft name :
  0 ≤ p → p + 9 + zlen name ≤ zlen buf →
  ∃ buf', write_rec buf p ino rl nl ft name = Ok buf' ∧ zlen buf' = zlen buf ∧
    rec_at buf' p (u32 ino) (u16 rl) (u8 nl) (u8 ft) name ∧
    (∀ q n, q + n ≤ p ∨ p + 9 + zlen name ≤ q → buf_read buf' q n = buf_read buf q n) ∧
    (buf_read buf (p + 8 + zlen name) 1 = Ok [0] →
     ∀ q n, q + n ≤ p ∨ p + 8 + zlen name ≤ q → buf_read buf' q n = buf_read buf q n).
Proof.
  intros Hp Hl. pose proof (zlen_nonneg name). unfold write_rec.
  destruct (buf_store_is_Ok 4 buf p ino) as (b1 & H1 & L1); [lia..|].
  destruct (buf_store_is_Ok 1 b1 (p + 6) nl) as (b2 & H2 & L2); [lia..|].
  destruct (buf_store_is_Ok 2 b2 (p + 4) rl) as (b3 & H3 & L3); [lia..|].
  destruct (buf_store_is_Ok 1 b3 (p + 7) ft) as (b4 & H4 & L4); [lia..|].
  destruct (buf_write_is_Ok b4 (p + 8) name) as (b5 & H5 & L5); [lia..|].
  destruct (buf_write_is_Ok b5 (p + 8 + zlen name) [0]) as (b6 & H6 & L6); [lia| |].
  { unfold zlen at 2. cbn. lia. }
  rewrite H1. cbn [obind]. rewrite H2. cbn [obind]. rewrite H3. cbn [obind].
  rewrite H4. cbn [obind]. rewrite H5. cbn [obind]. rewrite H6.
  assert (∀ q n, q + n ≤ p ∨ p + 8 + zlen name ≤ q → buf_read b5 q n = buf_read buf q n) as Hf5.
  { intros q n Hq. rewrite (buf_read_write_disjoint _ _ _ _ _ _ H5) by lia.
    rewrite (buf_read_store_disjoint _ _ _ _ _ _ _ H4) by lia.
    rewrite (buf_read_store_disjoint _ _ _ _ _ _ _ H3) by lia.
    rewrite (buf_read_store_disjoint _ _ _ _ _ _ _ H2) by lia.
    by rewrite (buf_read_store_disjoint _ _ _ _ _ _ _ H1) by lia. }
  assert (zlen [0] = 1) as Hz by done.
  eexists; split; [done|]. split; [lia|]. split_and!.
  - eapply rec_at_frame; [|split_and!].
    { intros q n ? ?. eapply buf_read_write_disjoint; [exact H6 | lia]. }
    + unfold rec_inode_idx, buf_load. rewrite (buf_read_write_disjoint _ _ _ _ _ _ H5) by lia.
      rewrite (buf_read_store_disjoint _ _ _ _ _ _ _ H4) by lia.
      rewrite (buf_read_store_disjoint _ _ _ _ _ _ _ H3) by lia.
      rewrite (buf_read_store_disjoint _ _ _ _ _ _ _ H2) by lia.
      apply (buf_load_store_same 4 _ _ _ _ H1).
    + unfold rec_rec_len, buf_load. rewrite (buf_read_write_disjoint _ _ _ _ _ _ H5) by lia.
      rewrite (buf_read_store_disjoint _ _ _ _ _ _ _ H4) by lia.
      apply (buf_load_store_same 2 _ _ _ _ H3).
    + unfold rec_name_len, buf_load. rewrite (buf_read_write_disjoint _ _ _ _ _ _ H5) by lia.
      rewrite (buf_read_store_disjoint _ _ _ _ _ _ _ H4) by lia.
      rewrite (buf_read_store_disjoint _ _ _ _ _ _ _ H3) by lia.
      apply (buf_load_store_same 1 _ _ _ _ H2).
    + unfold rec_file_type, buf_load. rewrite (buf_read_write_disjoint _ _ _ _ _ _ H5) by lia.
      apply (buf_load_store_same 1 _ _ _ _ H4).
    + apply (buf_read_write_same _ _ _ _ H5).
  - intros q n Hq. rewrite (buf_read_write_disjoint _ _ _ _ _ _ H6) by lia. apply Hf5. lia.
  - intros Hnul q n Hq. rewrite <- (Hf5 (p + 8 + zlen name)) in Hnul by lia.
    rewrite <- Hz in Hnul. apply buf_write_id in Hnul. rewrite H6 in Hnul. injection Hnul as ->.
    by apply Hf5.
Qed.

(** Reads of a record that is all of a longer one. *)
Lemma rec_at_range buf p ino rl nl ft name : rec_at buf p ino rl nl ft name →
  0 ≤ p ∧ p + 8 + zlen name ≤ zlen buf.
Proof.
  intros (H1 & _ & _ & _ & H2). unfold rec_inode_idx, buf_load in H1.
  apply bind_Ok_inv in H1 as (? & (? & _)%buf_read_inv & _).
  apply buf_read_inv in H2 as (? & ? & ? & _). lia.
Qed.

Lemma dent_len d : dent_ok d → 8 + zlen (d_name d) ≤ d_len d.
Proof.
  intros (? & [? _] & _). destruct (real_len (zlen (d_name d))) as (? & ? & _);
    [pose proof (zlen_nonneg (d_name d)); lia | lia].
Qed.

Lemma dents_len_cons d ds : dents_len (d :: ds) = d_len d + dents_len ds.
Proof. done. Qed.

Lemma dents_len_app ds1 ds2 : dents_len (ds1 ++ ds2) = dents_len ds1 + dents_len ds2.
Proof. induction ds1 as [|d ds1 IH]; [done|]. cbn [app]. rewrite !dents_len_cons, IH. lia. Qed.

Lemma dents_at_len B buf p ds1 ds2 : dents_at B buf p (ds1 ++ ds2) → 8 * zlen ds1 ≤ dents_len ds1.
Proof.
  revert p. induction ds1 as [|d ds1 IH]; intros p; [done|]. intros [[_ Hd] H].
  apply IH in H. rewrite zlen_cons, dents_len_cons. apply dent_len in Hd.
  pose proof (zlen_nonneg (d_name d)). lia.
Qed.

Lemma dents_at_count B buf p ds : dents_at B buf p ds → 8 * zlen ds ≤ dents_len ds.
Proof. intros H. apply (dents_at_len B buf p ds []). by rewrite app_nil_r. Qed.

(** A block in two parts; the first part stays as long as its bytes do. *)
Lemma dents_at_app B buf p ds1 ds2 :
  dents_at B buf p (ds1 ++ ds2) →
  dents_at B buf (p + dents_len ds1) ds2 ∧
  ∀ buf' ds2', (∀ q n, q + n ≤ p + dents_len ds1 → buf_read buf' q n = buf_read buf q n) →
    dents_at B buf' (p + dents_len ds1) ds2' → dents_at B buf' p (ds1 ++ ds2').
Proof.
  revert p. induction ds1 as [|d ds1 IH]; intros p H.
  - cbn. rewrite Z.add_0_r. done.
  - pose proof (dents_at_len B buf p (d :: ds1) ds2 H) as Hl. cbn in H. destruct H as [[Hr Hd] H].
    pose proof (dents_at_len B buf _ ds1 ds2 H) as Hl1. pose proof (zlen_nonneg ds1).
    pose proof (dent_len d Hd). apply IH in H as [H2 Hback].
    rewrite dents_len_cons, Z.add_assoc. split; [done|].
    intros buf' ds2' Hf H'. cbn. split.
    + split; [|done]. eapply rec_at_frame; [|done]. intros q n ? ?. apply Hf. lia.
    + by apply Hback.
Qed.

(** The tail, read by its members. *)
Lemma tail_at_spec buf p : tail_at buf p →
  rec_inode_idx buf p = Ok 0 ∧ rec_name_len buf p = Ok 0 ∧
  rec_file_type buf p = Ok EXT4_FT_DIR_CSUM ∧ buf_read buf p 1 = Ok [0].
Proof.
  intros H. pose proof (buf_read_part _ _ _ _ 0 4 H) as H0.
  pose proof (buf_read_part _ _ _ _ 6 1 H) as H6. pose proof (buf_read_part _ _ _ _ 7 1 H) as H7.
  pose proof (buf_read_part _ _ _ _ 0 1 H) as H00. rewrite Z.add_0_r in *.
  split_and!.
  - apply (buf_load_read 4 _ _ _ (H0 ltac:(lia) ltac:(lia) ltac:(lia))).
  - apply (buf_load_read 1 _ _ _ (H6 ltac:(lia) ltac:(lia) ltac:(lia))).
  - apply (buf_load_read 1 _ _ _ (H7 ltac:(lia) ltac:(lia) ltac:(lia))).
  - apply H00; lia.
Qed.

(** A change of the length of a record. *)
Lemma set_len_ok buf p d v : dent_at buf p d → DE_REAL_REC_LEN (zlen (d_name d)) ≤ v < 2 ^ 16 →
  ∃ b1, buf_store 2 buf (p + 4) v = Ok b1 ∧ zlen b1 = zlen buf ∧ dent_at b1 p (set_d_len v d) ∧
    ∀ q n, q + n ≤ p + 4 ∨ p + 6 ≤ q → buf_read b1 q n = buf_read buf q n.
Proof.
  intros [Hr (Hn & Hl & Hnt)] Hv. pose proof (zlen_nonneg (d_name d)).
  pose proof (rec_at_range _ _ _ _ _ _ _ Hr) as [Hp0 Hp].
  destruct (real_len (zlen (d_name d))) as (E & Hrl & _); [lia|].
  destruct (buf_store_is_Ok 2 buf (p + 4) v) as (b1 & H1 & L1); [lia..|].
  assert (∀ q n, q + n ≤ p + 4 ∨ p + 6 ≤ q → buf_read b1 q n = buf_read buf q n) as Hf1.
  { intros q n Hq. apply (buf_read_store_disjoint _ _ _ _ _ _ _ H1). lia. }
  exists b1. split; [done|]. split; [done|]. split; [split; [|by unfold dent_ok; cbn]|done].
  cbn [d_name d_ino d_type d_len set_d_len]. destruct Hr as (R1 & R2 & R3 & R4 & R5).
  unfold rec_at, rec_inode_idx, rec_rec_len, rec_name_len, rec_file_type, buf_load in *.
  split_and!; [by rewrite Hf1 by lia | | by rewrite Hf1 by lia..].
  fold (buf_load 2 b1 (p + 4)). rewrite (buf_load_store_same _ _ _ _ _ H1).
  rewrite Z.mod_small by lia. done.
Qed.

(** ** Operations on the abstract block *)

(** [dentry_create] after the last entry. *)
Lemma create_rec_ok B buf ds d name ino ft :
  zlen buf = B → dents_at B buf 0 (ds ++ [d]) →
  0 < zlen name ≤ 255 → 0 ≤ ino < 2 ^ 32 → 0 ≤ ft < 2 ^ 8 →
  DE_REAL_REC_LEN (zlen (d_name d)) + DE_CALC_REC_LEN (zlen name) ≤ d_len d →
  let real := DE_REAL_REC_LEN (zlen (d_name d)) in
  ∃ buf', create_rec buf (dents_len ds) name ino ft = Ok (dents_len ds + real, buf') ∧
    zlen buf' = B ∧
    dents_at B buf' 0 (ds ++ [set_d_len real d; mk_dent ino (d_len d - real) ft name]).
Proof.
  intros HB Hds Hn Hino Hft Hsp real. set (p := dents_len ds).
  destruct (dents_at_app _ _ _ _ _ Hds) as [[Hat [Ht Htail]] Hback]. rewrite Z.add_0_l in *.
  fold p in Hat, Ht, Htail, Hback. pose proof Hat as [Hr Hd]. cbn in Ht. unfold EXT4_DE_TAIL_SIZE in Ht.
  destruct (real_len (zlen name)) as (Hrn & Hrn' & Hrm); [lia|].
  pose proof Hd as (Hnl & Hdl & Hnt). pose proof (zlen_nonneg (d_name d)).
  destruct (real_len (zlen (d_name d))) as (Hrd & Hrd' & Hrdm); [lia|]. fold real in Hrd, Hdl, Hsp.
  pose proof (rec_at_range _ _ _ _ _ _ _ Hr) as [Hp0 _].
  pose proof Hr as (R1 & R2 & R3 & R4 & R5).
  unfold create_rec. rewrite R2. cbn [obind]. rewrite R3. cbn [obind]. fold real.
  destruct (set_len_ok buf p d real Hat) as (b1 & H1 & L1 & Hat1 & Hf1); [lia|].
  rewrite H1. cbn [obind]. unfold u8. rewrite (Z.mod_small (zlen name)) by lia.
  rewrite take_ge by (unfold zlen; lia).
  destruct (write_rec_ok b1 (p + real) ino (d_len d - real) (zlen name) ft name)
    as (b2 & H2 & L2 & Hrec & Hf & Hfz); [lia..|].
  rewrite H2. cbn [obind]. exists b2. split; [done|]. split; [lia|]. apply Hback.
  { intros q n Hq. rewrite Hf, Hf1 by lia. done. }
  cbn [dents_at d_len set_d_len]. unfold dent_at. split_and!.
  - apply (rec_at_frame b1); [|apply Hat1].
    cbn [d_name set_d_len]. intros q n ? ?; apply Hf; lia.
  - apply Hat1.
  - revert Hrec. unfold u32, u16, u8. rewrite !Z.mod_small by lia. done.
  - unfold dent_ok. cbn [d_name d_len d_ino]. split_and!; [lia.. |]. right. intros ->. change (zlen []) with 0 in Hn. lia.
  - unfold EXT4_DE_TAIL_SIZE. lia.
  - replace (p + real + (d_len d - real)) with (p + d_len d) by lia. unfold tail_at.
    rewrite <- Htail, <- Hf1 by lia.
    destruct (decide (p + d_len d = p + real + 8 + zlen name)) as [E|E].
    + apply Hfz; [|lia]. rewrite <- E, Hf1 by lia. by apply tail_at_spec.
    + apply Hf. lia.
Qed.

(** [dentry_has_enough_space]. *)
Lemma has_enough_space_ok buf p d n : dent_at buf p d → 0 ≤ n ≤ 255 →
  rec_has_enough_space buf p n =
    Ok (if DE_REAL_REC_LEN (zlen (d_name d)) + DE_CALC_REC_LEN n <=? d_len d then 0 else - ENOSPC).
Proof.
  intros [(_ & R2 & R3 & _) (Hnl & Hdl & _)] Hn. pose proof (zlen_nonneg (d_name d)).
  destruct (real_len n Hn) as (_ & Hrn & _).
  destruct (real_len (zlen (d_name d))) as (E & Hrd & _); [lia|].
  unfold rec_has_enough_space. rewrite R2. cbn [obind]. rewrite R3. cbn [obind].
  unfold u16. rewrite !Z.mod_small by lia.
  destruct (Z.ltb_spec (d_len d - DE_REAL_REC_LEN (zlen (d_name d))) (DE_CALC_REC_LEN n)),
    (Z.leb_spec (DE_REAL_REC_LEN (zlen (d_name d)) + DE_CALC_REC_LEN n) (d_len d)); (done || lia).
Qed.

Lemma dents_at_end B buf p ds : dents_at B buf p ds → p + dents_len ds = B - EXT4_DE_TAIL_SIZE.
Proof.
  revert p. induction ds as [|d ds IH]; intros p.
  - intros [-> _]. change (dents_len []) with 0. lia.
  - intros [_ H]. apply IH in H. rewrite dents_len_cons. lia.
Qed.

Lemma dents_at_frame B buf buf' p ds :
  (∀ q n, p ≤ q → buf_read buf' q n = buf_read buf q n) →
  dents_at B buf p ds → dents_at B buf' p ds.
Proof.
  revert p. induction ds as [|d ds IH]; intros p Hf; cbn.
  - intros [-> Ht]. split; [done|]. unfold tail_at. by rewrite Hf by lia.
  - intros [[Hr Hd] H]. pose proof (dent_len d Hd). pose proof (zlen_nonneg (d_name d)).
    split; [split; [|done]|].
    + eapply rec_at_frame; [|done]. intros q n ? ?. apply Hf. lia.
    + apply IH; [|done]. intros q n ?. apply Hf. lia.
Qed.

(** [dentry_delete]: the record before takes the space. *)
Lemma merge_rec_ok B buf ds1 a b ds2 :
  zlen buf = B → B ≤ 2 ^ 16 → dents_at B buf 0 (ds1 ++ a :: b :: ds2) →
  ∃ buf', merge_rec buf (dents_len ds1) (dents_len ds1 + d_len a) = Ok buf' ∧ zlen buf' = B ∧
    dents_at B buf' 0 (ds1 ++ set_d_len (d_len a + d_len b) a :: ds2).
Proof.
  intros HB HB' Hds. set (p := dents_len ds1).
  destruct (dents_at_app _ _ _ _ _ Hds) as [[Ha [Hb Hrest]] Hback].
  rewrite Z.add_0_l in *. fold p in Ha, Hb, Hrest, Hback.
  pose proof (dents_at_end _ _ _ _ Hrest) as Hend.
  pose proof (dents_at_count _ _ _ _ Hrest) as Hl. pose proof (zlen_nonneg ds2). unfold EXT4_DE_TAIL_SIZE in Hend.
  pose proof Ha as [(_ & A2 & _) Hda]. pose proof Hb as [(_ & B2 & _) Hdb].
  pose proof (dent_len _ Hdb). pose proof (zlen_nonneg (d_name b)). pose proof Hda as (_ & ? & _).
  pose proof (rec_at_range _ _ _ _ _ _ _ (proj1 Ha)) as [Hp0 _].
  unfold merge_rec. rewrite A2. cbn [obind]. rewrite B2. cbn [obind].
  destruct (set_len_ok buf p a (d_len a + d_len b) Ha) as (b1 & Hst & L1 & Ha1 & Hf1); [lia|].
  exists b1. split; [done|]. split; [lia|]. apply Hback; [intros q n ?; apply Hf1; lia|].
  split; [done|]. cbn [d_len set_d_len]. rewrite Z.add_assoc.
  eapply dents_at_frame; [|done]. intros q n ?. apply Hf1.
  pose proof (dent_len _ Hda). pose proof (zlen_nonneg (d_name a)). lia.
Qed.

(** [dentry_init]: a directory with its two entries. *)
Definition dot_entries (B parent_idx inode_idx : Z) : list dent :=
  [mk_dent inode_idx EXT4_DE_DOT_SIZE EXT4_FT_DIR (cstr ".");
   mk_dent parent_idx (B - EXT4_DE_DOT_SIZE - EXT4_DE_TAIL_SIZE) EXT4_FT_DIR (cstr "..")].

Lemma init_dir_ok sb buf parent_idx inode_idx :
  let B := EXT4_BLOCK_SIZE sb in
  zlen buf = B → 1024 ≤ B ≤ 2 ^ 16 → 0 ≤ inode_idx < 2 ^ 32 → 0 ≤ parent_idx < 2 ^ 32 →
  ∃ buf', init_dir sb buf parent_idx inode_idx = Ok buf' ∧ zlen buf' = B ∧
    dents_at B buf' 0 (dot_entries B parent_idx inode_idx).
Proof.
  intros B HL HB Hi Hp. unfold init_dir, write_tail. fold B. clearbody B. unfold EXT4_DE_DOT_SIZE.
  change (EXT4_DE_TAIL_SIZE) with 12.
  destruct (buf_write_is_Ok buf (B - 12) (bytes_of new_tail)) as (b0 & H0 & L0);
    [lia | change (zlen (bytes_of new_tail)) with 12; lia|].
  rewrite H0. cbn [obind].
  destruct (write_rec_ok b0 0 inode_idx 12 1 EXT4_FT_DIR (cstr ".")) as (b1 & -> & L1 & R1 & F1 & _);
    [lia | change (zlen (cstr ".")) with 1; lia|].
  cbn [obind]. change (zlen (cstr ".")) with 1 in *.
  destruct (write_rec_ok b1 12 parent_idx (B - 12 - 12) 2 EXT4_FT_DIR (cstr ".."))
    as (b2 & -> & L2 & R2 & F2 & _); [lia | change (zlen (cstr "..")) with 2; lia|].
  change (zlen (cstr "..")) with 2 in *. exists b2. split; [done|]. split; [lia|].
  unfold dot_entries, dent_at, EXT4_DE_DOT_SIZE. cbn [dents_at dent_at d_len].
  change EXT4_DE_TAIL_SIZE with 12. unfold dent_at, dent_ok. cbn [d_len d_ino d_type d_name].
  split; [split|split; [split|split]].
  - revert R1. unfold u32. rewrite (Z.mod_small inode_idx) by lia. apply rec_at_frame.
    intros q n ? Hq. change (zlen (cstr ".")) with 1 in Hq. apply F2. lia.
  - change (zlen (cstr ".")) with 1. change (DE_REAL_REC_LEN 1) with 12. split_and!; [lia..|by right].
  - revert R2. unfold u32, u16. rewrite !Z.mod_small by lia. done.
  - change (zlen (cstr "..")) with 2. change (DE_REAL_REC_LEN 2) with 12. split_and!; [lia..|by right].
  - lia.
  - replace (0 + 12 + (B - 12 - 12)) with (B - 12) by lia. unfold tail_at.
    rewrite F2, F1 by lia. apply buf_read_write_same in H0.
    change (zlen (bytes_of new_tail)) with 12 in H0.
    pose proof (buf_read_part _ _ _ _ 0 8 H0) as H8. rewrite Z.add_0_r in H8. apply H8; lia.
Qed.

(** ** Searching a directory of one block *)

(** The inode in slot [i] has one block of data, which is in the dcache and
    holds the entries [ds]. *)
Definition dir_block (s : fs) (i : inode_slot) (ds : list dent) : Prop :=
  let B := EXT4_BLOCK_SIZE (fs_sb s) in
  0 < B ≤ 2 ^ 16 ∧
  (∃ e, arr_get (icache_entries (fs_icache s)) i = Ok e ∧ EXT4_INODE_GET_SIZE (ic_inode e) = B) ∧
  dc_lblock (fs_dcache s) = 0 ∧ zlen (dc_buf (fs_dcache s)) = B ∧
  dents_at B (dc_buf (fs_dcache s)) 0 ds.

Lemma rec_name_eq_ok buf p name s :
  buf_read buf p (zlen name) = Ok name → zlen s = zlen name →
  rec_name_eq buf p s = Ok (bool_decide (name = s)).
Proof.
  revert p s. induction name as [|c name IH]; intros p s Hr Hl.
  - destruct s; [done|]. unfold zlen in Hl. cbn in Hl. lia.
  - destruct s as [|c' s]; [unfold zlen in Hl; cbn in Hl; lia|]. rewrite !zlen_cons in *.
    pose proof (zlen_nonneg name). pose proof Hr as (H1 & H2 & H3 & H4)%buf_read_inv.
    cbn [rec_name_eq]. assert (arr_get buf p = Ok c) as ->.
    { apply arr_get_Ok; [done|]. apply (f_equal (.!! 0%nat)) in H4.
      rewrite lookup_take_lt, lookup_drop, Nat.add_0_r in H4 by lia. by rewrite <- H4. }
    cbn [obind]. destruct (Z.eqb_spec c c') as [->|Hne].
    + pose proof (buf_read_part _ _ _ _ 1 (zlen name) Hr) as Hr1.
      replace (take (Z.to_nat (zlen name)) (drop (Z.to_nat 1) (c' :: name))) with name in Hr1.
      2:{ change (drop (Z.to_nat 1) (c' :: name)) with name.
          unfold zlen. by rewrite Nat2Z.id, firstn_all. }
      rewrite (IH (p + 1) s) by (apply Hr1 || idtac; lia).
      f_equal. apply bool_decide_ext. split; [by intros -> | by intros [= ->]].
    + rewrite bool_decide_false; [done | congruence].
Qed.

Section find.
Context (s : fs) (i : inode_slot) (inode_idx : Z) (ds0 : list dent) (Hdir : dir_block s i ds0).
Local Abbreviation B := (EXT4_BLOCK_SIZE (fs_sb s)).
Local Abbreviation buf := (dc_buf (fs_dcache s)).

Lemma dentry_next_here p : 0 ≤ p < B → dentry_next i inode_idx p s = Ok (Some p, s).
Proof.
  intros Hp. destruct Hdir as (HB & (e & He & Hsz) & Hlb & _).
  unfold dentry_next. cbn [dentry_next_rec]. unfold get_inode, get_entry.
  unfold sbind, gets, ret, massert, lift. rewrite He. cbn [obind]. rewrite Hsz.
  rewrite (proj2 (Z.leb_le p B)) by lia. cbn [ASSERT].
  destruct (Z.eqb_spec B p); [lia|]. rewrite Z.div_small, Z.mod_small, Hlb by lia. done.
Qed.

Lemma with_buf_run {A} (f : list Z → outcome A) a : f buf = Ok a → with_buf f s = Ok (a, s).
Proof. intros H. unfold with_buf, sbind, gets, lift. by rewrite H. Qed.

Lemma de_is_tail_dent p d : dent_at buf p d → de_is_tail p s = Ok (false, s).
Proof.
  intros [(R1 & R2 & R3 & R4 & R5) (_ & _ & Hnt)]. unfold de_is_tail.
  erewrite M_bind_Ok by (by apply with_buf_run). destruct (Z.eqb_spec (d_ino d) 0) as [E|]; [|done].
  erewrite M_bind_Ok by (by apply with_buf_run).
  destruct (Z.eqb_spec (zlen (d_name d)) 0) as [En|]; [|done].
  destruct Hnt as [?|Hn]; [done|]. destruct Hn. destruct (d_name d); [done|].
  unfold zlen in En. cbn in En. lia.
Qed.

Lemma de_is_tail_tail p : tail_at buf p → de_is_tail p s = Ok (true, s).
Proof.
  intros (R1 & R3 & R4 & _)%tail_at_spec. unfold de_is_tail.
  erewrite M_bind_Ok by (by apply with_buf_run). cbn [Z.eqb].
  erewrite M_bind_Ok by (by apply with_buf_run). cbn [Z.eqb].
  by erewrite M_bind_Ok by (by apply with_buf_run).
Qed.

(** One record of the loop that is not a tail. *)
Lemma find_loop_step fuel name before p d :
  dent_at buf p d → 0 ≤ p → p + d_len d < B →
  dentry_find_loop (S fuel) i inode_idx name before p s =
    if bool_decide (d_name d = default [] name) then Ok ((Some p, before), s)
    else dentry_find_loop fuel i inode_idx name (Some p) (p + d_len d) s.
Proof.
  intros Hd Hp HB. pose proof Hd as [(R1 & R2 & R3 & R4 & R5) Hok].
  pose proof (dent_len _ Hok). pose proof (zlen_nonneg (d_name d)). destruct Hdir as (HB' & _).
  cbn [dentry_find_loop]. erewrite M_bind_Ok by (apply dentry_next_here; lia). cbn match.
  erewrite M_bind_Ok by (by eapply de_is_tail_dent). cbn match.
  erewrite M_bind_Ok by (by apply with_buf_run).
  erewrite M_bind_Ok by (by apply with_buf_run).
  unfold u64. rewrite Z.mod_small by lia.
  destruct (Z.eqb_spec (zlen (default [] name)) (zlen (d_name d))) as [El|El].
  - erewrite M_bind_Ok by (apply with_buf_run; by apply rec_name_eq_ok). by case_bool_decide.
  - cbn [sbind]. unfold sbind at 1, ret at 1. rewrite bool_decide_false; [done|].
    intros E. by rewrite E in El.
Qed.

Lemma find_loop_ok name fuel before p ds : dents_at B buf p ds → 0 ≤ p → zlen ds < Z.of_nat fuel →
  dentry_find_loop fuel i inode_idx (Some name) before p s = Ok (find_in ds name p before, s).
Proof.
  revert fuel before p. induction ds as [|d ds IH]; intros fuel before p Hds Hp Hfuel;
    destruct fuel as [|fuel]; try (unfold zlen in Hfuel; cbn in Hfuel; lia).
  - destruct Hds as [-> Ht]. unfold EXT4_DE_TAIL_SIZE in *. cbn [dentry_find_loop].
    erewrite M_bind_Ok by (apply dentry_next_here; lia). cbn match.
    by erewrite M_bind_Ok by (by apply de_is_tail_tail).
  - pose proof (dents_at_end _ _ _ _ Hds) as Hend. pose proof (dents_at_count _ _ _ _ Hds) as Hl.
    destruct Hds as [Hd Hds]. pose proof (dents_at_count _ _ _ _ Hds) as Hl'.
    rewrite dents_len_cons, zlen_cons in *.
    unfold EXT4_DE_TAIL_SIZE in Hend. pose proof (zlen_nonneg ds).
    rewrite (find_loop_step fuel (Some name) before p d) by (done || lia).
    change (default [] (Some name)) with name. cbn [find_in].
    case_bool_decide; [done|]. pose proof (dent_len _ (proj2 Hd)). pose proof (zlen_nonneg (d_name d)).
    apply IH; [done | lia..].
Qed.
End find.

(** ** The abstract search *)

Lemma last_in_app ds d p before : last_in (ds ++ [d]) p before = Some (p + dents_len ds).
Proof.
  revert p before. induction ds as [|d' ds IH]; intros p before.
  - cbn. change (dents_len []) with 0. f_equal. lia.
  - cbn [app last_in]. rewrite IH, dents_len_cons. f_equal. lia.
Qed.

Lemma find_in_Some ds1 d ds2 p before : d_name d ∉ map d_name ds1 →
  find_in (ds1 ++ d :: ds2) (d_name d) p before = (Some (p + dents_len ds1), last_in ds1 p before).
Proof.
  revert p before. induction ds1 as [|d' ds1 IH]; intros p before Hn; cbn in *.
  - rewrite bool_decide_true by done. change (dents_len []) with 0. do 2 f_equal. lia.
  - rewrite not_elem_of_cons in Hn. destruct Hn as [Hne Hn].
    rewrite bool_decide_false by congruence. rewrite IH by done. rewrite dents_len_cons.
    do 2 f_equal. lia.
Qed.

Lemma find_in_None ds name p before : name ∉ map d_name ds → find_in ds name p before = (None, None).
Proof.
  revert p before. induction ds as [|d ds IH]; intros p before Hn; [done|]. cbn in *.
  rewrite not_elem_of_cons in Hn. destruct Hn. rewrite bool_decide_false by congruence. by apply IH.
Qed.

Lemma names_split ds name :
  name ∉ map d_name ds ∨
  ∃ ds1 d ds2, ds = ds1 ++ d :: ds2 ∧ d_name d = name ∧ name ∉ map d_name ds1.
Proof.
  induction ds as [|d ds IH]; [left; apply not_elem_of_nil|].
  destruct (decide (d_name d = name)) as [E|E].
  - right. exists [], d, ds. split_and!; [done..|apply not_elem_of_nil].
  - destruct IH as [Hn|(ds1 & d' & ds2 & -> & Hn & Hnot)].
    + left. cbn. rewrite not_elem_of_cons. split; [congruence | done].
    + right. exists (d :: ds1), d', ds2. split_and!; [done..|]. cbn.
      rewrite not_elem_of_cons. split; [congruence | done].
Qed.

(** The slot the LRU counter of which [dcache_init] bumps keeps its inode. *)
Lemma ICACHE_LRU_INC_run s i e : arr_get (icache_entries (fs_icache s)) i = Ok e →
  ∃ s', ICACHE_LRU_INC i s = Ok (tt, s') ∧ fs_sb s' = fs_sb s ∧ fs_dcache s' = fs_dcache s ∧
    fs_disk s' = fs_disk s ∧
    ∃ e', arr_get (icache_entries (fs_icache s')) i = Ok e' ∧ ic_inode e' = ic_inode e ∧
      ic_last_de e' = ic_last_de e.
Proof.
  intros He. pose proof (arr_get_inv _ _ _ He) as [Hr _].
  unfold ICACHE_LRU_INC, get_entry, set_entry, sbind. rewrite He. cbn [obind].
  destruct (ic_lru_count e <? UINT32_MAX).
  - rewrite arr_set_Ok by done. cbn [obind]. eexists; split_and!; [done..|].
    eexists. split.
    + cbn. eapply arr_get_set_same. by apply arr_set_Ok.
    + done.
  - exists s. split_and!; try done. by exists e.
Qed.

Lemma ICACHE_SET_LAST_DE_run s i e de : arr_get (icache_entries (fs_icache s)) i = Ok e →
  ∃ s', ICACHE_SET_LAST_DE i de s = Ok (tt, s') ∧ fs_sb s' = fs_sb s ∧ fs_dcache s' = fs_dcache s ∧
    fs_disk s' = fs_disk s ∧
    ∃ e', arr_get (icache_entries (fs_icache s')) i = Ok e' ∧ ic_inode e' = ic_inode e ∧
      ic_last_de e' = de.
Proof.
  intros He. pose proof (arr_get_inv _ _ _ He) as [Hr _].
  unfold ICACHE_SET_LAST_DE, get_entry, set_entry, sbind. rewrite He. cbn [obind].
  rewrite arr_set_Ok by done. cbn [obind]. eexists. split_and!; [done..|]. eexists. split.
  - cbn. eapply arr_get_set_same. by apply arr_set_Ok.
  - done.
Qed.

(** The directory is loaded for inode [inode_idx]. *)
Definition dir_loaded (s : fs) (i : inode_slot) (inode_idx : Z) (ds : list dent) : Prop :=
  inode_idx ≠ 0 ∧ dc_inode_idx (fs_dcache s) = inode_idx ∧ dir_block s i ds.

Lemma dir_loaded_same s s' i inode_idx ds e e' :
  dir_loaded s i inode_idx ds → fs_sb s' = fs_sb s → fs_dcache s' = fs_dcache s →
  arr_get (icache_entries (fs_icache s)) i = Ok e →
  arr_get (icache_entries (fs_icache s')) i = Ok e' → ic_inode e' = ic_inode e →
  dir_loaded s' i inode_idx ds.
Proof.
  intros (H0 & Hidx & HB & (e0 & He0 & Hsz) & Hrest) Hsb Hdc He He' Hi. unfold dir_loaded, dir_block.
  rewrite Hsb, Hdc. split_and!; try apply Hrest; try done; try lia. exists e'. split; [done|].
  rewrite He in He0. injection He0 as <-. by rewrite Hi.
Qed.

Lemma dcache_init_loaded s i inode_idx ds : dir_loaded s i inode_idx ds →
  ∃ s', dcache_init i inode_idx s = Ok (tt, s') ∧ dir_loaded s' i inode_idx ds ∧
    fs_dcache s' = fs_dcache s ∧ fs_disk s' = fs_disk s.
Proof.
  intros Hl. pose proof Hl as (H0 & Hidx & HB & (e & He & Hsz) & Hlb & _).
  destruct (ICACHE_LRU_INC_run s i e He) as (s' & Hs & Hsb & Hdc & Hdk & e' & He' & Hino & _).
  exists s'. unfold dcache_init. destruct (Z.eqb_spec inode_idx 0); [done|]. cbn [negb].
  unfold massert, lift, ASSERT. unfold sbind at 1. erewrite M_bind_Ok by exact Hs.
  unfold sbind, gets. rewrite Hdc, Hidx, Z.eqb_refl, Hlb. cbn [andb Z.eqb].
  split; [done|]. split; [|done]. by eapply dir_loaded_same.
Qed.

Lemma dentry_find_run s i inode_idx ds name : dir_loaded s i inode_idx ds →
  ∃ s', dir_loaded s' i inode_idx ds ∧ fs_dcache s' = fs_dcache s ∧ fs_disk s' = fs_disk s ∧
    dentry_find i inode_idx (Some name) s = Ok (find_in ds name 0 None, s').
Proof.
  intros Hl. destruct (dcache_init_loaded s i inode_idx ds Hl) as (s' & Hi & Hl' & Hdc & Hdk).
  exists s'. split_and!; [done..|]. pose proof Hl' as (_ & _ & Hdir).
  pose proof Hdir as (HB & (e & He & Hsz) & _ & _ & Hds).
  unfold dentry_find. erewrite M_bind_Ok by exact Hi.
  erewrite M_bind_Ok by (by apply get_inode_run). rewrite Hsz.
  apply find_loop_ok with (ds0 := ds); [done..|].
  pose proof (dents_at_end _ _ _ _ Hds) as Hend. pose proof (dents_at_count _ _ _ _ Hds).
  unfold EXT4_DE_TAIL_SIZE in Hend. lia.
Qed.

(** ** Properties *)

(** A file system with 1024-byte blocks: a directory, inode 2, is in slot 0 of
    the icache and its block in the dcache. *)
Definition test_dir_buf : list Z :=
  Eval vm_compute in
  match init_dir test_sb0 (replicate 1024 7) 2 2 with Ok b => b | Fault _ => [] end.

Definition test_dir_inode : ext4_inode :=
  Eval vm_compute in EXT4_INODE_SET_SIZE 1024 zero_inode.

Definition test_dir_fs : fs :=
  mk_fs test_disk test_sb0 [] (mk_bitmap [] 0) (mk_bitmap [] 0) (mk_dcache 2 0 5 test_dir_buf)
    (mk_icache [mk_icache_entry test_dir_inode 2 0 ICACHE_S_VALID None] 1)
    (decache_init_root 2) 0 None 0.

Lemma test_dir_loaded : dir_loaded test_dir_fs 0 2 (dot_entries 1024 2 2).
Proof.
  assert (EXT4_BLOCK_SIZE test_sb0 = 1024) as HB by (vm_compute; reflexivity).
  destruct (init_dir_ok test_sb0 (replicate 1024 7) 2 2) as (b & Hb & Hl & Hd);
    rewrite ?HB in *; [vm_compute; reflexivity | lia..|].
  assert (init_dir test_sb0 (replicate 1024 7) 2 2 = Ok test_dir_buf) as Hb'
    by (vm_compute; reflexivity).
  rewrite Hb' in Hb. injection Hb as <-.
  split; [done|]. split; [done|]. unfold dir_block. cbn [fs_sb fs_dcache fs_icache test_dir_fs].
  rewrite HB. split; [lia|]. split; [|done].
  eexists; split; [done|]. vm_compute. reflexivity.
Qed.

(** C29: Looking up a name in a directory.  On a loaded directory of one block
    with the entries [ds], [dentry_find] returns the first entry with the
    name and the entry before it, or NULL when there is none; it always
    terminates and changes nothing but the use count of the inode. *)
Theorem dentry_find_spec (s : fs) (i : inode_slot) (inode_idx : Z) (ds : list dent) (name : list Z)
    (Hdir : dir_loaded s i inode_idx ds) :
  ∃ s', dir_loaded s' i inode_idx ds ∧ fs_dcache s' = fs_dcache s ∧ fs_disk s' = fs_disk s ∧
    (((name ∉ map d_name ds) ∧
      dentry_find i inode_idx (Some name) s = Ok ((None, None), s')) ∨
     (∃ ds1 d ds2, ds = ds1 ++ d :: ds2 ∧ d_name d = name ∧ (name ∉ map d_name ds1) ∧
      dentry_find i inode_idx (Some name) s =
        Ok ((Some (dents_len ds1), last_in ds1 0 None), s'))).
Proof.
  destruct (dentry_find_run s i inode_idx ds name Hdir) as (s' & Hl & Hdc & Hdk & Hr).
  exists s'. split_and!; [done..|].
  destruct (names_split ds name) as [Hn|(ds1 & d & ds2 & -> & <- & Hn)].
  - left. rewrite find_in_None in Hr by done. done.
  - right. rewrite find_in_Some in Hr by done. by exists ds1, d, ds2.
Qed.

Lemma dentry_find_spec_witness :
  ∃ s', dir_loaded s' 0 2 (dot_entries 1024 2 2) ∧ fs_dcache s' = fs_dcache test_dir_fs.
Proof.
  destruct (dentry_find_spec test_dir_fs 0 2 (dot_entries 1024 2 2) (cstr "..") test_dir_loaded)
    as (s' & ? & ? & _). by exists s'.
Defined.

(** C28: Adding an entry.  On a loaded directory of one block, at its last
    entry [d]: [dentry_has_enough_space] returns 0 exactly when the name fits
    between the real length of [d] and the end of its record; then
    [dentry_create] appends the entry, cuts [d] to its real length, and leaves
    every other entry and the tail as they were. *)
Theorem dentry_create_spec (s : fs) (i : inode_slot) (inode_idx ino ft : Z) (ds : list dent)
    (d : dent) (name : list Z) (Hdir : dir_loaded s i inode_idx (ds ++ [d]))
    (Hn : 0 < zlen name ≤ 255) (Hino : 0 ≤ ino < 2 ^ 32) (Hft : 0 ≤ ft < 2 ^ 8) :
  let real := DE_REAL_REC_LEN (zlen (d_name d)) in
  if real + DE_CALC_REC_LEN (zlen name) <=? d_len d then
    dentry_has_enough_space (dents_len ds) (zlen name) s = Ok (0, s) ∧
    ∃ s', dentry_create (dents_len ds) name ino ft s = Ok (dents_len ds + real, s') ∧
      dir_loaded s' i inode_idx (ds ++ [set_d_len real d; mk_dent ino (d_len d - real) ft name]) ∧
      fs_disk s' = fs_disk s ∧ fs_icache s' = fs_icache s
  else dentry_has_enough_space (dents_len ds) (zlen name) s = Ok (- ENOSPC, s).
Proof.
  destruct Hdir as (H0 & Hidx & HB & Hino' & Hlb & Hlen & Hds).
  pose proof (proj1 (dents_at_app _ _ _ _ _ Hds)) as [Hat _]. rewrite Z.add_0_l in Hat.
  assert (dentry_has_enough_space (dents_len ds) (zlen name) s =
    Ok (if DE_REAL_REC_LEN (zlen (d_name d)) + DE_CALC_REC_LEN (zlen name) <=? d_len d
        then 0 else - ENOSPC, s)) as Hsp.
  { apply with_buf_run, has_enough_space_ok; [done | lia]. }
  intros real. fold real in Hsp.
  destruct (Z.leb_spec (real + DE_CALC_REC_LEN (zlen name)) (d_len d)) as [Hfit|]; [|done].
  split; [done|].
  destruct (create_rec_ok _ _ ds d name ino ft Hlen Hds Hn Hino Hft Hfit) as (buf' & Hc & Hl & Hds').
  eexists. split.
  - unfold dentry_create. erewrite M_bind_Ok by (by apply with_buf_run). cbv beta iota.
    unfold set_dc_buf, sbind, modify, ret. done.
  - split_and!; try done.
Qed.

Lemma dentry_create_spec_witness :
  dentry_has_enough_space 12 1 test_dir_fs = Ok (0, test_dir_fs) ∧
  ∃ s', dentry_create 12 (cstr "a") 11 EXT4_FT_REG_FILE test_dir_fs = Ok (24, s').
Proof.
  destruct (dentry_create_spec test_dir_fs 0 2 11 EXT4_FT_REG_FILE
    [mk_dent 2 12 EXT4_FT_DIR (cstr ".")] (mk_dent 2 1000 EXT4_FT_DIR (cstr "..")) (cstr "a"))
    as (Hs & s' & Hc & _);
    [exact test_dir_loaded | vm_compute; split; [reflexivity | discriminate] | lia |
     vm_compute; split; [discriminate | reflexivity] |].
  split; [exact Hs|]. exists s'. exact Hc.
Defined.

(** C30: Removing an entry.  On a loaded directory of one block in which [b],
    not the first entry, is the first one with its name, [dentry_delete]
    removes exactly [b]: the entry before it takes over its space, all others
    stay, and the cached last entry does not point to the removed record. *)
Theorem dentry_delete_spec (s : fs) (i : inode_slot) (inode_idx : Z) (ds1 ds2 : list dent)
    (a b : dent) (Hdir : dir_loaded s i inode_idx (ds1 ++ a :: b :: ds2))
    (Hn : d_name b ∉ map d_name (ds1 ++ [a])) :
  ∃ s' e', dentry_delete i inode_idx (d_name b) s = Ok (tt, s') ∧
    dir_loaded s' i inode_idx (ds1 ++ set_d_len (d_len a + d_len b) a :: ds2) ∧
    fs_disk s' = fs_disk s ∧
    arr_get (icache_entries (fs_icache s')) i = Ok e' ∧
    ic_last_de e' ≠ Some (dents_len ds1 + d_len a).
Proof.
  destruct (dcache_init_loaded _ _ _ _ Hdir) as (s1 & Hi & Hl1 & _ & Hdk1).
  destruct (dentry_find_run s1 i inode_idx _ (d_name b) Hl1) as (s2 & Hl2 & _ & Hdk2 & Hf).
  replace (ds1 ++ a :: b :: ds2) with ((ds1 ++ [a]) ++ b :: ds2) in Hf by (by rewrite <- app_assoc).
  rewrite find_in_Some, last_in_app in Hf by done. rewrite !Z.add_0_l in Hf.
  unfold dentry_delete. erewrite M_bind_Ok by exact Hi. erewrite M_bind_Ok by exact Hf.
  cbv beta iota. unfold sbind at 1, lift, deref.
  destruct Hl2 as (H0 & Hidx & HB & (e & He & Hsz) & Hlb & Hlen & Hds).
  destruct (merge_rec_ok _ _ ds1 a b ds2 Hlen (proj2 HB) Hds) as (buf' & Hm & Hl' & Hds').
  set (s3 := set_fs_dcache (mk_dcache (dc_inode_idx (fs_dcache s2)) (dc_lblock (fs_dcache s2))
    (dc_pblock (fs_dcache s2)) buf') s2).
  rewrite dents_len_app, dents_len_cons, Z.add_0_r.
  erewrite (M_bind_Ok (upd_buf _) _ _ tt s3).
  2:{ unfold upd_buf. by erewrite M_bind_Ok by (by apply with_buf_run). }
  assert (dir_loaded s3 i inode_idx (ds1 ++ set_d_len (d_len a + d_len b) a :: ds2)) as Hl3.
  { unfold dir_loaded, dir_block. cbn. split_and!; try done; try lia. by exists e. }
  erewrite (M_bind_Ok (ICACHE_GET_LAST_DE i) _ _ (ic_last_de e) s3).
  2:{ unfold ICACHE_GET_LAST_DE, get_entry, sbind, ret. cbn. by rewrite He. }
  case_bool_decide as Hlast.
  - destruct (ICACHE_SET_LAST_DE_run s3 i e (Some (dents_len ds1)) He)
      as (s4 & -> & Hsb & Hdc & Hdk & e' & He' & Hino & Hde).
    exists s4, e'. split; [done|]. split; [by eapply dir_loaded_same|].
    split; [by rewrite Hdk; cbn; rewrite Hdk2|]. split; [done|]. rewrite Hde.
    pose proof (proj1 (dents_at_app _ _ _ _ _ Hds)) as [[_ Hoka] _]. pose proof (dent_len _ Hoka).
    pose proof (zlen_nonneg (d_name a)). intros [= E]. lia.
  - exists s3, e. split_and!; try done. cbn. by rewrite Hdk2.
Qed.

Lemma dentry_delete_spec_witness :
  ∃ s', dentry_delete 0 2 (cstr "..") test_dir_fs = Ok (tt, s') ∧
    dir_loaded s' 0 2 [mk_dent 2 1012 EXT4_FT_DIR (cstr ".")].
Proof.
  destruct (dentry_delete_spec test_dir_fs 0 2 [] []
    (mk_dent 2 12 EXT4_FT_DIR (cstr ".")) (mk_dent 2 1000 EXT4_FT_DIR (cstr "..")))
    as (s' & e' & H & Hl & _); [exact test_dir_loaded | |].
  - cbn. rewrite list_elem_of_singleton. done.
  - exists s'. split; [exact H | exact Hl].
Defined.

(** A new directory.  [dentry_init] makes the buffer, whatever it held, a
    block with exactly the entries "." (the directory) and ".." (its parent)
    and the tail.  The number of the physical block stays the one of the
    block loaded before. *)
Lemma dentry_init_spec (s : fs) (parent_idx inode_idx : Z)
    (HB : 1024 ≤ EXT4_BLOCK_SIZE (fs_sb s) ≤ 2 ^ 16)
    (Hl : zlen (dc_buf (fs_dcache s)) = EXT4_BLOCK_SIZE (fs_sb s))
    (Hp : 0 ≤ parent_idx < 2 ^ 32) (Hi : 0 ≤ inode_idx < 2 ^ 32) :
  ∃ s' buf', dentry_init parent_idx inode_idx s = Ok (tt, s') ∧
    fs_dcache s' = mk_dcache inode_idx 0 (dc_pblock (fs_dcache s)) buf' ∧
    dents_at (EXT4_BLOCK_SIZE (fs_sb s)) buf' 0
      (dot_entries (EXT4_BLOCK_SIZE (fs_sb s)) parent_idx inode_idx).
Proof.
  destruct (init_dir_ok (fs_sb s) (dc_buf (fs_dcache s)) parent_idx inode_idx)
    as (buf' & Hb & _ & Hd); [done..|].
  unfold dentry_init, upd_buf, with_buf, set_dc_buf, sbind, modify, gets, lift. cbn.
  rewrite Hb. by eexists _, buf'.
Qed.
