(* ===== verification/Dir.v ===== *)
(** * Directories in the caches

    The operations on a directory of one block whose inode is in the icache
    and whose block is in the dcache, as the operations on names use them:
    finding the last entry, adding an entry and writing the block back.  The
    definitions of the code are those of [Cache.v] and [Dentry.v]. *)

From S2P Require Import Prelude Ext4 Disk Bitmap InodeMap Decache Fs Cache Dentry.
From stdpp Require Import base numbers list gmap.
From Stdlib Require Import ZArith Lia.

Open Scope Z_scope.
Open Scope kfs_scope.

(** Entry [k] of the icache is for the directory [p], the dcache holds its
    block with the entries [ds], and the block is data of the image. *)
Record dir_cached (s : fs) (p : Z) (k : nat) (e : icache_entry) (ds : list dent) : Prop := mk_dir_cached {
  dd_cached : cached s p k e;
  dd_loaded : dir_loaded s (Z.of_nat k) p ds;
  dd_names : Forall (λ d, d_name d ≠ []) ds;
  dd_bytes : Forall byte_ok (dc_buf (fs_dcache s));
  dd_len : BLOCKS2BYTES (fs_sb s) (dc_pblock (fs_dcache s)) + EXT4_BLOCK_SIZE (fs_sb s) ≤ disk_len (fs_disk s);
  dd_max : BLOCKS2BYTES (fs_sb s) (dc_pblock (fs_dcache s)) < 2 ^ 63;
  dd_data : outside_tables s (BLOCKS2BYTES (fs_sb s) (dc_pblock (fs_dcache s))) (EXT4_BLOCK_SIZE (fs_sb s))
}.

(** The cached last entry is the last one, if it is set. *)
Definition last_ok (e : icache_entry) (ds : list dent) : Prop :=
  ic_last_de e = None ∨ ic_last_de e = last_in ds 0 None.

(** The block of the dcache is on the disk as it is in the dcache. *)
Definition dir_flushed (s : fs) : Prop :=
  disk_read_block (fs_sb s) (fs_disk s) (dc_pblock (fs_dcache s)) = Ok (dc_buf (fs_dcache s)).

(** Everything but the icache and the inode tables, the dcache and its block. *)
Definition same_names (s s' : fs) : Prop :=
  fs_sb s' = fs_sb s ∧ fs_gdt s' = fs_gdt s ∧ fs_i_bitmap s' = fs_i_bitmap s ∧
  fs_d_bitmap s' = fs_d_bitmap s ∧ fs_decache s' = fs_decache s ∧
  fs_capable s' = fs_capable s ∧ fs_context s' = fs_context s ∧ fs_now s' = fs_now s ∧
  dc_inode_idx (fs_dcache s') = dc_inode_idx (fs_dcache s) ∧
  dc_lblock (fs_dcache s') = dc_lblock (fs_dcache s) ∧ dc_pblock (fs_dcache s') = dc_pblock (fs_dcache s) ∧
  ∀ a, outside_tables s a 1 →
    ¬ (BLOCKS2BYTES (fs_sb s) (dc_pblock (fs_dcache s)) ≤ a <
       BLOCKS2BYTES (fs_sb s) (dc_pblock (fs_dcache s)) + EXT4_BLOCK_SIZE (fs_sb s)) →
    disk_bytes (fs_disk s') !! a = disk_bytes (fs_disk s) !! a.

(** ** Bytes of a buffer *)

Create HintDb bytes_ok.

Lemma buf_write_bytes_ok buf off bs buf' : buf_write buf off bs = Ok buf' →
  Forall byte_ok buf → Forall byte_ok bs → Forall byte_ok buf'.
Proof.
  intros (_ & _ & ->)%buf_write_inv Hb Hbs. unfold splice. rewrite !Forall_app.
  split_and!; [by apply Forall_take | done | by apply Forall_drop].
Qed.

Lemma buf_store_bytes_ok n buf off v buf' : buf_store n buf off v = Ok buf' →
  Forall byte_ok buf → Forall byte_ok buf'.
Proof. intros H Hb. eapply buf_write_bytes_ok; [exact H | done | apply le_bytes_ok]. Qed.

#[export] Hint Resolve buf_store_bytes_ok : bytes_ok.

Lemma write_rec_bytes_ok buf p ino rl nl ft name buf' : write_rec buf p ino rl nl ft name = Ok buf' →
  Forall byte_ok buf → Forall byte_ok name → Forall byte_ok buf'.
Proof.
  unfold write_rec. intros H Hb Hn. do 5 (apply bind_Ok_inv in H as (? & ? & H)).
  eapply buf_write_bytes_ok; [exact H| |]; [|by repeat constructor].
  eapply buf_write_bytes_ok; eauto 6 with bytes_ok.
Qed.

Lemma create_rec_bytes_ok buf de name ino ft new_de buf' : create_rec buf de name ino ft = Ok (new_de, buf') →
  Forall byte_ok buf → Forall byte_ok name → Forall byte_ok buf'.
Proof.
  unfold create_rec. intros H Hb Hn. do 4 (apply bind_Ok_inv in H as (? & ? & H)). injection H as _ <-.
  eapply write_rec_bytes_ok; [eassumption | eauto with bytes_ok | by apply Forall_take].
Qed.

(** ** The last entry *)

Lemma find_last_loop s i inode_idx ds0 fuel before p ds : dir_block s i ds0 →
  dents_at (EXT4_BLOCK_SIZE (fs_sb s)) (dc_buf (fs_dcache s)) p ds → 0 ≤ p → zlen ds < Z.of_nat fuel →
  Forall (λ d, d_name d ≠ []) ds →
  dentry_find_loop fuel i inode_idx None before p s =
    (ICACHE_SET_LAST_DE i (last_in ds p before) ;;; ret (last_in ds p before, None)) s.
Proof.
  intros Hdir. revert fuel before p. induction ds as [|d ds IH]; intros fuel before p Hds Hp Hfuel Hn;
    destruct fuel as [|fuel]; try (unfold zlen in Hfuel; cbn in Hfuel; lia).
  - destruct Hds as [-> Ht]. unfold EXT4_DE_TAIL_SIZE in *. cbn [dentry_find_loop last_in].
    erewrite M_bind_Ok by (eapply dentry_next_here; [exact Hdir | lia]). cbn match.
    by erewrite M_bind_Ok by (by apply de_is_tail_tail).
  - pose proof (dents_at_end _ _ _ _ Hds) as Hend. destruct Hds as [Hd Hds].
    pose proof (dents_at_count _ _ _ _ Hds) as Hl'. rewrite dents_len_cons, zlen_cons in *.
    unfold EXT4_DE_TAIL_SIZE in Hend. pose proof (zlen_nonneg ds). apply Forall_cons in Hn as [Hn1 Hn].
    rewrite (find_loop_step s i inode_idx ds0 Hdir fuel None before p d) by (done || lia).
    cbn [default last_in]. rewrite bool_decide_false by done.
    pose proof (dent_len _ (proj2 Hd)). pose proof (zlen_nonneg (d_name d)). apply IH; (done || lia).
Qed.

Section directory.
Context (s : fs) (Hm : mounted s) (Hok : icache_ok s).
Context (p : Z) (k : nat) (e : icache_entry) (ds : list dent) (Hd : dir_cached s p k e ds).

Lemma dir_touched lru de : dir_cached (touched s k e lru de) p k (touch e lru de) ds.
Proof.
  pose proof Hd as [Hc Hl Hn Hb Hlen Hmax Hdata].
  destruct (touched_ok s p k e lru de Hm Hok Hc) as (_ & _ & _ & Hc' & _). split; try done.
  pose proof Hc as (He & _). pose proof Hc' as (He' & _).
  apply (dir_loaded_same s _ _ _ _ e (touch e lru de)); try done;
    apply arr_get_Ok; rewrite ?Nat2Z.id; done || lia.
Qed.

Lemma dir_get_inode : get_inode (Z.of_nat k) s = Ok (ic_inode e, s) ∧
  EXT4_INODE_GET_SIZE (ic_inode e) = EXT4_BLOCK_SIZE (fs_sb s).
Proof.
  pose proof Hd as [(He & _) (_ & _ & _ & (e0 & He0 & Hsz) & _) _ _ _ _ _].
  assert (arr_get (icache_entries (fs_icache s)) (Z.of_nat k) = Ok e) as He'
    by (apply arr_get_Ok; rewrite ?Nat2Z.id; done || lia).
  split; [by apply get_inode_run | congruence].
Qed.

Lemma dir_init_run : ∃ lru, dcache_init (Z.of_nat k) p s = Ok (tt, touched s k e lru (ic_last_de e)) ∧
  lru ≤ ic_lru_count e + 1.
Proof.
  pose proof Hd as [Hc (H0 & Hidx & _ & _ & Hlb & _) _ _ _ _ _].
  destruct (lru_inc_run s p k e Hok Hc) as (lru & Hinc & Hle). exists lru. split; [|done].
  unfold dcache_init. rewrite (proj2 (Z.eqb_neq _ _) H0). cbn [negb]. run. run Hinc. run.
  unfold gets. cbn [touched put_entry set_fs_icache fs_dcache]. rewrite Hidx, Hlb, Z.eqb_refl. done.
Qed.
End directory.

Lemma dentry_last_run s p k e ds : mounted s → icache_ok s → dir_cached s p k e ds → last_ok e ds →
  ∃ lru, dentry_last (Z.of_nat k) p s = Ok (last_in ds 0 None, touched s k e lru (last_in ds 0 None)) ∧
    lru ≤ ic_lru_count e + 2.
Proof.
  intros Hm Hok Hd Hlast. destruct (dir_init_run s Hok p k e ds Hd) as (lru & Hinit & Hle).
  pose proof (dir_touched s Hm Hok p k e ds Hd lru (ic_last_de e)) as Hd1.
  destruct (touched_ok s p k e lru (ic_last_de e) Hm Hok (dd_cached _ _ _ _ _ Hd)) as (Hm1 & Hok1 & _ & Hc1 & _).
  pose proof Hc1 as (He1 & _ & Hst & _). cbn [touch ic_status] in Hst.
  assert (ICACHE_CHECK_LAST_DE (Z.of_nat k) (touched s k e lru (ic_last_de e)) =
    Ok (match ic_last_de e with Some _ => true | None => false end, touched s k e lru (ic_last_de e))) as Hcheck.
  { unfold ICACHE_CHECK_LAST_DE, ICACHE_IS_VALID, ICACHE_GET_LAST_DE, sbind. rewrite (get_entry_run _ _ _ He1).
    cbn [obind ret touch ic_status]. rewrite (get_entry_run _ _ _ He1). cbn [obind ret touch ic_last_de].
    by rewrite (proj2 (Z.eqb_neq _ _) Hst). }
  destruct (ic_last_de e) as [de|] eqn:Hde.
  - exists lru. split; [|lia]. unfold dentry_last. run Hinit. run Hcheck. unfold ICACHE_GET_LAST_DE.
    run (get_entry_run _ _ _ He1). cbn [touch ic_last_de].
    destruct Hlast as [E|E]; rewrite Hde in E; [done | by rewrite <- E].
  - destruct (dir_init_run _ Hok1 p k _ ds Hd1) as (lru2 & Hinit2 & Hle2). cbn [touch ic_lru_count] in Hle2.
    exists lru2. split; [|lia]. unfold dentry_last, dentry_find. run Hinit. run Hcheck.
    rewrite touched_touched in Hinit2. cbn [touch ic_last_de] in Hinit2.
    pose proof (dir_touched s Hm Hok p k e ds Hd lru2 None) as Hd2.
    destruct (touched_ok s p k e lru2 None Hm Hok (dd_cached _ _ _ _ _ Hd)) as (Hm2 & Hok2 & _ & Hc2 & _).
    destruct (dir_get_inode _ p k _ ds Hd2) as [Hino Hsz]. set (s2 := touched s k e lru2 None) in *.
    pose proof Hd2 as [_ (_ & _ & Hblk) Hn _ _ _ _]. pose proof Hblk as (_ & _ & _ & _ & Hds).
    assert (dentry_find_loop (Z.to_nat (EXT4_INODE_GET_SIZE (ic_inode e) + 2)) (Z.of_nat k) p None None 0 s2 =
      Ok ((last_in ds 0 None, None), touched s k e lru2 (last_in ds 0 None))) as Hloop.
    { change (ic_inode e) with (ic_inode (touch e lru2 None)). rewrite Hsz.
      rewrite (find_last_loop s2 (Z.of_nat k) p ds _ None 0 ds Hblk Hds); [| lia | | done].
      - erewrite M_bind_Ok by (by apply (set_last_de_run s2 p)). cbn [touch ic_lru_count]. unfold s2.
        by rewrite touched_touched.
      - pose proof (dents_at_end _ _ _ _ Hds) as Hend. pose proof (dents_at_count _ _ _ _ Hds).
        pose proof (zlen_nonneg ds). unfold EXT4_DE_TAIL_SIZE in Hend. lia. }
    erewrite M_bind_Ok; [|erewrite M_bind_Ok by exact Hinit2; erewrite M_bind_Ok by exact Hino; exact Hloop].
    reflexivity.
Qed.

(** ** Changing the block *)

Definition with_dc_buf (buf : list Z) (s : fs) : fs :=
  set_fs_dcache (mk_dcache (dc_inode_idx (fs_dcache s)) (dc_lblock (fs_dcache s)) (dc_pblock (fs_dcache s)) buf) s.

Lemma same_names_trans s1 s2 s3 : same_names s1 s2 → same_names s2 s3 → same_names s1 s3.
Proof.
  unfold same_names, outside_tables.
  intros (E1 & E2 & E3 & E4 & E5 & E6 & E7 & E8 & E9 & E10 & E11 & Hb1)
    (F1 & F2 & F3 & F4 & F5 & F6 & F7 & F8 & F9 & F10 & F11 & Hb2).
  rewrite E1, E2, E11 in *. split_and!; try congruence.
  intros a Ha Hn. rewrite Hb2 by done. by apply Hb1.
Qed.

Lemma same_rest_names s s' : same_rest s s' → same_names s s'.
Proof.
  intros (? & ? & ? & ? & Hdc & ? & ? & ? & ? & ? & ? & Hb). unfold same_names. rewrite Hdc. split_and!; try done.
  intros a Ha _. by apply Hb.
Qed.

Section change.
Context (s : fs) (Hm : mounted s) (Hok : icache_ok s).

(** The buffer of the dcache is no part of the inodes. *)
Lemma dc_buf_ok buf : let s' := with_dc_buf buf s in
  mounted s' ∧ icache_ok s' ∧ same_names s s' ∧ fs_icache s' = fs_icache s ∧
  ∀ j, inode_view s' j = inode_view s j.
Proof. destruct Hm, Hok. split_and!; done. Qed.

Context (p : Z) (k : nat) (e : icache_entry).

Lemma dir_buf_ok ds ds' buf : dir_cached s p k e ds → zlen buf = EXT4_BLOCK_SIZE (fs_sb s) →
  Forall byte_ok buf → Forall (λ d, d_name d ≠ []) ds' → dents_at (EXT4_BLOCK_SIZE (fs_sb s)) buf 0 ds' →
  dir_cached (with_dc_buf buf s) p k e ds'.
Proof.
  intros [Hc (H0 & Hidx & HB & He & Hlb & _) Hn Hb Hlen Hmax Hdata] Hz Hb' Hn' Hds'.
  by split.
Qed.

(** Writing the block back. *)
Lemma dir_write_back ds : dir_cached s p k e ds →
  ∃ s', dcache_write_back s = Ok (tt, s') ∧ mounted s' ∧ icache_ok s' ∧ dir_cached s' p k e ds ∧
    dir_flushed s' ∧ same_names s s' ∧ fs_icache s' = fs_icache s ∧ fs_dcache s' = fs_dcache s ∧
    ∀ j, inode_in (fs_sb s) j → inode_view s' j = inode_view s j.
Proof.
  intros Hd. pose proof Hd as [Hc (H0 & Hidx & HB & He & Hlb & Hz & Hds) Hn Hb Hlen Hmax Hdata].
  set (a := BLOCKS2BYTES _ _) in *. set (buf := dc_buf (fs_dcache s)) in *. rewrite <- Hz in *.
  pose proof (BLOCKS2BYTES_range (fs_sb s) (dc_pblock (fs_dcache s))) as [Ha _]. fold a in Ha.
  destruct (write_outside_ok s a buf Hm Hok Hb Hdata) as (Hm' & Hok' & Hv).
  pose proof MAX_RW_COUNT_eq as HM.
  pose proof (image_write_run (fs_disk s) a buf (mt_fd s Hm) ltac:(lia) ltac:(lia) ltac:(lia)) as Hw.
  assert (zlen buf < 2 ^ 63) as Hz63 by lia. pose proof (disk_read_write_same _ _ _ _ Hz63 Hw) as Hrd.
  set (d' := image_write _ _ _) in *.
  assert (same_names s (set_fs_disk d' s)) as Hsame.
  { unfold same_names. split_and!; try done. intros x _ Hx. apply write_bytes_lookup_out. fold a in Hx.
    rewrite <- Hz in Hx. fold buf in Hx. lia. }
  assert (disk_len d' = disk_len (fs_disk s)) as Hl' by done. clearbody d'.
  exists (set_fs_disk d' s). split_and!; try done.
  - unfold dcache_write_back. run. unfold gets, k_disk_write_block, disk_write_block. rewrite <- Hz. fold a buf.
    rewrite buf_read_Ok by (lia || apply zlen_nonneg). rewrite drop_0, take_ge by (unfold zlen; lia).
    cbn [obind]. by rewrite Hw.
  - split; try done; cbn [set_fs_disk fs_sb fs_dcache fs_disk]; fold a buf; rewrite <- ?Hz; rewrite ?Hl'; try done. exact (dd_loaded _ _ _ _ _ Hd).
  - unfold dir_flushed, disk_read_block. cbn [set_fs_disk fs_sb fs_dcache fs_disk]. fold a buf. by rewrite <- Hz.
Qed.
End change.

(** Adding an entry at the last one: the free room of the last record is
    enough, and the new entry is in the buffer. *)
Lemma dir_create_run s p k e ds d name ino ft : mounted s → icache_ok s → dir_cached s p k e (ds ++ [d]) →
  0 < zlen name ≤ 255 → Forall byte_ok name → 0 ≤ ino < 2 ^ 32 → 0 ≤ ft < 2 ^ 8 →
  let real := DE_REAL_REC_LEN (zlen (d_name d)) in
  real + DE_CALC_REC_LEN (zlen name) ≤ d_len d →
  let ds' := ds ++ [set_d_len real d; mk_dent ino (d_len d - real) ft name] in
  ∃ s' de', last_in ds' 0 None = Some de' ∧ dentry_has_enough_space (dents_len ds) (zlen name) s = Ok (0, s) ∧
    dentry_create (dents_len ds) name ino ft s = Ok (de', s') ∧
    mounted s' ∧ icache_ok s' ∧ dir_cached s' p k e ds' ∧ same_names s s' ∧ fs_icache s' = fs_icache s ∧
    ∀ j, inode_view s' j = inode_view s j.
Proof.
  intros Hm Hok Hd Hn Hbn Hino Hft real Hfit ds'.
  pose proof Hd as [Hc (H0 & Hidx & HB & He & Hlb & Hz & Hds) Hns Hb _ _ _].
  destruct (create_rec_ok _ _ ds d name ino ft Hz Hds Hn Hino Hft Hfit) as (buf & Hrec & Hz' & Hds').
  destruct (dc_buf_ok s Hm Hok buf) as (Hm' & Hok' & Hsame & Hic & Hv).
  exists (with_dc_buf buf s), (dents_len ds + real). split_and!; try done.
  - unfold ds'. change [set_d_len real d; ?x] with ([set_d_len real d] ++ [x]). rewrite app_assoc, last_in_app.
    rewrite dents_len_app, dents_len_cons. change (dents_len []) with 0. f_equal. cbn [d_len set_d_len]. lia.
  - pose proof (proj1 (dents_at_app _ _ _ _ _ Hds)) as [Hat _]. rewrite Z.add_0_l in Hat.
    apply with_buf_run. rewrite (has_enough_space_ok _ _ d) by (done || lia). fold real.
    by rewrite (proj2 (Z.leb_le _ _) Hfit).
  - unfold dentry_create. by erewrite M_bind_Ok by (by apply with_buf_run).
  - apply (dir_buf_ok s p k e _ _ _ Hd); try done; [by eapply create_rec_bytes_ok|].
    apply Forall_app in Hns as [? Hnd]. apply Forall_app. split; [done|]. apply Forall_cons in Hnd as [? _].
    repeat constructor; [done|]. cbn. intros E. rewrite E in Hn. by destruct Hn.
Qed.
