(* ===== verification/InodePath.v ===== *)
(** * Paths and new inodes

    The part of [src/src/inode.c] that works on the state: path resolution
    through the decache and the directories, creation of inodes and their
    first blocks. *)

From S2P Require Import Prelude Ext4 Disk Bitmap Extents InodeMap Decache Fs Cache Dentry.
From stdpp Require Import base numbers list gmap.
From Stdlib Require Import ZArith Lia.

Open Scope Z_scope.
Open Scope kfs_scope.

(** ** Path resolution *)

(** [strchr(path, '/')]. *)
Fixpoint strchr_slash (path : list Z) : option (list Z) :=
  match path with
  | [] => None
  | c :: path' => if c =? SLASH then Some path else strchr_slash path'
  end.

(** [entry->inode_idx]. *)
Definition decache_inode_idx (entry : option loc) : K Z := λ s,
  let dc := fs_decache s in
  let p := match entry with Some e => e | None => dh_root dc end in
  e ← h_get (dh_heap dc) (Some p); Ok (dce_inode_idx e, s).

(** The scan of one directory for the first component of [path]: the inode
    found and its decache entry. *)
Fixpoint lookup_loop (fuel : nat) (i : inode_slot) (inode_idx : Z) (dc_entry : option loc)
    (path : list Z) (path_len offset : Z) : K (option (Z * option loc)) :=
  match fuel with
  | O => lift (Fault OutOfFuel)
  | S fuel =>
    de ⇐ dentry_next i inode_idx offset;
    match de with
    | None => ret None
    | Some de =>
      rec_len ⇐ de_get_rec_len de;
      let offset := u64 (offset + rec_len) in
      tail ⇐ de_is_tail de;
      if tail : bool then ret None
      else
        len ⇐ de_get_name_len de;
        let name := take (Z.to_nat path_len) path in
        eq ⇐ (if path_len =? len then with_buf (λ b, rec_name_eq b (de + 8) name) else ret false);
        if eq : bool then
          found ⇐ de_get_inode_idx de;
          e ⇐ k_decache_insert dc_entry path path_len found;
          ret (Some (found, e))
        else lookup_loop fuel i inode_idx dc_entry path path_len offset
    end
  end.

(** The loop over the components; every round but the last one leaves a
    shorter path. *)
Fixpoint resolve_loop (fuel : nat) (inode_idx : Z) (dc_entry : option loc) (path : list Z) : K Z :=
  match fuel with
  | O => lift (Fault OutOfFuel)
  | S fuel =>
    let path := skip_trailing_backslash path in
    let path_len := get_path_token_len path in
    if path_len =? 0 then ret inode_idx
    else
      r ⇐ inode_get_by_number inode_idx;
      match r with
      | inl _ => lift (Fault AssertFail)  (** [ASSERT(inode_idx != 0)] of [dcache_init] *)
      | inr i =>
        dcache_init i inode_idx ;;;
        inode ⇐ get_inode i;
        found ⇐ lookup_loop (Z.to_nat (EXT4_INODE_GET_SIZE inode + 2)) i inode_idx dc_entry
                  path path_len 0;
        match found with
        | None => ret 0
        | Some (inode_idx, dc_entry) =>
          match strchr_slash path with
          | None => ret inode_idx
          | Some path => resolve_loop fuel inode_idx dc_entry path
          end
        end
      end
  end.

Definition inode_get_idx_by_path (path : list Z) : K Z :=
  '(dc_entry, path) ⇐ k_decache_find path;
  inode_idx ⇐ decache_inode_idx dc_entry;
  resolve_loop (S (length path)) inode_idx dc_entry path.

(** The return value ([-ENOENT]), or the inode and its number. *)
Definition inode_get_by_path (path : list Z) : K (Z + inode_slot * Z) :=
  i_idx ⇐ inode_get_idx_by_path path;
  if i_idx =? 0 then ret (inl (- ENOENT))
  else
    r ⇐ inode_get_by_number i_idx;
    ret (match r with inl e => inl e | inr i => inr (i, i_idx) end).

(** The path up to and with its last slash.  The test [last_slashp == path]
    compares a pointer into the copy with the original and is never true. *)
Definition inode_get_parent_idx_by_path (path : list Z) : K Z :=
  last_slashp ⇐ lift (deref (strrchr_slash path));
  inode_get_idx_by_path (take (Z.to_nat (last_slashp + 1)) path).

Definition inode_get_parent_by_path (path : list Z) : K (Z + inode_slot * Z) :=
  parent_idx ⇐ inode_get_parent_idx_by_path path;
  if parent_idx =? 0 then ret (inl (- ENOENT))
  else
    r ⇐ inode_get_by_number parent_idx;
    ret (match r with inl e => inl e | inr i => inr (i, parent_idx) end).

(** ** New inodes *)

(** The extent header of an inode without blocks, and four empty extents. *)
Definition empty_extents : list Z :=
  bytes_of (mk_extent_header EXT4_EXT_MAGIC 0 EXT4_EXT_LEAF_EH_MAX 0 EXT4_EXT_EH_GENERATION) ++
  replicate 48 0.

Definition new_inode (sb : ext4_super_block) (cntx : option fuse_context) (now mode : Z) :
    ext4_inode :=
  let inode := set_i_mode (u16 mode) zero_inode in
  let inode := set_i_atime (u32 now) (set_i_ctime (u32 now) (set_i_mtime (u32 now) inode)) in
  let inode := EXT4_INODE_SET_GID (ctx_gid cntx) (EXT4_INODE_SET_UID (ctx_uid cntx) inode) in
  let inode := set_i_links_count (if has mode S_IFDIR then 2 else 1) inode in
  let inode := EXT4_INODE_SET_BLOCKS 0 inode in
  let inode_size := if has mode S_IFDIR then EXT4_BLOCK_SIZE sb else 0 in
  let inode := EXT4_INODE_SET_SIZE inode_size inode in
  let inode := set_i_flags (Z.lor (i_flags inode) EXT4_EXTENTS_FL) inode in
  set_i_block empty_extents inode.

Definition inode_create (inode_idx mode : Z) : K inode_slot :=
  i ⇐ icache_insert inode_idx false;
  sb ⇐ gets fs_sb;
  cntx ⇐ gets fs_context;
  now ⇐ gets fs_now;
  upd_inode i (λ _, new_inode sb cntx now mode) ;;;
  ICACHE_SET_DIRTY i ;;;
  ret i.

(** The first extent of the tree, four blocks at [pblock_idx]; the rest of
    [i_block] stays. *)
Definition init_extent (blk : list Z) (pblock_idx : Z) : outcome (list Z) :=
  blk ← buf_store 2 blk 2 1;
  blk ← buf_store 4 blk 12 0;
  blk ← buf_store 2 blk 18 (Z.land (Z.shiftr pblock_idx 32) MASK_16);
  blk ← buf_store 4 blk 20 (Z.land pblock_idx MASK_32);
  buf_store 2 blk 16 EXT4_INODE_PBLOCK_NUM.

Definition inode_init_pblock (i : inode_slot) (pblock_idx : Z) : K unit :=
  inode ⇐ get_inode i;
  blk ⇐ lift (init_extent (i_block inode) pblock_idx);
  upd_inode i (λ inode, EXT4_INODE_SET_BLOCKS EXT4_INODE_PBLOCK_NUM (set_i_block blk inode)) ;;;
  ICACHE_SET_DIRTY i ;;;
  k_bitmap_pblock_set pblock_idx EXT4_INODE_PBLOCK_NUM true.

(** ** Cached paths *)

(** [path] leads to inode [ino] in the entry cache. *)
Definition path_inode (dc : decache) (tr : tree) (path : list Z) (ino : Z) : Prop :=
  ∃ n e, resolve (dh_heap dc) tr (dh_root dc) (split_path path []) = Some n ∧
    dh_heap dc !! n = Some e ∧ dce_inode_idx e = ino.

(** A path the cache can be asked for: no NUL, components that fit. *)
Definition path_ok (path : list Z) : Prop :=
  (0 ∉ path) ∧ Forall (λ t, zlen t ≤ EXT4_NAME_LEN) (split_path path []).

Lemma resolve_app h tr p ns1 ns2 :
  resolve h tr p (ns1 ++ ns2) = match resolve h tr p ns1 with Some q => resolve h tr q ns2 | None => None end.
Proof.
  revert p. induction ns1 as [|n ns1 IH]; intros p; cbn; [done|].
  by destruct (child_named h (default [] (tr !! p)) n).
Qed.

Lemma split_path_done path : 0 ∉ path → split_path path [] = [] →
  get_path_token_len (skip_trailing_backslash path) = 0.
Proof.
  intros H0 Hs. destruct (skip_suffix path) as [pre Hpre]. rewrite <- split_path_skip in Hs.
  set (path' := skip_trailing_backslash path) in *.
  assert (0 ∉ path') as H0' by (rewrite Hpre, not_elem_of_app in H0; apply H0).
  pose proof (token_len_range path') as Hr.
  destruct (decide (0 < get_path_token_len path')) as [Hpos|]; [|lia].
  pose proof (split_path_token path' [] H0' ltac:(by right)) as Hsp. by rewrite Hs in Hsp.
Qed.

(** Resolving a cached path does not touch the disk or the state. *)
Lemma cached_path_run s tr path ino :
  decache_ok (fs_decache s) tr → path_ok path → path_inode (fs_decache s) tr path ino →
  inode_get_idx_by_path path s = Ok (ino, s).
Proof.
  intros Hok [H0 Hlen] (n & e & Hres & He & <-). set (dc := fs_decache s) in *.
  destruct (t_root _ _ _ _ Hok) as (r & Hr & _).
  destruct (decache_find_loop_ok dc tr (S (length path)) None path Hok)
    as (names & node & rest & Hf & Hs & [pre Hpre] & Hres' & _ & _ & Hstop);
    [apply (t_dom _ _ _ _ Hok); by exists r | done | done | lia |].
  rewrite Hs, resolve_app in Hres. change (start_of dc None) with (dh_root dc) in Hres'. rewrite Hres' in Hres.
  assert (split_path rest [] = [] ∧ start_of dc node = n) as [Hrest <-].
  { destruct (split_path rest []) as [|m ms]; [by injection Hres as ->|]. cbn in Hres. by rewrite Hstop in Hres. }
  unfold inode_get_idx_by_path. erewrite M_bind_Ok by (unfold k_decache_find, reads, decache_find; fold dc; by rewrite Hf).
  cbn beta iota. erewrite M_bind_Ok.
  2:{ unfold decache_inode_idx. fold dc. replace (match node with Some e => e | None => dh_root dc end) with (start_of dc node)
        by by destruct node. rewrite (h_get_run _ _ _ He). reflexivity. }
  cbn [resolve_loop]. rewrite split_path_done; [done | | done].
  intros Hin. apply H0. rewrite Hpre, elem_of_app. by right.
Qed.

(** The inode of a cached path. *)
Lemma cached_inode_run s tr path ino :
  mounted s → icache_ok s → decache_ok (fs_decache s) tr → path_ok path →
  path_inode (fs_decache s) tr path ino → inode_in (fs_sb s) ino → can_load s ino →
  ∃ k s' e, inode_get_by_path path s = Ok (inr (Z.of_nat k, ino), s') ∧
    mounted s' ∧ icache_ok s' ∧ same_rest s s' ∧ cached s' ino k e ∧
    ∀ j, inode_in (fs_sb s) j → inode_view s' j = inode_view s j.
Proof.
  intros Hm Hok Hdc Hp Hino Hin Hroom. destruct (inode_get_ok s ino Hm Hok Hroom Hin) as (k & s' & e & Hrun & Hrest).
  exists k, s', e. split; [|done]. unfold inode_get_by_path.
  rewrite (M_bind_Ok _ _ _ _ _ (cached_path_run s tr path ino Hdc Hp Hino)).
  destruct (Z.eqb_spec ino 0); [unfold inode_in in Hin; lia|]. by rewrite (M_bind_Ok _ _ _ _ _ Hrun).
Qed.

(** The directory of a path, when it is in both caches: its entry is only
    used once more. *)
Definition parent_path (path : list Z) : outcome (list Z) :=
  i ← deref (strrchr_slash path); Ok (take (Z.to_nat (i + 1)) path).

Lemma cached_parent_run s tr path dir p k e :
  icache_ok s → decache_ok (fs_decache s) tr → parent_path path = Ok dir → path_ok dir →
  path_inode (fs_decache s) tr dir p → p ≠ 0 → cached s p k e →
  ∃ lru, inode_get_parent_by_path path s = Ok (inr (Z.of_nat k, p), touched s k e lru (ic_last_de e)) ∧
    lru ≤ ic_lru_count e + 1.
Proof.
  intros Hok Hdc Hdir Hpok Hpi H0 Hc. destruct (inode_get_hit s p k e Hok Hc H0) as (lru & Hget & Hle).
  exists lru. split; [|done]. unfold inode_get_parent_by_path.
  assert (inode_get_parent_idx_by_path path s = Ok (p, s)) as Hidx.
  { unfold parent_path in Hdir. apply bind_Ok_inv in Hdir as (i & Hi & [= <-]).
    unfold inode_get_parent_idx_by_path. erewrite M_bind_Ok by (unfold lift; by rewrite Hi).
    by eapply cached_path_run. }
  run Hidx. rewrite (proj2 (Z.eqb_neq _ _) H0). by run Hget.
Qed.

(** ** Creating an inode *)

Lemma new_inode_ok sb cntx now mode : struct_ok (new_inode sb cntx now mode).
Proof.
  unfold new_inode. apply set_i_block_ok; [|vm_compute; reflexivity | apply (bool_decide_unpack _); vm_compute; exact I].
  apply set_i_flags_ok; [|vm_compute; split; [discriminate | reflexivity]].
  assert (in_width 2 (if has mode S_IFDIR then 2 else 1)) by (unfold in_width; destruct (has mode S_IFDIR); lia).
  auto 15 with inode_ok.
Qed.

(** [inode_create] adds the new inode and changes no other one. *)
Lemma inode_create_ok s ino mode : mounted s → icache_ok s → inode_in (fs_sb s) ino →
  (∀ k e, ¬ cached s ino k e) → lru_room s →
  let inode := new_inode (fs_sb s) (fs_context s) (fs_now s) mode in
  ∃ k s', inode_create ino mode s = Ok (Z.of_nat k, s') ∧ mounted s' ∧ icache_ok s' ∧ same_rest s s' ∧
    cached s' ino k (mk_icache_entry inode ino 0 ICACHE_S_DIRTY None) ∧ inode_view s' ino = Ok inode ∧
    ∀ j, inode_in (fs_sb s) j → j ≠ ino → inode_view s' j = inode_view s j.
Proof.
  intros Hm Hok Hin Hnone Hroom inode.
  destruct (icache_new_ok s ino Hm Hok Hin Hnone Hroom) as (k & s0 & Hins & Hr & Hnew).
  destruct (Hnew inode (new_inode_ok _ _ _ _)) as (s' & Hrun & Hrest). exists k, s'. split; [|done].
  apply M_bind_Ok_inv in Hrun as ([] & s2 & Hupd & Hdirty). pose proof Hr as (Hsb & _ & _ & _ & _ & _ & _ & Hctx & Hnow & _).
  unfold inode_create. run Hins. run. run. run. unfold gets. rewrite Hsb, Hctx, Hnow. fold inode.
  run Hupd. by run Hdirty.
Qed.
