(* ===== verification/OpsAttr.v ===== *)
(** * Operations on attributes

    [op_access.c], [op_chmod.c], [op_chown.c], [op_utimens.c],
    [op_getattr.c], [op_open.c], [op_readdir.c], [op_readlink.c],
    [op_flush.c] and the operations that do nothing ([op_statfs.c],
    [op_lseek.c], [op_lock.c], [op_ioctl.c], [op_release.c]) of [src/src].
    The value of an operation is the C return value, 0 or a negative errno. *)

From S2P Require Import Prelude Ext4 Disk Bitmap InodeMap Decache Fs Cache Dentry InodePath.
From stdpp Require Import base numbers list gmap strings.
From Stdlib Require Import ZArith Lia.

Open Scope Z_scope.
Open Scope kfs_scope.

(** ** Data *)

(** The members of [struct fuse_file_info] the code uses. *)
Record fuse_file_info := mk_file_info { fi_fh : Z; fi_flags : Z }.

(** The members of [struct stat] [op_getattr] fills in. *)
Record stat := mk_stat {
  st_mode : Z; st_nlink : Z; st_size : Z; st_ino : Z; st_blocks : Z; st_uid : Z; st_gid : Z;
  st_atime : Z; st_mtime : Z; st_ctime : Z; st_blksize : Z
}.

Definition X_OK : Z := 1.
Definition W_OK : Z := 2.
Definition R_OK : Z := 4.
Definition FUSE_CAP_HANDLE_KILLPRIV : Z := 2 ^ 20.
Definition KFSCTL_FILENAME : list Z := cstr "/.kfsctl".

(** [fi && fi->fh]: the open file, if any. *)
Definition fi_inode (fi : option fuse_file_info) : option Z :=
  match fi with
  | Some fi => if fi_fh fi =? 0 then None else Some (u32 (fi_fh fi))
  | None => None
  end.

(** [fi->fh] or the inode of the path. *)
Definition inode_idx_of (path : list Z) (fi : option fuse_file_info) : K Z :=
  match fi_inode fi with
  | Some inode_idx => ret inode_idx
  | None => inode_get_idx_by_path path
  end.

(** ** Access *)

Definition op_access (path : list Z) (mask : Z) : K Z :=
  r ⇐ inode_get_by_path path;
  match r with
  | inl _ => ret (- ENOENT)
  | inr (i, _) =>
    w ⇐ (if has mask W_OK then k_check_permission i WRITE else ret 0);
    if w <? 0 then ret (- EACCES) else
    r ⇐ (if has mask R_OK then k_check_permission i READ else ret 0);
    if r <? 0 then ret (- EACCES) else
    x ⇐ (if has mask X_OK then k_check_permission i EXEC else ret 0);
    if x <? 0 then ret (- EACCES) else ret 0
  end.

Definition op_chmod (path : list Z) (mode : Z) (fi : option fuse_file_info) : K Z :=
  inode_idx ⇐ inode_idx_of path fi;
  r ⇐ inode_get_by_number inode_idx;
  match r with
  | inl _ => ret (- ENOENT)
  | inr i =>
    p ⇐ k_check_permission i RDWR;
    if p <? 0 then ret (- EACCES)
    else
      upd_inode i (set_i_mode (u16 mode)) ;;;
      ICACHE_SET_DIRTY i ;;;
      ret 0
  end.

Definition op_chown (path : list Z) (uid gid : Z) (fi : option fuse_file_info) : K Z :=
  capable ⇐ gets fs_capable;
  if negb (has capable FUSE_CAP_HANDLE_KILLPRIV) then ret (- ENOSYS)
  else if s32 gid <? 0 then ret (- EPERM)
  else if s32 uid <? 0 then ret (- EINVAL)
  else
    inode_idx ⇐ inode_idx_of path fi;
    r ⇐ inode_get_by_number inode_idx;
    match r with
    | inl _ => ret (- ENOENT)
    | inr i =>
      p ⇐ k_check_permission i WRITE;
      if p <? 0 then ret (- EACCES)
      else
        inode ⇐ get_inode i;
        if (uid =? i_uid inode) && (gid =? i_gid inode) then ret 0
        else
          upd_inode i (λ n, EXT4_INODE_SET_GID gid (EXT4_INODE_SET_UID uid n)) ;;;
          ICACHE_SET_DIRTY i ;;;
          ret 0
    end.

(** [asec], [msec]: the seconds of [tv[0]] and [tv[1]]; 0 asks for now. *)
Definition op_utimens (path : list Z) (asec msec : Z) (fi : option fuse_file_info) : K Z :=
  now ⇐ gets fs_now;
  let asec := if asec =? 0 then now else asec in
  let msec := if msec =? 0 then now else msec in
  inode_idx ⇐ inode_idx_of path fi;
  r ⇐ inode_get_by_number inode_idx;
  match r with
  | inl _ => ret (- ENOENT)
  | inr i =>
    p ⇐ k_check_permission i WRITE;
    if negb (p =? 0) then ret (- EPERM)
    else
      upd_inode i (λ n, set_i_mtime (u32 msec) (set_i_atime (u32 asec) n)) ;;;
      ICACHE_SET_DIRTY i ;;;
      ret 0
  end.

(** ** Attributes *)

(** A path to [.kfsctl] in a directory below the root stands for
    [/.kfsctl]. *)
Definition ctl_check (path : list Z) : outcome bool :=
  slash ← deref (strrchr_slash path);
  let filename := drop (Z.to_nat (slash + 1)) path in
  Ok (negb (slash =? 0) && bool_decide (filename = cstr ".kfsctl")).

Definition stat_of (sb : ext4_super_block) (cntx : option fuse_context) (inode_idx : Z)
    (inode : ext4_inode) : stat :=
  let umask_val := from_option fc_umask 18 cntx in
  mk_stat (Z.land (i_mode inode) (Z.lnot umask_val)) (i_links_count inode)
    (s64 (EXT4_INODE_GET_SIZE inode)) inode_idx
    (if negb (has (s_flags sb) EXT4_HUGE_FILE_FL) then i_blocks_lo inode
     else i_blocks_lo inode + Z.shiftl (l_i_blocks_high inode) 32)
    (EXT4_INODE_GET_UID inode) (EXT4_INODE_GET_GID inode)
    (i_atime inode) (i_mtime inode) (i_ctime inode) (EXT4_BLOCK_SIZE sb).

(** The body of [op_getattr] after the redirection: the return value and the
    attributes, when filled in. *)
Definition getattr_path (path : list Z) : K (Z * option stat) :=
  r ⇐ inode_get_by_path path;
  match r with
  | inl _ => ret (- ENOENT, None)
  | inr (i, inode_idx) =>
    sb ⇐ gets fs_sb;
    cntx ⇐ gets fs_context;
    inode ⇐ get_inode i;
    ICACHE_LRU_INC i ;;;
    ret (0, Some (stat_of sb cntx inode_idx inode))
  end.

(** The recursive call is on [/.kfsctl], which [ctl_check] does not
    redirect again. *)
Definition op_getattr (path : list Z) : K (Z * option stat) :=
  ctl ⇐ lift (ctl_check path);
  getattr_path (if ctl : bool then KFSCTL_FILENAME else path).

(** [fi->flags & O_ACCMODE] as an [access_mode_t]. *)
Definition access_mode_of (flags : Z) : access_mode_t :=
  match Z.land flags 3 with 0 => READ | 1 => WRITE | 2 => RDWR | _ => EXEC end.

Definition open_path (path : list Z) (fi : fuse_file_info) : K (Z * fuse_file_info) :=
  inode_idx ⇐ inode_get_idx_by_path path;
  r ⇐ inode_get_by_number inode_idx;
  match r with
  | inl _ => ret (- ENOENT, fi)
  | inr i =>
    p ⇐ k_check_permission i (access_mode_of (fi_flags fi));
    if p <? 0 then ret (- EACCES, fi)
    else ret (0, mk_file_info inode_idx (fi_flags fi))
  end.

Definition op_open (path : list Z) (fi : fuse_file_info) : K (Z * fuse_file_info) :=
  ctl ⇐ lift (ctl_check path);
  open_path (if ctl : bool then KFSCTL_FILENAME else path) fi.

(** ** Directory listing

    [filler entries name off] is the callback of libfuse: whether it refuses
    the entry, given those it has taken. *)

(** [get_printable_name]: the buffer has room for [EXT4_NAME_LEN] bytes and
    the NUL. *)
Definition get_printable_name (buf : list Z) (de : Z) : outcome (list Z) :=
  len ← rec_name_len buf de;
  name ← buf_read buf (de + 8) len;
  if EXT4_NAME_LEN <? len then Fault Undefined else Ok (until_nul name).

Fixpoint readdir_loop (fuel : nat) (filler : list (list Z * Z) → list Z → Z → bool)
    (i : inode_slot) (inode_idx offset : Z) (acc : list (list Z * Z)) : K (list (list Z * Z)) :=
  match fuel with
  | O => lift (Fault OutOfFuel)
  | S fuel =>
    de ⇐ dentry_next i inode_idx offset;
    match de with
    | None => ret acc
    | Some de =>
      rec_len ⇐ de_get_rec_len de;
      let offset := u64 (offset + rec_len) in
      tail ⇐ de_is_tail de;
      if tail : bool then ret acc
      else
        name ⇐ with_buf (λ b, get_printable_name b de);
        match name with
        | [] => readdir_loop fuel filler i inode_idx offset acc
        | _ =>
          if filler acc name offset then ret acc
          else readdir_loop fuel filler i inode_idx offset (acc ++ [(name, offset)])
        end
    end
  end.

(** The return value and the entries the filler took. *)
Definition op_readdir (filler : list (list Z * Z) → list Z → Z → bool) (path : list Z)
    (offset : Z) : K (Z * list (list Z * Z)) :=
  r ⇐ inode_get_by_path path;
  match r with
  | inl _ => ret (- ENOENT, [])
  | inr (i, inode_idx) =>
    dcache_init i inode_idx ;;;
    inode ⇐ get_inode i;
    es ⇐ readdir_loop (Z.to_nat (EXT4_INODE_GET_SIZE inode + 2)) filler i inode_idx (u64 offset) [];
    ret (0, es)
  end.

(** ** Symbolic links *)

Definition S_ISLNK (mode : Z) : bool := Z.land mode S_IFMT =? S_IFLNK.
Definition S_ISDIR (mode : Z) : bool := Z.land mode S_IFMT =? S_IFDIR.

(** [strncpy(dst, src, n)] at the start of [dst], from a block: stops at a
    NUL and pads with zeros; without a NUL it must not run past the block. *)
Definition strncpy_block (dst src : list Z) (n : Z) : outcome (list Z) :=
  let s := until_nul src in
  if (zlen s =? zlen src) && (zlen src <? n) then Fault Undefined
  else if zlen dst <? n then Fault Undefined
  else buf_write dst 0 (take (Z.to_nat n) (s ++ replicate (Z.to_nat n) 0)).

(** The buffer filled in; [buf] is the caller's, of [bufsize] bytes. *)
Definition get_link_dest (i : inode_slot) (buf : list Z) : K (list Z) :=
  inode ⇐ get_inode i;
  let inode_size := EXT4_INODE_GET_SIZE inode in
  buf ⇐ (if inode_size <=? 60 then
           lift (bs ← buf_read (i_block inode) 0 inode_size; buf_write buf 0 bs)
         else
           '(pblock, _) ⇐ k_inode_get_data_pblock inode 0;
           block_data ⇐ k_disk_read_block pblock;
           lift (strncpy_block buf block_data (u64 (zlen buf - 1))));
  lift (arr_set buf inode_size 0).

Definition op_readlink (path : list Z) (buf : list Z) : K (Z * list Z) :=
  r ⇐ inode_get_by_path path;
  match r with
  | inl _ => ret (- ENOENT, buf)
  | inr (i, _) =>
    inode ⇐ get_inode i;
    if negb (S_ISLNK (i_mode inode)) then ret (- EINVAL, buf)
    else buf ⇐ get_link_dest i buf; ret (0, buf)
  end.

(** ** The rest *)

Definition op_flush (path : list Z) : K Z :=
  r ⇐ inode_get_by_path path;
  match r with
  | inl _ => ret (- ENOENT)
  | inr (i, inode_idx) =>
    dirty ⇐ ICACHE_IS_DIRTY i;
    (if dirty : bool then icache_write_back i else ret tt) ;;;
    dc ⇐ gets fs_dcache;
    (if dc_inode_idx dc =? inode_idx then dcache_write_back else ret tt) ;;;
    ret 0
  end.

Definition op_statfs (path : list Z) : K Z := ret 0.
Definition op_lseek (path : list Z) (off whence : Z) : K Z := ret 0.
Definition op_lock (path : list Z) (cmd : Z) : K Z := ret 0.
Definition op_ioctl (path : list Z) (cmd : Z) : K Z := ret 0.
Definition op_release (path : list Z) : K Z := ret 0.

(** ** Effects of the operations *)

(** The file a call names: the open file, or a cached path. *)
Definition refers (dc : decache) (tr : tree) (path : list Z) (fi : option fuse_file_info) (ino : Z) : Prop :=
  match fi_inode fi with
  | Some n => n = ino
  | None => path_ok path ∧ path_inode dc tr path ino
  end.

(** The state [s'] after a call that changed inode [ino] to [inode'] and no
    other. *)
Definition updated (s s' : fs) (ino : Z) (inode' : ext4_inode) : Prop :=
  mounted s' ∧ icache_ok s' ∧ same_rest s s' ∧ (∃ k e, cached s' ino k e) ∧
  inode_view s' ino = Ok inode' ∧
  ∀ j, inode_in (fs_sb s) j → j ≠ ino → inode_view s' j = inode_view s j.

Definition granted (s : fs) (inode : ext4_inode) (m : access_mode_t) : Prop :=
  inode_check_permission (fs_context s) inode m = 0.

Lemma check_permission_values cntx inode m :
  inode_check_permission cntx inode m = 0 ∨ inode_check_permission cntx inode m = - EACCES.
Proof. unfold inode_check_permission. repeat case_match; auto. Qed.

Section inode_ops.
Context (s : fs) (tr : tree) (ino : Z) (inode : ext4_inode).
Context (Hm : mounted s) (Hok : icache_ok s) (Hdc : decache_ok (fs_decache s) tr).
Context (Hin : inode_in (fs_sb s) ino) (Hload : can_load s ino) (Hview : inode_view s ino = Ok inode).

Lemma inode_idx_of_run path fi : refers (fs_decache s) tr path fi ino → inode_idx_of path fi s = Ok (ino, s).
Proof.
  unfold refers, inode_idx_of. destruct (fi_inode fi) as [n|]; [by intros ->|].
  intros [? ?]. by eapply cached_path_run.
Qed.

(** The entry of the inode, and what the permission check of the caller
    gives. *)
Lemma inode_loaded : ∃ k s1 e, inode_get_by_number ino s = Ok (inr (Z.of_nat k), s1) ∧
  mounted s1 ∧ icache_ok s1 ∧ same_rest s s1 ∧ cached s1 ino k e ∧ ic_inode e = inode ∧
  get_inode (Z.of_nat k) s1 = Ok (inode, s1) ∧
  (∀ m, k_check_permission (Z.of_nat k) m s1 = Ok (inode_check_permission (fs_context s) inode m, s1)) ∧
  ∀ j, inode_in (fs_sb s) j → inode_view s1 j = inode_view s j.
Proof.
  destruct (inode_get_ok s ino Hm Hok Hload Hin) as (k & s1 & e & Hrun & Hm1 & Hok1 & Hr & Hc & Hv).
  pose proof Hr as (_ & _ & _ & _ & _ & _ & _ & Hctx & _).
  assert (ic_inode e = inode) as Hi.
  { pose proof (view_cached s1 ino k e Hok1 Hc). rewrite Hv in * by done. congruence. }
  assert (get_inode (Z.of_nat k) s1 = Ok (inode, s1)) as Hget.
  { rewrite <- Hi. apply get_inode_run. destruct Hc as (He & _). apply arr_get_Ok; [lia | by rewrite Nat2Z.id]. }
  exists k, s1, e. split_and!; try done. intros m. unfold k_check_permission.
  erewrite M_bind_Ok by exact Hget. erewrite M_bind_Ok by reflexivity. unfold gets. by rewrite Hctx.
Qed.

(** Storing a changed inode. *)
Lemma store_updated k s1 e f : mounted s1 → icache_ok s1 → same_rest s s1 → cached s1 ino k e →
  ic_inode e = inode → (∀ j, inode_in (fs_sb s) j → inode_view s1 j = inode_view s j) →
  struct_ok (f inode) →
  ∃ s', (upd_inode (Z.of_nat k) f ;;; ICACHE_SET_DIRTY (Z.of_nat k) ;;; ret 0) s1 = Ok (0, s') ∧
    updated s s' ino (f inode).
Proof.
  intros Hm1 Hok1 Hr1 Hc Hi Hv Hst. rewrite <- Hi in Hst.
  destruct (upd_dirty_ok s1 ino k e f Hm1 Hok1 Hc Hst) as (s' & Hrun & Hm' & Hok' & Hr' & (e' & Hc' & _) & Hvi & Hvo).
  exists s'. split.
  - apply M_bind_Ok_inv in Hrun as (? & s2 & H1 & H2). rewrite (M_bind_Ok _ _ _ _ _ H1).
    by rewrite (M_bind_Ok _ _ _ _ _ H2).
  - unfold updated. rewrite <- Hi. split_and!; try done; [by eapply same_rest_trans | by exists k, e' |].
    intros j Hj Hne. rewrite Hvo by done. by apply Hv.
Qed.

Lemma unchanged s1 k e : mounted s1 → icache_ok s1 → same_rest s s1 → cached s1 ino k e →
  (∀ j, inode_in (fs_sb s) j → inode_view s1 j = inode_view s j) → updated s s1 ino inode.
Proof.
  intros ? ? ? ? Hv. unfold updated. split_and!; try done; [by exists k, e | by rewrite Hv |].
  intros j Hj _. by apply Hv.
Qed.
End inode_ops.

(** The inode with owner [uid] and group [gid], in halves of 16 bits. *)
Definition with_owner (uid gid : Z) (inode : ext4_inode) : ext4_inode :=
  set_l_i_gid_high (gid / 2 ^ 16 mod 2 ^ 16) (set_i_gid (gid mod 2 ^ 16)
    (set_l_i_uid_high (uid / 2 ^ 16 mod 2 ^ 16) (set_i_uid (uid mod 2 ^ 16) inode))).

Lemma SET_owner uid gid inode :
  EXT4_INODE_SET_GID gid (EXT4_INODE_SET_UID uid inode) = with_owner uid gid inode.
Proof.
  unfold EXT4_INODE_SET_GID, EXT4_INODE_SET_UID, with_owner.
  by rewrite !land_mask_16, !Z.shiftr_div_pow2 by lia.
Qed.


(** What [op_getattr] reports of an inode, member by member: the mode with
    the bits of the caller's umask (022 without a caller) cleared, the owner and
    group and the size put together from their halves. *)
Definition stat_reports (sb : ext4_super_block) (cntx : option fuse_context) (ino : Z)
    (inode : ext4_inode) (st : stat) : Prop :=
  let umask := match cntx with Some c => fc_umask c | None => 18 end in
  (∀ b, 0 ≤ b → Z.testbit (st_mode st) b = Z.testbit (i_mode inode) b && negb (Z.testbit umask b)) ∧
  st_nlink st = i_links_count inode ∧
  st_size st = s64 (i_size_lo inode + 2 ^ 32 * i_size_high inode) ∧
  st_ino st = ino ∧
  st_blocks st = i_blocks_lo inode +
    (if has (s_flags sb) EXT4_HUGE_FILE_FL then 2 ^ 32 * l_i_blocks_high inode else 0) ∧
  st_uid st = i_uid inode + 2 ^ 16 * l_i_uid_high inode ∧
  st_gid st = i_gid inode + 2 ^ 16 * l_i_gid_high inode ∧
  st_atime st = i_atime inode ∧ st_mtime st = i_mtime inode ∧ st_ctime st = i_ctime inode ∧
  st_blksize st = EXT4_BLOCK_SIZE sb.

(** The low halves of the members in two parts. *)
Lemma inode_low_halves (inode : ext4_inode) : struct_ok inode →
  0 ≤ i_size_lo inode < 2 ^ 32 ∧ 0 ≤ i_uid inode < 2 ^ 16 ∧ 0 ≤ i_gid inode < 2 ^ 16.
Proof.
  intros (_ & _ & H & _)%inode_ok_iff.
  repeat match goal with F : Forall2 _ (_ :: _) (_ :: _) |- _ => apply Forall2_cons in F as [? F] end.
  split; [assumption | split; assumption].
Qed.

Lemma stat_of_reports sb cntx ino inode : struct_ok inode →
  stat_reports sb cntx ino inode (stat_of sb cntx ino inode).
Proof.
  intros (? & ? & ?)%inode_low_halves. unfold stat_reports, stat_of. cbn [st_mode st_nlink st_size st_ino st_blocks st_uid st_gid
    st_atime st_mtime st_ctime st_blksize]. split_and!; try done.
  - intros b Hb. rewrite Z.land_spec, Z.lnot_spec by done. by destruct cntx.
  - unfold EXT4_INODE_GET_SIZE. f_equal. rewrite lor_shiftl'; lia.
  - destruct (has _ _); cbn [negb]; [|lia]. rewrite Z.shiftl_mul_pow2; lia.
  - unfold EXT4_INODE_GET_UID. rewrite lor_shiftl; lia.
  - unfold EXT4_INODE_GET_GID. rewrite lor_shiftl; lia.
Qed.

(** ** Properties *)


Lemma test_fs_root : decache_ok (fs_decache test_fs) {[ 1%positive := [] ]} ∧
  refers (fs_decache test_fs) {[ 1%positive := [] ]} (cstr "/") None 2 ∧
  inode_in (fs_sb test_fs) 2 ∧ inode_view test_fs 2 = Ok (of_bytes (replicate 160 0)).
Proof.
  split; [by apply init_root_ok|]. split; [|split; [split; vm_compute; discriminate | vm_compute; reflexivity]].
  split; [split; [apply (bool_decide_unpack _); vm_compute; exact I | by vm_compute]|].
  eexists _, _. split; [vm_compute; reflexivity|]. split; vm_compute; reflexivity.
Qed.



