(* ===== verification/OpsName.v ===== *)
(** * Operations on names

    [op_create.c], [op_mkdir.c], [op_unlink.c], [op_rmdir.c], [op_link.c],
    [op_symlink.c] and [op_rename.c] of [src/src].  The value of an operation
    is the C return value, 0 or a negative errno. *)

From S2P Require Import Prelude Ext4 Disk Bitmap InodeMap Decache Fs Cache Dentry Dir InodePath.
From S2P Require Import OpsAttr.
From stdpp Require Import base numbers list gmap strings.
From Stdlib Require Import ZArith Lia.

Open Scope Z_scope.
Open Scope kfs_scope.

(** ** Creating *)

(** The new entry at the start of a fresh block of the directory. *)
Definition first_rec (sb : ext4_super_block) (buf : list Z) (inode_idx name_len file_type : Z)
    (name : list Z) : outcome (list Z) :=
  buf ← write_tail sb buf;
  write_rec buf 0 inode_idx (EXT4_BLOCK_SIZE sb - EXT4_DE_TAIL_SIZE) name_len file_type name.

(** "across block boundary": the last entry takes over the tail of its
    block, and the new entry starts the next block. *)
Definition create_next_block (parent : inode_slot) (de inode_idx name_len mode : Z)
    (name : list Z) : K unit :=
  rec_len ⇐ de_get_rec_len de;
  de_set_rec_len de (rec_len + EXT4_DE_TAIL_SIZE) ;;;
  dcache_write_back ;;;
  parent_inode ⇐ get_inode parent;
  let block_num := EXT4_INODE_GET_BLOCKS parent_inode in
  dc ⇐ gets fs_dcache;
  let next_lblock := u32 (dc_lblock dc + 1) in
  if next_lblock <? block_num then
    dcache_load_lblock parent next_lblock ;;;
    sb ⇐ gets fs_sb;
    upd_buf (λ b, first_rec sb b inode_idx name_len (inode_mode2type mode) name) ;;;
    dcache_write_back ;;;
    ICACHE_SET_LAST_DE parent None
  else lift (Fault AssertFail).

(** [op_create] once the parent and the number of the inode are known. *)
Definition create_in (parent : inode_slot) (parent_idx inode_idx mode : Z) (file_name : list Z) : K Z :=
  let name_len := zlen file_name in
  de ⇐ dentry_last parent parent_idx;
  match de with
  | None => ret (- ENOENT)
  | Some de =>
    space ⇐ dentry_has_enough_space de name_len;
    (if space <? 0 then create_next_block parent de inode_idx name_len mode file_name
     else
       new_de ⇐ dentry_create de file_name inode_idx (inode_mode2type mode);
       ICACHE_SET_LAST_DE parent (Some new_de) ;;;
       dcache_write_back) ;;;
    inode_create inode_idx mode ;;;
    k_bitmap_inode_set inode_idx true ;;;
    ret 0
  end.

Definition op_create (path : list Z) (mode : Z) : K Z :=
  file_name ⇐ lift (basename path);
  if EXT4_NAME_LEN <? zlen file_name then ret (- ENAMETOOLONG)
  else
    r ⇐ inode_get_parent_by_path path;
    match r with
    | inl _ => ret (- ENOENT)
    | inr (parent, parent_idx) =>
      inode_idx ⇐ k_bitmap_inode_find parent_idx;
      if inode_idx =? 0 then ret (- ENOSPC)
      else create_in parent parent_idx inode_idx mode file_name
    end.

Definition op_mkdir (path : list Z) (mode : Z) : K Z :=
  let mode := Z.lor mode S_IFDIR in
  r ⇐ inode_get_parent_by_path path;
  match r with
  | inl _ => ret (- ENOENT)
  | inr (parent, parent_idx) =>
    dir_idx ⇐ k_bitmap_inode_find parent_idx;
    if dir_idx =? 0 then ret (- ENOSPC)
    else
      dir_pblock_idx ⇐ k_bitmap_pblock_find dir_idx EXT4_INODE_PBLOCK_NUM;
      if dir_pblock_idx =? 0 then ret (- ENOSPC)
      else
        de ⇐ dentry_last parent parent_idx;
        match de with
        | None => ret (- ENOENT)
        | Some de =>
          dir_name ⇐ lift (basename path);
          space ⇐ dentry_has_enough_space de (zlen dir_name);
          if space <? 0 then ret (- ENOSPC)
          else
            new_de ⇐ dentry_create de dir_name dir_idx (inode_mode2type mode);
            ICACHE_SET_LAST_DE parent (Some new_de) ;;;
            dcache_write_back ;;;
            upd_inode parent (λ n, set_i_links_count (u16 (i_links_count n + 1)) n) ;;;
            ICACHE_SET_DIRTY parent ;;;
            i ⇐ inode_create dir_idx mode;
            inode_init_pblock i dir_pblock_idx ;;;
            k_bitmap_inode_set dir_idx true ;;;
            k_bitmap_pblock_set dir_pblock_idx EXT4_INODE_PBLOCK_NUM true ;;;
            k_gdt_update dir_idx ;;;
            dentry_init parent_idx dir_idx ;;;
            dc ⇐ gets fs_dcache;
            k_disk_write_block dir_pblock_idx (dc_buf dc) ;;;
            ret 0
        end
  end.

(** ** Removing *)

Definition unlink_inode (i : inode_slot) (inode_idx : Z) : K unit :=
  upd_inode i (λ n, set_i_links_count (u16 (i_links_count n - 1)) n) ;;;
  inode ⇐ get_inode i;
  if i_links_count inode =? 0 then
    k_bitmap_inode_set inode_idx false ;;;
    (if has (i_mode inode) S_IFLNK && (EXT4_INODE_GET_SIZE inode <=? 60) then ret tt
     else
       p_arr ⇐ lift (inode_get_all_pblocks inode);
       k_bitmap_pblock_free p_arr) ;;;
    ICACHE_SET_INVAL i
  else ICACHE_SET_DIRTY i.

Definition op_unlink (path : list Z) : K Z :=
  r ⇐ inode_get_parent_by_path path;
  match r with
  | inl _ => ret (- ENOENT)
  | inr (d_inode, d_inode_idx) =>
    r ⇐ inode_get_by_path path;
    match r with
    | inl _ => ret (- ENOENT)
    | inr (i, inode_idx) =>
      name ⇐ lift (basename path);
      dentry_delete d_inode d_inode_idx name ;;;
      dcache_write_back ;;;
      unlink_inode i inode_idx ;;;
      k_decache_delete path ;;;
      ret 0
    end
  end.

Definition op_rmdir (path : list Z) : K Z :=
  r ⇐ inode_get_by_path path;
  match r with
  | inl _ => ret (- ENOENT)
  | inr (i, inode_idx) =>
    inode ⇐ get_inode i;
    if negb (S_ISDIR (i_mode inode)) then ret (- EISDIR)
    else
      upd_inode i (λ n, set_i_links_count (u16 (i_links_count n - 1)) n) ;;;
      inode ⇐ get_inode i;
      (if i_links_count inode =? 0 then
         k_bitmap_inode_set inode_idx false ;;;
         p_arr ⇐ lift (inode_get_all_pblocks inode);
         k_bitmap_pblock_free p_arr ;;;
         ICACHE_SET_INVAL i
       else ICACHE_SET_DIRTY i) ;;;
      r ⇐ inode_get_parent_by_path path;
      match r with
      | inl _ => ret (- ENOENT)
      | inr (d_inode, d_inode_idx) =>
        name ⇐ lift (basename path);
        dentry_delete d_inode d_inode_idx name ;;;
        dcache_write_back ;;;
        k_decache_delete path ;;;
        ret 0
      end
  end.

(** ** Links *)

(** A pointer [dentry_last] may have returned as NULL. *)
Definition deref_de (de : option Z) : K Z := lift (deref de).

Definition op_link (from to : list Z) : K Z :=
  r ⇐ inode_get_by_path from;
  match r with
  | inl _ => ret (- ENOENT)
  | inr (i, inode_idx) =>
    inode ⇐ get_inode i;
    if S_ISDIR (i_mode inode) then ret (- EPERM)
    else if i_links_count inode =? UINT16_MAX then ret (- EMLINK)
    else
      upd_inode i (λ n, set_i_links_count (u16 (i_links_count n + 1)) n) ;;;
      ICACHE_SET_DIRTY i ;;;
      r ⇐ inode_get_parent_by_path to;
      match r with
      | inl _ => ret (- ENOENT)
      | inr (to_dir, to_dir_idx) =>
        last_de ⇐ dentry_last to_dir to_dir_idx;
        name ⇐ lift (basename to);
        last_de ⇐ deref_de last_de;
        space ⇐ dentry_has_enough_space last_de (zlen name);
        if space <? 0 then ret (- ENOSPC)
        else
          inode ⇐ get_inode i;
          new_de ⇐ dentry_create last_de name inode_idx (inode_mode2type (i_mode inode));
          dcache_write_back ;;;
          ICACHE_SET_LAST_DE to_dir (Some new_de) ;;;
          ret 0
      end
  end.

Definition inode_symlink_create (i : inode_slot) (inode_idx : Z) (path : list Z) : K Z :=
  let link_len := s32 (zlen path) in
  sb ⇐ gets fs_sb;
  err ⇐ (if u64 link_len <=? 60 then
           inode ⇐ get_inode i;
           blk ⇐ lift (buf_write (i_block inode) 0 path);
           upd_inode i (set_i_block blk) ;;; ret 0
         else if EXT4_BLOCK_SIZE sb <? u64 link_len then ret (- EINVAL)
         else
           pblock ⇐ k_bitmap_pblock_find inode_idx EXT4_INODE_PBLOCK_NUM;
           inode_init_pblock i pblock ;;;
           k_disk_write (BLOCKS2BYTES sb pblock) path ;;; ret 0);
  if err <? 0 then ret err
  else upd_inode i (EXT4_INODE_SET_SIZE link_len) ;;; ret 0.

Definition S_IRWXUGO : Z := 0x1ff.

Definition op_symlink (from to : list Z) : K Z :=
  inode_idx ⇐ k_bitmap_inode_find 0;
  if inode_idx =? 0 then ret (- ENOSPC)
  else
    i ⇐ inode_create inode_idx (Z.lor S_IFLNK S_IRWXUGO);
    err ⇐ inode_symlink_create i inode_idx from;
    if err <? 0 then ret err
    else
      r ⇐ inode_get_parent_by_path to;
      match r with
      | inl _ => ret (- ENOENT)
      | inr (to_dir, to_dir_idx) =>
        last_de ⇐ dentry_last to_dir to_dir_idx;
        name ⇐ lift (basename to);
        last_de ⇐ deref_de last_de;
        space ⇐ dentry_has_enough_space last_de (zlen name);
        if space <? 0 then ret (- ENOSPC)
        else
          new_de ⇐ dentry_create last_de name inode_idx EXT4_FT_SYMLINK;
          ICACHE_SET_LAST_DE i (Some new_de) ;;;
          dcache_write_back ;;;
          ret 0
      end.

(** ** Renaming *)

Definition RENAME_NOREPLACE : Z := 0.
Definition RENAME_EXCHANGE : Z := 1.

(** [entry->inode_idx = ...] and [strcpy(entry->name, ...)] of a decache
    entry. *)
Definition upd_decache (entry : option loc) (f : decache_entry → decache_entry) : K unit := λ s,
  let dc := fs_decache s in
  h ← h_upd (dh_heap dc) entry f;
  Ok (tt, set_fs_decache (mk_decache h (dh_fresh dc) (dh_root dc)) s).

(** [decache_find(&path)] and the update of the entry found, if any. *)
Definition upd_decache_path (path : list Z) (f : decache_entry → decache_entry) : K unit :=
  '(entry, _) ⇐ k_decache_find path;
  match entry with
  | Some _ => upd_decache entry f
  | None => ret tt
  end.

Definition mv_in_local_dir (i : inode_slot) (inode_idx : Z) (from to : list Z) (flags : Z) : K Z :=
  oldname ⇐ lift (basename from);
  newname ⇐ lift (basename to);
  '(from_de, _) ⇐ dentry_find i inode_idx (Some oldname);
  match from_de with
  | None => lift (Fault AssertFail)
  | Some from_de =>
    if flags =? RENAME_EXCHANGE then
      let old_len := zlen oldname in
      let new_len := zlen newname in
      rec_len ⇐ de_get_rec_len from_de;
      if (DE_CALC_REC_LEN new_len <=? rec_len) || (old_len <=? new_len) then
        upd_buf (λ b,
          b ← buf_write b (from_de + 8) newname;
          b ← buf_write b (from_de + 8 + new_len) [0];
          buf_store 1 b (from_de + 6) new_len) ;;;
        dcache_write_back ;;;
        upd_decache_path from (set_dce_name newname) ;;;
        ret 0
      else
        dentry_delete i inode_idx oldname ;;;
        k_decache_delete from ;;;
        lift (Fault AssertFail)
    else
      r ⇐ inode_get_by_path to;
      match r with
      | inl _ => ret (- ENOENT)
      | inr (to_inode, to_inode_idx) =>
        unlink_inode to_inode to_inode_idx ;;;
        '(to_de, _) ⇐ dentry_find i inode_idx (Some newname);
        match to_de with
        | None => lift (Fault AssertFail)
        | Some to_de =>
          ino ⇐ de_get_inode_idx from_de;
          de_set_inode_idx to_de ino ;;;
          ft ⇐ de_get_file_type from_de;
          de_set_file_type to_de ft ;;;
          ino ⇐ de_get_inode_idx from_de;
          upd_decache_path to (set_dce_inode_idx ino) ;;;
          k_decache_delete from ;;;
          dentry_delete i inode_idx oldname ;;;
          dcache_write_back ;;;
          ret 0
        end
      end
  end.

Definition op_rename (from to : list Z) (flags : Z) : K Z :=
  r ⇐ inode_get_parent_by_path from;
  match r with
  | inl _ => ret (- ENOENT)
  | inr (from_dir, from_dir_idx) =>
    from_filename ⇐ lift (basename from);
    '(from_de, _) ⇐ dentry_find from_dir from_dir_idx (Some from_filename);
    match from_de with
    | None => lift (Fault AssertFail)
    | Some from_de =>
      from_inode_idx ⇐ de_get_inode_idx from_de;
      from_file_type ⇐ de_get_file_type from_de;
      dentry_delete from_dir from_dir_idx from_filename ;;;
      dcache_write_back ;;;
      k_decache_delete from ;;;
      r ⇐ inode_get_parent_by_path to;
      match r with
      | inl _ => ret (- ENOENT)
      | inr (to_dir, to_dir_idx) =>
        to_filename ⇐ lift (basename to);
        if flags =? RENAME_EXCHANGE then
          last_de ⇐ dentry_last to_dir to_dir_idx;
          last_de ⇐ deref_de last_de;
          new_de ⇐ dentry_create last_de to_filename from_inode_idx from_file_type;
          ICACHE_SET_LAST_DE to_dir (Some new_de) ;;;
          dcache_write_back ;;;
          ret 0
        else
          '(to_de, _) ⇐ dentry_find to_dir to_dir_idx (Some to_filename);
          match to_de with
          | None => lift (Fault AssertFail)
          | Some to_de =>
            r ⇐ inode_get_by_path to;
            match r with
            | inl _ => ret (- ENOENT)
            | inr (to_inode, to_inode_idx) =>
              unlink_inode to_inode to_inode_idx ;;;
              de_set_inode_idx to_de from_inode_idx ;;;
              de_set_file_type to_de from_file_type ;;;
              upd_decache_path to (set_dce_inode_idx from_inode_idx) ;;;
              dentry_delete to_dir to_dir_idx to_filename ;;;
              dcache_write_back ;;;
              ret 0
            end
          end
      end
    end
  end.

(** ** Lemmas *)

Lemma mode2type_range mode : 0 ≤ inode_mode2type mode < 2 ^ 8.
Proof.
  unfold inode_mode2type. repeat case_match; vm_compute; split; first [discriminate | reflexivity].
Qed.

(** The entries of a directory with one more at the end of the block. *)
Definition add_entry (ds : list dent) (d : dent) (ino ft : Z) (name : list Z) : list dent :=
  let real := DE_REAL_REC_LEN (zlen (d_name d)) in
  ds ++ [set_d_len real d; mk_dent ino (d_len d - real) ft name].

(** The last record has room for the name. *)
Definition fits (d : dent) (name : list Z) : Prop :=
  DE_REAL_REC_LEN (zlen (d_name d)) + DE_CALC_REC_LEN (zlen name) ≤ d_len d.

(** Inodes that are not in use are not in the cache. *)
Definition free_uncached (s : fs) : Prop :=
  ∀ ino, inode_in (fs_sb s) ino → inode_used (fs_sb s) (fs_i_bitmap s) ino = false → ∀ k e, ¬ cached s ino k e.

(** The entry is added after the last one found, and the block written. *)
Lemma add_entry_run s p k e ds d name ino ft : mounted s → icache_ok s → dir_cached s p k e (ds ++ [d]) →
  0 < zlen name ≤ 255 → Forall byte_ok name → 0 ≤ ino < 2 ^ 32 → 0 ≤ ft < 2 ^ 8 → fits d name →
  ∃ s' e', dentry_has_enough_space (dents_len ds) (zlen name) s = Ok (0, s) ∧
    (new_de ⇐ dentry_create (dents_len ds) name ino ft;
     ICACHE_SET_LAST_DE (Z.of_nat k) (Some new_de) ;;; dcache_write_back) s = Ok (tt, s') ∧
    mounted s' ∧ icache_ok s' ∧ dir_cached s' p k e' (add_entry ds d ino ft name) ∧
    last_ok e' (add_entry ds d ino ft name) ∧ ic_lru_count e' = ic_lru_count e ∧ dir_flushed s' ∧
    same_names s s' ∧ (∀ j k' x, cached s' j k' x → ∃ x', cached s j k' x') ∧
    ∀ j, inode_in (fs_sb s) j → inode_view s' j = inode_view s j.
Proof.
  intros Hm Hok Hd Hn Hbn Hino Hft Hfit.
  destruct (dir_create_run s p k e ds d name ino ft Hm Hok Hd Hn Hbn Hino Hft Hfit)
    as (s1 & de & Hlast & Hspace & Hcreate & Hm1 & Hok1 & Hd1 & Hn1 & Hic1 & Hv1).
  fold (add_entry ds d ino ft name) in Hlast, Hd1. set (ds' := add_entry ds d ino ft name) in *.
  pose proof (dd_cached _ _ _ _ _ Hd1) as Hc1.
  destruct (touched_ok s1 p k e (ic_lru_count e) (Some de) Hm1 Hok1 Hc1) as (Hm2 & Hok2 & Hr2 & Hc2 & Hv2).
  pose proof (dir_touched s1 Hm1 Hok1 p k e ds' Hd1 (ic_lru_count e) (Some de)) as Hd2.
  destruct (dir_write_back _ Hm2 Hok2 p k _ ds' Hd2) as (s3 & Hwb & Hm3 & Hok3 & Hd3 & Hfl & Hn3 & Hic3 & Hdc3 & Hv3).
  pose proof Hr2 as (Hsb2 & _). pose proof Hn1 as (Hsb1 & _).
  eexists s3, _. split; [done|]. split.
  { run Hcreate. run (set_last_de_run s1 p k e (Some de) Hok1 Hc1). exact Hwb. }
  split_and!; [done | done | exact Hd3 | by right | done | done | | |].
  - eapply same_names_trans; [exact Hn1|]. eapply same_names_trans; [by apply same_rest_names|done].
  - intros j k' x Hx. destruct (touched_cached s1 p k e (ic_lru_count e) (Some de) j k' x Hc1) as (x' & Hx').
    + unfold cached in *. by rewrite <- Hic3.
    + exists x'. unfold cached in *. by rewrite <- Hic1.
  - intros j Hj. rewrite Hv3, Hv2, Hv1; [done|]. cbn. by rewrite Hsb1.
Qed.

(** The new inode and its bit, after the entry. *)
Lemma new_inode_run s ino mode : mounted s → icache_ok s → inode_in (fs_sb s) ino →
  (∀ k e, ¬ cached s ino k e) → lru_room s →
  bitmap_ok (fs_sb s) (EXT4_INODES_PER_GROUP (fs_sb s)) (fs_i_bitmap s) →
  ∃ s', (inode_create ino mode ;;; k_bitmap_inode_set ino true) s = Ok (tt, s') ∧ mounted s' ∧ icache_ok s' ∧
    (∀ j, 1 ≤ j → inode_used (fs_sb s) (fs_i_bitmap s') j = (j =? ino) || inode_used (fs_sb s) (fs_i_bitmap s) j) ∧
    inode_view s' ino = Ok (new_inode (fs_sb s) (fs_context s) (fs_now s) mode) ∧
    (∀ j, inode_in (fs_sb s) j → j ≠ ino → inode_view s' j = inode_view s j) ∧
    ∀ p k e ds, dir_cached s p k e ds →
      dents_at (EXT4_BLOCK_SIZE (fs_sb s)) (dc_buf (fs_dcache s')) 0 ds ∧ (dir_flushed s → dir_flushed s').
Proof.
  intros Hm Hok Hin Hnone Hroom Hbm.
  destruct (inode_create_ok s ino mode Hm Hok Hin Hnone Hroom) as (k & s1 & Hcr & Hm1 & Hok1 & Hr1 & _ & Hv & Hvo).
  destruct (bitmap_inode_set_spec (fs_sb s) (mt_geo s Hm) (fs_i_bitmap s) ino true Hbm Hin) as (ib & Hset & _ & Hused).
  pose proof Hr1 as (Hsb & _ & Hib & _ & Hdc & _ & _ & _ & _ & Hsd).
  exists (set_fs_i_bitmap ib s1). split; [|split_and!; try done].
  - run Hcr. unfold k_bitmap_inode_set. by rewrite Hsb, Hib, Hset.
  - by destruct Hm1.
  - by destruct Hok1.
  - intros p k' e ds Hd. pose proof Hd as [_ (_ & _ & HB & _ & _ & Hz & Hds) _ _ Hlen Hmax Hdata]. split.
    + cbn. by rewrite Hdc.
    + unfold dir_flushed, disk_read_block. cbn [set_fs_i_bitmap fs_sb fs_disk fs_dcache]. rewrite Hsb, Hdc. intros <-.
      pose proof MAX_RW_COUNT_eq. pose proof (BLOCKS2BYTES_range (fs_sb s) (dc_pblock (fs_dcache s))).
      apply same_data_read; try done; lia.
Qed.

(** ** Properties *)

(** The entry, the inode and the bit of a new file, for a free number. *)
Lemma create_in_run s p k e l1 ds d name ino mode : mounted s → icache_ok s → free_uncached s →
  dir_cached s p k e (ds ++ [d]) → last_ok e (ds ++ [d]) → fits d name →
  0 < zlen name ≤ 255 → Forall byte_ok name → l1 ≤ ic_lru_count e + 1 → ic_lru_count e + 3 < INT_MAX →
  inode_in (fs_sb s) ino → inode_used (fs_sb s) (fs_i_bitmap s) ino = false →
  bitmap_ok (fs_sb s) (EXT4_INODES_PER_GROUP (fs_sb s)) (fs_i_bitmap s) →
  ∃ s', create_in (Z.of_nat k) p ino mode name (touched s k e l1 (ic_last_de e)) = Ok (0, s') ∧
    mounted s' ∧ icache_ok s' ∧
    (∀ j, 1 ≤ j → inode_used (fs_sb s) (fs_i_bitmap s') j =
       (j =? ino) || inode_used (fs_sb s) (fs_i_bitmap s) j) ∧
    inode_view s' ino = Ok (new_inode (fs_sb s) (fs_context s) (fs_now s) mode) ∧
    (∀ j, inode_in (fs_sb s) j → j ≠ ino → inode_view s' j = inode_view s j) ∧
    dents_at (EXT4_BLOCK_SIZE (fs_sb s)) (dc_buf (fs_dcache s')) 0
      (add_entry ds d ino (inode_mode2type mode) name) ∧ dir_flushed s'.
Proof.
  intros Hm Hok Hfree Hd Hlast Hfit Hn' Hbn Hl1 Hlru Hin Hunused Hbm.
  pose proof (dd_cached _ _ _ _ _ Hd) as Hc.
  destruct (touched_ok s p k e l1 (ic_last_de e) Hm Hok Hc) as (Hm1 & Hok1 & _).
  pose proof (dir_touched s Hm Hok p k e _ Hd l1 (ic_last_de e)) as Hd1.
  destruct (dentry_last_run _ p k _ _ Hm1 Hok1 Hd1 Hlast) as (l2 & Hrun2 & Hl2).
  rewrite touched_touched, last_in_app, Z.add_0_l in Hrun2. cbn [touch ic_lru_count] in Hl2.
  destruct (touched_ok s p k e l2 (Some (dents_len ds)) Hm Hok Hc) as (Hm2 & Hok2 & _ & _ & Hv2).
  pose proof (dir_touched s Hm Hok p k e _ Hd l2 (Some (dents_len ds))) as Hd2.
  destruct (add_entry_run _ p k _ ds d name ino (inode_mode2type mode) Hm2 Hok2 Hd2 Hn' Hbn)
    as (s3 & e3 & Hspace & Hadd & Hm3 & Hok3 & Hd3 & Hlast3 & Hlru3 & Hfl3 & Hn3 & Hinv3 & Hv3);
    [unfold inode_in in Hin; pose proof (mt_geo s Hm) as (?&?&?&?&?&?&?); lia | apply mode2type_range | done |].
  assert (∀ k' x, ¬ cached s3 ino k' x) as Hnone.
  { intros k' x (x2 & Hx2)%Hinv3. destruct (touched_cached s p k e _ _ _ _ _ Hc Hx2) as (x3 & Hx3).
    by apply (Hfree ino Hin Hunused k' x3). }
  pose proof Hn3 as (Hsb3 & _ & Hib3 & _ & _ & _ & Hctx3 & Hnow3 & _).
  cbn [touched put_entry set_fs_icache fs_sb fs_i_bitmap fs_context fs_now] in Hsb3, Hib3, Hctx3, Hnow3.
  destruct (new_inode_run s3 ino mode Hm3 Hok3) as (s4 & Hnew & Hm4 & Hok4 & Hused & Hview & Hother & Hdir4);
    [by rewrite Hsb3 | done | | by rewrite Hsb3, Hib3 |].
  { intros _. exists k, e3. pose proof (dd_cached _ _ _ _ _ Hd3) as (He3 & _). split; [done|]. right.
    cbn [touch ic_lru_count] in Hlru3. lia. }
  exists s4. split; [|rewrite Hsb3, Hib3, Hctx3, Hnow3 in *; split_and!; try done].
  - unfold create_in. cbv zeta. run Hrun2. run Hspace. cbn [Z.ltb Z.compare].
    run Hadd. apply M_bind_Ok_inv in Hnew as (i & s5 & Hcr & Hset). run Hcr. by run Hset.
  - intros j Hj Hne. rewrite Hother, Hv3 by done. apply Hv2.
  - by destruct (Hdir4 p k e3 _ Hd3).
  - by apply (Hdir4 p k e3 _ Hd3).
Qed.

(** [op_create] up to the outcome of the search for an inode. *)
Local Ltac create_find Hbase Hn Hpar Hfind :=
  unfold op_create; erewrite M_bind_Ok by (unfold lift; by rewrite Hbase);
  rewrite (proj2 (Z.ltb_ge _ _) (proj2 Hn)); run Hpar;
  first [ erewrite M_bind_Ok by (unfold k_bitmap_inode_find, reads; cbn; by rewrite Hfind)
        | erewrite M_bind_Fault by (unfold k_bitmap_inode_find, reads; cbn; by rewrite Hfind) ].

(** C1: Creating a file.  In a directory [p] that is in the caches and has
    room for the name, [op_create] of a path has exactly these outcomes.
    It returns 0, and for the first free inode number in the order of search
    from the directory's group: the number is in use now, and no other number
    changed; the inode is the new empty file, and no other inode changed; the
    directory has the name with that number after the entries it had, in the
    cache and on the disk.  It returns [-ENOSPC] when every inode is in use and
    the directory's group is not the last one; then inodes, inode bitmap, disk
    and cached directory block are unchanged.  When the directory's group is the
    last one and full, it reads past the array of groups, also when other groups
    have free inodes.  When the directory is the last inode of the file system
    it aborts. *)
Theorem op_create_spec (s : fs) (tr : tree) (path dir name : list Z) (mode p : Z) (k : nat) (e : icache_entry)
    (ds : list dent) (d : dent) :
  mounted s → icache_ok s → free_uncached s → decache_ok (fs_decache s) tr →
  parent_path path = Ok dir → path_ok dir → path_inode (fs_decache s) tr dir p →
  basename path = Ok name → 0 < zlen name ≤ EXT4_NAME_LEN → Forall byte_ok name →
  dir_cached s p k e (ds ++ [d]) → last_ok e (ds ++ [d]) → fits d name → ic_lru_count e + 3 < INT_MAX →
  bitmap_ok (fs_sb s) (EXT4_INODES_PER_GROUP (fs_sb s)) (fs_i_bitmap s) →
  let G := EXT4_N_BLOCK_GROUPS (fs_sb s) in
  let hint := p / EXT4_INODES_PER_GROUP (fs_sb s) in
  let used := inode_used (fs_sb s) (fs_i_bitmap s) in
  (∃ s' ino, op_create path mode s = Ok (0, s') ∧ mounted s' ∧ icache_ok s' ∧
    first_free G (inode_in (fs_sb s)) (inode_group (fs_sb s)) (λ j, negb (used j)) hint ino ∧
    (inode_group (fs_sb s) ino = hint ∨ hint + 1 < G) ∧
    (∀ j, 1 ≤ j → inode_used (fs_sb s) (fs_i_bitmap s') j = (j =? ino) || used j) ∧
    inode_view s' ino = Ok (new_inode (fs_sb s) (fs_context s) (fs_now s) mode) ∧
    (∀ j, inode_in (fs_sb s) j → j ≠ ino → inode_view s' j = inode_view s j) ∧
    dents_at (EXT4_BLOCK_SIZE (fs_sb s)) (dc_buf (fs_dcache s')) 0
      (add_entry ds d ino (inode_mode2type mode) name) ∧ dir_flushed s') ∨
  (∃ s', op_create path mode s = Ok (- ENOSPC, s') ∧ mounted s' ∧ icache_ok s' ∧ hint + 1 < G ∧
    (∀ ino, inode_in (fs_sb s) ino → used ino = true) ∧
    (∀ j, inode_in (fs_sb s) j → inode_view s' j = inode_view s j) ∧
    fs_i_bitmap s' = fs_i_bitmap s ∧ fs_disk s' = fs_disk s ∧ fs_dcache s' = fs_dcache s) ∨
  (op_create path mode s = Fault Undefined ∧ hint + 1 = G ∧
    ∀ ino, inode_in (fs_sb s) ino → inode_group (fs_sb s) ino = hint → used ino = true) ∨
  (op_create path mode s = Fault AssertFail ∧ G ≤ hint).
Proof.
  intros Hm Hok Hfree Hdc Hdir Hpok Hpi Hbase Hn Hbn Hd Hlast Hfit Hlru Hbm G hint used.
  assert (0 < zlen name ≤ 255) as Hn' by (change EXT4_NAME_LEN with 254 in Hn; lia).
  pose proof (dd_cached _ _ _ _ _ Hd) as Hc. destruct (io_entry s Hok _ _ _ Hc) as [Hp _].
  destruct (cached_parent_run s tr path dir p k e Hok Hdc Hdir Hpok Hpi ltac:(unfold inode_in in Hp; lia) Hc)
    as (l1 & Hpar & Hl1).
  destruct (touched_ok s p k e l1 (ic_last_de e) Hm Hok Hc) as (Hm1 & Hok1 & Hr1 & Hc1 & Hv1).
  destruct (bitmap_inode_find_spec (fs_sb s) (mt_geo s Hm) (fs_i_bitmap s) p Hbm ltac:(unfold inode_in in Hp; lia))
    as [(ino & Hfind & Hff & Hgrp)|[(Hfind & Hl & Hfull)|[(Hfind & Hl & Hfull)|(Hfind & Hl)]]];
    [left | right; left | right; right; left | right; right; right].
  - pose proof Hff as (Hin & Hfr & _).
    destruct (create_in_run s p k e l1 ds d name ino mode) as (s' & Hrun & Hrest);
      [try done; by apply negb_true_iff..|].
    exists s', ino. destruct Hrest as (? & ? & ? & ? & ? & ? & ?). split_and!; try done.
    create_find Hbase Hn Hpar Hfind.
    by rewrite (proj2 (Z.eqb_neq _ _)) by (unfold inode_in in Hin; lia).
  - exists (touched s k e l1 (ic_last_de e)). split_and!; try done.
    + create_find Hbase Hn Hpar Hfind. done.
    + intros ino Hin. by apply negb_false_iff, Hfull.
  - split_and!; [create_find Hbase Hn Hpar Hfind; done | done |].
    intros ino Hin Hg. by apply negb_false_iff, Hfull.
  - split; [create_find Hbase Hn Hpar Hfind; done | done].
Qed.

(** A mounted image with the root directory, inode 2, in the caches: its
    block is block 5, and inodes 1 and 2 are in use. *)
Definition test_root_entry : icache_entry := mk_icache_entry test_dir_inode 2 0 ICACHE_S_DIRTY None.
Definition test_base_fs : fs :=
  mk_fs (mk_disk 3 ∅ 65536) test_sb_tables test_tables (test_ib 3 0) (test_db 255 1 0 0)
    (mk_dcache 2 0 5 test_dir_buf) icache_init (decache_init_root EXT4_ROOT_INO) (2 ^ 20) None 1000.
Definition test_root_fs : fs := put_entry 0 test_root_entry 1 test_base_fs.

Lemma test_root_cached j k e : cached test_root_fs j k e → j = 2 ∧ k = 0%nat ∧ e = test_root_entry.
Proof.
  intros (He & Hk & _ & Hj). cbn in Hk. assert (k = 0%nat) as -> by lia. cbn in He. injection He as <-. done.
Qed.

Lemma test_root_ok : mounted test_root_fs ∧ icache_ok test_root_fs ∧ free_uncached test_root_fs.
Proof.
  assert (mounted test_root_fs) as Hm by (destruct test_fs_mounted; by split).
  split; [done|]. split.
  - split.
    + vm_compute. reflexivity.
    + vm_compute. split; discriminate.
    + intros ino k e k' e' (_ & -> & _)%test_root_cached (_ & -> & _)%test_root_cached. done.
    + intros ino k e (-> & _ & ->)%test_root_cached. split; [split; vm_compute; discriminate|].
      change (ic_inode test_root_entry) with (EXT4_INODE_SET_SIZE 1024 zero_inode). auto with inode_ok.
    + intros ino k e (_ & _ & ->)%test_root_cached. done.
  - intros ino _ Hu k e (-> & _)%test_root_cached. by vm_compute in Hu.
Qed.

Lemma test_root_dir : dir_cached test_root_fs 2 0 test_root_entry (dot_entries 1024 2 2).
Proof.
  destruct test_dir_loaded as (_ & _ & _ & _ & _ & Hz & Hds).
  assert (EXT4_BLOCK_SIZE test_sb_tables = 1024) as HB by (vm_compute; reflexivity).
  assert (EXT4_BLOCK_SIZE (fs_sb test_dir_fs) = 1024) as HB0 by (vm_compute; reflexivity). rewrite HB0 in *.
  split; cbn [test_root_fs put_entry set_fs_icache test_base_fs fs_sb fs_dcache fs_disk fs_icache]; rewrite ?HB.
  - split_and!; [done.. | vm_compute; discriminate | done].
  - split; [done|]. split; [done|]. unfold dir_block.
    cbn [test_root_fs put_entry set_fs_icache test_base_fs fs_sb fs_dcache fs_disk fs_icache]. rewrite HB.
    split; [lia|]. split; [|done]. exists test_root_entry. split; vm_compute; reflexivity.
  - repeat constructor; discriminate.
  - apply (bool_decide_unpack _). vm_compute. exact I.
  - vm_compute. discriminate.
  - vm_compute. reflexivity.
  - apply Forall_cons; split; [right; vm_compute; discriminate|].
    apply Forall_cons; split; [left; vm_compute; discriminate | constructor].
Qed.

(** The value of a run. *)
Definition result_of {A} (o : outcome (A * fs)) : outcome A := '(a, _) ← o; Ok a.

(** [/a] is created with inode 3, the first free number of group 0. *)
Lemma op_create_spec_witness :
  ∃ s' ino, op_create (cstr "/a") 33188 test_root_fs = Ok (0, s') ∧ mounted s' ∧ icache_ok s' ∧
    (∀ j, 1 ≤ j → inode_used test_sb_tables (fs_i_bitmap s') j =
       (j =? ino) || inode_used test_sb_tables (test_ib 3 0) j).
Proof.
  destruct test_root_ok as (Hm & Hok & Hfree). destruct test_fs_root as (Hdc & [Hpok Hpi] & _).
  assert (result_of (op_create (cstr "/a") 33188 test_root_fs) = Ok 0) as H0 by (vm_compute; reflexivity).
  destruct (op_create_spec test_root_fs {[ 1%positive := [] ]} (cstr "/a") (cstr "/") (cstr "a") 33188 2 0
    test_root_entry [mk_dent 2 12 EXT4_FT_DIR (cstr ".")] (mk_dent 2 1000 EXT4_FT_DIR (cstr "..")))
    as [(s' & ino & Hrun & Hm' & Hok' & _ & _ & Hused & _)|[(s' & Hrun & _)|[[Hrun _]|[Hrun _]]]];
    [exact Hm | exact Hok | exact Hfree | exact Hdc | vm_compute; reflexivity | exact Hpok | exact Hpi
    | vm_compute; reflexivity | split; vm_compute; (reflexivity || discriminate)
    | apply (bool_decide_unpack _); vm_compute; exact I | exact test_root_dir | left; reflexivity
    | vm_compute; discriminate | vm_compute; reflexivity
    | split; [vm_compute; reflexivity | repeat constructor; vm_compute; discriminate]
    | | clear - Hrun H0; rewrite Hrun in H0; discriminate H0..].
  exists s', ino. split; [exact Hrun|]. split; [exact Hm'|]. split; [exact Hok' | exact Hused].
Defined.
