(* ===== verification/Listing.v ===== *)
(** * Listing a directory

    [src/op_readdir.c] on a directory that is in the caches.  The definitions
    of the code are those of [OpsAttr.v]; the callback of libfuse is an
    argument. *)

From S2P Require Import Prelude Ext4 Disk Bitmap InodeMap Decache Fs Cache Dentry Dir InodePath OpsAttr OpsName.
From stdpp Require Import base numbers list gmap strings.
From Stdlib Require Import ZArith Lia.

Open Scope Z_scope.
Open Scope kfs_scope.

(** What the callback gets for entries from offset [p] on: the name and the
    offset of the entry that follows. *)
Fixpoint shown (p : Z) (ds : list dent) : list (list Z * Z) :=
  match ds with
  | [] => []
  | d :: ds => (d_name d, p + d_len d) :: shown (p + d_len d) ds
  end.

(** Names the buffer of the loop has room for. *)
Definition name_fits (d : dent) : Prop := (0 ∉ d_name d) ∧ d_name d ≠ [] ∧ zlen (d_name d) ≤ EXT4_NAME_LEN.

Lemma until_nul_id bs : (0 ∉ bs) → until_nul bs = bs.
Proof.
  induction bs as [|b bs IH]; intros Hn; [done|]. apply not_elem_of_cons in Hn as [Hb Hn]. cbn.
  rewrite (proj2 (Z.eqb_neq b 0)) by congruence. by rewrite IH.
Qed.

Lemma shown_last p ds d : last (shown p (ds ++ [d])) = Some (d_name d, p + dents_len (ds ++ [d])).
Proof.
  revert p. induction ds as [|x ds IH]; intros p; cbn [app].
  - cbn. do 2 f_equal. rewrite dents_len_cons. change (dents_len []) with 0. lia.
  - cbn [shown]. rewrite last_cons, IH, dents_len_cons. do 2 f_equal. lia.
Qed.

Lemma tail_rec_len buf p : tail_at buf p → rec_rec_len buf p = Ok EXT4_DE_TAIL_SIZE.
Proof.
  intros H. pose proof (buf_read_part _ _ _ _ 4 2 H) as H4. apply (buf_load_read 2 _ _ _ (H4 ltac:(lia) ltac:(lia) ltac:(lia))).
Qed.

(** The loop hands out a prefix of the entries, up to the first one the
    callback refuses. *)
Lemma readdir_loop_run s i inode_idx ds0 filler fuel p ds acc : dir_block s i ds0 →
  dents_at (EXT4_BLOCK_SIZE (fs_sb s)) (dc_buf (fs_dcache s)) p ds → 0 ≤ p → zlen ds < Z.of_nat fuel → Forall name_fits ds →
  ∃ n, (n ≤ length ds)%nat ∧ readdir_loop fuel filler i inode_idx p acc s = Ok (acc ++ shown p (take n ds), s) ∧
    ∀ m d, (m ≤ n)%nat → ds !! m = Some d →
      filler (acc ++ shown p (take m ds)) (d_name d) (p + dents_len (take m ds) + d_len d) = (m =? n)%nat.
Proof.
  intros Hdir. revert fuel p acc. induction ds as [|d ds IH]; intros fuel p acc Hds Hp Hfuel Hn;
    destruct fuel as [|fuel]; try (unfold zlen in Hfuel; cbn in Hfuel; lia).
  - destruct Hds as [-> Ht]. pose proof (tail_rec_len _ _ Ht) as Hrl. exists 0%nat. split; [done|]. split; [|done].
    pose proof Hdir as (HB & _). unfold EXT4_DE_TAIL_SIZE in *. cbn [readdir_loop shown take]. rewrite app_nil_r.
    erewrite M_bind_Ok by (eapply dentry_next_here; [exact Hdir | lia]). cbn match.
    erewrite M_bind_Ok by (apply with_buf_run; exact Hrl). by erewrite M_bind_Ok by (by apply de_is_tail_tail).
  - pose proof (dents_at_end _ _ _ _ Hds) as Hend. destruct Hds as [Hd Hds].
    pose proof (dents_at_count _ _ _ _ Hds) as Hl'. rewrite dents_len_cons, zlen_cons in *.
    unfold EXT4_DE_TAIL_SIZE in Hend. pose proof (zlen_nonneg ds). apply Forall_cons in Hn as [(Hz & Hne & Hlen) Hn].
    pose proof Hd as [(R1 & R2 & R3 & R4 & R5) Hok]. pose proof (dent_len _ Hok). pose proof (zlen_nonneg (d_name d)).
    pose proof Hdir as (HB & _).
    assert (with_buf (λ b, get_printable_name b p) s = Ok (d_name d, s)) as Hname.
    { apply with_buf_run. unfold get_printable_name. rewrite R3. cbn [obind]. rewrite R5. cbn [obind].
      rewrite (proj2 (Z.ltb_ge _ _) Hlen). by rewrite until_nul_id. }
    assert (u64 (p + d_len d) = p + d_len d) as Hu by (apply Z.mod_small; lia).
    assert (∃ c n', d_name d = c :: n') as (c & n' & Ename) by (destruct (d_name d); [done | eauto]).
    assert (readdir_loop (S fuel) filler i inode_idx p acc s =
      if filler acc (d_name d) (p + d_len d) then Ok (acc, s)
      else readdir_loop fuel filler i inode_idx (p + d_len d) (acc ++ [(d_name d, p + d_len d)]) s) as ->.
    { cbn [readdir_loop]. erewrite M_bind_Ok by (eapply dentry_next_here; [exact Hdir | lia]). cbn match.
      erewrite M_bind_Ok by (apply with_buf_run; exact R2). erewrite M_bind_Ok by (by eapply de_is_tail_dent). cbn match.
      erewrite M_bind_Ok by exact Hname. rewrite Hu, Ename. by destruct (filler _ _ _). }
    destruct (filler acc (d_name d) (p + d_len d)) eqn:Ef.
    + exists 0%nat. split; [lia|]. split; [cbn; by rewrite app_nil_r|]. intros m d' Hm Hd'. assert (m = 0%nat) as -> by lia.
      injection Hd' as <-. cbn [take shown]. change (dents_len []) with 0. by rewrite app_nil_r, Z.add_0_r.
    + destruct (IH fuel (p + d_len d) (acc ++ [(d_name d, p + d_len d)])) as (n & Hnl & Hrun & Hstop); [done|lia|lia|done|].
      exists (S n). split; [cbn; lia|]. cbn [take shown]. rewrite <- (app_assoc acc) in Hrun. split; [exact Hrun|].
      intros [|m] d' Hm Hd'; cbn [take shown].
      * injection Hd' as <-. change (dents_len []) with 0. by rewrite app_nil_r, Z.add_0_r.
      * rewrite dents_len_cons, Z.add_assoc. specialize (Hstop m d' ltac:(lia) Hd').
        by rewrite <- (app_assoc acc) in Hstop.
Qed.

(** ** Properties *)

(** C16: Listing a directory.  On a path to a directory that is in the caches,
    from an offset where an entry starts, [op_readdir] returns 0 and hands the
    callback the names of the entries from there on, in order and each with
    the offset of the entry after it, up to the first entry the callback
    refuses; the offset of the last entry it took is where a later call goes
    on, so no name is skipped or shown twice.  No inode changes, and the
    directory stays in the caches. *)
Theorem op_readdir_spec (s : fs) (tr : tree) (path : list Z) (p : Z) (k : nat) (e : icache_entry) (ds1 ds2 : list dent)
    (filler : list (list Z * Z) → list Z → Z → bool) :
  mounted s → icache_ok s → decache_ok (fs_decache s) tr → path_ok path → path_inode (fs_decache s) tr path p →
  dir_cached s p k e (ds1 ++ ds2) → Forall name_fits ds2 →
  ∃ n s' e', op_readdir filler path (dents_len ds1) s = Ok ((0, shown (dents_len ds1) (take n ds2)), s') ∧
    (∀ m d, (m ≤ n)%nat → ds2 !! m = Some d →
       filler (shown (dents_len ds1) (take m ds2)) (d_name d) (dents_len (ds1 ++ take m ds2) + d_len d) = (m =? n)%nat) ∧
    (n ≤ length ds2)%nat ∧
    (∀ x, last (shown (dents_len ds1) (take n ds2)) = Some x → x.2 = dents_len (ds1 ++ take n ds2)) ∧
    mounted s' ∧ icache_ok s' ∧ dir_cached s' p k e' (ds1 ++ ds2) ∧ ∀ j, inode_view s' j = inode_view s j.
Proof.
  intros Hm Hok Hdc Hpok Hpi Hd Hn. pose proof (dd_cached _ _ _ _ _ Hd) as Hc. destruct (io_entry s Hok _ _ _ Hc) as [Hin _].
  assert (p ≠ 0) as H0 by (unfold inode_in in Hin; lia).
  destruct (inode_get_hit s p k e Hok Hc H0) as (l1 & Hget & _).
  destruct (touched_ok s p k e l1 (ic_last_de e) Hm Hok Hc) as (Hm1 & Hok1 & _ & Hc1 & Hv1).
  pose proof (dir_touched s Hm Hok p k e _ Hd l1 (ic_last_de e)) as Hd1. set (s1 := touched s k e l1 (ic_last_de e)) in *.
  destruct (dir_init_run s1 Hok1 p k _ _ Hd1) as (l2 & Hinit & _). cbn [touch ic_last_de] in Hinit.
  destruct (touched_ok s1 p k _ l2 (ic_last_de e) Hm1 Hok1 Hc1) as (Hm2 & Hok2 & _ & _ & Hv2).
  pose proof (dir_touched s1 Hm1 Hok1 p k _ _ Hd1 l2 (ic_last_de e)) as Hd2. set (s2 := touched s1 k _ l2 (ic_last_de e)) in *.
  destruct (dir_get_inode s2 p k _ _ Hd2) as [Hino Hsz].
  pose proof Hd2 as [_ (_ & _ & Hblk) _ _ _ _ _]. pose proof Hblk as (HB & _ & _ & _ & Hds).
  pose proof (dents_at_app _ _ _ _ _ Hds) as [Hds2 _]. rewrite Z.add_0_l in Hds2.
  pose proof (dents_at_len _ _ _ _ _ Hds) as Hlen1. pose proof (dents_at_end _ _ _ _ Hds2) as Hend.
  pose proof (dents_at_count _ _ _ _ Hds2) as Hcnt. unfold EXT4_DE_TAIL_SIZE in Hend. pose proof (zlen_nonneg ds1). pose proof (zlen_nonneg ds2).
  destruct (readdir_loop_run s2 (Z.of_nat k) p _ filler (Z.to_nat (EXT4_BLOCK_SIZE (fs_sb s2) + 2)) (dents_len ds1) ds2 [] Hblk Hds2)
    as (n & Hnl & Hrun & Hstop); [lia|lia|done|].
  exists n, s2. eexists. split_and!; [| | done | | done | done | exact Hd2 |].
  - assert (inode_get_by_path path s = Ok (inr (Z.of_nat k, p), s1)) as Hpath.
    { unfold inode_get_by_path. run (cached_path_run s tr path p Hdc Hpok Hpi). rewrite (proj2 (Z.eqb_neq _ _) H0). by run Hget. }
    unfold op_readdir. run Hpath. run Hinit. run Hino. rewrite Hsz. replace (u64 (dents_len ds1)) with (dents_len ds1) by (symmetry; apply Z.mod_small; lia).
    by run Hrun.
  - intros m d Hmn Hdn. rewrite dents_len_app. by apply Hstop.
  - intros x. rewrite dents_len_app. destruct (take n ds2) as [|d l] eqn:El using rev_ind; [done|]. rewrite shown_last. by intros [= <-].
  - intros j. by rewrite Hv2, Hv1.
Qed.

Lemma op_readdir_spec_witness :
  ∃ n s', op_readdir (λ _ _ _, false) (cstr "/") 0 test_root_fs = Ok ((0, shown 0 (take n (dot_entries 1024 2 2))), s').
Proof.
  destruct test_root_ok as (Hm & Hok & _). destruct test_fs_root as (Hdc & [Hpok Hpi] & _).
  destruct (op_readdir_spec test_root_fs {[ 1%positive := [] ]} (cstr "/") 2 0 test_root_entry [] (dot_entries 1024 2 2) (λ _ _ _, false))
    as (n & s' & e' & Hrun & _);
    [exact Hm | exact Hok | exact Hdc | exact Hpok | exact Hpi | exact test_root_dir | |].
  - repeat apply Forall_cons_2; try apply Forall_nil_2; (split; [|split; [discriminate | vm_compute; discriminate]]);
      apply (bool_decide_unpack _); vm_compute; exact I.
  - exists n, s'. exact Hrun.
Defined.
