(* ===== verification/Links.v ===== *)
(** * Hard links

    [src/op_link.c] for a file and a directory that are both in the caches.
    The definition of the code is [op_link] of [OpsName.v]. *)

From S2P Require Import Prelude Ext4 Disk Bitmap InodeMap Decache Fs Cache Dentry Dir InodePath OpsAttr OpsName.
From stdpp Require Import base numbers list gmap strings.
From Stdlib Require Import ZArith Lia.

Open Scope Z_scope.
Open Scope kfs_scope.

(** An entry of the icache other than the directory's may change. *)
Lemma dir_other s p k e ds j e' cnt : dir_cached s p k e ds → j ≠ k → icache_count (fs_icache s) ≤ cnt →
  dir_cached (put_entry j e' cnt s) p k e ds.
Proof.
  intros [Hc Hl Hn Hb Hlen Hmax Hdata] Hj Hcnt. pose proof Hc as (He & Hk & Hst & Hidx).
  assert ((<[j := e']> (icache_entries (fs_icache s))) !! k = Some e) as He' by by rewrite list_lookup_insert_ne.
  split; try done; [split; [done|]; cbn; split; [lia | done]|].
  apply (dir_loaded_same s _ _ _ _ e e); try done; apply arr_get_Ok; rewrite ?Nat2Z.id; done || lia.
Qed.

(** The path of a cached inode: its entry is only used once more. *)
Lemma cached_file_run s tr path ino k e :
  icache_ok s → decache_ok (fs_decache s) tr → path_ok path → path_inode (fs_decache s) tr path ino →
  ino ≠ 0 → cached s ino k e →
  ∃ lru, inode_get_by_path path s = Ok (inr (Z.of_nat k, ino), touched s k e lru (ic_last_de e)).
Proof.
  intros Hok Hdc Hp Hpi H0 Hc. destruct (inode_get_hit s ino k e Hok Hc H0) as (lru & Hget & _). exists lru.
  unfold inode_get_by_path. run (cached_path_run s tr path ino Hdc Hp Hpi).
  rewrite (proj2 (Z.eqb_neq _ _) H0). by run Hget.
Qed.

(** The inode with one more link. *)
Definition linked (n : ext4_inode) : ext4_inode := set_i_links_count (u16 (i_links_count n + 1)) n.

Lemma linked_struct_ok n : struct_ok n → struct_ok (linked n).
Proof. intros H. unfold linked. auto with inode_ok. Qed.

Lemma linked_eq n : struct_ok n → i_links_count n ≠ UINT16_MAX →
  linked n = set_i_links_count (i_links_count n + 1) n.
Proof.
  intros (_ & _ & H & _)%inode_ok_iff Hmax. unfold linked. f_equal.
  assert (in_width 2 (i_links_count n)) as [? Hw] by by repeat (apply Forall2_cons in H as [? H]).
  change (2 ^ _) with 65536 in Hw. unfold UINT16_MAX in Hmax. unfold u16. rewrite Z.mod_small by lia. done.
Qed.

#[export] Instance fits_dec d name : Decision (fits d name).
Proof. unfold fits. apply _. Defined.

(** The part of [op_link] that adds the entry of the second name, once the
    directory is found. *)
Definition link_entry (i to_dir : inode_slot) (inode_idx to_dir_idx : Z) (to : list Z) : K Z :=
  last_de ⇐ dentry_last to_dir to_dir_idx;
  name ⇐ lift (basename to);
  last_de ⇐ deref_de last_de;
  space ⇐ dentry_has_enough_space last_de (zlen name);
  if space <? 0 then ret (- ENOSPC)
  else
    inode ⇐ get_inode i;
    new_de ⇐ dentry_create last_de name inode_idx (inode_mode2type (i_mode inode));
    dcache_write_back ;;;
    ICACHE_SET_LAST_DE to_dir (Some new_de) ;;;
    ret 0.

Section link.
Context (s : fs) (Hm : mounted s) (Hok : icache_ok s).
Context (p : Z) (k : nat) (e : icache_entry) (ds : list dent) (d : dent).
Context (Hd : dir_cached s p k e (ds ++ [d])) (Hlast : last_ok e (ds ++ [d])).
Context (to name : list Z) (Hbase : basename to = Ok name) (Hn : 0 < zlen name ≤ 255) (Hbn : Forall byte_ok name).
Context (ino : Z) (ki : nat) (ei : icache_entry) (Hc : cached s ino ki ei) (Hne : ki ≠ k).

Lemma link_entry_full : ¬ fits d name →
  ∃ s', link_entry (Z.of_nat ki) (Z.of_nat k) ino p to s = Ok (- ENOSPC, s') ∧ mounted s' ∧ icache_ok s' ∧
    fs_dcache s' = fs_dcache s ∧ fs_disk s' = fs_disk s ∧ fs_sb s' = fs_sb s ∧ ∀ j, inode_view s' j = inode_view s j.
Proof.
  intros Hfit. destruct (dentry_last_run s p k e _ Hm Hok Hd Hlast) as (l & Hrun & _).
  rewrite last_in_app, Z.add_0_l in Hrun. pose proof (dd_cached _ _ _ _ _ Hd) as Hcd.
  destruct (touched_ok s p k e l (Some (dents_len ds)) Hm Hok Hcd) as (Hm1 & Hok1 & _ & _ & Hv1).
  eexists. split; [|split_and!; [exact Hm1 | exact Hok1 | done.. | exact Hv1]].
  unfold link_entry. run Hrun. erewrite M_bind_Ok by (unfold lift; by rewrite Hbase).
  erewrite M_bind_Ok by done. pose proof Hd as [_ (_ & _ & _ & _ & _ & _ & Hds) _ _ _ _ _].
  apply dents_at_app in Hds as [[Hat _] _]. rewrite Z.add_0_l in Hat.
  erewrite M_bind_Ok.
  2:{ unfold dentry_has_enough_space, with_buf, sbind, gets, lift. cbn [obind touched put_entry set_fs_icache fs_dcache].
      rewrite (has_enough_space_ok _ _ d) by (done || lia). unfold fits in Hfit.
      by rewrite (proj2 (Z.leb_gt _ _)) by lia. }
  done.
Qed.

Lemma link_entry_run : fits d name → 0 ≤ ino < 2 ^ 32 →
  ∃ s', link_entry (Z.of_nat ki) (Z.of_nat k) ino p to s = Ok (0, s') ∧ mounted s' ∧ icache_ok s' ∧
    dents_at (EXT4_BLOCK_SIZE (fs_sb s)) (dc_buf (fs_dcache s')) 0
      (add_entry ds d ino (inode_mode2type (i_mode (ic_inode ei))) name) ∧ dir_flushed s' ∧ same_names s s' ∧
    ∀ j, inode_in (fs_sb s) j → inode_view s' j = inode_view s j.
Proof.
  intros Hfit Hino. destruct (dentry_last_run s p k e _ Hm Hok Hd Hlast) as (l & Hrun & _).
  rewrite last_in_app, Z.add_0_l in Hrun. pose proof (dd_cached _ _ _ _ _ Hd) as Hcd. pose proof Hc as (Hei & _).
  destruct (touched_ok s p k e l (Some (dents_len ds)) Hm Hok Hcd) as (Hm1 & Hok1 & Hr1 & _ & Hv1).
  pose proof (dir_touched s Hm Hok p k e _ Hd l (Some (dents_len ds))) as Hd1.
  assert (get_inode (Z.of_nat ki) (touched s k e l (Some (dents_len ds))) =
    Ok (ic_inode ei, touched s k e l (Some (dents_len ds)))) as Hget.
  { apply get_inode_run, arr_get_Ok; [lia|]. rewrite Nat2Z.id. cbn. by rewrite list_lookup_insert_ne. }
  set (s1 := touched s k e l _) in *. set (ft := inode_mode2type _) in *.
  destruct (dir_create_run s1 p k _ ds d name ino ft Hm1 Hok1 Hd1 Hn Hbn Hino (mode2type_range _) Hfit)
    as (s2 & de & Hl2 & Hspace & Hcreate & Hm2 & Hok2 & Hd2 & Hn2 & _ & Hv2).
  fold (add_entry ds d ino ft name) in Hl2, Hd2.
  destruct (dir_write_back s2 Hm2 Hok2 p k _ _ Hd2) as (s3 & Hwb & Hm3 & Hok3 & Hd3 & Hfl & Hn3 & _ & _ & Hv3).
  pose proof (dd_cached _ _ _ _ _ Hd3) as Hc3. pose proof (set_last_de_run s3 p k _ (Some de) Hok3 Hc3) as Hset.
  destruct (touched_ok s3 p k _ l (Some de) Hm3 Hok3 Hc3) as (Hm4 & Hok4 & Hr4 & _ & Hv4).
  pose proof Hn2 as (Hsb2 & _). pose proof Hn3 as (Hsb3 & _).
  pose proof Hd3 as [_ (_ & _ & _ & _ & _ & _ & Hds) _ _ _ _ _]. rewrite Hsb3, Hsb2 in Hds.
  eexists. split; [|split_and!; [exact Hm4 | exact Hok4 | exact Hds | exact Hfl | |]].
  - unfold link_entry. run Hrun. erewrite M_bind_Ok by (unfold lift; by rewrite Hbase).
    erewrite M_bind_Ok by done. run Hspace. cbn [Z.ltb Z.compare]. run Hget. run Hcreate. run Hwb. by run Hset.
  - eapply same_names_trans; [by apply same_rest_names|]. eapply same_names_trans; [exact Hn2|].
    eapply same_names_trans; [exact Hn3 | by apply same_rest_names].
  - intros j Hj. rewrite Hv4, Hv3, Hv2; [apply Hv1|]. by rewrite Hsb2.
Qed.

End link.

(** From the change of the link count on. *)
Lemma link_cached_run s tr to dir name ino p ki k ei e ds d :
  mounted s → icache_ok s → decache_ok (fs_decache s) tr → cached s ino ki ei →
  parent_path to = Ok dir → path_ok dir → path_inode (fs_decache s) tr dir p → ino ≠ p → ki ≠ k →
  basename to = Ok name → 0 < zlen name ≤ 255 → Forall byte_ok name →
  dir_cached s p k e (ds ++ [d]) → last_ok e (ds ++ [d]) → i_links_count (ic_inode ei) ≠ UINT16_MAX →
  ∃ r s', (upd_inode (Z.of_nat ki) linked ;;; ICACHE_SET_DIRTY (Z.of_nat ki) ;;;
      r ⇐ inode_get_parent_by_path to;
      match r with
      | inl _ => ret (- ENOENT)
      | inr (to_dir, to_dir_idx) => link_entry (Z.of_nat ki) to_dir ino to_dir_idx to
      end) s = Ok (r, s') ∧ mounted s' ∧ icache_ok s' ∧
    (∀ j, inode_in (fs_sb s) j → j ≠ ino → inode_view s' j = inode_view s j) ∧
    inode_view s' ino = Ok (set_i_links_count (i_links_count (ic_inode ei) + 1) (ic_inode ei)) ∧
    ((r = 0 ∧ fits d name ∧ dir_flushed s' ∧
      dents_at (EXT4_BLOCK_SIZE (fs_sb s)) (dc_buf (fs_dcache s')) 0
        (add_entry ds d ino (inode_mode2type (i_mode (ic_inode ei))) name)) ∨
     (r = - ENOSPC ∧ ¬ fits d name ∧ fs_dcache s' = fs_dcache s ∧ fs_disk s' = fs_disk s)).
Proof.
  intros Hm Hok Hdc Hc Hdir Hpok Hpi Hne Hki Hbase Hn Hbn Hd Hlast Hmax.
  destruct (io_entry s Hok _ _ _ Hc) as [Hin Hst]. pose proof (linked_eq _ Hst Hmax) as Hlk.
  pose proof (upd_dirty_run s ino ki ei linked Hok Hc) as Hupd. pose proof Hc as (_ & _ & _ & Hidx).
  destruct (restore_ok s ino ki ei (dirtied ei (linked (ic_inode ei))) Hm Hok Hc)
    as (Hm1 & Hok1 & Hr1 & Hc1 & Hv1 & Hvo1); try done; [by apply linked_struct_ok|].
  pose proof (dir_other s p k e _ ki (dirtied ei (linked (ic_inode ei))) _ Hd Hki (Z.le_refl _)) as Hd1.
  set (e1 := dirtied _ _) in *. set (s1 := put_entry ki e1 _ s) in *.
  pose proof (dd_cached _ _ _ _ _ Hd1) as Hcd1. destruct (io_entry s1 Hok1 _ _ _ Hcd1) as [Hp _].
  destruct (cached_parent_run s1 tr to dir p k e Hok1 Hdc Hdir Hpok Hpi ltac:(unfold inode_in in Hp; lia) Hcd1)
    as (l & Hpar & _).
  destruct (touched_ok s1 p k e l (ic_last_de e) Hm1 Hok1 Hcd1) as (Hm2 & Hok2 & Hr2 & _ & Hv2).
  pose proof (dir_touched s1 Hm1 Hok1 p k e _ Hd1 l (ic_last_de e)) as Hd2.
  assert (cached (touched s1 k e l (ic_last_de e)) ino ki e1) as Hc2.
  { destruct Hc1 as (E & ? & ? & ?). split; [|done]. cbn. by rewrite list_lookup_insert_ne. }
  set (s2 := touched s1 k e l _) in *. apply M_bind_Ok_inv in Hupd as ([] & s0 & Hu & Hdirty).
  destruct (decide (fits d name)) as [Hfit|Hfit].
  - destruct (link_entry_run s2 Hm2 Hok2 p k _ ds d Hd2 Hlast to name Hbase Hn Hbn ino ki e1 Hc2 Hki Hfit)
      as (s3 & Hrun & Hm3 & Hok3 & Hds & Hfl & _ & Hv3).
    { unfold inode_in in Hin. pose proof (mt_geo s Hm) as (?&?&?&?&?&?&?). lia. }
    exists 0, s3. split; [run Hu; run Hdirty; by run Hpar|]. split_and!; try done.
    + intros j Hj Hji. rewrite Hv3, Hv2 by done. by apply Hvo1.
    + rewrite Hv3, Hv2, Hv1 by done. by rewrite <- Hlk.
    + left. done.
  - destruct (link_entry_full s2 Hm2 Hok2 p k _ ds d Hd2 Hlast to name Hbase Hn ino ki Hki Hfit)
      as (s3 & Hrun & Hm3 & Hok3 & Hdc3 & Hdk3 & _ & Hv3).
    exists (- ENOSPC), s3. split; [run Hu; run Hdirty; by run Hpar|]. split_and!; try done.
    + intros j Hj Hji. rewrite Hv3, Hv2. by apply Hvo1.
    + rewrite Hv3, Hv2, Hv1. by rewrite <- Hlk.
    + right. done.
Qed.

(** ** Properties *)

(** C15: Hard links.  For a file and a directory that are in the caches,
    [op_link] refuses a directory with [-EPERM] and a file with 65535 links
    with [-EMLINK], and no inode, directory buffer or disk byte changes.  Otherwise the link count of the
    file goes up by one and no other inode changes; when the directory has
    room for the name it returns 0, and the directory has the name with the
    number and the type of the file after the entries it had, in the cache and
    on the disk; when it has not, it returns [-ENOSPC] and the directory is
    as it was, but the link count has gone up all the same. *)
Theorem op_link_spec (s : fs) (tr : tree) (from to dir name : list Z) (ino p : Z) (ki k : nat)
    (ei e : icache_entry) (ds : list dent) (d : dent) :
  mounted s → icache_ok s → decache_ok (fs_decache s) tr →
  path_ok from → path_inode (fs_decache s) tr from ino → cached s ino ki ei →
  parent_path to = Ok dir → path_ok dir → path_inode (fs_decache s) tr dir p → ino ≠ p →
  basename to = Ok name → 0 < zlen name ≤ 255 → Forall byte_ok name →
  dir_cached s p k e (ds ++ [d]) → last_ok e (ds ++ [d]) →
  let n := ic_inode ei in
  ∃ r s', op_link from to s = Ok (r, s') ∧ mounted s' ∧ icache_ok s' ∧
    (∀ j, inode_in (fs_sb s) j → j ≠ ino → inode_view s' j = inode_view s j) ∧
    if S_ISDIR (i_mode n) then r = - EPERM ∧ inode_view s' ino = Ok n ∧ fs_dcache s' = fs_dcache s ∧ fs_disk s' = fs_disk s
    else if i_links_count n =? UINT16_MAX then r = - EMLINK ∧ inode_view s' ino = Ok n ∧ fs_dcache s' = fs_dcache s ∧ fs_disk s' = fs_disk s
    else inode_view s' ino = Ok (set_i_links_count (i_links_count n + 1) n) ∧
      ((r = 0 ∧ fits d name ∧ dir_flushed s' ∧
        dents_at (EXT4_BLOCK_SIZE (fs_sb s)) (dc_buf (fs_dcache s')) 0
          (add_entry ds d ino (inode_mode2type (i_mode n)) name)) ∨
       (r = - ENOSPC ∧ ¬ fits d name ∧ fs_dcache s' = fs_dcache s ∧ fs_disk s' = fs_disk s)).
Proof.
  intros Hm Hok Hdc Hpf Hif Hc Hdir Hpok Hpi Hne Hbase Hn Hbn Hd Hlast n.
  destruct (io_entry s Hok _ _ _ Hc) as [Hin Hst]. pose proof (dd_cached _ _ _ _ _ Hd) as Hcd.
  destruct (io_entry s Hok _ _ _ Hcd) as [Hp _].
  assert (ki ≠ k) as Hki by (intros ->; destruct Hc as (E & _ & _ & <-), Hcd as (E' & _ & _ & <-); congruence).
  destruct (cached_file_run s tr from ino ki ei Hok Hdc Hpf Hif ltac:(unfold inode_in in Hin; lia) Hc) as (l1 & Hfrom).
  destruct (touched_ok s ino ki ei l1 (ic_last_de ei) Hm Hok Hc) as (Hm1 & Hok1 & Hr1 & Hc1 & Hv1).
  pose proof (dir_other s p k e _ ki (touch ei l1 (ic_last_de ei)) _ Hd Hki (Z.le_refl _)) as Hd1.
  fold (touched s ki ei l1 (ic_last_de ei)) in Hd1. set (s1 := touched s ki ei _ _) in *.
  set (e1 := touch ei _ _) in *. change n with (ic_inode e1). pose proof Hc1 as (He1 & _).
  assert (get_inode (Z.of_nat ki) s1 = Ok (ic_inode e1, s1)) as Hget
    by (apply get_inode_run, arr_get_Ok; [lia | by rewrite Nat2Z.id]).
  assert (inode_view s1 ino = Ok (ic_inode e1)) as Hview by by apply (view_cached s1 ino ki).
  destruct (S_ISDIR (i_mode (ic_inode e1))) eqn:Hisdir; [|destruct (i_links_count (ic_inode e1) =? UINT16_MAX) eqn:Hmax].
  - exists (- EPERM), s1. split; [|done]. unfold op_link. run Hfrom. run Hget. by rewrite Hisdir.
  - exists (- EMLINK), s1. split; [|done]. unfold op_link. run Hfrom. run Hget. by rewrite Hisdir, Hmax.
  - destruct (link_cached_run s1 tr to dir name ino p ki k e1 e ds d Hm1 Hok1) as (r & s' & Hrun & Hm' & Hok' & Hvo & Hrest);
      try done; [by apply Z.eqb_neq|].
    exists r, s'. split; [unfold op_link; run Hfrom; run Hget; rewrite Hisdir, Hmax; exact Hrun|].
    split; [done|]. split; [done|]. split; [|exact Hrest]. intros j Hj Hji. rewrite Hvo by done. apply Hv1.
Qed.

(** The root directory and a file [/b], inode 13, in the caches. *)
Definition test_file_entry : icache_entry :=
  mk_icache_entry (set_i_links_count 1 (set_i_mode 33188 zero_inode)) 13 0 ICACHE_S_DIRTY None.
Definition test_link_fs : fs := put_entry 1 test_file_entry 2 (set_fs_decache test_decache test_root_fs).

Lemma test_link_cached j k e : cached test_link_fs j k e →
  (j = 2 ∧ k = 0%nat ∧ e = test_root_entry) ∨ (j = 13 ∧ k = 1%nat ∧ e = test_file_entry).
Proof.
  intros (He & Hk & _ & Hj). cbn in Hk. assert (k = 0%nat ∨ k = 1%nat) as [-> | ->] by lia;
    cbn in He; injection He as <-; [by left | by right].
Qed.

Lemma test_link_ok : mounted test_link_fs ∧ icache_ok test_link_fs.
Proof.
  destruct test_root_ok as (Hm & Hok & _). split; [by destruct Hm; split|]. split.
  - vm_compute. reflexivity.
  - vm_compute. split; discriminate.
  - by intros ino k e k' e' [(-> & -> & _)|(-> & -> & _)]%test_link_cached [(? & -> & _)|(? & -> & _)]%test_link_cached.
  - intros ino k e [(-> & _ & ->)|(-> & _ & ->)]%test_link_cached;
      (split; [split; vm_compute; discriminate|]).
    + apply (SET_SIZE_ok zero_inode zero_inode_ok 1024).
    + apply set_i_links_count_ok; [|split; vm_compute; (reflexivity || discriminate)].
      apply (set_i_mode_ok zero_inode zero_inode_ok 33188).
  - by intros ino k e [(_ & _ & ->)|(_ & _ & ->)]%test_link_cached.
Qed.

Lemma op_link_spec_witness :
  ∃ r s', op_link (cstr "/b") (cstr "/e") test_link_fs = Ok (r, s') ∧ mounted s' ∧ icache_ok s' ∧
    inode_view s' 13 = Ok (set_i_links_count 2 (ic_inode test_file_entry)).
Proof.
  destruct test_link_ok as (Hm & Hok).
  destruct (op_link_spec test_link_fs test_tree (cstr "/b") (cstr "/e") (cstr "/") (cstr "e") 13 2 1 0
    test_file_entry test_root_entry [mk_dent 2 12 EXT4_FT_DIR (cstr ".")] (mk_dent 2 1000 EXT4_FT_DIR (cstr "..")))
    as (r & s' & Hrun & Hm' & Hok' & _ & Hv & _);
    [exact Hm | exact Hok | exact test_decache_ok | split | | | vm_compute; reflexivity | split | |
    | vm_compute; reflexivity | split; vm_compute; (reflexivity || discriminate)
    | apply (bool_decide_unpack _); vm_compute; exact I | | left; reflexivity |].
  all: try (apply (bool_decide_unpack _); vm_compute; exact I).
  - eexists _, _. split; [vm_compute; reflexivity|]. split; vm_compute; reflexivity.
  - split_and!; [done.. | vm_compute; discriminate | done].
  - eexists _, _. split; [vm_compute; reflexivity|]. split; vm_compute; reflexivity.
  - apply (dir_other (set_fs_decache test_decache test_root_fs)); [by destruct test_root_dir; split | done | vm_compute; discriminate].
  - exists r, s'. split; [exact Hrun|]. split; [exact Hm'|]. split; [exact Hok' | exact Hv].
Defined.
