(* ===== verification/OpsData.v ===== *)
(** * Reading and writing files

    [op_read.c] and [op_write.c] of [src/src].

    The loop of [op_read] reads at least a block per round (or nothing, for
    ever, if an extent of length 0 were found); the model gives it one round
    per block of the request and at most [READ_ROUNDS] of them. *)

From S2P Require Import Prelude Ext4 Disk Bitmap Extents InodeMap Decache Fs Cache Dentry.
From S2P Require Import InodePath OpsAttr.
From stdpp Require Import base numbers list gmap strings.
From Stdlib Require Import ZArith Lia.

Open Scope Z_scope.
Open Scope kfs_scope.

(** ** The inode of an open file or of a path *)

(** [inl] is the error; the number is known only for a path. *)
Definition get_open_inode (path : list Z) (fi : option fuse_file_info) :
    K (Z + inode_slot * option Z) :=
  match fi_inode fi with
  | Some fh =>
    r ⇐ inode_get_by_number fh;
    ret (match r with inl _ => inl (- ENOENT) | inr i => inr (i, None) end)
  | None =>
    r ⇐ inode_get_by_path path;
    ret (match r with inl _ => inl (- ENOENT) | inr (i, idx) => inr (i, Some idx) end)
  end.

(** ** Reading *)

(** A [size_t]: the error is a large number. *)
Definition truncate_size (inode : ext4_inode) (size offset : Z) : Z :=
  let inode_size := EXT4_INODE_GET_SIZE inode in
  if inode_size =? 0 then 0
  else if inode_size <=? offset then u64 (- EINVAL)
  else if inode_size <=? u64 (offset + size) then inode_size - offset
  else size.

(** The bytes [disk_read] stores into the rest of the caller's buffer, which
    has room for [room] bytes. *)
Definition read_into (room where_ n : Z) : K (list Z) :=
  bs ⇐ k_disk_read where_ n;
  if room <? n then lift (Fault Undefined) else ret bs.

Definition first_read (inode : ext4_inode) (room size offset : Z) : K (list Z) :=
  sb ⇐ gets fs_sb;
  let BS := EXT4_BLOCK_SIZE sb in
  let start_lblock := u32 (offset / BS) in
  let end_lblock := u32 (u64 (offset + u64 (size - 1)) / BS) in
  let start_block_off := u32 (offset mod BS) in
  '(start_pblock, _) ⇐ k_inode_get_data_pblock inode start_lblock;
  let where_ := u64 (BLOCKS2BYTES sb start_pblock + start_block_off) in
  if start_lblock =? end_lblock then read_into room where_ size
  else
    let size_to_block_end := ALIGN_TO_BLOCKSIZE sb offset - offset in
    massert ((offset + size_to_block_end) mod BS =? 0) ;;;
    read_into room where_ size_to_block_end.

Definition READ_ROUNDS : Z := 2 ^ 20.

(** [extent_len] is [None] while the variable is not initialised. *)
Fixpoint read_loop (fuel : nat) (inode : ext4_inode) (room size lblock : Z)
    (extent_len : option Z) (acc : list Z) : K (list Z) :=
  match fuel with
  | O => lift (Fault OutOfFuel)
  | S fuel =>
    let ret_ := zlen acc in
    if ret_ <? size then
      sb ⇐ gets fs_sb;
      '(pblock, len) ⇐ k_inode_get_data_pblock inode lblock;
      let extent_len := match len with Some l => Some l | None => extent_len end in
      l ⇐ lift (deref extent_len);
      let read_bytes := u64 (l * EXT4_BLOCK_SIZE sb) in
      let read_bytes := if size - ret_ <=? read_bytes then size - ret_ else read_bytes in
      bs ⇐ read_into (room - ret_) (BLOCKS2BYTES sb pblock) read_bytes;
      read_loop fuel inode room size (u32 (lblock + l)) extent_len (acc ++ bs)
    else ret acc
  end.

(** The return value and the bytes read; the caller's buffer has [size]
    bytes. *)
Definition op_read (path : list Z) (size offset : Z) (fi : option fuse_file_info) :
    K (Z * list Z) :=
  massert (0 <=? offset) ;;;
  r ⇐ get_open_inode path fi;
  match r with
  | inl e => ret (e, [])
  | inr (i, _) =>
    inode ⇐ get_inode i;
    sb ⇐ gets fs_sb;
    let room := size in
    let size := truncate_size inode size offset in
    if size <? 0 then ret (s32 size, [])
    else if size =? 0 then ret (0, [])
    else
      first ⇐ first_read inode room size offset;
      if zlen first =? size then ret (s32 (zlen first), first)
      else
        let un_offset := offset + zlen first in
        massert (un_offset mod EXT4_BLOCK_SIZE sb =? 0) ;;;
        let BS := EXT4_BLOCK_SIZE sb in
        bs ⇐ read_loop (Z.to_nat (Z.min READ_ROUNDS (size / BS + 2))) inode room size
               (u32 (un_offset / BS)) None first;
        massert (zlen bs =? size) ;;;
        ret (s32 (zlen bs), bs)
  end.

(** ** Writing *)

(** The loop over the blocks of a write of several blocks: what
    [disk_write] returned last and [remain]. *)
Fixpoint write_loop (n : nat) (i : inode_slot) (buf : list Z) (size offset start_lblock end_lblock
    start_block_off lblock : Z) (ret_ remain : Z) : K (Z + Z * Z) :=
  match n with
  | O => lift (Fault OutOfFuel)
  | S n =>
    if lblock <=? end_lblock then
      sb ⇐ gets fs_sb;
      let BS := EXT4_BLOCK_SIZE sb in
      let block_off := if lblock =? start_lblock then start_block_off else 0 in
      let block_size :=
        if lblock =? end_lblock then u64 (offset + size - lblock * BS) else u64 (BS - block_off) in
      massert (block_size <=? BS) ;;;
      inode ⇐ get_inode i;
      '(pblock, _) ⇐ reads (λ s,
        extent_get_pblock (fs_sb s) (fs_disk s) (i_block inode) (u32 lblock));
      bs ⇐ lift (buf_read buf 0 block_size);
      k_disk_write (u64 (BLOCKS2BYTES sb pblock + block_off)) bs ;;;
      let ret_ := s32 block_size in
      if negb (u64 ret_ =? block_size) then ret (inl (- EIO))
      else
        write_loop n i (drop (Z.to_nat block_size) buf) size offset start_lblock end_lblock
          start_block_off (lblock + 1) ret_ (u64 (remain - ret_))
    else ret (inr (ret_, remain))
  end.

(** [junk] is the value of the local [inode_idx], which is not set when the
    file is given by [fi->fh]. *)
Definition op_write (junk : Z) (path buf : list Z) (offset : Z) (fi : option fuse_file_info) :
    K Z :=
  let size := zlen buf in
  r ⇐ get_open_inode path fi;
  match r with
  | inl e => ret e
  | inr (i, idx) =>
    let inode_idx := default junk idx in
    p ⇐ k_check_permission i WRITE;
    if p <? 0 then ret (- EACCES)
    else
      sb ⇐ gets fs_sb;
      let BS := EXT4_BLOCK_SIZE sb in
      let start_lblock := u64 offset / BS in
      let end_lblock := u64 (offset + size - 1) / BS in
      let start_block_off := u32 (u64 offset mod BS) in
      r ⇐ (if start_lblock =? end_lblock then
             inode ⇐ get_inode i;
             pblock_idx ⇐
               (if EXT4_INODE_GET_BLOCKS inode =? 0 then
                  pblock_idx ⇐ k_bitmap_pblock_find inode_idx EXT4_INODE_PBLOCK_NUM;
                  inode_init_pblock i pblock_idx ;;; ret pblock_idx
                else
                  '(pblock_idx, _) ⇐ k_inode_get_data_pblock inode (u32 start_lblock);
                  ret pblock_idx);
             k_disk_write (u64 (BLOCKS2BYTES sb pblock_idx + start_block_off)) buf ;;;
             let ret_ := s32 size in
             if negb (u64 ret_ =? size) then ret (inl (- EIO))
             else ret (inr (ret_, u64 (size - ret_)))
           else
             write_loop (Z.to_nat (size / BS + 3)) i buf size offset start_lblock end_lblock
               start_block_off start_lblock 0 size);
      match r with
      | inl e => ret e
      | inr (ret_, remain) =>
        upd_inode i (EXT4_INODE_SET_SIZE (u64 (offset + size))) ;;;
        ICACHE_SET_DIRTY i ;;;
        massert (remain =? 0) ;;;
        ret ret_
      end
  end.

(** ** Files of one extent

    The files kfs itself writes have one extent, in the inode.  [e] is an
    extent of a tree of depth 0; the bytes of the file it maps lie in the
    image and outside the inode tables. *)
Record file_extent (s : fs) (inode : ext4_inode) (e : ext4_extent) : Prop := mk_file_extent {
  fe_block : 0 ≤ s_log_block_size (fs_sb s) ≤ 6;
  fe_flag : has (i_flags inode) EXT4_EXTENTS_FL = true;
  fe_tree : ∃ es, extents_of (fs_sb s) (fs_disk s) 0 (i_block inode) es ∧ e ∈ es;
  fe_image : (EXT4_EXT_GET_PADDR e + ee_len e) * EXT4_BLOCK_SIZE (fs_sb s) ≤ disk_len (fs_disk s) < 2 ^ 63;
  fe_tables : outside_tables s (EXT4_EXT_GET_PADDR e * EXT4_BLOCK_SIZE (fs_sb s)) (ee_len e * EXT4_BLOCK_SIZE (fs_sb s))
}.

(** Where byte [k] of the file is in the image. *)
Definition byte_addr (s : fs) (e : ext4_extent) (k : Z) : Z :=
  EXT4_EXT_GET_PADDR e * EXT4_BLOCK_SIZE (fs_sb s) + (k - ee_block e * EXT4_BLOCK_SIZE (fs_sb s)).

(** The [n] bytes at [k] are mapped by [e]. *)
Definition in_extent (s : fs) (e : ext4_extent) (k n : Z) : Prop :=
  0 < n ∧ ee_block e * EXT4_BLOCK_SIZE (fs_sb s) ≤ k ∧ k + n ≤ ee_end e * EXT4_BLOCK_SIZE (fs_sb s).

(** The [n] bytes at [k] are in the extent, or a run of the image that starts
    at a block of the extent and is no longer than it. *)
Definition in_run (s : fs) (e : ext4_extent) (k n : Z) : Prop :=
  in_extent s e k 1 ∧ 0 < n ∧ byte_addr s e k + n ≤ disk_len (fs_disk s) ∧
  k + n ≤ 2 ^ 32 * EXT4_BLOCK_SIZE (fs_sb s) ∧
  (in_extent s e k n ∨ k mod EXT4_BLOCK_SIZE (fs_sb s) = 0 ∧ n ≤ ee_len e * EXT4_BLOCK_SIZE (fs_sb s)).

Lemma block_size_pow sb : 0 ≤ s_log_block_size sb ≤ 6 →
  ∃ k, EXT4_BLOCK_SIZE sb = 2 ^ k ∧ 10 ≤ k ≤ 16 ∧ 1024 ≤ EXT4_BLOCK_SIZE sb ≤ 65536.
Proof.
  intros H. exists (s_log_block_size sb + 10). unfold EXT4_BLOCK_SIZE, u32.
  rewrite (Z.mod_small (_ + 10)), Z.shiftl_1_l by lia.
  assert (2 ^ 10 ≤ 2 ^ (s_log_block_size sb + 10) ≤ 2 ^ 16) by (split; apply Z.pow_le_mono_r; lia).
  unfold u64. rewrite Z.mod_small by lia. split; [done|]. split; lia.
Qed.

Section file.
Context (s : fs) (inode : ext4_inode) (e : ext4_extent) (Hfe : file_extent s inode e).
Local Abbreviation sb := (fs_sb s).
Local Abbreviation BS := (EXT4_BLOCK_SIZE sb).

Lemma extent_fields : 0 ≤ ee_block e ∧ 0 ≤ ee_len e < 2 ^ 16 ∧ ee_end e < 2 ^ 32 ∧ 0 ≤ EXT4_EXT_GET_PADDR e.
Proof.
  destruct (fe_tree _ _ _ Hfe) as (es & (_ & _ & Hf & _) & He).
  destruct (proj1 (Forall_forall _ _) Hf _ He) as [Hst Hend]. rewrite (EXT4_EXT_GET_PADDR_eq e Hst).
  destruct (ee_fields e Hst) as (?&?&?&?). lia.
Qed.

(** The lookup of a block of the extent, whatever the disk. *)
Lemma extent_block d l : ee_covers e l →
  extent_get_pblock sb d (i_block inode) l = Ok (EXT4_EXT_GET_PADDR e + (l - ee_block e), Some (ee_len e)).
Proof.
  intros Hc. destruct (fe_tree _ _ _ Hfe) as (es & Ht & He).
  by apply (small_tree_lookup sb d 0 (i_block inode) es e); [lia | exact Ht | |].
Qed.

Lemma data_block d l inode' : i_flags inode' = i_flags inode → i_block inode' = i_block inode → ee_covers e l →
  inode_get_data_pblock sb d inode' l = Ok (EXT4_EXT_GET_PADDR e + (l - ee_block e), Some (ee_len e)).
Proof.
  intros Hf Hb Hc. unfold inode_get_data_pblock. rewrite Hf, Hb, (fe_flag _ _ _ Hfe). by apply extent_block.
Qed.

(** A position in the extent: its block and the address of the block. *)
Lemma position k n : in_extent s e k n →
  ee_covers e (k / BS) ∧ 0 ≤ k / BS < 2 ^ 32 ∧ 0 ≤ k mod BS < BS ∧ k = BS * (k / BS) + k mod BS ∧
  BLOCKS2BYTES sb (EXT4_EXT_GET_PADDR e + (k / BS - ee_block e)) + k mod BS = byte_addr s e k ∧
  0 ≤ byte_addr s e k ∧ byte_addr s e k + n ≤ disk_len (fs_disk s).
Proof.
  intros (Hn & Hlo & Hhi). destruct (block_size_pow sb (fe_block _ _ _ Hfe)) as (_ & _ & _ & HB).
  destruct extent_fields as (? & Hlen & ? & ?). pose proof (fe_image _ _ _ Hfe) as Him.
  pose proof (Z.div_mod k BS ltac:(lia)) as Hdm. pose proof (Z.mod_pos_bound k BS ltac:(lia)) as Hmod.
  unfold ee_covers, ee_end in *. set (b := k / BS) in *. set (r := k mod BS) in *. set (B := BS) in *.
  assert (ee_block e ≤ b < ee_block e + ee_len e) as Hb by nia.
  split; [done|]. split; [lia|]. split; [done|]. split; [done|].
  unfold byte_addr, BLOCKS2BYTES. fold B. set (P := EXT4_EXT_GET_PADDR e) in *.
  assert (0 ≤ (P + (b - ee_block e)) * B < 2 ^ 63) by nia.
  assert (P + (b - ee_block e) < 2 ^ 63) by nia.
  unfold u64. rewrite (Z.mod_small (P + _)), Z.mod_small by nia. split; [nia|]. split; nia.
Qed.

Lemma in_extent_run k n : in_extent s e k n → in_run s e k n.
Proof.
  intros Hin. destruct (position k n Hin) as (_ & _ & _ & _ & _ & _ & Hlen).
  destruct (block_size_pow sb (fe_block _ _ _ Hfe)) as (_ & _ & _ & HB).
  destruct extent_fields as (_ & _ & Hend & _). pose proof Hin as (? & ? & ?).
  unfold in_run. split; [split_and!; lia|]. split; [done|]. split; [done|]. split; [|by left].
  transitivity (ee_end e * BS); [done|]. apply Z.mul_le_mono_nonneg_r; lia.
Qed.
End file.

(** The bytes of the file at [k]. *)
Definition file_bytes (s : fs) (e : ext4_extent) (k n : Z) : list Z :=
  read_bytes (disk_bytes (fs_disk s)) (byte_addr s e k) (Z.to_nat n).

Lemma file_extent_rest s s1 inode e : same_rest s s1 → file_extent s inode e → file_extent s1 inode e.
Proof.
  intros (Hsb & Hgdt & _ & _ & _ & _ & _ & _ & _ & _ & Hlen & _) [H1 H2 (es & Ht & He) H4 H5].
  split; rewrite ?Hsb, ?Hlen; try done.
  - exists es. split; [|done]. exact Ht.
  - unfold outside_tables. rewrite Hsb, Hgdt. exact H5.
Qed.

Lemma file_bytes_rest s s1 inode e k n : same_rest s s1 → file_extent s inode e → in_extent s e k n →
  file_bytes s1 e k n = file_bytes s e k n.
Proof.
  intros Hr Hfe Hin. pose proof Hr as (Hsb & _ & _ & _ & _ & _ & _ & _ & _ & _ & _ & Hby).
  unfold file_bytes, byte_addr. rewrite Hsb. apply read_bytes_ext. intros x Hx. apply Hby.
  eapply Forall_impl; [exact (fe_tables _ _ _ Hfe)|]. cbn. intros g Hg.
  destruct Hin as (? & ? & ?). unfold ee_end in *. lia.
Qed.

Lemma file_bytes_app s e k n m : 0 ≤ n → 0 ≤ m → file_bytes s e k (n + m) = file_bytes s e k n ++ file_bytes s e (k + n) m.
Proof.
  intros. unfold file_bytes. rewrite Z2Nat.inj_add, read_bytes_app by lia. do 2 f_equal.
  unfold byte_addr. lia.
Qed.

Lemma zlen_file_bytes s e k n : 0 ≤ n → zlen (file_bytes s e k n) = n.
Proof. intros. unfold file_bytes, zlen. rewrite length_read_bytes. lia. Qed.

Section reading.
Context (s : fs) (inode : ext4_inode) (e : ext4_extent) (Hfe : file_extent s inode e) (Hfd : 0 ≤ disk_fd (fs_disk s)).
Local Abbreviation sb := (fs_sb s).
Local Abbreviation BS := (EXT4_BLOCK_SIZE sb).

Lemma read_into_run k n room : 0 ≤ byte_addr s e k → byte_addr s e k + n ≤ disk_len (fs_disk s) →
  0 ≤ n ≤ MAX_RW_COUNT → n ≤ room →
  read_into room (byte_addr s e k) n s = Ok (file_bytes s e k n, s).
Proof.
  intros H0 Hlen Hmax Hroom. pose proof (fe_image _ _ _ Hfe).
  unfold read_into. erewrite M_bind_Ok by (unfold k_disk_read, reads; rewrite disk_read_Ok by lia; reflexivity).
  destruct (Z.ltb_spec room n); [lia|]. done.
Qed.

(** The part of the first block, from a position that is not its start. *)
Lemma first_read_run room n k :
  in_run s e k n → n ≤ MAX_RW_COUNT → n ≤ room →
  ∃ m, first_read inode room n k s = Ok (file_bytes s e k m, s) ∧ 0 ≤ m ≤ n ∧
    (m = n ∨ m < n ∧ (k + m) mod BS = 0 ∧ in_extent s e (k + m) 1 ∧ n - m ≤ ee_len e * BS).
Proof.
  intros (Hin & Hn & Hlen & H32 & Hor) Hmax Hroom. destruct (block_size_pow sb (fe_block _ _ _ Hfe)) as (p & Hp & Hp' & HB).
  destruct (position s inode e Hfe k 1 Hin) as (Hc & Hb & Hm & Hk & Haddr & H0 & _).
  pose proof (fe_image _ _ _ Hfe) as Him. pose proof Hin as (_ & Hlo & Hhi). pose proof MAX_RW_COUNT_eq.
  destruct (extent_fields s inode e Hfe) as (Hf1 & Hf2 & Hf3 & Hf4).
  assert (0 ≤ k + n - 1) as Hk0 by nia.
  assert (0 ≤ (k + n - 1) / BS < 2 ^ 32) as Hb2 by (split; [apply Z.div_pos; lia | apply Z.div_lt_upper_bound; lia]).
  pose proof (Z.div_mod (k + n - 1) BS ltac:(lia)) as Hk2. pose proof (Z.mod_pos_bound (k + n - 1) BS ltac:(lia)) as Hm2.
  unfold first_read. run. assert (u32 (k / BS) = k / BS) as -> by (apply Z.mod_small; lia).
  assert (u64 (k + u64 (n - 1)) = k + n - 1) as ->.
  { unfold u64. rewrite (Z.mod_small (n - 1)) by lia. rewrite Z.mod_small by nia. lia. }
  assert (u32 ((k + n - 1) / BS) = (k + n - 1) / BS) as -> by (apply Z.mod_small; lia).
  assert (u32 (k mod BS) = k mod BS) as -> by (apply Z.mod_small; lia).
  erewrite M_bind_Ok by (unfold k_inode_get_data_pblock, reads; by rewrite (data_block s inode e Hfe) by done).
  cbv beta iota. rewrite Haddr. assert (u64 (byte_addr s e k) = byte_addr s e k) as -> by (apply Z.mod_small; lia).
  destruct (Z.eqb_spec (k / BS) ((k + n - 1) / BS)) as [E|E].
  - exists n. rewrite read_into_run by (done || lia). split; [done|]. split; [lia | by left].
  - assert (ALIGN_TO_BLOCKSIZE sb k = (k + BS - 1) / BS * BS) as Hal
      by (unfold ALIGN_TO_BLOCKSIZE; rewrite Hp; apply ALIGN_TO_pow2; lia).
    rewrite Hal. set (a := (k + BS - 1) / BS) in *.
    pose proof (Z.div_mod (k + BS - 1) BS ltac:(lia)) as Hda. pose proof (Z.mod_pos_bound (k + BS - 1) BS ltac:(lia)) as Hma.
    fold a in Hda. set (m := a * BS - k) in *.
    assert (k / BS < (k + n - 1) / BS) as Hlt by (assert (k / BS ≤ (k + n - 1) / BS) by (apply Z.div_le_mono; lia); lia).
    assert (a < k / BS + 2) as Ha by (apply Z.div_lt_upper_bound; [lia|]; rewrite Z.mul_add_distr_l; lia).
    pose proof (Z.mul_le_mono_nonneg_l a ((k + n - 1) / BS) BS ltac:(lia) ltac:(lia)) as Hle.
    assert (0 ≤ m < n) as Hmn by (unfold m; rewrite (Z.mul_comm a); lia).
    replace (k + m) with (a * BS) by lia. rewrite Z_mod_mult. erewrite M_bind_Ok by reflexivity.
    exists m. split; [apply read_into_run; lia|]. split; [lia|]. right. split; [lia|].
    replace (k + m) with (a * BS) by lia. split; [apply Z_mod_mult|].
    replace (a * BS) with (k + m) by lia. destruct Hor as [(_ & _ & Hhi')|[Hz Hfit]].
    + split; [split_and!; lia|]. unfold ee_end in Hhi'. lia.
    + assert (m = 0) as Hm0; [|split; [split_and!; lia|lia]].
      unfold m, a. rewrite Hk, Hz, Z.add_0_r. rewrite (Z.mul_comm BS), <- Z.add_sub_assoc, Z.div_add_l by lia.
      rewrite (Z.div_small (BS - 1)) by lia. lia.
Qed.

(** The rest of the range is one round of the loop. *)
Lemma read_loop_run fuel room n k m :
  n ≤ MAX_RW_COUNT → n ≤ room → 0 ≤ m < n → (k + m) mod BS = 0 → in_extent s e (k + m) 1 →
  n - m ≤ ee_len e * BS → byte_addr s e k + n ≤ disk_len (fs_disk s) → (2 ≤ fuel)%nat →
  read_loop fuel inode room n (u32 ((k + m) / BS)) None (file_bytes s e k m) s = Ok (file_bytes s e k n, s).
Proof.
  intros Hmax Hroom Hm Hal Hin Hfit Hlen Hf. pose proof MAX_RW_COUNT_eq as HMX.
  destruct (block_size_pow sb (fe_block _ _ _ Hfe)) as (p & Hp & Hp' & HB).
  destruct (extent_fields s inode e Hfe) as (Hf1 & Hf2 & Hf3 & Hf4). pose proof (fe_image _ _ _ Hfe) as Him.
  destruct (position s inode e Hfe _ _ Hin) as (Hc & Hb & _ & Hk & Haddr & H0 & _).
  rewrite Hal, Z.add_0_r in Haddr. set (l := (k + m) / BS) in *.
  destruct fuel as [|[|fuel]]; [lia..|]. cbn [read_loop].
  rewrite zlen_file_bytes by lia. destruct (Z.ltb_spec m n); [|lia]. run.
  assert (u32 l = l) as -> by (apply Z.mod_small; lia).
  erewrite M_bind_Ok by (unfold k_inode_get_data_pblock, reads; by rewrite (data_block s inode e Hfe) by done).
  cbv beta iota. erewrite M_bind_Ok by reflexivity. unfold gets.
  assert (u64 (ee_len e * BS) = ee_len e * BS) as -> by (apply Z.mod_small; nia).
  cbv zeta. destruct (Z.leb_spec (n - m) (ee_len e * BS)); [|lia].
  rewrite Haddr. erewrite M_bind_Ok by (apply read_into_run; unfold byte_addr in *; lia).
  rewrite <- file_bytes_app by lia. replace (m + (n - m)) with n by lia.
  rewrite zlen_file_bytes by lia. destruct (Z.ltb_spec n n); [lia | done].
Qed.
End reading.

(** The bytes a read of [size] bytes at [offset] can return. *)
Definition read_size (inode : ext4_inode) (size offset : Z) : Z :=
  Z.min size (EXT4_INODE_GET_SIZE inode - offset).

(** The inode of an open file or a cached path. *)
Lemma get_open_run s tr path fi ino k s1 : decache_ok (fs_decache s) tr → ino ≠ 0 →
  refers (fs_decache s) tr path fi ino → inode_get_by_number ino s = Ok (inr (Z.of_nat k), s1) →
  ∃ idx, get_open_inode path fi s = Ok (inr (Z.of_nat k, idx), s1).
Proof.
  intros Hdc H0 Href Hget. unfold refers in Href. unfold get_open_inode. destruct (fi_inode fi) as [n|].
  - subst n. exists None. by run Hget.
  - destruct Href as [Hp Hi]. exists (Some ino). assert (inode_get_by_path path s = Ok (inr (Z.of_nat k, ino), s1)) as Hbp.
    { unfold inode_get_by_path. rewrite (M_bind_Ok _ _ _ _ _ (cached_path_run s tr path ino Hdc Hp Hi)).
      rewrite (proj2 (Z.eqb_neq _ _) H0). by run Hget. }
    by run Hbp.
Qed.

(** [op_read] once the inode is loaded. *)
Lemma op_read_run s tr path fi ino inode e size offset k s1 :
  decache_ok (fs_decache s) tr → ino ≠ 0 → refers (fs_decache s) tr path fi ino →
  inode_get_by_number ino s = Ok (inr (Z.of_nat k), s1) → get_inode (Z.of_nat k) s1 = Ok (inode, s1) →
  0 ≤ disk_fd (fs_disk s1) → file_extent s1 inode e →
  0 ≤ offset → 0 < size ≤ MAX_RW_COUNT → in_run s1 e offset (read_size inode size offset) →
  op_read path size offset fi s =
    Ok ((read_size inode size offset, file_bytes s1 e offset (read_size inode size offset)), s1).
Proof.
  intros Hdc H0 Href Hget Hinode Hfd Hfe Hoff Hsize Hin. pose proof MAX_RW_COUNT_eq.
  destruct (get_open_run s tr path fi ino k s1 Hdc H0 Href Hget) as (idx & Hopen).
  destruct (block_size_pow _ (fe_block _ _ _ Hfe)) as (p & Hp & Hp' & HB).
  destruct (extent_fields s1 inode e Hfe) as (? & ? & ? & ?). pose proof Hin as (_ & Hpos & Hend & H32 & _).
  set (n := read_size inode size offset) in *.
  assert (offset + n < 2 ^ 49) as Hbound by lia.
  assert (n ≤ size ∧ n ≤ EXT4_INODE_GET_SIZE inode - offset) as [Hn1 Hn2] by (unfold n, read_size; lia).
  assert (truncate_size inode size offset = n) as Htr.
  { unfold truncate_size, n, read_size. unfold n, read_size in Hbound, Hpos.
    set (sz := EXT4_INODE_GET_SIZE inode) in *.
    destruct (Z.eqb_spec sz 0); [lia|]. destruct (Z.leb_spec sz offset); [lia|].
    destruct (decide (sz ≤ offset + size)).
    - unfold u64. destruct (decide (offset + size < 2 ^ 64)); [|lia].
      rewrite Z.mod_small by lia. destruct (Z.leb_spec sz (offset + size)); lia.
    - unfold u64. rewrite Z.mod_small by lia. destruct (Z.leb_spec sz (offset + size)); lia. }
  unfold op_read. rewrite (proj2 (Z.leb_le _ _) Hoff). run. run Hopen. run Hinode. run.
  rewrite Htr. destruct (Z.ltb_spec n 0); [lia|]. destruct (Z.eqb_spec n 0); [lia|].
  destruct (first_read_run s1 inode e Hfe Hfd size n offset Hin ltac:(lia) ltac:(lia)) as (m & Hfirst & Hm & Hcase).
  run Hfirst. rewrite zlen_file_bytes by lia.
  assert (s32 n = n) as Hs32 by (apply s32_small; lia).
  destruct (Z.eqb_spec m n) as [->|Hne]; [by rewrite Hs32|].
  destruct Hcase as [?|(Hlt & Hal & Hin1 & Hfit)]; [done|]. rewrite Hal. run.
  erewrite M_bind_Ok.
  2:{ apply (read_loop_run s1 inode e Hfe Hfd); [lia | lia | lia | done | done | done | done |]. unfold READ_ROUNDS.
      pose proof (Z.div_pos n (EXT4_BLOCK_SIZE (fs_sb s1)) ltac:(lia) ltac:(lia)). lia. }
  rewrite zlen_file_bytes by lia. rewrite Z.eqb_refl. run. by rewrite Hs32.
Qed.

(** ** Writing *)

Lemma image_write_app d a b1 b2 : image_write (image_write d a b1) (a + zlen b1) b2 = image_write d a (b1 ++ b2).
Proof. unfold image_write. cbn. by rewrite write_bytes_app. Qed.

Section writing.
Context (s : fs) (inode : ext4_inode) (e : ext4_extent) (Hfe : file_extent s inode e) (Hfd : 0 ≤ disk_fd (fs_disk s)).
Context (i : inode_slot) (Hget : get_inode i s = Ok (inode, s)).
Local Abbreviation sb := (fs_sb s).
Local Abbreviation BS := (EXT4_BLOCK_SIZE sb).

(** The state during a write. *)
Local Abbreviation at_disk d := (set_fs_disk d s).

Lemma get_inode_disk d : get_inode i (at_disk d) = Ok (inode, at_disk d).
Proof.
  revert Hget. unfold get_inode, get_entry, sbind, ret. cbn.
  destruct (arr_get (icache_entries (fs_icache s)) i); [|done]. cbn. intros [= ->]. done.
Qed.

(** One write inside the extent. *)
Lemma extent_write_run d k bs : disk_fd d = disk_fd (fs_disk s) → disk_len d = disk_len (fs_disk s) →
  in_extent s e k (zlen bs) → zlen bs ≤ MAX_RW_COUNT →
  k_disk_write (u64 (byte_addr s e k)) bs (at_disk d) = Ok (tt, at_disk (image_write d (byte_addr s e k) bs)).
Proof.
  intros Hfd' Hlen' Hin Hmax. destruct (position s inode e Hfe k (zlen bs) Hin) as (_ & _ & _ & _ & _ & H0 & Hlen).
  pose proof (fe_image _ _ _ Hfe). pose proof (zlen_nonneg bs). unfold k_disk_write. cbn [set_fs_disk fs_disk].
  assert (u64 (byte_addr s e k) = byte_addr s e k) as -> by (apply Z.mod_small; lia).
  rewrite image_write_run by lia. done.
Qed.

(** The blocks from [lblock] on, [pos] being the position of the first byte
    left. *)
Lemma write_loop_run fuel size offset lblock pos buf d ret_ :
  let start := offset / BS in let last := (offset + size - 1) / BS in
  start < last → 0 ≤ offset → start ≤ lblock ≤ last →
  pos = (if lblock =? start then offset else lblock * BS) →
  zlen buf = offset + size - pos → in_extent s e pos (zlen buf) → size ≤ MAX_RW_COUNT →
  disk_fd d = disk_fd (fs_disk s) → disk_len d = disk_len (fs_disk s) → last - lblock + 1 < Z.of_nat fuel →
  write_loop fuel i buf size offset start last (offset mod BS) lblock ret_ (zlen buf) (at_disk d) =
    Ok (inr (offset + size - last * BS, 0), at_disk (image_write d (byte_addr s e pos) buf)).
Proof.
  intros start last Hsl H0. revert lblock pos buf d ret_.
  destruct (block_size_pow sb (fe_block _ _ _ Hfe)) as (p & Hp & Hp' & HB). pose proof MAX_RW_COUNT_eq as HMX.
  pose proof (Z.div_mod offset BS ltac:(lia)) as Ho. pose proof (Z.mod_pos_bound offset BS ltac:(lia)) as Hom.
  pose proof (Z.div_mod (offset + size - 1) BS ltac:(lia)) as He. pose proof (Z.mod_pos_bound (offset + size - 1) BS ltac:(lia)) as Hem.
  fold start in Ho. fold last in He. set (B := BS) in *.
  induction fuel as [|fuel IH]; intros lblock pos buf d ret_ Hl Hpos Hlen Hin Hmax Hfd' Hlen' Hfuel; [lia|].
  destruct (position s inode e Hfe pos (zlen buf) Hin) as (Hc & Hb & Hm & Hk & Haddr & Ha0 & Halen). fold B in Hc, Hb, Hm, Hk, Haddr.
  set (bo := if lblock =? start then offset mod B else 0).
  assert (pos = B * lblock + bo ∧ 0 ≤ bo < B) as [Hpb Hbo] by (unfold bo; destruct (Z.eqb_spec lblock start); subst; lia).
  assert (offset ≤ pos) as Hop.
  { destruct (Z.eqb_spec lblock start); [lia|].
    pose proof (Z.mul_le_mono_nonneg_l (start + 1) lblock B ltac:(lia) ltac:(lia)). lia. }
  assert (pos / B = lblock) as Hdiv by (symmetry; eapply Z.div_unique; [left; exact Hbo | exact Hpb]).
  assert (pos mod B = bo) as Hmod by (rewrite Hdiv in Hk; lia).
  rewrite Hdiv, Hmod in *. clear Hdiv Hmod Hm Hk.
  set (m := if lblock =? last then offset + size - lblock * B else B - bo).
  assert (0 < m ≤ B ∧ m ≤ zlen buf ∧ (lblock = last ∧ m = zlen buf ∨ lblock < last ∧ pos + m = (lblock + 1) * B ∧ m < zlen buf)) as (Hm & Hmb & Hcase).
  { unfold m. destruct (Z.eqb_spec lblock last) as [E|E].
    - assert (bo = 0) as Hbo0 by (unfold bo; destruct (Z.eqb_spec lblock start); lia). split; [|split; [lia|left]]; lia.
    - assert (B * (lblock + 1) ≤ B * last) by (apply Z.mul_le_mono_nonneg_l; lia). lia. }
  cbn [write_loop]. rewrite (proj2 (Z.leb_le lblock last)) by lia. run.
  change (EXT4_BLOCK_SIZE (fs_sb (at_disk d))) with B. fold bo.
  assert ((if lblock =? last then u64 (offset + size - lblock * B) else u64 (B - bo)) = m) as ->.
  { unfold m in *. destruct (Z.eqb_spec lblock last); apply Z.mod_small; lia. }
  rewrite (proj2 (Z.leb_le m B)) by lia. run. run (get_inode_disk d).
  assert (u32 lblock = lblock) as -> by (apply Z.mod_small; lia).
  erewrite M_bind_Ok by (unfold reads; cbn [set_fs_disk fs_sb fs_disk]; by rewrite (extent_block s inode e Hfe) by done).
  cbv beta iota. erewrite M_bind_Ok by (unfold lift; rewrite buf_read_Ok by lia; reflexivity).
  change (BLOCKS2BYTES (fs_sb (at_disk d))) with (BLOCKS2BYTES sb). rewrite Haddr.
  set (b1 := take (Z.to_nat m) (drop (Z.to_nat 0) buf)).
  assert (zlen b1 = m) as Hb1 by (unfold b1, zlen in *; rewrite drop_0, length_take; lia).
  erewrite M_bind_Ok by (apply extent_write_run; [done | done | destruct Hin as (? & ? & ?); split_and!; lia | lia]).
  assert (s32 m = m) as -> by (apply s32_small; lia).
  assert (u64 m = m) as -> by (apply Z.mod_small; lia). rewrite Z.eqb_refl. cbn [negb].
  set (b2 := drop (Z.to_nat m) buf). assert (b1 ++ b2 = buf) as Hb12 by apply take_drop.
  assert (u64 (zlen buf - m) = zlen b2) as ->.
  { rewrite <- Hb12 at 1. rewrite zlen_app. pose proof (zlen_nonneg b2). rewrite <- Hb12, zlen_app in Hlen.
    unfold u64. rewrite Z.mod_small by lia. lia. }
  destruct Hcase as [[-> Hmz]|(Hlt & Hnext & Hmore)].
  - destruct fuel as [|fuel]; [lia|]. cbn [write_loop]. rewrite (proj2 (Z.leb_gt (last + 1) last)) by lia.
    assert (b2 = []) as Hnil by (apply nil_length_inv; unfold b2, zlen in *; rewrite length_drop; lia).
    rewrite Hnil in *. rewrite app_nil_r in Hb12. rewrite Hb12. unfold ret. do 3 f_equal.
    unfold m. rewrite Z.eqb_refl. done.
  - rewrite (IH (lblock + 1) (pos + m) b2); try lia.
    + replace (byte_addr s e (pos + m)) with (byte_addr s e pos + zlen b1) by (unfold byte_addr; lia).
      by rewrite image_write_app, Hb12.
    + rewrite (proj2 (Z.eqb_neq _ _)) by lia. lia.
    + rewrite <- Hb12, zlen_app in Hlen. lia.
    + rewrite <- Hb12, zlen_app in Hin. destruct Hin as (? & ? & ?). pose proof (zlen_nonneg b2).
      rewrite <- Hb12, zlen_app in Hmore. split_and!; lia.
    + done.
    + done.
Qed.

(** What [op_write] returns: the number of bytes, or those of the last block
    when it writes several. *)
Definition write_result (size offset : Z) : Z :=
  if offset / BS =? (offset + size - 1) / BS then size
  else offset + size - (offset + size - 1) / BS * BS.

(** [op_write] once the inode is loaded, up to the update of the inode. *)
Lemma write_data_run buf offset junk :
  let size := zlen buf in
  0 ≤ offset → in_extent s e offset size → size ≤ MAX_RW_COUNT → EXT4_INODE_GET_BLOCKS inode ≠ 0 →
  (if u64 offset / BS =? u64 (offset + size - 1) / BS then
     inode ⇐ get_inode i;
     pblock_idx ⇐
       (if EXT4_INODE_GET_BLOCKS inode =? 0 then
          pblock_idx ⇐ k_bitmap_pblock_find junk EXT4_INODE_PBLOCK_NUM;
          inode_init_pblock i pblock_idx ;;; ret pblock_idx
        else
          '(pblock_idx, _) ⇐ k_inode_get_data_pblock inode (u32 (u64 offset / BS));
          ret pblock_idx);
     k_disk_write (u64 (BLOCKS2BYTES sb pblock_idx + u32 (u64 offset mod BS))) buf ;;;
     let ret_ := s32 size in
     if negb (u64 ret_ =? size) then ret (inl (- EIO))
     else ret (inr (ret_, u64 (size - ret_)))
   else
     write_loop (Z.to_nat (size / BS + 3)) i buf size offset (u64 offset / BS) (u64 (offset + size - 1) / BS)
       (u32 (u64 offset mod BS)) (u64 offset / BS) 0 size) s =
  Ok (inr (write_result size offset, 0), at_disk (image_write (fs_disk s) (byte_addr s e offset) buf)).
Proof.
  intros size H0 Hin Hmax Hblk. pose proof MAX_RW_COUNT_eq as HMX.
  destruct (block_size_pow sb (fe_block _ _ _ Hfe)) as (p & Hp & Hp' & HB).
  destruct (extent_fields s inode e Hfe) as (? & ? & ? & ?). pose proof Hin as (Hpos & Hlo & Hhi).
  destruct (position s inode e Hfe offset size Hin) as (Hc & Hb & Hm & Hk & Haddr & Ha0 & Halen).
  assert (offset + size < 2 ^ 49) as Hbound by nia.
  assert (u64 offset = offset) as -> by (apply Z.mod_small; lia).
  assert (u64 (offset + size - 1) = offset + size - 1) as -> by (apply Z.mod_small; lia).
  assert (u32 (offset mod BS) = offset mod BS) as -> by (apply Z.mod_small; lia).
  assert (fs_disk s = fs_disk (at_disk (fs_disk s)) ∧ at_disk (fs_disk s) = s) as [_ Hself] by (by destruct s).
  unfold write_result. destruct (Z.eqb_spec (offset / BS) ((offset + size - 1) / BS)) as [E|E].
  - run Hget. rewrite (proj2 (Z.eqb_neq _ _) Hblk).
    assert (u32 (offset / BS) = offset / BS) as -> by (apply Z.mod_small; lia).
    erewrite M_bind_Ok.
    2:{ erewrite M_bind_Ok by (unfold k_inode_get_data_pblock, reads; by rewrite (data_block s inode e Hfe) by done). reflexivity. }
    rewrite Haddr. pose proof (extent_write_run (fs_disk s) offset buf eq_refl eq_refl Hin Hmax) as Hw.
    rewrite Hself in Hw. run Hw.
    assert (s32 size = size) as -> by (apply s32_small; lia).
    assert (u64 size = size) as -> by (apply Z.mod_small; lia).
    rewrite Z.eqb_refl, Z.sub_diag. done.
  - assert (offset / BS < (offset + size - 1) / BS) as Hlt
      by (assert (offset / BS ≤ (offset + size - 1) / BS) by (apply Z.div_le_mono; lia); lia).
    pose proof (write_loop_run (Z.to_nat (size / BS + 3)) size offset (offset / BS) offset buf (fs_disk s) 0) as Hw.
    cbv zeta in Hw. rewrite Hself in Hw. apply Hw; try done; try lia.
    + by rewrite Z.eqb_refl.
    + pose proof (Z.div_pos size BS ltac:(lia) ltac:(lia)) as Hq. rewrite Z2Nat.id by lia.
      assert ((offset + size - 1) / BS ≤ offset / BS + size / BS + 1); [|lia].
      apply Z.lt_succ_r, Z.div_lt_upper_bound; [lia|].
      pose proof (Z.div_mod size BS ltac:(lia)). pose proof (Z.mod_pos_bound size BS ltac:(lia)). lia.
Qed.
End writing.

Lemma file_extent_inode s inode inode' e : i_flags inode' = i_flags inode → i_block inode' = i_block inode →
  file_extent s inode e → file_extent s inode' e.
Proof. intros Hf Hb [H1 H2 H3 H4 H5]. split; rewrite ?Hf, ?Hb; done. Qed.

Lemma file_extent_write s inode e a bs : file_extent s inode e →
  file_extent (set_fs_disk (image_write (fs_disk s) a bs) s) inode e.
Proof. intros [H1 H2 (es & Ht & He) H4 H5]. split; try done. exists es. split; [exact Ht | done]. Qed.

(** The end of a write fits the size member. *)
Lemma write_end s inode e offset (buf : list Z) : file_extent s inode e → in_extent s e offset (zlen buf) →
  0 ≤ offset → zlen buf ≤ MAX_RW_COUNT →
  u64 (offset + zlen buf) = offset + zlen buf ∧
  EXT4_INODE_GET_SIZE (EXT4_INODE_SET_SIZE (offset + zlen buf) inode) = offset + zlen buf.
Proof.
  intros Hfe (? & ? & ?) ? ?. destruct (block_size_pow _ (fe_block _ _ _ Hfe)) as (_ & _ & _ & ?).
  destruct (extent_fields s inode e Hfe) as (? & ? & ? & ?).
  assert (offset + zlen buf < 2 ^ 49) by nia. split; [apply Z.mod_small; lia | apply GET_SET_SIZE; lia].
Qed.

(** A write in the range of an extent. *)
Lemma op_write_ok s tr path buf fi ino inode e offset junk :
  mounted s → icache_ok s → decache_ok (fs_decache s) tr → inode_in (fs_sb s) ino → can_load s ino →
  inode_view s ino = Ok inode → refers (fs_decache s) tr path fi ino → file_extent s inode e →
  granted s inode WRITE → EXT4_INODE_GET_BLOCKS inode ≠ 0 → Forall byte_ok buf →
  0 ≤ offset → zlen buf ≤ MAX_RW_COUNT → in_extent s e offset (zlen buf) →
  let inode' := EXT4_INODE_SET_SIZE (offset + zlen buf) inode in
  ∃ s', op_write junk path buf offset fi s = Ok (write_result s (zlen buf) offset, s') ∧
    mounted s' ∧ icache_ok s' ∧ fs_sb s' = fs_sb s ∧ fs_decache s' = fs_decache s ∧
    can_load s' ino ∧ inode_view s' ino = Ok inode' ∧
    (∀ j, inode_in (fs_sb s) j → j ≠ ino → inode_view s' j = inode_view s j) ∧
    file_extent s' inode' e ∧ file_bytes s' e offset (zlen buf) = buf.
Proof.
  intros Hm Hok Hdc Hin Hload Hview Href Hfe Hg Hblk Hby Hoff Hmax Hrange inode'.
  destruct (inode_loaded s ino inode Hm Hok Hin Hload Hview)
    as (k & s1 & en & Hget & Hm1 & Hok1 & Hr1 & Hc & Hi & Hinode & Hperm & Hv).
  assert (ino ≠ 0) as H0 by (unfold inode_in in Hin; lia).
  pose proof (file_extent_rest s s1 inode e Hr1 Hfe) as Hfe1. pose proof Hr1 as (Hsb & _ & _ & _ & _ & Hde & _).
  assert (in_extent s1 e offset (zlen buf)) as Hrange1 by (unfold in_extent in *; by rewrite Hsb).
  destruct (get_open_run s tr path fi ino k s1 Hdc H0 Href Hget) as (idx & Hopen).
  pose proof (write_data_run s1 inode e Hfe1 (mt_fd s1 Hm1) (Z.of_nat k) Hinode buf offset (default junk idx) Hoff Hrange1 Hmax Hblk) as Hdata.
  set (s2 := set_fs_disk _ s1) in Hdata.
  destruct (write_outside_ok s1 (byte_addr s1 e offset) buf Hm1 Hok1 Hby) as (Hm2 & Hok2 & Hv2).
  { eapply Forall_impl; [exact (fe_tables _ _ _ Hfe1)|]. cbn. intros g Hap.
    destruct Hrange1 as (? & ? & ?). unfold byte_addr, ee_end in *. lia. }
  fold s2 in Hm2, Hok2, Hv2. assert (cached s2 ino k en) as Hc2 by exact Hc.
  destruct (write_end s1 inode e offset buf Hfe1 Hrange1 Hoff Hmax) as (Hu64 & _).
  destruct (upd_dirty_ok s2 ino k en (EXT4_INODE_SET_SIZE (offset + zlen buf)) Hm2 Hok2 Hc2)
    as (s' & Hupd & Hm' & Hok' & Hr' & (en' & Hc' & Hi') & Hvi & Hvo).
  { rewrite Hi. assert (struct_ok inode) by (rewrite <- Hi; by eapply (io_entry s1 Hok1)). auto with inode_ok. }
  rewrite Hi in Hvi. pose proof Hr' as (Hsb' & _ & _ & _ & _ & Hde' & _).
  assert (file_extent s2 inode' e) as Hfe2 by (eapply file_extent_inode, file_extent_write, Hfe1; done).
  exists s'. split; [|split_and!; try done].
  - unfold op_write. run Hopen. run Hperm. rewrite Hg. cbn [Z.ltb Z.compare].
    run. change (gets fs_sb s1) with (Ok (fs_sb s1, s1)). run Hdata. rewrite Hu64.
    apply M_bind_Ok_inv in Hupd as (? & s4 & H1 & H2). run H1. run H2. run.
    unfold write_result. by rewrite Hsb.
  - by rewrite Hsb'.
  - by rewrite Hde'.
  - left. by exists k, en'.
  - intros j Hj Hne. rewrite Hvo by done. rewrite Hv2 by by rewrite Hsb. by apply Hv.
  - by eapply file_extent_rest.
  - rewrite (file_bytes_rest s2 s' inode' e) by done. unfold file_bytes, zlen. rewrite Nat2Z.id.
    apply read_write_bytes_same.
Qed.

(** ** Properties *)

(** C14: Reading.  A read from the open file or the cached path of an inode, at
    a position below the end of the file, returns the bytes of the image that
    the extent maps, [size] of them or those up to the end of the file, when
    one extent maps them all.  It changes no inode. *)
Theorem read_extent (s : fs) (tr : tree) (path : list Z) (fi : option fuse_file_info) (ino : Z)
    (inode : ext4_inode) (e : ext4_extent) (size offset : Z) :
  mounted s → icache_ok s → decache_ok (fs_decache s) tr → inode_in (fs_sb s) ino → can_load s ino →
  inode_view s ino = Ok inode → refers (fs_decache s) tr path fi ino → file_extent s inode e →
  0 ≤ offset → 0 < size ≤ MAX_RW_COUNT → in_extent s e offset (read_size inode size offset) →
  let n := read_size inode size offset in
  ∃ s', op_read path size offset fi s = Ok ((n, file_bytes s e offset n), s') ∧ updated s s' ino inode.
Proof.
  intros Hm Hok Hdc Hin Hload Hview Href Hfe Hoff Hsize Hrange n.
  destruct (inode_loaded s ino inode Hm Hok Hin Hload Hview)
    as (k & s1 & en & Hget & Hm1 & Hok1 & Hr1 & Hc & Hi & Hinode & Hperm & Hv).
  assert (ino ≠ 0) as H0 by (unfold inode_in in Hin; lia).
  pose proof (file_extent_rest s s1 inode e Hr1 Hfe) as Hfe1. pose proof Hr1 as (Hsb & _).
  exists s1. split; [|by eapply unchanged]. unfold n. rewrite <- (file_bytes_rest s s1 inode e) by done.
  eapply op_read_run; try done; [apply Hm1|]. eapply in_extent_run; [done|]. unfold in_extent in *. by rewrite Hsb.
Qed.

(** C12: Writing, and reading it back.  A write to the open file or the cached
    path of an inode with blocks, by a caller who may write, in the range of
    one extent: it changes no other inode and of this one only the size, so
    the setuid and setgid bits of the mode stay (the comment of [op_write] asks
    for their reset); the size becomes the end of the range, also when the file
    was longer; and a read of the range then returns the bytes written, for a
    write of several blocks too (a FIXME in that branch reports data that does
    not read back; inside one extent it does).  The value of the call is the
    number of bytes for a write in one block, but that of the last block only
    for a longer one. *)
Theorem write_read (s : fs) (tr : tree) (path buf : list Z) (fi : option fuse_file_info) (ino : Z)
    (inode : ext4_inode) (e : ext4_extent) (offset junk : Z) :
  mounted s → icache_ok s → decache_ok (fs_decache s) tr → inode_in (fs_sb s) ino → can_load s ino →
  inode_view s ino = Ok inode → refers (fs_decache s) tr path fi ino → file_extent s inode e →
  granted s inode WRITE → EXT4_INODE_GET_BLOCKS inode ≠ 0 → Forall byte_ok buf →
  0 ≤ offset → zlen buf ≤ MAX_RW_COUNT → in_extent s e offset (zlen buf) →
  ∃ s' s'', op_write junk path buf offset fi s = Ok (write_result s (zlen buf) offset, s') ∧
    mounted s' ∧ icache_ok s' ∧
    inode_view s' ino = Ok (EXT4_INODE_SET_SIZE (offset + zlen buf) inode) ∧
    (∀ j, inode_in (fs_sb s) j → j ≠ ino → inode_view s' j = inode_view s j) ∧
    op_read path (zlen buf) offset fi s' = Ok ((zlen buf, buf), s'').
Proof.
  intros Hm Hok Hdc Hin Hload Hview Href Hfe Hg Hblk Hby Hoff Hmax Hrange.
  destruct (op_write_ok s tr path buf fi ino inode e offset junk Hm Hok Hdc Hin Hload Hview Href Hfe Hg Hblk Hby Hoff Hmax Hrange)
    as (s' & Hw & Hm' & Hok' & Hsb' & Hde' & Hload' & Hvi & Hvo & Hfe' & Hbytes).
  destruct (write_end s inode e offset buf Hfe Hrange Hoff Hmax) as (_ & Hgs).
  set (inode' := EXT4_INODE_SET_SIZE _ inode) in *.
  destruct (inode_loaded s' ino inode' Hm' Hok' ltac:(by rewrite Hsb') Hload' Hvi)
    as (k & s'' & en & Hget & Hm2 & _ & Hr2 & _ & _ & Hinode & _ & _).
  pose proof (file_extent_rest _ _ _ _ Hr2 Hfe') as Hfe2. pose proof Hr2 as (Hsb2 & _).
  exists s', s''. split; [done|]. do 3 (split; [done|]). split; [done|].
  assert (read_size inode' (zlen buf) offset = zlen buf) as Hrs by (unfold read_size; rewrite Hgs; lia).
  rewrite (op_read_run s' tr path fi ino inode' e (zlen buf) offset k s''); try done.
  - rewrite Hrs, (file_bytes_rest s' s'' inode' e), Hbytes by (try done; unfold in_extent in *; by rewrite ?Hsb'). done.
  - by rewrite Hde'.
  - unfold inode_in in Hin. lia.
  - by rewrite Hde'.
  - apply Hm2.
  - destruct Hrange. lia.
  - rewrite Hrs. eapply in_extent_run; [done|]. unfold in_extent in *. by rewrite Hsb2, Hsb'.
Qed.

(** An inode with the extent [0, 4) at block 20, in slot 5 of the first
    table. *)
Definition test_file_inode : ext4_inode := Eval vm_compute in
  EXT4_INODE_SET_SIZE 3000 (EXT4_INODE_SET_BLOCKS 4 (set_i_flags EXT4_EXTENTS_FL
    (set_i_block (bytes_of (mk_extent_header EXT4_EXT_MAGIC 1 4 0 0) ++
       bytes_of (mk_extent 0 4 0 20) ++ replicate 36 0) zero_inode))).

Definition test_file_fs : fs :=
  set_fs_disk (mk_disk 3 (write_bytes (write_bytes ∅ 3712 (bytes_of test_file_inode)) 20480 (cstr "hello")) 65536) test_fs.

Lemma test_file_mounted : mounted test_file_fs.
Proof.
  destruct test_fs_mounted. split; try done. intros a b. cbn [test_file_fs set_fs_disk fs_disk disk_bytes].
  apply write_bytes_ok; [|repeat constructor; discriminate].
  apply write_bytes_ok; [|apply bytes_of_bytes_ok]. intros x y. by rewrite lookup_empty.
Qed.

Lemma test_file_extent : file_extent test_file_fs test_file_inode (mk_extent 0 4 0 20).
Proof.
  split; [by vm_compute | by vm_compute | | by vm_compute |].
  - exists [mk_extent 0 4 0 20]. split; [|by apply list_elem_of_singleton]. split_and!.
    + eexists. split; [vm_compute; reflexivity|]. by vm_compute.
    + intros [|i] [|j] a b; try done; intros; lia.
    + constructor; [|done]. split; [|by vm_compute]. split; [done|]. repeat constructor; vm_compute; discriminate || reflexivity.
    + intros [|i] x; [|done]. intros [= <-]. vm_compute. reflexivity.
  - unfold outside_tables. change (fs_gdt test_file_fs) with test_tables.
    repeat (apply Forall_cons; split; [right; vm_compute; discriminate|]). constructor.
Qed.

Lemma read_extent_witness : ∃ s',
  op_read [] 5 0 (Some (mk_file_info 5 0)) test_file_fs = Ok ((5, cstr "hello"), s').
Proof.
  destruct (read_extent test_file_fs {[ 1%positive := [] ]} [] (Some (mk_file_info 5 0)) 5 test_file_inode (mk_extent 0 4 0 20) 5 0)
    as (s' & Hrun & _);
    [apply test_file_mounted | by apply empty_cache_ok | by apply init_root_ok | split; vm_compute; discriminate
    | right; by apply empty_cache_ok | vm_compute; reflexivity | vm_compute; reflexivity | apply test_file_extent
    | lia | split; vm_compute; [reflexivity | discriminate] | split_and!; vm_compute; (reflexivity || discriminate) |].
  exists s'. rewrite Hrun. f_equal.
Defined.

Lemma write_read_witness : ∃ s' s'',
  op_write 0 [] (cstr "world") 1022 (Some (mk_file_info 5 0)) test_file_fs = Ok (3, s') ∧
  op_read [] 5 1022 (Some (mk_file_info 5 0)) s' = Ok ((5, cstr "world"), s'').
Proof.
  destruct (write_read test_file_fs {[ 1%positive := [] ]} [] (cstr "world") (Some (mk_file_info 5 0)) 5 test_file_inode
    (mk_extent 0 4 0 20) 1022 0) as (s' & s'' & Hw & _ & _ & _ & _ & Hr);
    [apply test_file_mounted | by apply empty_cache_ok | by apply init_root_ok | split; vm_compute; discriminate
    | right; by apply empty_cache_ok | vm_compute; reflexivity | vm_compute; reflexivity | apply test_file_extent
    | vm_compute; reflexivity | vm_compute; discriminate | repeat constructor; discriminate | lia
    | vm_compute; discriminate | split_and!; vm_compute; (reflexivity || discriminate) |].
  exists s', s''. split; [exact Hw | exact Hr].
Defined.


(** A read of several blocks that starts at a block inside an extent and
    goes past its end is not a read of the file: the loop takes the length of
    the whole extent for what is left of it, so the bytes after the end are
    those that follow the extent in the image, whatever extent maps them. *)
Lemma read_overruns_extent (s : fs) (tr : tree) (path : list Z) (fi : option fuse_file_info) (ino : Z)
    (inode : ext4_inode) (e : ext4_extent) (size offset : Z) :
  mounted s → icache_ok s → decache_ok (fs_decache s) tr → inode_in (fs_sb s) ino → can_load s ino →
  inode_view s ino = Ok inode → refers (fs_decache s) tr path fi ino → file_extent s inode e →
  let BS := EXT4_BLOCK_SIZE (fs_sb s) in let n := read_size inode size offset in
  0 ≤ offset → offset mod BS = 0 → 0 < size ≤ MAX_RW_COUNT → in_extent s e offset 1 →
  ee_end e * BS < offset + n → n ≤ ee_len e * BS → offset + n ≤ 2 ^ 32 * BS →
  byte_addr s e offset + n ≤ disk_len (fs_disk s) →
  ∃ s' bs, op_read path size offset fi s = Ok ((n, bs), s') ∧ updated s s' ino inode ∧
    ∀ j, ee_end e * BS ≤ j < offset + n →
      bs !! Z.to_nat (j - offset) =
        Some (default 0 (disk_bytes (fs_disk s') !!
          ((EXT4_EXT_GET_PADDR e + ee_len e) * BS + (j - ee_end e * BS)))).
Proof.
  intros Hm Hok Hdc Hin Hload Hview Href Hfe BS n Hoff Hal Hsize Hext Hpast Hfit H32 Hlen.
  destruct (inode_loaded s ino inode Hm Hok Hin Hload Hview)
    as (k & s1 & en & Hget & Hm1 & Hok1 & Hr1 & Hc & Hi & Hinode & Hperm & Hv).
  assert (ino ≠ 0) as H0 by (unfold inode_in in Hin; lia).
  pose proof (file_extent_rest s s1 inode e Hr1 Hfe) as Hfe1.
  pose proof Hr1 as (Hsb & _ & _ & _ & _ & _ & _ & _ & _ & _ & Hdl & _).
  pose proof Hext as (_ & Hlo & Hhi). exists s1, (file_bytes s1 e offset n). split_and!.
  - eapply op_read_run; try done; [apply Hm1|]. unfold in_run, in_extent, byte_addr in *. fold n. rewrite Hsb, Hdl.
    fold BS in Hlo, Hhi, Hlen |- *. split_and!; try done; try lia.
  - by eapply unchanged.
  - intros j Hj. unfold file_bytes. rewrite read_bytes_lookup by lia. do 3 f_equal.
    unfold byte_addr, ee_end. rewrite Hsb. fold BS. lia.
Qed.

(** Reading at or past the end of a file does not return 0 bytes: the
    error of [truncate_size] is a large [size_t], which the test for a
    negative size does not see, and the read of that many bytes fails the
    assertion of [disk_read].  (So for a position in an allocated block, 23
    bytes or more from its start.) *)
Lemma read_past_end_aborts (s : fs) (tr : tree) (path : list Z) (fi : option fuse_file_info) (ino : Z)
    (inode : ext4_inode) (e : ext4_extent) (size offset : Z) :
  mounted s → icache_ok s → decache_ok (fs_decache s) tr → inode_in (fs_sb s) ino → can_load s ino →
  inode_view s ino = Ok inode → refers (fs_decache s) tr path fi ino → file_extent s inode e →
  0 < EXT4_INODE_GET_SIZE inode ≤ offset → in_extent s e offset 1 →
  23 ≤ offset mod EXT4_BLOCK_SIZE (fs_sb s) →
  op_read path size offset fi s = Fault AssertFail.
Proof.
  intros Hm Hok Hdc Hin Hload Hview Href Hfe Hsize Hext H23.
  destruct (inode_loaded s ino inode Hm Hok Hin Hload Hview)
    as (k & s1 & en & Hget & Hm1 & Hok1 & Hr1 & Hc & Hi & Hinode & Hperm & Hv).
  assert (ino ≠ 0) as H0 by (unfold inode_in in Hin; lia).
  destruct (get_open_run s tr path fi ino k s1 Hdc H0 Href Hget) as (idx & Hopen).
  pose proof (file_extent_rest s s1 inode e Hr1 Hfe) as Hfe1. pose proof Hr1 as (Hsb & _).
  assert (in_extent s1 e offset 1) as Hext1 by (unfold in_extent in *; by rewrite Hsb). rewrite <- Hsb in H23.
  destruct (position s1 inode e Hfe1 offset 1 Hext1) as (Hcov & Hb & Hmod & Hk & Haddr & Ha0 & Halen).
  destruct (block_size_pow _ (fe_block _ _ _ Hfe1)) as (_ & _ & _ & HB).
  pose proof (fe_image _ _ _ Hfe1) as Him. destruct Hext1 as (_ & Hlo & Hhi).
  destruct (extent_fields s1 inode e Hfe1) as (? & ? & ? & ?). set (BS := EXT4_BLOCK_SIZE (fs_sb s1)) in *.
  assert (truncate_size inode size offset = 2 ^ 64 - 22) as Htr.
  { unfold truncate_size. destruct (Z.eqb_spec (EXT4_INODE_GET_SIZE inode) 0); [lia|].
    destruct (Z.leb_spec (EXT4_INODE_GET_SIZE inode) offset); [done | lia]. }
  unfold op_read. rewrite (proj2 (Z.leb_le 0 offset)) by lia. run. run Hopen. run Hinode. run.
  rewrite Htr. change (2 ^ 64 - 22 <? 0) with false. change (2 ^ 64 - 22 =? 0) with false. cbv iota.
  apply M_bind_Fault. unfold first_read. run. fold BS.
  assert (u32 (offset / BS) = offset / BS) as -> by (apply Z.mod_small; lia).
  assert (u64 (offset + u64 (2 ^ 64 - 22 - 1)) = offset - 23) as ->.
  { change (u64 (2 ^ 64 - 22 - 1)) with (2 ^ 64 - 23). unfold u64.
    replace (offset + (2 ^ 64 - 23)) with (offset - 23 + 1 * 2 ^ 64) by lia.
    rewrite Z_mod_plus_full. apply Z.mod_small. assert (offset < 2 ^ 49) by nia. lia. }
  assert ((offset - 23) / BS = offset / BS) as ->.
  { symmetry. eapply (Z.div_unique _ _ _ (offset mod BS - 23)); lia. }
  erewrite M_bind_Ok by (unfold k_inode_get_data_pblock, reads; by rewrite (data_block s1 inode e Hfe1) by done).
  cbv beta iota. assert (u32 (offset / BS) = offset / BS) as -> by (apply Z.mod_small; lia).
  rewrite Z.eqb_refl. apply M_bind_Fault. unfold k_disk_read, reads.
  assert (u32 (offset mod BS) = offset mod BS) as -> by (apply Z.mod_small; lia).
  rewrite Haddr. assert (u64 (byte_addr s1 e offset) = byte_addr s1 e offset) as -> by (apply Z.mod_small; lia).
  pose proof MAX_RW_COUNT_eq. pose proof (mt_fd s1 Hm1). by rewrite disk_read_huge by lia.
Qed.
