(* ===== verification/OpsMount.v ===== *)
(** * Mounting and unmounting

    [op_init.c] and [op_destory.c] of [src/src]: the state is read from the
    image, and what changed is written back.  The thread that serves the
    control socket is not part of the state. *)

From S2P Require Import Prelude Ext4 Disk Bitmap InodeMap Decache Fs Cache.
From stdpp Require Import base numbers list gmap.
From Stdlib Require Import ZArith Lia.

Open Scope Z_scope.
Open Scope kfs_scope.

(** ** Mounting *)

Definition super_fill (d : disk_t) (now : Z) : outcome ext4_super_block :=
  bs ← disk_read d BOOT_SECTOR_SIZE (sizeof ext4_super_block);
  let sb : ext4_super_block := of_bytes bs in
  Ok (set_s_mnt_count (u16 (s_mnt_count sb + 1)) (set_s_mtime (u32 now) sb)).

(** [ALIGN_TO_BLOCKSIZE(BOOT_SECTOR_SIZE + sizeof(struct ext4_super_block))]. *)
Definition gdt_off (sb : ext4_super_block) : Z :=
  ALIGN_TO_BLOCKSIZE sb (BOOT_SECTOR_SIZE + sizeof ext4_super_block).

(** [disk_read(bg_off, EXT4_DESC_SIZE(sb), &gdt[i])] into the zeros of
    [calloc]; a larger descriptor than the structure runs over it. *)
Definition read_desc (sb : ext4_super_block) (d : disk_t) (bg_off : Z) : outcome ext4_group_desc :=
  bs ← disk_read d bg_off (EXT4_DESC_SIZE sb);
  bs ← buf_write (replicate (Z.to_nat (sizeof ext4_group_desc)) 0) 0 bs;
  Ok (EXT4_GDT_SET_CLEAN (of_bytes bs)).

Fixpoint group_fill_loop (sb : ext4_super_block) (d : disk_t) (bg_off : Z) (n : nat) :
    outcome (list ext4_group_desc) :=
  match n with
  | O => Ok []
  | S n =>
    g ← read_desc sb d bg_off;
    gs ← group_fill_loop sb d (u64 (bg_off + EXT4_DESC_SIZE sb)) n;
    Ok (g :: gs)
  end.

Definition super_group_fill (sb : ext4_super_block) (d : disk_t) : outcome (list ext4_group_desc) :=
  let group_num := s32 (EXT4_N_BLOCK_GROUPS sb) in
  group_fill_loop sb d (gdt_off sb) (Z.to_nat group_num).

(** The state after [op_init] on an open image: [capable] is what the kernel
    offers, [buf] the bytes [malloc] returned for the directory block. *)
Definition op_init (d : disk_t) (capable : Z) (cntx : option fuse_context) (now : Z)
    (buf : list Z) : outcome fs :=
  sb ← super_fill d now;
  gdt ← super_group_fill sb d;
  '(ib, db) ← bitmap_init sb gdt d;
  r ← cache_init buf
        (mk_fs d sb gdt ib db (dcache_alloc []) icache_init (decache_init_root EXT4_ROOT_INO)
           capable cntx now);
  Ok r.2.

(** ** Unmounting *)

(** The dirty bitmaps of the groups, inode bitmap before block bitmap. *)
Definition flush_group (off : Z) (n : Z) (g : bitmap_group) : K unit :=
  if bg_status g =? BITMAP_S_DIRTY then
    bs ⇐ lift (buf_read (bg_bitmap g) 0 n);
    k_disk_write off bs
  else ret tt.

Fixpoint flush_bitmaps (i : Z) (n : nat) : K unit :=
  match n with
  | O => ret tt
  | S n =>
    sb ⇐ gets fs_sb;
    ib ⇐ gets fs_i_bitmap;
    db ⇐ gets fs_d_bitmap;
    ig ⇐ lift (arr_get (bm_group ib) i);
    flush_group (bg_off ig) (EXT4_INODES_PER_GROUP sb / 8) ig ;;;
    dg ⇐ lift (arr_get (bm_group db) i);
    flush_group (bg_off dg) (EXT4_BLOCKS_PER_GROUP sb / 8) dg ;;;
    flush_bitmaps (i + 1) n
  end.

Fixpoint flush_inodes (i : Z) (n : nat) : K unit :=
  match n with
  | O => ret tt
  | S n =>
    dirty ⇐ ICACHE_IS_DIRTY i;
    (if dirty : bool then icache_write_back i else ret tt) ;;;
    flush_inodes (i + 1) n
  end.

(** A dirty descriptor is marked clean before it is written. *)
Definition flush_desc (bg_off i : Z) (g : ext4_group_desc) : K unit :=
  sb ⇐ gets fs_sb;
  gdt ⇐ gets fs_gdt;
  if EXT4_GDT_DIRTY_FLAG g =? EXT4_GDT_DIRTY then
    let g := EXT4_GDT_SET_CLEAN g in
    gdt ⇐ lift (arr_set gdt i g);
    modify (set_fs_gdt gdt) ;;;
    bs ⇐ lift (buf_read (bytes_of g) 0 (EXT4_DESC_SIZE sb));
    k_disk_write (u64 (bg_off + i * EXT4_DESC_SIZE sb)) bs
  else ret tt.

Fixpoint flush_gdt (bg_off i : Z) (n : nat) : K unit :=
  match n with
  | O => ret tt
  | S n =>
    gdt ⇐ gets fs_gdt;
    g ⇐ lift (arr_get gdt i);
    flush_desc bg_off i g ;;;
    flush_gdt bg_off (i + 1) n
  end.

Definition k_decache_free_root : K unit := λ s,
  let dc := fs_decache s in
  h ← decache_free (dh_heap dc) (Some (dh_root dc));
  Ok (tt, set_fs_decache (mk_decache h (dh_fresh dc) (dh_root dc)) s).

(** [disk_close] is the last action and fails without effect on the image. *)
Definition op_destory : K unit :=
  k_decache_free_root ;;;
  ib ⇐ gets fs_i_bitmap;
  flush_bitmaps 0 (Z.to_nat (bm_group_num ib)) ;;;
  ic ⇐ gets fs_icache;
  flush_inodes 0 (Z.to_nat (icache_count ic)) ;;;
  sb ⇐ gets fs_sb;
  flush_gdt (gdt_off sb) 0 (Z.to_nat (EXT4_N_BLOCK_GROUPS sb)) ;;;
  sb ⇐ gets fs_sb;
  k_disk_write BOOT_SECTOR_SIZE (bytes_of sb).

(** ** Images *)

(** The bitmaps and the inode table of a group. *)
Inductive area :=
  | InodeBits (i : nat)
  | BlockBits (i : nat)
  | InodeTable (i : nat).

Instance area_eq_dec : EqDecision area.
Proof. solve_decision. Defined.

(** The bytes of an area: its offset and length. *)
Definition area_at (sb : ext4_super_block) (gdt : list ext4_group_desc) (a : area) : option (Z * Z) :=
  match a with
  | InodeBits i => (λ g, (BLOCKS2BYTES sb (EXT4_DESC_INO_BITMAP g), EXT4_INODES_PER_GROUP sb / 8)) <$> gdt !! i
  | BlockBits i => (λ g, (BLOCKS2BYTES sb (EXT4_DESC_BLOCK_BITMAP g), EXT4_BLOCKS_PER_GROUP sb / 8)) <$> gdt !! i
  | InodeTable i => (λ g, (table_off sb g, table_size sb)) <$> gdt !! i
  end.

Definition gdt_end (sb : ext4_super_block) (gdt : list ext4_group_desc) : Z :=
  gdt_off sb + sizeof ext4_group_desc * zlen gdt.

(** The super block, the descriptors and the areas of the groups are apart
    from each other and inside an image of [len] bytes. *)
Record layout_ok (sb : ext4_super_block) (gdt : list ext4_group_desc) (len : Z) : Prop := mk_layout_ok {
  lo_geo : geometry_ok sb;
  lo_count : zlen gdt = EXT4_N_BLOCK_GROUPS sb;
  lo_desc : EXT4_DESC_SIZE sb = sizeof ext4_group_desc;
  lo_inode : sizeof ext4_inode ≤ EXT4_S_INODE_SIZE sb;
  lo_table : table_size sb < 2 ^ 32;
  lo_super : BOOT_SECTOR_SIZE + sizeof ext4_super_block ≤ gdt_off sb;
  lo_len : gdt_end sb gdt ≤ len < 2 ^ 63;
  lo_inside : ∀ a o n, area_at sb gdt a = Some (o, n) → gdt_end sb gdt ≤ o ∧ o + n ≤ len;
  lo_apart : ∀ a a' o n o' n', area_at sb gdt a = Some (o, n) → area_at sb gdt a' = Some (o', n') →
    a ≠ a' → o + n ≤ o' ∨ o' + n' ≤ o
}.

(** An image that can be mounted. *)
Record image_ok (d : disk_t) (sb : ext4_super_block) (gdt : list ext4_group_desc) : Prop := mk_image_ok {
  im_ready : disk_ready d;
  im_layout : layout_ok sb gdt (disk_len d);
  im_sb_ok : struct_ok sb;
  im_gdt_ok : Forall struct_ok gdt;
  im_sb : holds d BOOT_SECTOR_SIZE (bytes_of sb);
  im_gdt : holds d (gdt_off sb) (concat (map bytes_of gdt))
}.

(** The super block after one more mount. *)
Definition remounted (now : Z) (sb : ext4_super_block) : ext4_super_block :=
  set_s_mnt_count (u16 (s_mnt_count sb + 1)) (set_s_mtime (u32 now) sb).

(** The state of a mount before the first operation. *)
Definition mount_state (d : disk_t) (sb : ext4_super_block) (gdt : list ext4_group_desc) (capable : Z)
    (cntx : option fuse_context) (now : Z) (buf : list Z) : fs :=
  let sb := remounted now sb in
  let gdt := map EXT4_GDT_SET_CLEAN gdt in
  mk_fs d sb gdt (bitmap_of_disk sb d EXT4_DESC_INO_BITMAP (EXT4_INODES_PER_GROUP sb) gdt)
    (bitmap_of_disk sb d EXT4_DESC_BLOCK_BITMAP (EXT4_BLOCKS_PER_GROUP sb) gdt)
    (dcache_alloc buf) icache_init (decache_init_root EXT4_ROOT_INO) capable cntx now.

(** ** Lemmas on images *)

(** A descriptor that points to the same areas. *)
Definition same_areas (g g' : ext4_group_desc) : Prop :=
  EXT4_DESC_INO_BITMAP g' = EXT4_DESC_INO_BITMAP g ∧ EXT4_DESC_BLOCK_BITMAP g' = EXT4_DESC_BLOCK_BITMAP g ∧
  EXT4_DESC_INODE_TABLE g' = EXT4_DESC_INODE_TABLE g.

Lemma area_at_same sb gdt gdt' a : Forall2 same_areas gdt gdt' → area_at sb gdt' a = area_at sb gdt a.
Proof.
  intros H. assert (∀ i, match gdt !! i, gdt' !! i with Some g, Some g' => same_areas g g' | None, None => True | _, _ => False end) as Hi.
  { intros i. destruct (gdt !! i) as [g|] eqn:E.
    - by destruct (Forall2_lookup_l _ _ _ _ _ H E) as (g' & -> & ?).
    - destruct (gdt' !! i) as [g'|] eqn:E'; [|done]. destruct (Forall2_lookup_r _ _ _ _ _ H E') as (g & ? & _). congruence. }
  destruct a as [i|i|i]; cbn; specialize (Hi i); destruct (gdt !! i), (gdt' !! i); try done; cbn; unfold table_off;
    destruct Hi as (H1 & H2 & H3); by rewrite ?H1, ?H2, ?H3.
Qed.

Lemma layout_same sb gdt gdt' len : Forall2 same_areas gdt gdt' → layout_ok sb gdt len → layout_ok sb gdt' len.
Proof.
  intros H [? ? ? ? ? ? Hl Hi Ha]. pose proof (Forall2_length _ _ _ H) as Hlen.
  assert (zlen gdt' = zlen gdt) as Hz by (unfold zlen; lia). assert (gdt_end sb gdt' = gdt_end sb gdt) as He by (unfold gdt_end; congruence).
  split; try done; [congruence | congruence | |].
  - intros a o n. rewrite (area_at_same sb gdt gdt' a H), He. apply Hi.
  - intros a a' o n o' n'. rewrite !(area_at_same sb gdt gdt' _ H). apply Ha.
Qed.

Lemma remounted_layout now sb gdt len : layout_ok sb gdt len → layout_ok (remounted now sb) gdt len.
Proof. intros [? ? ? ? ? ? Hl Hi Ha]. split; done. Qed.

Lemma remounted_facts now sb :
  EXT4_INODES_PER_GROUP (remounted now sb) = EXT4_INODES_PER_GROUP sb ∧
  EXT4_BLOCKS_PER_GROUP (remounted now sb) = EXT4_BLOCKS_PER_GROUP sb ∧
  EXT4_N_BLOCK_GROUPS (remounted now sb) = EXT4_N_BLOCK_GROUPS sb ∧
  EXT4_BLOCK_SIZE (remounted now sb) = EXT4_BLOCK_SIZE sb ∧ EXT4_S_INODE_SIZE (remounted now sb) = EXT4_S_INODE_SIZE sb.
Proof. done. Qed.

Lemma clean_areas gdt : Forall2 same_areas gdt (map EXT4_GDT_SET_CLEAN gdt).
Proof. apply Forall2_fmap_r, Forall_Forall2_diag, Forall_true. done. Qed.

(** The descriptors are read one by one. *)
Lemma read_desc_run sb d off g : disk_ready d → EXT4_DESC_SIZE sb = sizeof ext4_group_desc → struct_ok g →
  holds d off (bytes_of g) → 0 ≤ off → off + sizeof ext4_group_desc ≤ disk_len d →
  read_desc sb d off = Ok (EXT4_GDT_SET_CLEAN g).
Proof.
  intros Hr Hd Hg Hh H0 Hl. pose proof (zlen_bytes_of g Hg) as Hz. pose proof MAX_RW_COUNT_eq.
  change (sizeof ext4_group_desc) with 64 in *. unfold read_desc. rewrite Hd, <- Hz.
  rewrite (holds_read d off (bytes_of g) Hr Hh) by lia. cbn [obind]. change (sizeof ext4_group_desc) with 64.
  rewrite buf_write_Ok by (rewrite ?zlen_replicate; lia). cbn [obind]. unfold splice.
  change (take (Z.to_nat 0) _) with (@nil Z). cbn [app].
  rewrite drop_ge by (rewrite length_replicate; unfold zlen in Hz; lia). by rewrite app_nil_r, of_bytes_of.
Qed.

Lemma group_fill_run sb d gs off : disk_ready d → EXT4_DESC_SIZE sb = sizeof ext4_group_desc → Forall struct_ok gs →
  holds d off (concat (map bytes_of gs)) → 0 ≤ off → off + sizeof ext4_group_desc * zlen gs ≤ disk_len d →
  group_fill_loop sb d off (length gs) = Ok (map EXT4_GDT_SET_CLEAN gs).
Proof.
  intros Hr Hd. pose proof (dr_len d Hr). revert off. induction gs as [|g gs IH]; intros off Hs Hh H0 Hl; [done|].
  apply Forall_cons in Hs as [Hg Hs]. cbn [map concat] in Hh. apply holds_app in Hh as [Hh Hh'].
  rewrite (zlen_bytes_of g Hg) in Hh'. change (sizeof ext4_group_desc) with 64 in *. rewrite zlen_cons in Hl.
  pose proof (zlen_nonneg gs). cbn [length group_fill_loop].
  rewrite (read_desc_run sb d off g) by (change (sizeof ext4_group_desc) with 64; done || lia). cbn [obind]. rewrite Hd. unfold u64.
  rewrite Z.mod_small by lia. rewrite IH by (change (sizeof ext4_group_desc) with 64; done || lia). done.
Qed.

Section mount.
Context (d : disk_t) (sb : ext4_super_block) (gdt : list ext4_group_desc) (Him : image_ok d sb gdt).
Context (capable : Z) (cntx : option fuse_context) (now : Z) (buf : list Z).
Let s := mount_state d sb gdt capable cntx now buf.

Lemma mount_layout : layout_ok (fs_sb s) (fs_gdt s) (disk_len d).
Proof. apply remounted_layout, (layout_same sb gdt); [apply clean_areas | apply Him]. Qed.

Lemma layout_mounted s' : layout_ok (fs_sb s') (fs_gdt s') (disk_len (fs_disk s')) → disk_ready (fs_disk s') → mounted s'.
Proof.
  intros [Hg Hc _ Hi Ht _ Hl Hin Hap] [Hfd _ Hb].
  assert (∀ i g, fs_gdt s' !! i = Some g → area_at (fs_sb s') (fs_gdt s') (InodeTable i) = Some (table_off (fs_sb s') g, table_size (fs_sb s'))) as Ha.
  { intros i g Hi'. cbn. by rewrite Hi'. }
  split; try done.
  - split; [done|]. split; [rewrite inode_size_val in Hi; lia|]. split; [done|]. split.
    + apply Forall_lookup. intros i g Hg'. destruct (Hin _ _ _ (Ha i g Hg')). cbn. lia.
    + intros i j a b Hi' Hj Hne. apply (Hap (InodeTable i) (InodeTable j)); [by apply Ha | by apply Ha | congruence].
  - apply Forall_lookup. intros i g Hg'. destruct (Hin _ _ _ (Ha i g Hg')). cbn. lia.
Qed.

Lemma mount_run : op_init d capable cntx now buf = Ok s.
Proof.
  destruct Him as [Hr Hlo Hsb Hgdt Hhs Hhg]. pose proof MAX_RW_COUNT_eq.
  pose proof (zlen_bytes_of sb Hsb) as Hz. change (sizeof ext4_super_block) with 1024 in Hz.
  pose proof Hlo as [Hgeo Hcnt Hd _ _ Hsup Hlen Hin _]. change (sizeof ext4_super_block) with 1024 in Hsup.
  change BOOT_SECTOR_SIZE with 1024 in *. pose proof (zlen_nonneg gdt). unfold gdt_end in *. change (sizeof ext4_group_desc) with 64 in *.
  unfold op_init, super_fill. change BOOT_SECTOR_SIZE with 1024. change (sizeof ext4_super_block) with 1024. rewrite <- Hz at 2.
  rewrite (holds_read d 1024 (bytes_of sb) Hr Hhs) by lia. cbn [obind]. rewrite (of_bytes_of sb Hsb).
  fold (remounted now sb). unfold super_group_fill.
  change (EXT4_N_BLOCK_GROUPS (remounted now sb)) with (EXT4_N_BLOCK_GROUPS sb). change (gdt_off (remounted now sb)) with (gdt_off sb).
  assert (EXT4_N_BLOCK_GROUPS sb < 2 ^ 31) as HG by (pose proof Hgeo as (?&?&?&?&?&?&?); dlia || nia).
  rewrite <- Hcnt, s32_small by lia. unfold zlen at 1. rewrite Nat2Z.id.
  rewrite group_fill_run by (change (sizeof ext4_group_desc) with 64; exact Hd || assumption || lia). cbn [obind].
  rewrite bitmap_init_run; [done | apply (lo_geo _ _ _ mount_layout) | apply (lo_count _ _ _ mount_layout) | apply Hr | apply Hr |].
  apply Forall_lookup. intros i g Hg. pose proof mount_layout as [_ _ _ _ _ _ _ Hin' _]. split.
  - apply (Hin' (InodeBits i)). cbn. by rewrite Hg.
  - apply (Hin' (BlockBits i)). cbn. by rewrite Hg.
Qed.

Lemma mount_ok : mounted s ∧ icache_ok s ∧ lru_room s ∧ decache_ok (fs_decache s) {[ 1%positive := [] ]} ∧
  bitmap_ok (fs_sb s) (EXT4_INODES_PER_GROUP (fs_sb s)) (fs_i_bitmap s) ∧
  bitmap_ok (fs_sb s) (EXT4_BLOCKS_PER_GROUP (fs_sb s)) (fs_d_bitmap s).
Proof.
  destruct (empty_cache_ok s eq_refl) as [Hic Hroom]. pose proof (lo_geo _ _ _ mount_layout) as (?&?&?&?&?&?&?).
  pose proof (lo_count _ _ _ mount_layout). split_and!.
  - apply layout_mounted; [apply mount_layout | apply Him].
  - done.
  - done.
  - by apply init_root_ok.
  - apply bitmap_of_disk_ok; [done | apply Him | cbn in *; lia].
  - apply bitmap_of_disk_ok; [done | apply Him | cbn in *; lia].
Qed.
End mount.
