(* ===== verification/Mkfs.v ===== *)
(** * Making a file system

    [src/mkfs/main.c] with the constants of [src/mkfs/config.h]: the image
    gets a boot sector of zeros, the super block, the group descriptors, the
    bitmaps, the inodes of the root directory and of [.kfsctl], and their
    first blocks.  One buffer of a block ([tmp_mem_area]) is used for all of
    it and keeps what was put in it before. *)

From S2P Require Import Prelude Ext4 Disk Bitmap Extents InodeMap Decache Fs Cache Dentry Dir OpsMount.
From stdpp Require Import base numbers list gmap strings.
From Stdlib Require Import ZArith Lia.

Open Scope Z_scope.
Open Scope kfs_scope.

(** ** Constants *)

Definition MKFS_EXT4_DISK_MIN_SIZE : Z := 512 * 1024.
Definition MKFS_EXT4_LOG_BLOCK_SIZE : Z := 2.
Definition MKFS_EXT4_BLOCK_SIZE : Z := 4096.
Definition MKFS_EXT4_GROUP_BLOCK_CNT : Z := MKFS_EXT4_BLOCK_SIZE * 8.
Definition MKFS_EXT4_INODE_SIZE : Z := 256.
Definition MKFS_EXT4_INODE_RATIO : Z := MKFS_EXT4_BLOCK_SIZE * 4.
Definition MKFS_EXT4_DESC_SIZE : Z := 64.
Definition MKFS_EXT4_RESV_DESC_CNT : Z := 0.

Definition CACHE_SIGNATURE : Z := 0x12345678.
Definition CACHE_VERSION : Z := 1.

Definition EXIT_SUCCESS : Z := 0.
Definition EXIT_FAILURE : Z := 1.

(** ** Geometry *)

Record geometry := mk_geometry {
  geo_block_count : Z;
  geo_group_count : Z;
  geo_inode_count : Z
}.

(** The image size rounded down to whole blocks. *)
Definition mkfs_img_size (img_size : Z) : Z :=
  if (0 <? img_size / MKFS_EXT4_BLOCK_SIZE) && negb (img_size mod MKFS_EXT4_BLOCK_SIZE =? 0)
  then img_size / MKFS_EXT4_BLOCK_SIZE * MKFS_EXT4_BLOCK_SIZE else img_size.

Definition mkfs_geometry (img_size : Z) : geometry :=
  let block_count := img_size / MKFS_EXT4_BLOCK_SIZE in
  let group_count :=
    u64 (block_count + MKFS_EXT4_GROUP_BLOCK_CNT - 1) / MKFS_EXT4_GROUP_BLOCK_CNT in
  let inode_count := u64 (block_count * MKFS_EXT4_BLOCK_SIZE) / MKFS_EXT4_INODE_RATIO in
  mk_geometry block_count group_count inode_count.

Definition mkfs_super (g : geometry) : ext4_super_block :=
  let sb : ext4_super_block := of_bytes (replicate 1024 0) in
  let sb := set_s_inodes_count (u32 (geo_inode_count g)) sb in
  let sb := set_s_magic EXT4_S_MAGIC sb in
  let sb := set_s_log_block_size MKFS_EXT4_LOG_BLOCK_SIZE sb in
  let sb := set_s_blocks_count_hi (u32 (Z.shiftr (geo_block_count g) 32)) sb in
  let sb := set_s_blocks_count_lo (Z.land (geo_block_count g) MASK_32) sb in
  let sb := set_s_blocks_per_group MKFS_EXT4_GROUP_BLOCK_CNT sb in
  let sb := set_s_inode_size MKFS_EXT4_INODE_SIZE sb in
  let sb := set_s_inodes_per_group (u32 (geo_inode_count g / geo_group_count g)) sb in
  set_s_desc_size MKFS_EXT4_DESC_SIZE sb.

Definition d_bitmap_start : Z := 2 + MKFS_EXT4_RESV_DESC_CNT.
Definition i_bitmap_start (g : geometry) : Z := d_bitmap_start + geo_group_count g.
Definition inode_table_start (g : geometry) : Z := i_bitmap_start g + geo_group_count g.

(** [sb.s_inodes_per_group * 256 / 4096]: the product is 32 bits wide, the
    quotient 64. *)
Definition inode_table_len (sb : ext4_super_block) : Z :=
  u32 (s_inodes_per_group sb * MKFS_EXT4_INODE_SIZE) / MKFS_EXT4_BLOCK_SIZE.

(** ** Group descriptors *)

Definition mkfs_desc (g : geometry) (sb : ext4_super_block) (i : Z) : ext4_group_desc :=
  let table := u64 (inode_table_start g + i * inode_table_len sb) in
  let last := i =? geo_group_count g - 1 in
  let free_blocks_count :=
    if last then
      u64 (geo_block_count g - (geo_group_count g - 1) * MKFS_EXT4_GROUP_BLOCK_CNT)
    else if i =? 0 then MKFS_EXT4_GROUP_BLOCK_CNT - 1 else MKFS_EXT4_GROUP_BLOCK_CNT in
  let free_inode_count :=
    if last then u64 (geo_inode_count g - (geo_group_count g - 1) * s_inodes_per_group sb)
    else if i =? 0 then u64 (s_inodes_per_group sb - 1) else s_inodes_per_group sb in
  let d : ext4_group_desc := of_bytes (replicate 64 0) in
  let d := set_bg_block_bitmap_lo (Z.land (d_bitmap_start + i) MASK_32) d in
  let d := set_bg_block_bitmap_hi (u32 (Z.shiftr (d_bitmap_start + i) 32)) d in
  let d := set_bg_inode_bitmap_lo (Z.land (i_bitmap_start g + i) MASK_32) d in
  let d := set_bg_inode_bitmap_hi (u32 (Z.shiftr (i_bitmap_start g + i) 32)) d in
  let d := set_bg_inode_table_lo (Z.land table MASK_32) d in
  let d := set_bg_inode_table_hi (u32 (Z.shiftr table 32)) d in
  let d := set_bg_free_blocks_count_lo (u16 (Z.land free_blocks_count MASK_32)) d in
  let d := set_bg_free_blocks_count_hi (u16 (Z.shiftr free_blocks_count 32)) d in
  let d := set_bg_free_inodes_count_lo (u16 (Z.land free_inode_count MASK_32)) d in
  let d := set_bg_free_inodes_count_hi 0 d in
  let d := set_bg_used_dirs_count_lo 0 (set_bg_used_dirs_count_hi 0 d) in
  let d := set_bg_itable_unused_lo (bg_free_inodes_count_lo d) d in
  set_bg_itable_unused_hi (bg_free_inodes_count_hi d) d.

(** The loop over the groups: the descriptors, and zeros in the bitmaps. *)
Fixpoint mkfs_groups (g : geometry) (sb : ext4_super_block) (tmp : list Z) (d : disk_t) (i : Z)
    (n : nat) : outcome (list ext4_group_desc * disk_t) :=
  match n with
  | O => Ok ([], d)
  | S n =>
    d ← disk_write_block sb d (d_bitmap_start + i) tmp;
    d ← disk_write_block sb d (i_bitmap_start g + i) tmp;
    '(gs, d) ← mkfs_groups g sb tmp d (i + 1) n;
    Ok (mkfs_desc g sb i :: gs, d)
  end.

(** ** Inodes *)

(** [inode_create] of [mkfs]. *)
Definition mkfs_inode_create (sb : ext4_super_block) (now uid gid mode pblock : Z) : ext4_inode :=
  let inode := set_i_mode (u16 mode) zero_inode in
  let inode := set_i_atime (u32 now) (set_i_ctime (u32 now) (set_i_mtime (u32 now) inode)) in
  let inode := EXT4_INODE_SET_GID gid (EXT4_INODE_SET_UID uid inode) in
  let inode := set_i_links_count (if has mode S_IFDIR then 2 else 1) inode in
  let inode := EXT4_INODE_SET_BLOCKS EXT4_INODE_PBLOCK_NUM inode in
  let inode_size := if has mode S_IFDIR then EXT4_BLOCK_SIZE sb else 0 in
  let inode := EXT4_INODE_SET_SIZE inode_size inode in
  let inode := set_i_flags (Z.lor (i_flags inode) EXT4_EXTENTS_FL) inode in
  let eh := mk_extent_header EXT4_EXT_MAGIC 1 EXT4_EXT_LEAF_EH_MAX 0 EXT4_EXT_EH_GENERATION in
  let ee := EXT4_EXT_SET_PADDR pblock (mk_extent 0 4 0 0) in
  set_i_block (bytes_of eh ++ bytes_of ee ++ replicate 36 0) inode.

(** The offset of an inode in the table of the first group. *)
Definition mkfs_inode_off (g : geometry) (sb : ext4_super_block) (ino : Z) : Z :=
  u64 (BLOCKS2BYTES sb (inode_table_start g) + (ino - 1) * MKFS_EXT4_INODE_SIZE).

(** The used blocks of the first group: [memset] and the last partial
    byte. *)
Definition mkfs_block_bits (tmp : list Z) (cnt : Z) : outcome (list Z) :=
  tmp ← buf_write tmp 0 (replicate (Z.to_nat (cnt / 8)) 255);
  if cnt mod 8 =? 0 then Ok tmp
  else
    b ← arr_get tmp (cnt / 8);
    arr_set tmp (cnt / 8) (u8 (Z.lor b (Z.shiftl 1 (cnt mod 8) - 1))).

(** [struct CacheHeader]. *)
Definition cache_header (entries : Z) : list Z :=
  le_bytes 4 CACHE_SIGNATURE ++ le_bytes 4 CACHE_VERSION ++ le_bytes 4 entries.

(** The first block of the root directory. *)
Definition mkfs_root_dir (sb : ext4_super_block) (tmp : list Z) : outcome (list Z) :=
  tmp ← write_tail sb tmp;
  tmp ← write_rec tmp 0 EXT4_ROOT_INO EXT4_DE_DOT_SIZE 1 EXT4_FT_DIR (cstr ".");
  tmp ← write_rec tmp EXT4_DE_DOT_SIZE EXT4_ROOT_INO EXT4_DE_DOT_SIZE 2 EXT4_FT_DIR (cstr "..");
  write_rec tmp (EXT4_DE_DOT_SIZE * 2) EXT4_KFSCTL_INO
    (EXT4_BLOCK_SIZE sb - EXT4_DE_DOT_SIZE * 2 - EXT4_DE_TAIL_SIZE) 7 EXT4_FT_REG_FILE
    (cstr ".kfsctl").

(** ** The program *)

(** The bitmap of the first group, the two inodes and their first blocks, in
    the buffer [tmp] that holds the inode bitmap. *)
Definition mkfs_content (g : geometry) (sb : ext4_super_block) (tmp : list Z) (d : disk_t)
    (data_block_start cnt now uid gid : Z) : outcome (Z * disk_t) :=
  tmp ← mkfs_block_bits tmp cnt;
  d ← disk_write_block sb d d_bitmap_start tmp;
  let root := mkfs_inode_create sb now uid gid (Z.lor S_IFDIR 0x1ed) data_block_start in
  tmp ← buf_write tmp 0 (bytes_of root);
  bs ← buf_read tmp 0 MKFS_EXT4_INODE_SIZE;
  d ← disk_write d (mkfs_inode_off g sb EXT4_ROOT_INO) bs;
  let ctl_block := u64 (data_block_start + EXT4_INODE_PBLOCK_NUM) in
  let ctl := EXT4_INODE_SET_SIZE (u64 (EXT4_INODE_PBLOCK_NUM * EXT4_BLOCK_SIZE sb))
               (mkfs_inode_create sb now uid gid (Z.lor S_IFREG 0x1ed) ctl_block) in
  tmp ← buf_write tmp 0 (bytes_of ctl);
  bs ← buf_read tmp 0 MKFS_EXT4_INODE_SIZE;
  d ← disk_write d (mkfs_inode_off g sb EXT4_KFSCTL_INO) bs;
  tmp ← buf_write tmp 0 (cache_header 0);
  d ← disk_write_block sb d ctl_block tmp;
  tmp ← mkfs_root_dir sb tmp;
  d ← disk_write_block sb d data_block_start tmp;
  Ok (EXIT_SUCCESS, d).

(** From the first write on; [now], [uid] and [gid] come from the system. *)
Definition mkfs_fill (d : disk_t) (img_size now uid gid : Z) : outcome (Z * disk_t) :=
  d ← disk_write d 0 (replicate (Z.to_nat BOOT_SECTOR_SIZE) 0);
  let g := mkfs_geometry img_size in
  ASSERT (geo_inode_count g / geo_group_count g <=? MKFS_EXT4_GROUP_BLOCK_CNT) ;;
  let sb := mkfs_super g in
  d ← disk_write d BOOT_SECTOR_SIZE (bytes_of sb);
  let bg_off := gdt_off sb in
  let tmp := replicate (Z.to_nat MKFS_EXT4_BLOCK_SIZE) 0 in
  '(gdt, d) ← mkfs_groups g sb tmp d 0 (Z.to_nat (geo_group_count g));
  g0 ← arr_get gdt 0;
  gdt ← arr_set gdt 0 (set_bg_used_dirs_count_lo (u16 (bg_used_dirs_count_lo g0 + 1)) g0);
  d ← disk_write d bg_off (concat (map bytes_of gdt));
  tmp ← SET_BIT1 tmp 0 true;
  tmp ← SET_BIT1 tmp 1 true;
  tmp ← SET_BIT1 tmp 2 true;
  bs ← buf_read tmp 0 2;
  d ← disk_write d (BLOCKS2BYTES sb (i_bitmap_start g)) bs;
  let cnt := ALIGN_TO (u64 (inode_table_start g + geo_group_count g * inode_table_len sb)) 4 in
  let data_block_start := cnt in
  let cnt := u64 (cnt + EXT4_INODE_PBLOCK_NUM * 2) in
  if EXT4_BLOCK_SIZE sb <? cnt then Ok (EXIT_FAILURE, d)
  else mkfs_content g sb tmp d data_block_start cnt now uid gid.

(** [main]: [fd] and [errno_] are the result of [open], [log_ok] whether the
    log could be opened. *)
Definition mkfs (argc fd errno_ : Z) (log_ok : bool) (d : disk_t) (now uid gid : Z) :
    outcome (Z * disk_t) :=
  if negb (argc =? 2) then Ok (EXIT_FAILURE, d)
  else
    let '(r, d) := disk_open fd errno_ d in
    if r <? 0 then Ok (EXIT_FAILURE, d)
    else if negb log_ok then Ok (EXIT_FAILURE, d)
    else
      let img_size := disk_size d in
      if img_size <? MKFS_EXT4_DISK_MIN_SIZE then Ok (EXIT_FAILURE, d)
      else mkfs_fill d (mkfs_img_size img_size) now uid gid.

(** ** Lemmas on the geometry

    An image of whole blocks, at least as large as the minimum. *)

Definition mkfs_ipg (g : geometry) : Z := geo_inode_count g / geo_group_count g.

(** The metadata blocks with the first data blocks, as the code counts them. *)
Definition mkfs_data_start (g : geometry) : Z :=
  ALIGN_TO (inode_table_start g + geo_group_count g * inode_table_len (mkfs_super g)) 4.
Definition mkfs_used (g : geometry) : Z := mkfs_data_start g + EXT4_INODE_PBLOCK_NUM * 2.

Definition img_ok (img_size : Z) : Prop :=
  MKFS_EXT4_DISK_MIN_SIZE ≤ img_size < 2 ^ 52 ∧ img_size mod MKFS_EXT4_BLOCK_SIZE = 0.

(** The members of the super block [mkfs] sets. *)
Lemma super_members_ok z v1 v2 v3 v4 v5 v6 v7 v8 v9 : struct_ok z → in_width 4 v1 → in_width 2 v2 → in_width 4 v3 →
  in_width 4 v4 → in_width 4 v5 → in_width 4 v6 → in_width 2 v7 → in_width 4 v8 → in_width 2 v9 →
  struct_ok (set_s_desc_size v9 (set_s_inodes_per_group v8 (set_s_inode_size v7 (set_s_blocks_per_group v6
    (set_s_blocks_count_lo v5 (set_s_blocks_count_hi v4 (set_s_log_block_size v3 (set_s_magic v2
    (set_s_inodes_count v1 z))))))))).
Proof.
  intros [_ H] ? ? ? ? ? ? ? ? ?. split; [exact I|]. destruct z. cbn in H |- *.
  repeat apply Forall2_cons in H as [? H]. repeat (apply Forall2_cons; split); assumption || constructor.
Qed.

Section geo.
Context (img_size : Z) (Himg : img_ok img_size).
Let g := mkfs_geometry img_size.
Let sb := mkfs_super g.
Local Abbreviation BC := (geo_block_count g).
Local Abbreviation G := (geo_group_count g).

Lemma geo_facts :
  img_size = BC * 4096 ∧ 128 ≤ BC < 2 ^ 40 ∧ (G - 1) * 32768 < BC ≤ G * 32768 ∧ 1 ≤ G < 2 ^ 26 ∧
  geo_inode_count g = BC / 4.
Proof.
  destruct Himg as [[Hmin Hmax] Hmod]. unfold MKFS_EXT4_DISK_MIN_SIZE, MKFS_EXT4_BLOCK_SIZE in *.
  unfold g, mkfs_geometry, MKFS_EXT4_GROUP_BLOCK_CNT, MKFS_EXT4_INODE_RATIO, MKFS_EXT4_BLOCK_SIZE.
  cbn [geo_block_count geo_group_count geo_inode_count].
  assert (128 ≤ img_size / 4096 < 2 ^ 40) by dlia. unfold u64. rewrite !Z.mod_small by lia.
  change (4096 * 8) with 32768. change (4096 * 4) with 16384. set (b := img_size / 4096) in *.
  assert (img_size = b * 4096) by (unfold b; dlia). clearbody b. split_and!; dlia.
Qed.

Lemma ipg_facts : 32 ≤ mkfs_ipg g ≤ 8192 ∧ mkfs_ipg g * G ≤ BC / 4 ∧ (2 ≤ G → 4095 ≤ mkfs_ipg g).
Proof.
  destruct geo_facts as (_ & HB & HG & HG' & HI). unfold mkfs_ipg. rewrite HI.
  pose proof (Z.mul_div_le (BC / 4) G ltac:(lia)) as Hle.
  assert (BC / 4 ≤ 8192 * G) by dlia. assert (8192 * (G - 1) ≤ BC / 4) by dlia.
  assert (BC / 4 / G ≤ 8192) by (apply Z.div_le_upper_bound; lia).
  destruct (decide (G = 1)) as [E|E].
  - rewrite E, Z.div_1_r in *. split_and!; dlia.
  - assert (4095 ≤ BC / 4 / G) by (apply Z.div_le_lower_bound; lia). split_and!; lia.
Qed.

(** The super block gives the geometry back. *)
Lemma super_facts :
  EXT4_BLOCK_SIZE sb = 4096 ∧ EXT4_BLOCKS_PER_GROUP sb = 32768 ∧ EXT4_INODES_PER_GROUP sb = mkfs_ipg g ∧
  EXT4_S_INODE_SIZE sb = 256 ∧ EXT4_DESC_SIZE sb = 64 ∧ EXT4_BLOCK_COUNT sb = BC ∧
  EXT4_N_BLOCK_GROUPS sb = G ∧ inode_table_len sb = mkfs_ipg g / 16.
Proof.
  destruct geo_facts as (_ & HB & HG & HG' & _). destruct ipg_facts as (Hipg & _).
  assert (EXT4_BLOCKS_PER_GROUP sb = 32768) as E1 by reflexivity.
  assert (EXT4_INODES_PER_GROUP sb = mkfs_ipg g) as E2.
  { change (u32 (mkfs_ipg g) = mkfs_ipg g). apply Z.mod_small. lia. }
  assert (EXT4_BLOCK_COUNT sb = BC) as E3.
  { change (Z.lor (Z.shiftl (u32 (Z.shiftr BC 32)) 32) (Z.land BC MASK_32) = BC). apply halves_32.
    rewrite Z.shiftr_div_pow2 by lia. apply Z.mod_small. dlia. }
  split_and!; try done.
  - unfold EXT4_N_BLOCK_GROUPS. rewrite E1, E3. unfold u64. rewrite Z.mod_small by lia. clear -HB HG. dlia.
  - unfold inode_table_len. change (s_inodes_per_group sb) with (EXT4_INODES_PER_GROUP sb). rewrite E2.
    unfold MKFS_EXT4_INODE_SIZE, MKFS_EXT4_BLOCK_SIZE, u32. rewrite Z.mod_small by lia. clear -Hipg. dlia.
Qed.

Lemma super_ok : struct_ok sb.
Proof.
  destruct ipg_facts as (Hipg & _). unfold sb, mkfs_super. set (z := of_bytes _).
  assert (struct_ok z) as Hz by (apply of_bytes_ok; [done | apply Forall_replicate; unfold byte_ok; lia]).
  clearbody z. apply super_members_ok; auto with inode_ok; vm_compute; split; (discriminate || reflexivity).
Qed.
End geo.

(** ** Lemmas on the writes *)

Lemma block_addr sb b : EXT4_BLOCK_SIZE sb = 4096 → 0 ≤ b < 2 ^ 52 → BLOCKS2BYTES sb b = b * 4096.
Proof. intros HB Hb. unfold BLOCKS2BYTES, u64. rewrite HB, (Z.mod_small b) by lia. apply Z.mod_small. lia. Qed.

Lemma block_write_run sb d b tmp : disk_ready d → EXT4_BLOCK_SIZE sb = 4096 → zlen tmp = 4096 →
  Forall byte_ok tmp → 0 ≤ b → (b + 1) * 4096 ≤ disk_len d →
  ∃ d', disk_write_block sb d b tmp = Ok d' ∧ disk_ready d' ∧ wrote d d' (b * 4096) 4096 ∧
    holds d' (b * 4096) tmp.
Proof.
  intros Hr HB Hz Hby Hb Hl. pose proof (dr_len d Hr). unfold disk_write_block. rewrite HB, block_addr by (done || lia).
  rewrite buf_read_Ok by lia. cbn [obind]. rewrite drop_0, take_ge by (unfold zlen in Hz; lia).
  rewrite <- Hz. apply disk_write_run; try done; try lia. rewrite Hz, MAX_RW_COUNT_eq. lia.
Qed.

Definition zero_block : list Z := replicate (Z.to_nat MKFS_EXT4_BLOCK_SIZE) 0.

Lemma zero_block_ok : zlen zero_block = 4096 ∧ Forall byte_ok zero_block.
Proof. split; [reflexivity|]. apply Forall_replicate. unfold byte_ok. lia. Qed.

(** The bitmaps of the groups are zeros, and nothing else is written. *)
Lemma mkfs_groups_run g sb d i n : disk_ready d → EXT4_BLOCK_SIZE sb = 4096 → 0 ≤ i →
  i + Z.of_nat n = geo_group_count g → (2 + 2 * geo_group_count g) * 4096 ≤ disk_len d →
  ∃ d', mkfs_groups g sb zero_block d i n = Ok (map (mkfs_desc g sb) (seqZ i (Z.of_nat n)), d') ∧ disk_ready d' ∧
    wrote d d' 8192 (2 * geo_group_count g * 4096) ∧
    (∀ x, x < (2 + i) * 4096 ∨ (2 + geo_group_count g) * 4096 ≤ x < (2 + geo_group_count g + i) * 4096 →
       disk_bytes d' !! x = disk_bytes d !! x) ∧
    ∀ j, i ≤ j < i + Z.of_nat n →
      holds d' ((2 + j) * 4096) zero_block ∧ holds d' ((2 + geo_group_count g + j) * 4096) zero_block.
Proof.
  destruct zero_block_ok as [Hz Hby]. intros Hr HB. set (G := geo_group_count g).
  revert d i Hr. induction n as [|n IH]; intros d i Hr Hi Hn Hl.
  { exists d. split; [done|]. split; [done|]. split; [done|]. split; [done|]. intros. lia. }
  cbn [mkfs_groups]. unfold i_bitmap_start, d_bitmap_start, MKFS_EXT4_RESV_DESC_CNT. fold G.
  destruct (block_write_run sb d (2 + 0 + i) zero_block) as (d1 & -> & Hr1 & Hw1 & Hh1); [assumption || lia..|].
  pose proof Hw1 as (_ & Hl1 & Hx1). cbn [obind].
  destruct (block_write_run sb d1 (2 + 0 + G + i) zero_block) as (d2 & -> & Hr2 & Hw2 & Hh2); [assumption || lia..|].
  pose proof Hw2 as (_ & Hl2 & Hx2). cbn [obind].
  destruct (IH d2 (i + 1)) as (d3 & -> & Hr3 & Hw3 & Hx3 & Hh3); [assumption || lia..|]. cbn [obind]. exists d3.
  split; [|split; [exact Hr3 | split; [|split]]].
  - rewrite (seqZ_cons i (Z.of_nat (S n))) by lia. by replace (Z.pred (Z.of_nat (S n))) with (Z.of_nat n) by lia.
  - pose proof (wrote_trans _ _ _ _ _ _ _ 8192 (8192 + 2 * G * 4096) Hw1 Hw2 ltac:(lia) ltac:(lia) ltac:(lia) ltac:(lia)) as Hw12.
    pose proof (wrote_trans _ _ _ _ _ _ _ 8192 (8192 + 2 * G * 4096) Hw12 Hw3 ltac:(lia) ltac:(lia) ltac:(lia) ltac:(lia)) as Hw13.
    by replace (8192 + 2 * G * 4096 - 8192) with (2 * G * 4096) in Hw13 by lia.
  - intros x Hx. rewrite Hx3, Hx2, Hx1 by lia. done.
  - intros j Hj. destruct (decide (j = i)) as [->|Hne]; [|apply Hh3; lia].
    rewrite !holds_lookup in *. split; intros k b Hk; apply lookup_lt_Some in Hk as Hlt; unfold zlen in Hz.
    + rewrite Hx3, Hx2 by lia. rewrite <- (Hh1 k b Hk). done.
    + rewrite Hx3 by lia. rewrite <- (Hh2 k b Hk). done.
Qed.

(** The buffer with an inode at its start, and the inode written. *)
Lemma inode_write_run d tmp (inode : ext4_inode) off : disk_ready d → zlen tmp = 4096 → Forall byte_ok tmp → struct_ok inode →
  0 ≤ off → off + 256 ≤ disk_len d →
  ∃ tmp' bs d', buf_write tmp 0 (bytes_of inode) = Ok tmp' ∧ buf_read tmp' 0 MKFS_EXT4_INODE_SIZE = Ok bs ∧
    disk_write d off bs = Ok d' ∧ zlen tmp' = 4096 ∧ Forall byte_ok tmp' ∧ disk_ready d' ∧ wrote d d' off 256 ∧
    holds d' off (bytes_of inode).
Proof.
  intros Hr Hz Hby Hst Hoff Hl. pose proof (zlen_bytes_of inode Hst) as Hzi. rewrite inode_size_val in Hzi.
  destruct (buf_write_is_Ok tmp 0 (bytes_of inode)) as (tmp' & Hw & Hz'); [lia..|].
  apply buf_write_bytes_ok in Hw as Hby'; [|done | apply bytes_of_bytes_ok].
  pose proof (buf_read_write_same _ _ _ _ Hw) as Hrd. apply buf_read_inv in Hrd as (_ & _ & _ & Hrd).
  rewrite drop_0 in Hrd. set (bs := take (Z.to_nat 256) tmp').
  assert (buf_read tmp' 0 MKFS_EXT4_INODE_SIZE = Ok bs) as Hbs by (apply (buf_read_Ok tmp' 0 256); lia).
  assert (zlen bs = 256) as Hzb by (unfold bs, zlen in *; rewrite length_take; lia).
  destruct (disk_write_run d off bs) as (d' & Hwd & Hr' & Hx & Hh);
    [exact Hr | lia | lia | rewrite MAX_RW_COUNT_eq; lia | by apply Forall_take|].
  rewrite Hzb in Hx. exists tmp', bs, d'. split_and!; try done; [lia|].
  assert (bs = bytes_of inode ++ drop (Z.to_nat 160) bs) as Hsplit.
  { rewrite <- (take_drop (Z.to_nat 160) bs) at 1. f_equal. rewrite Hrd, Hzi. unfold bs. rewrite take_take. f_equal. }
  rewrite Hsplit in Hh. by apply holds_app in Hh as [? _].
Qed.

(** The members of a descriptor [mkfs] sets. *)
Lemma desc_members_ok z a b c d e f h i j k l m : struct_ok z →
  in_width 4 a → in_width 4 b → in_width 4 c → in_width 4 d → in_width 4 e → in_width 4 f → in_width 2 h →
  in_width 2 i → in_width 2 j → in_width 2 k → in_width 2 l → in_width 2 m →
  struct_ok (set_bg_itable_unused_hi m (set_bg_itable_unused_lo l (set_bg_used_dirs_count_lo k (set_bg_used_dirs_count_hi 0
    (set_bg_free_inodes_count_hi 0 (set_bg_free_inodes_count_lo j (set_bg_free_blocks_count_hi i
    (set_bg_free_blocks_count_lo h (set_bg_inode_table_hi f (set_bg_inode_table_lo e (set_bg_inode_bitmap_hi d
    (set_bg_inode_bitmap_lo c (set_bg_block_bitmap_hi b (set_bg_block_bitmap_lo a z)))))))))))))).
Proof.
  intros [_ H] ? ? ? ? ? ? ? ? ? ? ? ?. split; [exact I|]. destruct z. cbn in H |- *.
  assert (in_width 2 0) by (unfold in_width; lia).
  repeat apply Forall2_cons in H as [? H]. repeat (apply Forall2_cons; split); assumption || constructor.
Qed.

Lemma used_dirs_ok z v : struct_ok z → in_width 2 v → struct_ok (set_bg_used_dirs_count_lo v z).
Proof.
  intros [_ H] ?. split; [exact I|]. destruct z. cbn in H |- *.
  repeat apply Forall2_cons in H as [? H]. repeat (apply Forall2_cons; split); assumption || constructor.
Qed.

Lemma desc_ok g sb i : struct_ok (mkfs_desc g sb i).
Proof.
  unfold mkfs_desc. set (z := of_bytes (replicate 64 0)).
  assert (struct_ok z) as Hz by (apply of_bytes_ok; [done | apply Forall_replicate; unfold byte_ok; lia]).
  clearbody z. apply desc_members_ok; auto with inode_ok; [unfold in_width; lia | apply u16_width | unfold in_width; cbn; lia].
Qed.

(** Where a descriptor points to. *)
Lemma desc_facts g sb i : 0 ≤ i < geo_group_count g → geo_group_count g < 2 ^ 26 → 0 ≤ inode_table_len sb < 2 ^ 20 →
  EXT4_DESC_BLOCK_BITMAP (mkfs_desc g sb i) = 2 + i ∧
  EXT4_DESC_INO_BITMAP (mkfs_desc g sb i) = 2 + geo_group_count g + i ∧
  EXT4_DESC_INODE_TABLE (mkfs_desc g sb i) = 2 + 2 * geo_group_count g + i * inode_table_len sb.
Proof.
  intros Hi HG Hl. assert (0 ≤ i * inode_table_len sb < 2 ^ 46) by nia. split_and!.
  - change (Z.lor (Z.shiftl (u32 (Z.shiftr (2 + i) 32)) 32) (Z.land (2 + i) MASK_32) = 2 + i).
    apply halves_32. rewrite Z.shiftr_div_pow2 by lia. apply Z.mod_small. dlia.
  - change (Z.lor (Z.shiftl (u32 (Z.shiftr (2 + geo_group_count g + i) 32)) 32)
      (Z.land (2 + geo_group_count g + i) MASK_32) = 2 + geo_group_count g + i).
    apply halves_32. rewrite Z.shiftr_div_pow2 by lia. apply Z.mod_small. dlia.
  - replace (2 + 2 * geo_group_count g + i * inode_table_len sb) with
      (u64 (inode_table_start g + i * inode_table_len sb))
      by (unfold u64, inode_table_start, i_bitmap_start, d_bitmap_start, MKFS_EXT4_RESV_DESC_CNT; rewrite Z.mod_small; lia).
    set (t := u64 _). change (Z.lor (Z.shiftl (u32 (Z.shiftr t 32)) 32) (Z.land t MASK_32) = t).
    apply halves_32. rewrite Z.shiftr_div_pow2 by lia. apply Z.mod_small.
    assert (0 ≤ t < 2 ^ 64) by (apply Z.mod_pos_bound; lia). clearbody t. dlia.
Qed.

(** ** Lemmas on the blocks *)

Definition first_bits : list Z := 7 :: replicate 4095 0.

Lemma first_bits_run :
  (tmp ← SET_BIT1 zero_block 0 true; tmp ← SET_BIT1 tmp 1 true; SET_BIT1 tmp 2 true) = Ok first_bits.
Proof. vm_compute. reflexivity. Qed.

Lemma low_bits r i : 0 ≤ r → 0 ≤ i → Z.testbit (Z.shiftl 1 r - 1) i = (i <? r).
Proof.
  intros Hr Hi. rewrite Z.shiftl_1_l, Z.sub_1_r, <- Z.ones_equiv. destruct (Z.ltb_spec i r).
  - by apply Z.ones_spec_low.
  - apply Z.ones_spec_high. lia.
Qed.

(** The blocks below [cnt] are in use, the others are free. *)
Lemma block_bits_ok cnt : 8 ≤ cnt ≤ 4096 →
  ∃ tmp, mkfs_block_bits first_bits cnt = Ok tmp ∧ zlen tmp = 4096 ∧ Forall byte_ok tmp ∧
    ∀ k, 0 ≤ k < 32768 → bit_at tmp k = (k <? cnt).
Proof.
  intros Hc. set (n := Z.to_nat (cnt / 8)). assert (1 ≤ n ≤ 512)%nat as Hn by (unfold n; dlia).
  set (r := cnt mod 8). assert (cnt = 8 * Z.of_nat n + r ∧ 0 ≤ r < 8) as [Hcnt Hr] by (unfold n, r; dlia).
  assert (buf_write first_bits 0 (replicate n 255) = Ok (replicate n 255 ++ replicate (4096 - n) 0)) as Hw.
  { rewrite buf_write_Ok; [|lia|unfold zlen; rewrite length_replicate; change (length first_bits) with 4096%nat; lia].
    f_equal. unfold splice, first_bits. rewrite length_replicate. change (take (Z.to_nat 0) _) with (@nil Z).
    cbn [app]. f_equal. destruct n as [|n']; [lia|].
    change (drop n' (replicate 4095 0) = replicate (4096 - S n') 0). rewrite drop_replicate. done. }
  unfold mkfs_block_bits. fold n r. rewrite Hw. cbn [obind].
  set (bs := replicate n 255 ++ replicate (4096 - n) 0).
  assert (Forall byte_ok bs) as Hbs by (apply Forall_app; split; apply Forall_replicate; unfold byte_ok; lia).
  assert (length bs = 4096%nat) as Hlen by (unfold bs; rewrite length_app, !length_replicate; lia).
  assert (∀ m, (m < n)%nat → bs !! m = Some 255) as Hlow.
  { intros m Hm. unfold bs. rewrite lookup_app_l by (rewrite length_replicate; lia). by apply lookup_replicate_2. }
  assert (∀ m, (n ≤ m < 4096)%nat → bs !! m = Some 0) as Hhigh.
  { intros m Hm. unfold bs. rewrite lookup_app_r by (rewrite length_replicate; lia). apply lookup_replicate_2.
    rewrite length_replicate. lia. }
  clearbody bs. assert (∀ k, 0 ≤ k → (Z.to_nat (k / 8) < n)%nat → (k <? cnt) = true ∧ Z.testbit 255 (k mod 8) = true) as Hk1.
  { intros k Hk Hkn. split; [apply Z.ltb_lt; dlia|]. change 255 with (Z.ones 8). apply Z.ones_spec_low. dlia. }
  destruct (Z.eqb_spec r 0) as [E|E].
  - exists bs. split_and!; [done | by unfold zlen; rewrite Hlen | done|]. intros k Hk. unfold bit_at.
    destruct (decide (Z.to_nat (k / 8) < n)%nat) as [Hkn|Hkn].
    + rewrite Hlow by done. destruct (Hk1 k ltac:(lia) Hkn). congruence.
    + rewrite Hhigh by dlia. rewrite Z.bits_0. symmetry. apply Z.ltb_ge. dlia.
  - replace (cnt / 8) with (Z.of_nat n) by (unfold n; dlia). rewrite (arr_get_Ok bs _ 0) by (rewrite ?Nat2Z.id; (lia || apply Hhigh; lia)).
    cbn [obind]. rewrite Z.lor_0_l. rewrite arr_set_Ok by (unfold zlen; lia). rewrite Nat2Z.id.
    assert (0 ≤ Z.shiftl 1 r - 1 < 2 ^ 8) as Hr8.
    { rewrite Z.shiftl_1_l. pose proof (Z.pow_pos_nonneg 2 r ltac:(lia) ltac:(lia)).
      pose proof (Z.pow_le_mono_r 2 r 7 ltac:(lia) ltac:(lia)). lia. }
    unfold u8. rewrite Z.mod_small by lia. eexists. split; [done|]. split_and!.
    + unfold zlen. by rewrite length_insert, Hlen.
    + by apply Forall_insert.
    + intros k Hk. unfold bit_at. destruct (decide (Z.to_nat (k / 8) = n)) as [Ek|Hne].
      * rewrite Ek, list_lookup_insert_eq by lia. rewrite low_bits by dlia.
        destruct (Z.ltb_spec (k mod 8) r), (Z.ltb_spec k cnt); dlia.
      * rewrite list_lookup_insert_ne by lia. destruct (decide (Z.to_nat (k / 8) < n)%nat) as [Hkn|Hkn].
        -- rewrite Hlow by done. destruct (Hk1 k ltac:(lia) Hkn). congruence.
        -- rewrite Hhigh by dlia. rewrite Z.bits_0. symmetry. apply Z.ltb_ge. dlia.
Qed.

(** The entries of the root directory. *)
Definition root_entries : list dent :=
  [mk_dent EXT4_ROOT_INO 12 EXT4_FT_DIR (cstr "."); mk_dent EXT4_ROOT_INO 12 EXT4_FT_DIR (cstr "..");
   mk_dent EXT4_KFSCTL_INO 4060 EXT4_FT_REG_FILE (cstr ".kfsctl")].

Lemma mkfs_root_dir_ok sb tmp : EXT4_BLOCK_SIZE sb = 4096 → zlen tmp = 4096 → Forall byte_ok tmp →
  ∃ tmp', mkfs_root_dir sb tmp = Ok tmp' ∧ zlen tmp' = 4096 ∧ Forall byte_ok tmp' ∧ dents_at 4096 tmp' 0 root_entries.
Proof.
  intros HB HL Hby. unfold mkfs_root_dir, write_tail, EXT4_DE_DOT_SIZE. rewrite HB.
  change (EXT4_DE_TAIL_SIZE) with 12.
  destruct (buf_write_is_Ok tmp (4096 - 12) (bytes_of new_tail)) as (b0 & H0 & L0);
    [lia | change (zlen (bytes_of new_tail)) with 12; lia|].
  rewrite H0. cbn [obind].
  destruct (write_rec_ok b0 0 EXT4_ROOT_INO 12 1 EXT4_FT_DIR (cstr ".")) as (b1 & H1 & L1 & R1 & F1 & _);
    [lia | change (zlen (cstr ".")) with 1; lia|].
  rewrite H1. cbn [obind]. change (zlen (cstr ".")) with 1 in *.
  destruct (write_rec_ok b1 12 EXT4_ROOT_INO 12 2 EXT4_FT_DIR (cstr "..")) as (b2 & H2 & L2 & R2 & F2 & _);
    [lia | change (zlen (cstr "..")) with 2; lia|].
  rewrite H2. cbn [obind]. change (zlen (cstr "..")) with 2 in *.
  destruct (write_rec_ok b2 (12 * 2) EXT4_KFSCTL_INO (4096 - 12 * 2 - 12) 7 EXT4_FT_REG_FILE (cstr ".kfsctl"))
    as (b3 & H3 & L3 & R3 & F3 & _); [lia | change (zlen (cstr ".kfsctl")) with 7; lia|].
  rewrite H3. change (zlen (cstr ".kfsctl")) with 7 in *. exists b3. split; [done|]. split; [lia|].
  split.
  { apply buf_write_bytes_ok in H0; [|done | apply bytes_of_bytes_ok].
    assert (∀ s, Forall byte_ok s ↔ bool_decide (Forall byte_ok s) = true) as Hbd by (intros; by rewrite bool_decide_eq_true).
    apply write_rec_bytes_ok in H1; [|done | apply Hbd; vm_compute; reflexivity].
    apply write_rec_bytes_ok in H2; [|done | apply Hbd; vm_compute; reflexivity].
    apply write_rec_bytes_ok in H3; [done|done | apply Hbd; vm_compute; reflexivity]. }
  unfold root_entries. cbn [dents_at d_len]. unfold dent_at, dent_ok. cbn [d_ino d_len d_type d_name].
  change (zlen (cstr ".")) with 1. change (zlen (cstr "..")) with 2. change (zlen (cstr ".kfsctl")) with 7.
  change (DE_REAL_REC_LEN 1) with 12. change (DE_REAL_REC_LEN 2) with 12. change (DE_REAL_REC_LEN 7) with 16.
  split; [split|split; [split|split; [split|split]]].
  - revert R1. apply rec_at_frame. intros q n ? Hq. change (zlen (cstr ".")) with 1 in Hq. rewrite F3, F2 by lia. done.
  - split_and!; [lia..|by right].
  - revert R2. apply rec_at_frame. intros q n ? Hq. change (zlen (cstr "..")) with 2 in Hq. rewrite F3 by lia. done.
  - split_and!; [lia..|by right].
  - exact R3.
  - split_and!; [lia..|by right].
  - reflexivity.
  - unfold tail_at. change (0 + 12 + 12 + 4060) with (4096 - 12). rewrite F3, F2, F1 by lia. apply buf_read_write_same in H0.
    change (zlen (bytes_of new_tail)) with 12 in H0. pose proof (buf_read_part _ _ _ _ 0 8 H0) as H8.
    rewrite Z.add_0_r in H8. apply H8; lia.
Qed.

Lemma mkfs_inode_ok sb now uid gid mode pblock : struct_ok (mkfs_inode_create sb now uid gid mode pblock).
Proof.
  unfold mkfs_inode_create. apply set_i_block_ok.
  - apply set_i_flags_ok; [|vm_compute; split; [discriminate | reflexivity]].
    assert (in_width 2 (if has mode S_IFDIR then 2 else 1)) by (unfold in_width; destruct (has mode S_IFDIR); lia).
    apply SET_SIZE_ok, SET_BLOCKS_ok, set_i_links_count_ok; [|done].
    apply SET_GID_ok, SET_UID_ok, set_i_atime_ok, set_i_ctime_ok, set_i_mtime_ok, set_i_mode_ok, zero_inode_ok.
  - reflexivity.
  - rewrite !Forall_app. split_and!; [apply bytes_of_bytes_ok..|apply Forall_replicate; unfold byte_ok; lia].
Qed.

(** ** The image *)

Definition mkfs_gdt (g : geometry) : list ext4_group_desc :=
  let desc := mkfs_desc g (mkfs_super g) in
  <[0%nat := set_bg_used_dirs_count_lo (u16 (bg_used_dirs_count_lo (desc 0) + 1)) (desc 0)]>
    (map desc (seqZ 0 (geo_group_count g))).

Definition mkfs_root (g : geometry) (now uid gid : Z) : ext4_inode :=
  mkfs_inode_create (mkfs_super g) now uid gid (Z.lor S_IFDIR 0x1ed) (mkfs_data_start g).

(** What [mkfs_fill] leaves on the disk. *)
Record mkfs_image (g : geometry) (now uid gid : Z) (d' : disk_t) : Prop := mk_mkfs_image {
  mi_super : holds d' 1024 (bytes_of (mkfs_super g));
  mi_gdt : holds d' 4096 (concat (map bytes_of (mkfs_gdt g)));
  mi_ibits : ∀ j, 0 ≤ j < geo_group_count g →
    holds d' ((2 + geo_group_count g + j) * 4096) (if j =? 0 then first_bits else zero_block);
  mi_dbits : ∃ bits, zlen bits = 4096 ∧ (∀ k, 0 ≤ k < 32768 → bit_at bits k = (k <? mkfs_used g)) ∧
    ∀ j, 0 ≤ j < geo_group_count g → holds d' ((2 + j) * 4096) (if j =? 0 then bits else zero_block);
  mi_root : holds d' ((2 + 2 * geo_group_count g) * 4096 + 256) (bytes_of (mkfs_root g now uid gid));
  mi_dir : ∃ blk, zlen blk = 4096 ∧ dents_at 4096 blk 0 root_entries ∧ holds d' (mkfs_data_start g * 4096) blk
}.

Lemma align4 n : ALIGN_TO n 4 = (n + 3) / 4 * 4.
Proof.
  change (ALIGN_TO n (2 ^ 2) = (n + 3) / 4 * 4). rewrite ALIGN_TO_pow2 by lia. change (2 ^ 2) with 4.
  by replace (n + 4 - 1) with (n + 3) by lia.
Qed.

Section fill.
Context (img_size : Z) (Himg : img_ok img_size).
Let g := mkfs_geometry img_size.
Let sb := mkfs_super g.
Local Abbreviation G := (geo_group_count g).

Lemma layout_facts :
  mkfs_data_start g mod 4 = 0 ∧ 2 + 2 * G + G * (mkfs_ipg g / 16) ≤ mkfs_data_start g ∧
  mkfs_data_start g < 2 + 2 * G + G * (mkfs_ipg g / 16) + 4 ∧ G * (mkfs_ipg g / 16) < 2 ^ 40 ∧
  mkfs_used g = mkfs_data_start g + 8 ∧ mkfs_used g ≤ geo_block_count g ∧ 2 ≤ mkfs_ipg g / 16 ∧
  (mkfs_used g ≤ 4096 → G ≤ 16).
Proof.
  destruct (geo_facts img_size Himg) as (_ & HB & HG & HG' & _). fold g in HB, HG, HG'.
  destruct (ipg_facts img_size Himg) as (Hipg & Hle & Hge). fold g in Hipg, Hle, Hge.
  destruct (super_facts img_size Himg) as (_ & _ & _ & _ & _ & _ & _ & Hlen). fold g in Hlen. fold sb in Hlen.
  set (L := mkfs_ipg g / 16) in *.
  assert (16 * L ≤ mkfs_ipg g < 16 * L + 16) as HL by (unfold L; dlia).
  assert (G * L * 16 ≤ geo_block_count g / 4) as HGL by nia.
  assert (G * L * 64 ≤ geo_block_count g) as HGL' by (clear -HGL; dlia).
  assert (mkfs_data_start g mod 4 = 0 ∧ 2 + 2 * G + G * L ≤ mkfs_data_start g < 2 + 2 * G + G * L + 4) as (H4 & Hlo & Hhi).
  { unfold mkfs_data_start, inode_table_start, i_bitmap_start, d_bitmap_start, MKFS_EXT4_RESV_DESC_CNT. fold sb. rewrite Hlen. fold L.
    rewrite align4. clear. dlia. }
  unfold mkfs_used, EXT4_INODE_PBLOCK_NUM. change (4 * 2) with 8.
  assert (2 ≤ L) by lia. split_and!; try lia.
  intros Hu. destruct (decide (2 ≤ G)); [|lia]. assert (255 ≤ L) by lia. nia.
Qed.

(** The writes keep a region they do not touch. *)
Lemma content_run d now uid gid : disk_ready d → img_size ≤ disk_len d → mkfs_used g ≤ 4096 →
  ∃ d' bits blk, mkfs_content g sb first_bits d (mkfs_data_start g) (mkfs_used g) now uid gid = Ok (EXIT_SUCCESS, d') ∧
    disk_ready d' ∧ disk_len d' = disk_len d ∧
    (∀ b bs, b + zlen bs ≤ 8192 ∨ 12288 ≤ b ∧ b + zlen bs ≤ (2 + 2 * G) * 4096 → holds d b bs → holds d' b bs) ∧
    zlen bits = 4096 ∧ (∀ k, 0 ≤ k < 32768 → bit_at bits k = (k <? mkfs_used g)) ∧ holds d' 8192 bits ∧
    holds d' ((2 + 2 * G) * 4096 + 256) (bytes_of (mkfs_root g now uid gid)) ∧
    zlen blk = 4096 ∧ dents_at 4096 blk 0 root_entries ∧ holds d' (mkfs_data_start g * 4096) blk.
Proof.
  intros Hr Hlen Hused. destruct layout_facts as (_ & Hds & Hds' & _ & Hu & Hbc & HL & _).
  destruct (geo_facts img_size Himg) as (Hi & HB & HG & HG' & _). fold g in Hi, HB, HG, HG'.
  destruct (super_facts img_size Himg) as (HBS & _). fold g in HBS. fold sb in HBS.
  set (ds := mkfs_data_start g) in *. pose proof MAX_RW_COUNT_eq as HM. assert (2 * G ≤ G * (mkfs_ipg g / 16)) as HGL by nia.
  assert (∀ ino, 1 ≤ ino ≤ 3 → mkfs_inode_off g sb ino = (2 + 2 * G) * 4096 + (ino - 1) * 256) as Hoff.
  { intros ino Hino. unfold mkfs_inode_off, inode_table_start, i_bitmap_start, d_bitmap_start.
    rewrite block_addr by (done || unfold MKFS_EXT4_RESV_DESC_CNT; lia). unfold u64, MKFS_EXT4_RESV_DESC_CNT, MKFS_EXT4_INODE_SIZE.
    rewrite Z.mod_small; lia. }
  pose proof (Hoff EXT4_ROOT_INO ltac:(done)) as Hoff1. pose proof (Hoff EXT4_KFSCTL_INO ltac:(done)) as Hoff2.
  change ((EXT4_ROOT_INO - 1) * 256) with 256 in Hoff1. change ((EXT4_KFSCTL_INO - 1) * 256) with 512 in Hoff2.
  unfold mkfs_content. destruct (block_bits_ok (mkfs_used g)) as (bits & -> & Hz & Hby & Hbits); [lia|]. cbn [obind].
  destruct (block_write_run sb d 2 bits) as (d1 & Hw1 & Hr1 & Hx1 & Hh1); [assumption || lia..|].
  change d_bitmap_start with 2. rewrite Hw1. cbn [obind]. pose proof Hx1 as (_ & Hl1 & _).
  unfold mkfs_root. fold sb ds.
  pose proof (mkfs_inode_ok sb now uid gid (Z.lor S_IFDIR 493) ds) as Hroot. set (root := mkfs_inode_create _ _ _ _ _ ds) in *. clearbody root.
  destruct (inode_write_run d1 bits root (mkfs_inode_off g sb EXT4_ROOT_INO))
    as (t2 & b2 & d2 & Ht2 & Hb2 & Hw2 & Hz2 & Hby2 & Hr2 & Hx2 & Hh2); 
    [exact Hr1 | exact Hz | exact Hby | exact Hroot | rewrite Hoff1; lia | rewrite Hoff1; lia |].
  pose proof Hx2 as (_ & Hl2 & _). rewrite Ht2. cbn [obind]. rewrite Hb2. cbn [obind]. rewrite Hw2. cbn [obind].
  assert (u64 (ds + EXT4_INODE_PBLOCK_NUM) = ds + 4) as -> by (unfold u64, EXT4_INODE_PBLOCK_NUM; apply Z.mod_small; lia).
  pose proof (mkfs_inode_ok sb now uid gid (Z.lor S_IFREG 493) (ds + 4)) as Hctl0. set (ctl0 := mkfs_inode_create _ _ _ _ _ (ds + 4)) in *.
  clearbody ctl0. set (ctl := EXT4_INODE_SET_SIZE _ ctl0). assert (struct_ok ctl) as Hctl by (apply SET_SIZE_ok, Hctl0). clearbody ctl.
  destruct (inode_write_run d2 t2 ctl (mkfs_inode_off g sb EXT4_KFSCTL_INO))
    as (t3 & b3 & d3 & Ht3 & Hb3 & Hw3 & Hz3 & Hby3 & Hr3 & Hx3 & Hh3); 
    [exact Hr2 | exact Hz2 | exact Hby2 | exact Hctl | rewrite Hoff2; lia | rewrite Hoff2; lia |].
  pose proof Hx3 as (_ & Hl3 & _). rewrite Ht3. cbn [obind]. rewrite Hb3. cbn [obind]. rewrite Hw3. cbn [obind].
  destruct (buf_write_is_Ok t3 0 (cache_header 0)) as (t4 & Ht4 & Hz4); [lia | change (zlen (cache_header 0)) with 12; lia|].
  rewrite Ht4. cbn [obind]. apply buf_write_bytes_ok in Ht4 as Hby4; [|done | apply (bool_decide_unpack _); vm_compute; exact I].
  destruct (block_write_run sb d3 (ds + 4) t4) as (d4 & Hw4 & Hr4 & Hx4 & _); [assumption || lia..|].
  pose proof Hx4 as (_ & Hl4 & _). rewrite Hw4. cbn [obind].
  destruct (mkfs_root_dir_ok sb t4) as (t5 & Ht5 & Hz5 & Hby5 & Hds5); [done | lia | done|]. rewrite Ht5. cbn [obind].
  destruct (block_write_run sb d4 ds t5) as (d5 & Hw5 & Hr5 & Hx5 & Hh5); [assumption || lia..|]. rewrite Hw5. cbn [obind].
  pose proof Hx5 as (_ & Hl5 & _). rewrite Hoff1 in Hx2, Hh2. rewrite Hoff2 in Hx3.
  exists d5, bits, t5. split; [reflexivity|]. split; [assumption|]. split; [lia|]. split_and!; try assumption.
  - intros b bs Hb Hh. pose proof (zlen_nonneg bs).
    do 5 (eapply wrote_holds; [eassumption | lia |]). exact Hh.
  - do 4 (eapply wrote_holds; [eassumption | lia |]). exact Hh1.
  - do 3 (eapply wrote_holds; [eassumption | rewrite (zlen_bytes_of root Hroot), inode_size_val; lia |]).
    exact Hh2.
Qed.

(** The descriptors as they are written. *)
Lemma gdt_bytes : zlen (concat (map bytes_of (mkfs_gdt g))) = G * 64 ∧
  Forall byte_ok (concat (map bytes_of (mkfs_gdt g))) ∧ Forall struct_ok (mkfs_gdt g).
Proof.
  destruct (geo_facts img_size Himg) as (_ & _ & _ & HG & _). fold g in HG.
  assert (Forall struct_ok (mkfs_gdt g)) as Hst.
  { unfold mkfs_gdt. apply Forall_insert; [|apply used_dirs_ok; [apply desc_ok | apply u16_width]].
    apply Forall_map, Forall_true. intros. apply desc_ok. }
  assert (length (mkfs_gdt g) = Z.to_nat G) as Hl
    by (unfold mkfs_gdt; rewrite length_insert, length_map, length_seqZ; done).
  split_and!; [|apply Forall_concat, Forall_map, Forall_true; intros; apply bytes_of_bytes_ok | done].
  assert (∀ l : list ext4_group_desc, Forall struct_ok l → zlen (concat (map bytes_of l)) = 64 * zlen l) as Hz.
  { induction 1 as [|x l Hx _ IH]; [done|]. cbn [map concat]. rewrite zlen_app, zlen_cons, IH, (zlen_bytes_of x Hx).
    change (sizeof ext4_group_desc) with 64. lia. }
  rewrite (Hz _ Hst). unfold zlen. lia.
Qed.

(** The image when the metadata is in place, with [sb], the descriptors and
    the bitmaps, the first three inodes being in use. *)
Record mkfs_meta (d : disk_t) : Prop := mk_mkfs_meta {
  mm_super : holds d 1024 (bytes_of sb);
  mm_gdt : holds d 4096 (concat (map bytes_of (mkfs_gdt g)));
  mm_ibits : ∀ j, 0 ≤ j < G → holds d ((2 + G + j) * 4096) (if j =? 0 then first_bits else zero_block);
  mm_dbits : ∀ j, 0 ≤ j < G → holds d ((2 + j) * 4096) zero_block
}.

Lemma meta_holds d0 d1 d2 d3 : G ≤ 64 → holds d0 1024 (bytes_of sb) → wrote d0 d1 8192 (2 * G * 4096) →
  (∀ j, 0 ≤ j < G → holds d1 ((2 + j) * 4096) zero_block ∧ holds d1 ((2 + G + j) * 4096) zero_block) →
  wrote d1 d2 4096 (G * 64) → holds d2 4096 (concat (map bytes_of (mkfs_gdt g))) →
  wrote d2 d3 ((2 + G) * 4096) 2 → holds d3 ((2 + G) * 4096) [7; 0] → mkfs_meta d3.
Proof.
  intros HG Hs Hw1 Hz1 Hw2 Hg Hw3 Hi. destruct gdt_bytes as (Hzg & _).
  destruct (geo_facts img_size Himg) as (_ & _ & _ & HG1 & _). fold g in HG1.
  assert (zlen (bytes_of sb) = 1024) as Hzs by apply (zlen_bytes_of sb (super_ok img_size Himg)).
  destruct zero_block_ok as [Hzb _].
  split.
  - do 3 (eapply wrote_holds; [eassumption | lia|]). exact Hs.
  - eapply wrote_holds; [eassumption | lia | exact Hg].
  - intros j Hj. destruct (Hz1 j Hj) as [_ Hj2]. eapply wrote_holds in Hj2; [|exact Hw2|lia].
    destruct (Z.eqb_spec j 0) as [->|Hne]; [|eapply wrote_holds; [exact Hw3 | lia | exact Hj2]].
    rewrite Z.add_0_r in *. change first_bits with ([7; 0] ++ replicate 4094 0). apply holds_app. split; [exact Hi|].
    change (zlen [7; 0]) with 2. eapply wrote_holds; [exact Hw3 | right; lia|].
    change zero_block with ([0; 0] ++ replicate 4094 0) in Hj2. apply holds_app in Hj2 as [_ Hj2]. exact Hj2.
  - intros j Hj. destruct (Hz1 j Hj) as [Hj1 _]. do 2 (eapply wrote_holds; [eassumption | lia|]). exact Hj1.
Qed.

Lemma inode_bits_run : (tmp ← SET_BIT1 zero_block 0 true; tmp ← SET_BIT1 tmp 1 true; tmp ← SET_BIT1 tmp 2 true;
  bs ← buf_read tmp 0 2; Ok (tmp, bs)) = Ok (first_bits, [7; 0]).
Proof. vm_compute. reflexivity. Qed.

(** The part of [mkfs_fill] before the size of the metadata is tested. *)
Lemma fill_head d now uid gid : disk_ready d → img_size ≤ disk_len d → img_size < 2 ^ 50 →
  ∃ d', mkfs_fill d img_size now uid gid =
      (if 4096 <? mkfs_used g then Ok (EXIT_FAILURE, d')
       else mkfs_content g sb first_bits d' (mkfs_data_start g) (mkfs_used g) now uid gid) ∧
    disk_ready d' ∧ disk_len d' = disk_len d ∧ holds d' 1024 (bytes_of sb) ∧ (G ≤ 64 → mkfs_meta d').
Proof.
  intros Hr Hlen Hmax. pose proof MAX_RW_COUNT_eq as HM. destruct layout_facts as (_ & Hds & Hds' & HL & Hu & Hbc & H2 & _).
  destruct (geo_facts img_size Himg) as (Hi & HB & HG & HG' & HI). fold g in Hi, HB, HG, HG', HI.
  destruct (ipg_facts img_size Himg) as (Hipg & _). fold g in Hipg.
  destruct (super_facts img_size Himg) as (HBS & _ & _ & _ & _ & _ & _ & Htl). fold g in HBS, Htl. fold sb in HBS, Htl.
  destruct gdt_bytes as (Hzg & Hgby & _). assert (0 ≤ G * (mkfs_ipg g / 16)) as Hnn by (apply Z.mul_nonneg_nonneg; lia).
  assert (zlen (bytes_of sb) = 1024) as Hzs by apply (zlen_bytes_of sb (super_ok img_size Himg)).
  unfold mkfs_fill. fold g sb.
  destruct (disk_write_run d 0 (replicate (Z.to_nat BOOT_SECTOR_SIZE) 0)) as (d1 & -> & Hr1 & Hw1 & _);
    [exact Hr | lia | change (0 + 1024 ≤ disk_len d); lia | rewrite HM; vm_compute; discriminate
    | apply Forall_replicate; unfold byte_ok; lia|].
  pose proof Hw1 as (_ & Hl1 & _). cbn [obind]. unfold mkfs_ipg in Hipg. change MKFS_EXT4_GROUP_BLOCK_CNT with 32768.
  destruct (Z.leb_spec (geo_inode_count g / G) 32768); [|lia]. cbn [ASSERT obind]. change BOOT_SECTOR_SIZE with 1024.
  destruct (disk_write_run d1 1024 (bytes_of sb)) as (d2 & -> & Hr2 & Hw2 & Hs2); [exact Hr1 | lia.. | apply bytes_of_bytes_ok|].
  pose proof Hw2 as (_ & Hl2 & _). cbn [obind]. fold zero_block.
  destruct (mkfs_groups_run g sb d2 0 (Z.to_nat G)) as (d3 & -> & Hr3 & Hw3 & _ & Hz3); [exact Hr2 | exact HBS | lia.. |].
  pose proof Hw3 as (_ & Hl3 & _). cbn [obind]. rewrite Z2Nat.id in * by lia.
  assert (map (mkfs_desc g sb) (seqZ 0 G) !! 0%nat = Some (mkfs_desc g sb 0)) as H0.
  { rewrite list_lookup_fmap, lookup_seqZ_lt by lia. done. }
  rewrite (arr_get_Ok _ 0 _ ltac:(lia) H0). cbn [obind]. rewrite arr_set_Ok
    by (unfold zlen; rewrite length_map, length_seqZ; lia). cbn [obind].
  change (<[Z.to_nat 0 := _]> _) with (mkfs_gdt g).
  assert (gdt_off sb = 4096) as -> by (unfold gdt_off, ALIGN_TO_BLOCKSIZE; rewrite HBS; reflexivity).
  destruct (disk_write_run d3 4096 (concat (map bytes_of (mkfs_gdt g)))) as (d4 & -> & Hr4 & Hw4 & Hg4); [exact Hr3 | lia.. | done|].
  pose proof Hw4 as (_ & Hl4 & _). rewrite Hzg in Hw4. cbn [obind].
  pose proof inode_bits_run as Hib. repeat (apply bind_Ok_inv in Hib as (? & Hb & Hib); rewrite Hb; cbn [obind]; clear Hb).
  injection Hib as -> ->.
  change (i_bitmap_start g) with (2 + 0 + G). rewrite (block_addr sb (2 + 0 + G) HBS) by lia.
  destruct (disk_write_run d4 ((2 + 0 + G) * 4096) [7; 0]) as (d5 & -> & Hr5 & Hw5 & Hi5);
    [exact Hr4 | lia | change (zlen [7; 0]) with 2; lia | rewrite HM; vm_compute; discriminate
    | repeat constructor; unfold byte_ok; lia|].
  pose proof Hw5 as (_ & Hl5 & _). cbn [obind]. change (2 + 0) with 2 in *. exists d5. split_and!; [|done|lia| |].
  - rewrite HBS. assert (u64 (inode_table_start g + G * inode_table_len sb) = inode_table_start g + G * inode_table_len sb) as ->.
    { rewrite Htl. unfold inode_table_start, i_bitmap_start, d_bitmap_start, MKFS_EXT4_RESV_DESC_CNT. apply Z.mod_small. lia. }
    change (ALIGN_TO _ 4) with (mkfs_data_start g). assert (u64 (mkfs_data_start g + EXT4_INODE_PBLOCK_NUM * 2) = mkfs_used g) as ->
      by (unfold mkfs_used in *; apply Z.mod_small; lia).
    reflexivity.
  - do 3 (eapply wrote_holds; [eassumption | lia|]). exact Hs2.
  - intros HG64. apply (meta_holds d2 d3 d4 d5); assumption.
Qed.

(** The image is made when the metadata fits. *)
Lemma fill_run d now uid gid : disk_ready d → img_size ≤ disk_len d → mkfs_used g ≤ 4096 →
  ∃ d', mkfs_fill d img_size now uid gid = Ok (EXIT_SUCCESS, d') ∧ disk_ready d' ∧ disk_len d' = disk_len d ∧
    mkfs_image g now uid gid d'.
Proof.
  intros Hr Hlen Hused. destruct layout_facts as (_ & Hds & _ & _ & Hu & _ & HL & HG). specialize (HG Hused).
  destruct (geo_facts img_size Himg) as (Hi & HB & HB' & HG' & _). fold g in Hi, HB, HB', HG'.
  destruct (fill_head d now uid gid) as (d0 & -> & Hr0 & Hl0 & _ & Hm); [done | done | lia|]. destruct (Hm ltac:(lia)) as [Hs Hg Hib Hdb].
  destruct (Z.ltb_spec 4096 (mkfs_used g)); [lia|].
  destruct (content_run d0 now uid gid) as (d' & bits & blk & Hrun & Hr' & Hl' & Hkeep & Hzb & Hbits & Hh & Hroot & Hblk);
    [done | lia | done|].
  destruct gdt_bytes as (Hzg & _). assert (zlen (bytes_of sb) = 1024) as Hzs by apply (zlen_bytes_of sb (super_ok img_size Himg)).
  exists d'. split; [done|]. split; [done|]. split; [lia|]. split.
  - apply Hkeep; [fold sb; lia | exact Hs].
  - apply Hkeep; [lia | exact Hg].
  - intros j Hj. apply Hkeep; [|by apply Hib]. right.
    assert (zlen (if j =? 0 then first_bits else zero_block) = 4096) by (destruct (j =? 0); reflexivity). lia.
  - exists bits. split; [done|]. split; [done|]. intros j Hj. destruct (Z.eqb_spec j 0) as [->|Hne]; [exact Hh|].
    apply Hkeep; [|by apply Hdb]. right. destruct zero_block_ok. lia.
  - exact Hroot.
  - exists blk. exact Hblk.
Qed.
End fill.
