(* ===== verification/MkfsMount.v ===== *)
(** * The first mount of a new image

    [src/mkfs/main.c] followed by [src/src/op_init.c]: an image [mkfs] made
    can be mounted, and the mounted state is the empty file system. *)

From S2P Require Import Prelude Ext4 Disk Bitmap Extents InodeMap Decache Fs Cache Dentry Dir OpsMount Mkfs.
From stdpp Require Import base numbers list gmap.
From Stdlib Require Import ZArith Lia.

Open Scope Z_scope.
Open Scope kfs_scope.

(** ** Mounting the image *)

Lemma Ok_inj {A} (x y : A) : Ok x = Ok y → x = y.
Proof. by intros [= ->]. Qed.

Lemma some_pair_inv {A B} (a a' : A) (b b' : B) : Some (a, b) = Some (a', b') → a' = a ∧ b' = b.
Proof. by intros [= -> ->]. Qed.

Lemma used_dirs_areas v x : same_areas x (set_bg_used_dirs_count_lo v x).
Proof. done. Qed.

Section mountable.
Context (img_size : Z) (Himg : img_ok img_size).
Let g := mkfs_geometry img_size.
Let sb := mkfs_super g.
Local Abbreviation G := (geo_group_count g).
Let gdt0 := map (mkfs_desc g sb) (seqZ 0 G).
Context (Hused : mkfs_used g ≤ 4096) (Hipg : mkfs_ipg g mod 16 = 0).

(** Where the areas are. *)
Definition mkfs_area (a : area) (o n : Z) : Prop :=
  match a with
  | InodeBits i => Z.of_nat i < G ∧ o = (2 + G + Z.of_nat i) * 4096 ∧ n = mkfs_ipg g / 8
  | BlockBits i => Z.of_nat i < G ∧ o = (2 + Z.of_nat i) * 4096 ∧ n = 4096
  | InodeTable i =>
    Z.of_nat i < G ∧ o = (2 + 2 * G + Z.of_nat i * (mkfs_ipg g / 16)) * 4096 ∧ n = mkfs_ipg g / 16 * 4096
  end.

Lemma gdt0_lookup i : gdt0 !! i = (if decide (Z.of_nat i < G) then Some (mkfs_desc g sb (Z.of_nat i)) else None).
Proof.
  unfold gdt0. rewrite list_lookup_fmap. case_decide as H.
  - rewrite lookup_seqZ_lt by lia. cbn. by rewrite Z.add_0_l.
  - rewrite lookup_seqZ_ge by lia. done.
Qed.

Lemma gdt0_same : Forall2 same_areas gdt0 (mkfs_gdt g).
Proof.
  apply Forall2_lookup. intros i. unfold mkfs_gdt. fold sb gdt0. destruct (decide (i = 0%nat)) as [->|Hne].
  - destruct (gdt0 !! 0%nat) as [x|] eqn:E.
    + rewrite list_lookup_insert_eq by (by eapply lookup_lt_Some). constructor.
      rewrite gdt0_lookup in E. case_decide; [|done]. injection E as <-. change (Z.of_nat 0) with 0. apply used_dirs_areas.
    + rewrite list_insert_ge by (by apply lookup_ge_None). rewrite E. constructor.
  - rewrite list_lookup_insert_ne by done. destruct (gdt0 !! i); by constructor.
Qed.

Lemma area_facts a o n : area_at sb gdt0 a = Some (o, n) → mkfs_area a o n.
Proof.
  destruct layout_facts with (img_size := img_size) as (_ & _ & _ & HL & _ & _ & HL2 & HG16); [exact Himg|]. fold g in HL, HL2, HG16.
  destruct (geo_facts img_size Himg) as (_ & HB & _ & HG & _). fold g in HB, HG.
  destruct (super_facts img_size Himg) as (HBS & Hbpg & Hip & His & _ & _ & _ & Htl). fold g in HBS, Hbpg, Hip, His, Htl. fold sb in HBS, Hbpg, Hip, His, Htl.
  destruct (ipg_facts img_size Himg) as (Hr & _). fold g in Hr.
  assert (∀ i, Z.of_nat i < G → EXT4_DESC_BLOCK_BITMAP (mkfs_desc g sb (Z.of_nat i)) = 2 + Z.of_nat i ∧
    EXT4_DESC_INO_BITMAP (mkfs_desc g sb (Z.of_nat i)) = 2 + G + Z.of_nat i ∧
    EXT4_DESC_INODE_TABLE (mkfs_desc g sb (Z.of_nat i)) = 2 + 2 * G + Z.of_nat i * (mkfs_ipg g / 16)) as Hd.
  { intros i Hi. rewrite <- Htl. apply desc_facts; [lia | lia | rewrite Htl; dlia]. }
  specialize (HG16 Hused). destruct a as [i|i|i]; cbn [area_at]; rewrite gdt0_lookup; case_decide as Hi; try done; cbn [fmap option_fmap option_map];
    destruct (Hd i Hi) as (H1 & H2 & H3); unfold table_off, table_size; rewrite ?H1, ?H2, ?H3, ?Hip, ?Hbpg, ?His;
    intros [-> ->]%some_pair_inv; unfold mkfs_area; (split; [done|]).
  - rewrite (block_addr sb _ HBS) by lia. done.
  - rewrite (block_addr sb _ HBS) by lia. done.
  - assert (Z.of_nat i * (mkfs_ipg g / 16) ≤ 16 * 512) by (assert (mkfs_ipg g / 16 ≤ 512) by dlia; nia).
    rewrite (block_addr sb _ HBS) by lia. split; [done|]. clear -Hipg. dlia.
Qed.

Lemma mkfs_layout len : img_size ≤ len < 2 ^ 63 → layout_ok sb (mkfs_gdt g) len.
Proof.
  intros Hlen. apply (layout_same sb gdt0); [apply gdt0_same|].
  destruct layout_facts with (img_size := img_size) as (_ & Hds & _ & _ & Hu & Hbc & HL2 & HG16); [exact Himg|].
  fold g in Hds, Hu, Hbc, HL2, HG16. specialize (HG16 Hused).
  destruct (geo_facts img_size Himg) as (Hi & HB & _ & HG & _). fold g in Hi, HB, HG.
  destruct (super_facts img_size Himg) as (HBS & Hbpg & Hip & His & Hdesc & _ & HN & _). fold g in HBS, Hbpg, Hip, His, Hdesc, HN.
  fold sb in HBS, Hbpg, Hip, His, Hdesc, HN. destruct (ipg_facts img_size Himg) as (Hr & _). fold g in Hr.
  assert (zlen gdt0 = G) as Hz by (unfold zlen, gdt0; rewrite length_map, length_seqZ; lia).
  assert (gdt_off sb = 4096) as Hoff by (unfold gdt_off, ALIGN_TO_BLOCKSIZE; rewrite HBS; reflexivity).
  assert (gdt_end sb gdt0 = 4096 + 64 * G) as Hend by (unfold gdt_end; rewrite Hoff, Hz; reflexivity).
  assert (mkfs_ipg g / 8 ≤ 1024) as H8 by dlia. set (L := mkfs_ipg g / 16) in *.
  assert (mkfs_ipg g = 16 * L) as HL by (unfold L; clear -Hipg; dlia).
  assert (∀ i, 0 ≤ i < G → 0 ≤ i * L ∧ i * L + L ≤ G * L) as Hit by (intros; nia).
  split.
  - unfold geometry_ok. rewrite HN, Hip, Hbpg. split_and!; try lia; clear -HL; dlia.
  - by rewrite Hz.
  - exact Hdesc.
  - rewrite His, inode_size_val. lia.
  - unfold table_size. rewrite Hip, His. lia.
  - rewrite Hoff. vm_compute. discriminate.
  - rewrite Hend. lia.
  - intros a o n Ha%area_facts. rewrite Hend. destruct a as [i|i|i]; destruct Ha as (Hi' & -> & ->); fold L; try lia.
    specialize (Hit (Z.of_nat i) ltac:(lia)). lia.
  - intros a a' o n o' n' Ha%area_facts Ha'%area_facts Hne. destruct a as [i|i|i], a' as [j|j|j];
      destruct Ha as (Hi' & -> & ->), Ha' as (Hj & -> & ->); fold L;
      pose proof (Hit (Z.of_nat i) ltac:(lia)); pose proof (Hit (Z.of_nat j) ltac:(lia));
      try (assert (i ≠ j) by congruence); try lia. destruct (slots_apart (Z.of_nat i) (Z.of_nat j) L); lia.
Qed.
End mountable.

(** A root node with one extent. *)
Lemma one_extent sb d gen (e : ext4_extent) rest : ee_ok e → in_width 4 gen →
  extents_of sb d 0 (bytes_of (mk_extent_header EXT4_EXT_MAGIC 1 EXT4_EXT_LEAF_EH_MAX 0 gen) ++ bytes_of e ++ rest) [e].
Proof.
  intros He Hgen. set (eh := mk_extent_header _ _ _ _ _).
  assert (struct_ok eh) as Hh.
  { split; [exact I|]. cbn. repeat (apply Forall2_cons; split); try done; constructor. }
  pose proof (zlen_bytes_of eh Hh) as Hzh. change (sizeof ext4_extent_header) with 12 in Hzh.
  pose proof (zlen_bytes_of e (proj1 He)) as Hze. change (sizeof ext4_extent) with 12 in Hze.
  assert (length (bytes_of eh) = 12%nat) as Hlh by (unfold zlen in Hzh; lia).
  assert (length (bytes_of e) = 12%nat) as Hle by (unfold zlen in Hze; lia).
  pose proof (zlen_nonneg rest). split_and!.
  - exists eh. split; [|done]. unfold eh_of. change (sizeof ext4_extent_header) with 12.
    rewrite buf_read_Ok by (rewrite ?zlen_app; lia). cbn [obind]. rewrite drop_0.
    change (Z.to_nat 12) with 12%nat. rewrite <- Hlh, take_app_length. by rewrite of_bytes_of.
  - intros [|i] [|j] a b; cbn; intros; simplify_eq; lia.
  - by apply Forall_singleton.
  - intros [|i] c [= <-]. unfold ee_at. change (sizeof ext4_extent_header + Z.of_nat 0 * sizeof ext4_extent) with 12.
    change (sizeof ext4_extent) with 12. rewrite buf_read_Ok by (rewrite ?zlen_app; lia). cbn [obind].
    change (Z.to_nat 12) with 12%nat. rewrite (drop_app_length' _ _ 12) by done. rewrite (take_app_length' _ _ 12) by done.
    by rewrite of_bytes_of by apply He.
Qed.

(** The root directory has one block, the first of the data. *)
Lemma root_pblock sb d g now uid gid : 0 ≤ mkfs_data_start g < 2 ^ 32 →
  inode_get_data_pblock sb d (mkfs_root g now uid gid) 0 = Ok (mkfs_data_start g, Some 4).
Proof.
  intros Hds. set (p := mkfs_data_start g) in *. set (e := EXT4_EXT_SET_PADDR p (mk_extent 0 4 0 0)).
  assert (EXT4_EXT_GET_PADDR e = p) as Hp.
  { unfold EXT4_EXT_GET_PADDR, e, EXT4_EXT_SET_PADDR. cbn [ee_start_hi ee_start_lo ee_block ee_len].
    apply halves_32. rewrite Z.shiftr_div_pow2, (Z.div_small p) by lia. done. }
  assert (ee_ok e) as He.
  { split; [|done]. split; [exact I|]. unfold e, EXT4_EXT_SET_PADDR. cbn [ee_start_hi ee_start_lo ee_block ee_len].
    rewrite Z.shiftr_div_pow2, (Z.div_small p) by lia. change MASK_32 with (Z.ones 32). rewrite Z.land_ones by lia. rewrite Z.mod_small by lia.
    cbn. repeat (apply Forall2_cons; split); try done; try constructor. all: unfold in_width; cbn; lia. }
  assert (i_block (mkfs_root g now uid gid) = bytes_of (mk_extent_header EXT4_EXT_MAGIC 1 EXT4_EXT_LEAF_EH_MAX 0 EXT4_EXT_EH_GENERATION) ++
    bytes_of e ++ replicate 36 0) as Hb by reflexivity.
  assert (has (i_flags (mkfs_root g now uid gid)) EXT4_EXTENTS_FL = true) as Hf by reflexivity.
  unfold inode_get_data_pblock. rewrite Hf, Hb. unfold extent_get_pblock.
  rewrite (small_tree_lookup sb d 0 _ [e] e 0); [|unfold EXT4_MAX_EXTENT_DEPTH; lia | apply one_extent; [done | by vm_compute]
    | apply list_elem_of_here | split; vm_compute; (discriminate || reflexivity)].
  rewrite Hp. change (ee_block e) with 0. by rewrite Z.add_0_r.
Qed.

Lemma holds_bit d a bs i : holds d a bs → 0 ≤ i < 8 * zlen bs → disk_bit d a i = bit_at bs i.
Proof.
  intros Hh Hi. rewrite <- Hh, bit_at_read_bytes; [done|]. unfold zlen in Hi. lia.
Qed.

Lemma zeros_bit n k i : (k < n)%nat → match replicate n 0 !! k with Some b => Z.testbit b i | None => true end = false.
Proof. intros Hk. rewrite lookup_replicate_2 by done. apply Z.bits_0. Qed.

Lemma zero_bits i : 0 ≤ i < 32768 → bit_at zero_block i = false.
Proof. intros Hi. apply (zeros_bit 4096). dlia. Qed.

Lemma first_three_bits i : 0 ≤ i < 32768 → bit_at first_bits i = (i <? 3).
Proof.
  intros Hi. unfold bit_at, first_bits. destruct (decide (i < 8)) as [H8|H8].
  - replace (Z.to_nat (i / 8)) with 0%nat by dlia. rewrite Z.mod_small by lia. cbn [lookup list_lookup].
    change 7 with (Z.shiftl 1 3 - 1). apply low_bits; lia.
  - destruct (Z.to_nat (i / 8)) as [|k] eqn:E; [dlia|]. cbn [lookup list_lookup]. rewrite (proj2 (Z.ltb_ge i 3)) by lia.
    apply (zeros_bit 4095). dlia.
Qed.

(** The state after the first mount of an image [mkfs] made. *)
Section first_mount.
Context (img_size : Z) (Himg : img_ok img_size).
Let g := mkfs_geometry img_size.
Let sb := mkfs_super g.
Local Abbreviation G := (geo_group_count g).
Context (Hused : mkfs_used g ≤ 4096) (Hipg : mkfs_ipg g mod 16 = 0).
Context (d : disk_t) (now uid gid : Z) (Hr : disk_ready d) (Hlen : img_size ≤ disk_len d) (Hmade : mkfs_image g now uid gid d).
Context (capable : Z) (cntx : option fuse_context) (now' : Z) (buf : list Z).
Let s := mount_state d sb (mkfs_gdt g) capable cntx now' buf.

Lemma made_image_ok : image_ok d sb (mkfs_gdt g).
Proof.
  destruct (gdt_bytes img_size Himg) as (_ & _ & Hst). destruct (super_facts img_size Himg) as (HBS & _). fold g in HBS. fold sb in HBS.
  assert (gdt_off sb = 4096) as Hoff by (unfold gdt_off, ALIGN_TO_BLOCKSIZE; rewrite HBS; reflexivity).
  split; [done | apply mkfs_layout; [done..|split; [done | apply Hr]] | apply (super_ok img_size Himg) | exact Hst | apply Hmade |].
  rewrite Hoff. apply Hmade.
Qed.

Lemma made_area a o n : area_at (fs_sb s) (fs_gdt s) a = Some (o, n) → mkfs_area img_size a o n.
Proof.
  intros Ha. apply (area_facts img_size Himg Hused Hipg).
  rewrite <- (area_at_same _ _ _ _ (gdt0_same img_size)). fold g sb.
  rewrite <- (area_at_same _ _ _ _ (clean_areas (mkfs_gdt g))). exact Ha.
Qed.

Lemma made_gdt i desc : fs_gdt s !! i = Some desc →
  Z.of_nat i < G ∧ BLOCKS2BYTES (fs_sb s) (EXT4_DESC_INO_BITMAP desc) = (2 + G + Z.of_nat i) * 4096 ∧
  BLOCKS2BYTES (fs_sb s) (EXT4_DESC_BLOCK_BITMAP desc) = (2 + Z.of_nat i) * 4096 ∧
  table_off (fs_sb s) desc = (2 + 2 * G + Z.of_nat i * (mkfs_ipg g / 16)) * 4096.
Proof.
  intros Hi.
  assert (∀ a o n, area_at (fs_sb s) (fs_gdt s) a = Some (o, n) → mkfs_area img_size a o n) as Ha by apply made_area.
  pose proof (Ha (InodeBits i)) as H1. pose proof (Ha (BlockBits i)) as H2. pose proof (Ha (InodeTable i)) as H3.
  cbn [area_at] in H1, H2, H3. rewrite Hi in H1, H2, H3.
  destruct (H1 _ _ eq_refl) as (? & ? & _), (H2 _ _ eq_refl) as (_ & ? & _), (H3 _ _ eq_refl) as (_ & ? & _). done.
Qed.

Lemma made_facts : EXT4_INODES_PER_GROUP (fs_sb s) = mkfs_ipg g ∧ EXT4_BLOCKS_PER_GROUP (fs_sb s) = 32768 ∧
  EXT4_N_BLOCK_GROUPS (fs_sb s) = G ∧ EXT4_BLOCK_SIZE (fs_sb s) = 4096 ∧ EXT4_S_INODE_SIZE (fs_sb s) = 256 ∧
  geometry_ok (fs_sb s) ∧ zlen (fs_gdt s) = G ∧ 32 ≤ mkfs_ipg g ≤ 8192.
Proof.
  destruct (super_facts img_size Himg) as (HBS & Hbpg & Hi & His & _ & _ & HN & _). fold g in HBS, Hbpg, Hi, His, HN.
  fold sb in HBS, Hbpg, Hi, His, HN. destruct (ipg_facts img_size Himg) as (Hr' & _). fold g in Hr'.
  pose proof (mount_layout d sb (mkfs_gdt g) made_image_ok capable cntx now' buf) as [Hgeo Hc _ _ _ _ _ _ _].
  fold s in Hgeo, Hc. change (fs_sb s) with (remounted now' sb) in *. destruct (remounted_facts now' sb) as (E1 & E2 & E3 & E4 & E5).
  rewrite E3, HN in Hc. rewrite E1, E2, E3, E4, E5. done.
Qed.

(** The inodes in use are 1, 2 and 3. *)
Lemma made_inodes ino : inode_in (fs_sb s) ino → inode_used (fs_sb s) (fs_i_bitmap s) ino = (ino <=? 3).
Proof.
  destruct made_facts as (Hi & _ & HN & _ & _ & Hgeo & Hz & Hr'). unfold inode_in. rewrite HN. rewrite <- Hi in Hr'.
  pose proof (inode_used_of_disk (fs_sb s) (fs_gdt s) d Hgeo) as Hused'.
  change (bitmap_of_disk _ _ _ _ _) with (fs_i_bitmap s) in Hused'.
  set (ipg := EXT4_INODES_PER_GROUP (fs_sb s)) in *. clearbody ipg. intros Hin.
  set (k := Z.to_nat ((ino - 1) / ipg)). set (i := (ino - 1) mod ipg).
  assert (0 ≤ i < ipg) as Hir by (apply Z.mod_pos_bound; lia).
  assert (0 ≤ (ino - 1) / ipg < G) as Hk by (split; [apply Z.div_pos | apply Z.div_lt_upper_bound]; lia).
  assert (ino = Z.of_nat k * ipg + i + 1) as Hino.
  { unfold k, i. rewrite Z2Nat.id by lia. pose proof (Z.div_mod (ino - 1) ipg ltac:(lia)). lia. }
  destruct (lookup_lt_is_Some_2 (fs_gdt s) k) as [desc Hd]; [unfold zlen in Hz; lia|].
  destruct (made_gdt k desc Hd) as (HkG & Hoff & _ & _). specialize (Hused' k desc i Hd Hir). rewrite Hoff in Hused'.
  rewrite <- Hino in Hused'. transitivity (disk_bit d ((2 + G + Z.of_nat k) * 4096) i); [exact Hused'|].
  rewrite (holds_bit _ _ _ _ (mi_ibits _ _ _ _ _ Hmade (Z.of_nat k) ltac:(lia))); [|destruct (Z.of_nat k =? 0);
    [change (zlen first_bits) with 4096 | change (zlen zero_block) with 4096]; lia].
  destruct (Z.eqb_spec (Z.of_nat k) 0) as [E|E].
  - rewrite first_three_bits by lia. rewrite E in Hino. destruct (Z.ltb_spec i 3), (Z.leb_spec ino 3); lia.
  - rewrite zero_bits by lia. symmetry. apply Z.leb_gt. nia.
Qed.

(** The blocks in use are those below [mkfs_used]. *)
Lemma made_blocks blk : 0 ≤ blk < EXT4_N_BLOCK_GROUPS (fs_sb s) * EXT4_BLOCKS_PER_GROUP (fs_sb s) →
  block_used (fs_sb s) (fs_d_bitmap s) blk = (blk <? mkfs_used g).
Proof.
  destruct made_facts as (_ & Hb & HN & _ & _ & Hgeo & Hz & _). rewrite HN.
  pose proof (block_used_of_disk (fs_sb s) (fs_gdt s) d Hgeo) as Hused'.
  change (bitmap_of_disk _ _ _ _ _) with (fs_d_bitmap s) in Hused'.
  set (bpg := EXT4_BLOCKS_PER_GROUP (fs_sb s)) in *. clearbody bpg. subst bpg. intros Hin.
  set (k := Z.to_nat (blk / 32768)). set (i := blk mod 32768).
  assert (0 ≤ i < 32768) as Hir by (unfold i; dlia). assert (blk = Z.of_nat k * 32768 + i) as Hblk by (unfold k, i; dlia).
  assert (Z.of_nat k < G) as Hk by (unfold k; dlia).
  destruct (lookup_lt_is_Some_2 (fs_gdt s) k) as [desc Hd]; [unfold zlen in Hz; lia|].
  destruct (made_gdt k desc Hd) as (HkG & _ & Hoff & _). specialize (Hused' k desc i Hd Hir). rewrite Hoff in Hused'.
  rewrite <- Hblk in Hused'. transitivity (disk_bit d ((2 + Z.of_nat k) * 4096) i); [exact Hused'|].
  destruct (mi_dbits _ _ _ _ _ Hmade) as (bits & Hzb & Hbits & Hh).
  rewrite (holds_bit _ _ _ _ (Hh (Z.of_nat k) ltac:(lia))); [|destruct (Z.of_nat k =? 0);
    [rewrite Hzb | change (zlen zero_block) with 4096]; lia].
  destruct (Z.eqb_spec (Z.of_nat k) 0) as [E|E].
  - rewrite Hbits by done. by replace i with blk by lia.
  - rewrite zero_bits by lia. symmetry. apply Z.ltb_ge. lia.
Qed.

(** The root inode and its directory block. *)
Lemma made_root : inode_view s EXT4_ROOT_INO = Ok (mkfs_root g now uid gid).
Proof.
  destruct made_facts as (Hi & _ & HN & _ & His & Hgeo & Hz & Hr').
  destruct (mount_ok d sb (mkfs_gdt g) made_image_ok capable cntx now' buf) as (Hm & Hic & _). fold s in Hm, Hic.
  destruct (geo_facts img_size Himg) as (_ & _ & _ & HG & _). fold g in HG. pose proof MAX_RW_COUNT_eq.
  rewrite view_uncached; [|done|intros k e (_ & Hk & _); cbn in Hk; lia].
  assert (inode_in (fs_sb s) EXT4_ROOT_INO) as Hin by (unfold inode_in, EXT4_ROOT_INO; rewrite HN, Hi; nia).
  destruct (inode_get_offset_spec _ _ _ Hgeo (tables_ok_fit _ _ (mt_tables s Hm)) Hin) as (desc & Hd & _ & _ & _ & _ & Hoff).
  destruct (mounted_slot s _ Hm Hin) as (off & Hoff' & H0 & Hl & _). rewrite Hoff in Hoff'. apply Ok_inj in Hoff'. subst off.
  unfold inode_group in Hd. rewrite Hi in Hd, Hoff, H0, Hl.
  unfold EXT4_ROOT_INO in *. rewrite (Z.div_small (2 - 1)) in Hd by lia. destruct (made_gdt _ _ Hd) as (_ & _ & _ & Ht).
  unfold inode_on_disk. rewrite Hoff. cbn [obind]. rewrite Ht, His, (Z.mod_small (2 - 1)) in * by lia.
  pose proof (mi_root _ _ _ _ _ Hmade) as Hh. assert (struct_ok (mkfs_root g now uid gid)) as Hst
    by exact (mkfs_inode_ok sb now uid gid (Z.lor S_IFDIR 493) (mkfs_data_start g)).
  pose proof (zlen_bytes_of _ Hst) as Hzi. rewrite inode_size_val in *.
  change (Z.of_nat (Z.to_nat 0)) with 0 in *. change (fs_disk s) with d in *. rewrite <- Hzi.
  replace ((2 + 2 * G + 0 * (mkfs_ipg g / 16)) * 4096 + (2 - 1) * 256) with ((2 + 2 * G) * 4096 + 256) in * by lia.
  rewrite (holds_read d _ _ Hr Hh) by lia. cbn [obind]. by rewrite of_bytes_of.
Qed.

Lemma made_dir : ∃ blk, disk_read_block (fs_sb s) (fs_disk s) (mkfs_data_start g) = Ok blk ∧ dents_at 4096 blk 0 root_entries.
Proof.
  destruct made_facts as (_ & _ & _ & HBS & _). destruct layout_facts with (img_size := img_size) as (_ & Hds & _ & _ & Hu & Hbc & HL & _); [exact Himg|].
  destruct (geo_facts img_size Himg) as (Hi & HB & _ & HG & _). fold g in Hds, Hu, Hbc, HL, Hi, HB, HG. pose proof MAX_RW_COUNT_eq.
  assert (0 ≤ G * (mkfs_ipg g / 16)) by (apply Z.mul_nonneg_nonneg; lia).
  destruct (mi_dir _ _ _ _ _ Hmade) as (blk & Hz & Hde & Hh). exists blk. split; [|done].
  unfold disk_read_block. rewrite HBS, (block_addr _ _ HBS) by lia. change (fs_disk s) with d.
  pose proof (holds_read d _ _ Hr Hh) as E. rewrite Hz in E. apply E; lia.
Qed.
End first_mount.

(** ** The sizes [mkfs] accepts *)

Lemma used_small img_size : img_ok img_size → img_size < 1018 * 2 ^ 20 → mkfs_used (mkfs_geometry img_size) ≤ 4096.
Proof.
  intros Himg Hmax. destruct (layout_facts img_size Himg) as (Hal & _ & Hds & _ & Hu & _).
  destruct (geo_facts img_size Himg) as (Hi & HB & HG & HG' & _). destruct (ipg_facts img_size Himg) as (_ & Hle & _).
  set (g := mkfs_geometry img_size) in *. set (G := geo_group_count g) in *. set (L := mkfs_ipg g / 16) in *.
  assert (16 * L ≤ mkfs_ipg g) by (unfold L; clear; dlia). assert (16 * (G * L) ≤ geo_block_count g / 4) by nia.
  assert (G ≤ 8) by lia. destruct (decide (G = 8)) as [E|].
  - assert (16 * (G * L) < 8 * 8144) by (clear -H0 Hi Hmax; dlia). rewrite E in *. lia.
  - assert (G * L ≤ 3584) by (clear -H0 HG H1 n; dlia). lia.
Qed.

Lemma used_large img_size : img_ok img_size → 1018 * 2 ^ 20 ≤ img_size → 4096 < mkfs_used (mkfs_geometry img_size).
Proof.
  intros Himg Hmin. destruct (layout_facts img_size Himg) as (Hal & Hds & _ & _ & Hu & _).
  destruct (geo_facts img_size Himg) as (Hi & HB & HG & HG' & HI).
  set (g := mkfs_geometry img_size) in *. set (G := geo_group_count g) in *. set (L := mkfs_ipg g / 16) in *.
  assert (mkfs_ipg g ≤ 16 * L + 15) by (unfold L; clear; dlia).
  assert (geo_block_count g / 4 < G * (mkfs_ipg g + 1)) as Hlt.
  { unfold mkfs_ipg. fold G. rewrite HI. rewrite Z.add_1_r. apply Z.mul_succ_div_gt. lia. }
  assert (geo_block_count g / 4 < 16 * (G * L) + 16 * G) by nia.
  destruct (decide (G = 8)) as [E|].
  - assert (8 * 8144 ≤ geo_block_count g / 4) by dlia. rewrite E in *. assert (509 ≤ L) by lia.
    assert (4090 ≤ mkfs_data_start g) as Hd by lia. clear -Hal Hu Hd. dlia.
  - assert (65536 ≤ geo_block_count g / 4) by (clear -Hi Hmin HG n; dlia). lia.
Qed.

(** The part of [main] before the first write. *)
Lemma mkfs_start fd e d now uid gid : 0 ≤ fd → MKFS_EXT4_DISK_MIN_SIZE ≤ disk_len d < 2 ^ 63 →
  mkfs 2 fd e true d now uid gid = mkfs_fill (mk_disk fd (disk_bytes d) (disk_len d)) (disk_len d / 4096 * 4096) now uid gid.
Proof.
  intros Hfd Hlen. unfold mkfs, disk_open, disk_size, MKFS_EXT4_DISK_MIN_SIZE in *. cbn [Z.eqb negb Pos.eqb disk_fd disk_len].
  destruct (Z.ltb_spec fd 0); [lia|]. cbn [Z.ltb Z.compare]. unfold u64. rewrite Z.mod_small by lia.
  destruct (Z.ltb_spec (disk_len d) (512 * 1024)); [lia|].
  assert (mkfs_img_size (disk_len d) = disk_len d / 4096 * 4096) as ->; [|reflexivity]. unfold mkfs_img_size, MKFS_EXT4_BLOCK_SIZE.
  destruct (Z.ltb_spec 0 (disk_len d / 4096)); [|dlia]. destruct (Z.eqb_spec (disk_len d mod 4096) 0); cbn; dlia.
Qed.

(** Where the table of a group starts, whatever the number of its inodes. *)
Lemma table_block img_size i desc : img_ok img_size → mkfs_gdt (mkfs_geometry img_size) !! i = Some desc →
  EXT4_DESC_INODE_TABLE desc =
    2 + 2 * geo_group_count (mkfs_geometry img_size) + Z.of_nat i * (mkfs_ipg (mkfs_geometry img_size) / 16).
Proof.
  intros Himg Hi. set (g := mkfs_geometry img_size) in *.
  destruct (super_facts img_size Himg) as (_ & _ & _ & _ & _ & _ & _ & Htl). fold g in Htl.
  destruct (geo_facts img_size Himg) as (_ & _ & _ & HG & _). destruct (ipg_facts img_size Himg) as (Hr & _). fold g in HG, Hr.
  destruct (Forall2_lookup_r _ _ _ _ _ (gdt0_same img_size) Hi) as (x & Hx & _ & _ & ->).
  rewrite gdt0_lookup in Hx. fold g in Hx. case_decide as Hlt; [|done]. injection Hx as <-. rewrite <- Htl.
  apply desc_facts; [lia | lia | rewrite Htl; dlia].
Qed.

(** ** Properties *)

(** C3: What [mkfs] makes can be mounted: on an image of whole blocks whose
    groups have a multiple of 16 inodes and whose metadata fits in the blocks
    [mkfs] allows, [mkfs] succeeds, [op_init] on the result succeeds, and the
    mounted state is well formed: the caches, the bitmaps and the inode tables.
    Exactly the inodes 1 to 3 and the blocks of the metadata with the first
    two files are in use; the root inode is the one [mkfs] created, its block
    0 is the first data block, and that block holds the entries [.], [..] and
    [.kfsctl]. *)
Theorem mkfs_mountable (img_size : Z) (d : disk_t) (now uid gid capable : Z) (cntx : option fuse_context)
    (now' : Z) (buf : list Z) (Himg : img_ok img_size) (Hr : disk_ready d) (Hlen : img_size ≤ disk_len d)
    (Hused : mkfs_used (mkfs_geometry img_size) ≤ EXT4_BLOCK_SIZE (mkfs_super (mkfs_geometry img_size)))
    (Hipg : mkfs_ipg (mkfs_geometry img_size) mod 16 = 0) :
  let g := mkfs_geometry img_size in
  ∃ d' s, mkfs_fill d img_size now uid gid = Ok (EXIT_SUCCESS, d') ∧ op_init d' capable cntx now' buf = Ok s ∧
    mounted s ∧ icache_ok s ∧ lru_room s ∧ decache_ok (fs_decache s) {[ 1%positive := [] ]} ∧
    bitmap_ok (fs_sb s) (EXT4_INODES_PER_GROUP (fs_sb s)) (fs_i_bitmap s) ∧
    bitmap_ok (fs_sb s) (EXT4_BLOCKS_PER_GROUP (fs_sb s)) (fs_d_bitmap s) ∧
    (∀ ino, inode_in (fs_sb s) ino → inode_used (fs_sb s) (fs_i_bitmap s) ino = (ino <=? 3)) ∧
    (∀ blk, 0 ≤ blk < EXT4_N_BLOCK_GROUPS (fs_sb s) * EXT4_BLOCKS_PER_GROUP (fs_sb s) →
       block_used (fs_sb s) (fs_d_bitmap s) blk = (blk <? mkfs_used g)) ∧
    ∃ root blk, inode_view s EXT4_ROOT_INO = Ok root ∧
      inode_get_data_pblock (fs_sb s) (fs_disk s) root 0 = Ok (mkfs_data_start g, Some 4) ∧
      disk_read_block (fs_sb s) (fs_disk s) (mkfs_data_start g) = Ok blk ∧ dents_at 4096 blk 0 root_entries.
Proof.
  intros g. destruct (super_facts img_size Himg) as (HBS & _). rewrite HBS in Hused.
  destruct (fill_run img_size Himg d now uid gid Hr Hlen Hused) as (d' & Hrun & Hr' & Hl' & Hmade).
  assert (img_size ≤ disk_len d') as Hlen' by lia.
  pose proof (made_image_ok img_size Himg Hused Hipg d' now uid gid Hr' Hlen' Hmade) as Him.
  exists d', (mount_state d' (mkfs_super g) (mkfs_gdt g) capable cntx now' buf).
  split; [exact Hrun|]. split; [exact (mount_run _ _ _ Him capable cntx now' buf)|].
  destruct (mount_ok _ _ _ Him capable cntx now' buf) as (Hm & Hic & Hroom & Hdc & Hib & Hdb).
  split; [exact Hm|]. split; [exact Hic|]. split; [exact Hroom|]. split; [exact Hdc|]. split; [exact Hib|]. split; [exact Hdb|].
  split; [exact (made_inodes img_size Himg Hused Hipg d' now uid gid Hr' Hlen' Hmade capable cntx now' buf)|].
  split; [exact (made_blocks img_size Himg Hused Hipg d' now uid gid Hr' Hlen' Hmade capable cntx now' buf)|].
  destruct (made_dir img_size Himg Hused Hipg d' now uid gid Hr' Hlen' Hmade capable cntx now' buf) as (blk & Hblk & Hds).
  exists (mkfs_root g now uid gid), blk.
  split; [exact (made_root img_size Himg Hused Hipg d' now uid gid Hr' Hlen' Hmade capable cntx now' buf)|].
  split; [|split; [exact Hblk | exact Hds]]. apply root_pblock.
  destruct (layout_facts img_size Himg) as (_ & Hds0 & _ & _ & Hu & _ & HL & _).
  destruct (geo_facts img_size Himg) as (_ & _ & _ & HG & _). 
  subst g. assert (0 ≤ geo_group_count (mkfs_geometry img_size) * (mkfs_ipg (mkfs_geometry img_size) / 16)) by (apply Z.mul_nonneg_nonneg; lia). lia.
Qed.

Definition test_min_disk : disk_t := mk_disk 3 ∅ (512 * 1024).

Lemma test_min_ready : disk_ready test_min_disk.
Proof. split; [vm_compute; discriminate | vm_compute; reflexivity|]. intros a b. cbn. by rewrite lookup_empty. Qed.

Lemma mkfs_mountable_witness :
  ∃ d' s, mkfs_fill test_min_disk (512 * 1024) 1000 0 0 = Ok (EXIT_SUCCESS, d') ∧ op_init d' 0 None 2000 [] = Ok s ∧ mounted s.
Proof.
  destruct (mkfs_mountable (512 * 1024) test_min_disk 1000 0 0 0 None 2000 []) as (d' & s & H1 & H2 & H3 & _);
    [split; [split|]; vm_compute; (discriminate || reflexivity) | exact test_min_ready | vm_compute; discriminate
    | vm_compute; discriminate | vm_compute; reflexivity |].
  exists d', s. split; [exact H1 | split; [exact H2 | exact H3]].
Defined.

(** C38: The images [mkfs] accepts, by their size in bytes, for every image
    smaller than 2^50 bytes: below 512 KiB it fails and leaves the image as it
    was; from 512 KiB to below 1018 MiB it succeeds; from 1018 MiB on (the number
    of blocks of the metadata is compared with the block size in bytes) it fails
    when the new super block has already been written. *)
Theorem mkfs_sizes (fd e : Z) (d : disk_t) (now uid gid : Z)
    (Hfd : 0 ≤ fd) (Hb : disk_bytes_ok d) (Hl : 0 ≤ disk_len d < 2 ^ 50) :
  (disk_len d < 512 * 2 ^ 10 →
     mkfs 2 fd e true d now uid gid = Ok (EXIT_FAILURE, mk_disk fd (disk_bytes d) (disk_len d))) ∧
  (512 * 2 ^ 10 ≤ disk_len d < 1018 * 2 ^ 20 → ∃ d', mkfs 2 fd e true d now uid gid = Ok (EXIT_SUCCESS, d')) ∧
  (1018 * 2 ^ 20 ≤ disk_len d → ∃ d', mkfs 2 fd e true d now uid gid = Ok (EXIT_FAILURE, d') ∧
     holds d' 1024 (bytes_of (mkfs_super (mkfs_geometry (disk_len d / 4096 * 4096))))).
Proof.
  set (d0 := mk_disk fd (disk_bytes d) (disk_len d)). set (n := disk_len d / 4096 * 4096).
  assert (disk_ready d0) as Hr by (split; cbn; [done | lia | done]).
  assert (512 * 1024 ≤ disk_len d → img_ok n) as Himg.
  { intros H. unfold img_ok, n, MKFS_EXT4_DISK_MIN_SIZE, MKFS_EXT4_BLOCK_SIZE. split; [|apply Z.mod_mul; lia]. clear -H Hl. dlia. }
  assert (n ≤ disk_len d < n + 4096) as Hn by (unfold n; clear; dlia). split_and!.
  - intros Hs. unfold mkfs, disk_open, disk_size, MKFS_EXT4_DISK_MIN_SIZE. cbn [Z.eqb negb Pos.eqb disk_fd disk_len].
    destruct (Z.ltb_spec fd 0); [lia|]. cbn [Z.ltb Z.compare]. unfold u64. rewrite Z.mod_small by lia.
    by rewrite (proj2 (Z.ltb_lt (disk_len d) (512 * 1024)) Hs).
  - intros Hs. rewrite mkfs_start by (done || unfold MKFS_EXT4_DISK_MIN_SIZE; lia). fold d0 n.
    destruct (fill_run n (Himg ltac:(lia)) d0 now uid gid Hr) as (d' & -> & _); [cbn; lia | apply used_small; [apply Himg|]; lia |].
    by exists d'.
  - intros Hs. rewrite mkfs_start by (done || unfold MKFS_EXT4_DISK_MIN_SIZE; lia). fold d0 n.
    pose proof (used_large n (Himg ltac:(lia)) ltac:(unfold n; clear -Hs; dlia)) as Hu.
    destruct (fill_head n (Himg ltac:(lia)) d0 now uid gid Hr) as (d' & -> & _ & _ & Hm & _); [cbn; lia | lia|].
    rewrite (proj2 (Z.ltb_lt _ _) Hu). by exists d'.
Qed.

Lemma mkfs_sizes_witness : ∃ d', mkfs 2 3 0 true test_min_disk 1000 0 0 = Ok (EXIT_SUCCESS, d').
Proof.
  apply (mkfs_sizes 3 0 test_min_disk 1000 0 0); [vm_compute; discriminate | apply test_min_ready
  | split; vm_compute; (discriminate || reflexivity) | split; vm_compute; (discriminate || reflexivity)].
Defined.

(** When the inodes of a group are not a multiple of 16, the inode tables
    are too short by one block (their length is rounded down): on an image of
    two groups or more, an inode of the first group and the first inode of
    the second group, both valid inode numbers, have the same place on the
    disk. *)
Lemma mkfs_shared_slot (img_size : Z) (Himg : img_ok img_size)
    (HG : 2 ≤ geo_group_count (mkfs_geometry img_size)) (Hmax : img_size < 2 ^ 32)
    (Hipg : mkfs_ipg (mkfs_geometry img_size) mod 16 ≠ 0) :
  let g := mkfs_geometry img_size in
  let sb := mkfs_super g in
  ∃ i j off, i ≠ j ∧ inode_in sb i ∧ inode_in sb j ∧
    inode_get_offset sb (mkfs_gdt g) i = Ok off ∧ inode_get_offset sb (mkfs_gdt g) j = Ok off.
Proof.
  intros g sb. destruct (super_facts img_size Himg) as (HBS & _ & Hi & His & _ & _ & HN & _).
  destruct (geo_facts img_size Himg) as (Hsz & _ & HG1 & HG2 & _). destruct (ipg_facts img_size Himg) as (Hr & _).
  fold g in Hsz, HBS, Hi, His, HN, HG, HG1, HG2, Hr, Hipg. fold sb in HBS, Hi, His, HN.
  set (G := geo_group_count g) in *. set (ipg := mkfs_ipg g) in *. set (L := ipg / 16).
  assert (ipg = 16 * L + ipg mod 16 ∧ 0 < ipg mod 16 < 16) as [HL Hm] by (unfold L; clear -Hipg; dlia).
  assert (G ≤ 64) as HG64 by lia. assert (0 ≤ L ≤ 512) as HL2 by lia.
  assert (length (mkfs_gdt g) = Z.to_nat G) as Hlen by (unfold mkfs_gdt; rewrite length_insert, length_map, length_seqZ; done).
  assert (∀ k x, 0 ≤ k < G → 0 ≤ x < ipg → inode_get_offset sb (mkfs_gdt g) (k * ipg + x + 1) = Ok ((2 + 2 * G + k * L) * 4096 + x * 256)) as Hoff.
  { intros k x Hk Hx. destruct (lookup_lt_is_Some_2 (mkfs_gdt g) (Z.to_nat k)) as [desc Hd]; [lia|].
    pose proof (table_block img_size (Z.to_nat k) desc Himg Hd) as Ht. fold g G ipg L in Ht. rewrite Z2Nat.id in Ht by lia.
    assert (0 ≤ k * ipg ≤ 64 * 8192) by (split; [apply Z.mul_nonneg_nonneg | apply Z.mul_le_mono_nonneg]; lia).
    assert (0 ≤ k * L ≤ 64 * 512) by (split; [apply Z.mul_nonneg_nonneg | apply Z.mul_le_mono_nonneg]; lia).
    unfold inode_get_offset. rewrite (proj2 (Z.eqb_neq _ 0)) by lia. cbn [negb ASSERT obind]. rewrite Hi, HN, His.
    replace (k * ipg + x + 1 - 1) with (x + k * ipg) by lia. assert (u32 (x + k * ipg) = x + k * ipg) as -> by (apply Z.mod_small; lia).
    rewrite Z.div_add, Z.mod_add, (Z.div_small x), (Z.mod_small x), Z.add_0_l by lia.
    rewrite ASSERT_Ok by (apply Z.ltb_lt; lia). cbn [obind]. rewrite (arr_get_Ok _ k desc ltac:(lia) Hd). cbn [obind].
    rewrite Ht, (block_addr sb _ HBS) by lia. unfold u64, u32. rewrite (Z.mod_small (x * 256)), Z.mod_small by lia. done. }
  exists (16 * L + 1), (ipg + 1), ((2 + 2 * G + L) * 4096). unfold inode_in. rewrite HN, Hi. split_and!; try nia.
  - replace (16 * L + 1) with (0 * ipg + 16 * L + 1) by lia. rewrite Hoff by lia. f_equal. lia.
  - replace (ipg + 1) with (1 * ipg + 0 + 1) by lia. rewrite Hoff by lia. f_equal. lia.
Qed.
