(* ===== verification/Remount.v ===== *)
(** * Unmounting and mounting again

    [src/src/op_destory.c] followed by [src/src/op_init.c]: what was in the
    caches, the bitmaps and the descriptors is on the image when the file
    system is unmounted, and the next mount shows it. *)

From S2P Require Import Prelude Ext4 Disk Bitmap Extents InodeMap Decache Fs Cache Dentry OpsMount Mkfs MkfsMount.
From stdpp Require Import base numbers list gmap.
From Stdlib Require Import ZArith Lia.

Open Scope Z_scope.
Open Scope kfs_scope.

(** ** The state before unmounting *)

(** The bitmap of an area. *)
Definition mem_group (s : fs) (a : area) : option bitmap_group :=
  match a with
  | InodeBits i => bm_group (fs_i_bitmap s) !! i
  | BlockBits i => bm_group (fs_d_bitmap s) !! i
  | InodeTable _ => None
  end.

(** Descriptor [g] is on the image, whatever the flag says there. *)
Definition desc_saved (d : disk_t) (off : Z) (g : ext4_group_desc) : Prop :=
  ∃ g0, struct_ok g0 ∧ EXT4_GDT_SET_CLEAN g0 = EXT4_GDT_SET_CLEAN g ∧ holds d off (bytes_of g0).

(** A bitmap or a descriptor that is not marked dirty is on the image. *)
Record synced (s : fs) : Prop := mk_synced {
  sy_place : ∀ a g, mem_group s a = Some g → area_at (fs_sb s) (fs_gdt s) a = Some (bg_off g, zlen (bg_bitmap g));
  sy_bits : ∀ a g, mem_group s a = Some g → bg_status g ≠ BITMAP_S_DIRTY → holds (fs_disk s) (bg_off g) (bg_bitmap g);
  sy_gdt : ∀ i g, fs_gdt s !! i = Some g → EXT4_GDT_DIRTY_FLAG g ≠ EXT4_GDT_DIRTY →
    desc_saved (fs_disk s) (gdt_off (fs_sb s) + sizeof ext4_group_desc * Z.of_nat i) g
}.

(** Everything [op_destory] relies on but the tree of names. *)
Record steady (s : fs) : Prop := mk_steady {
  ru_ready : disk_ready (fs_disk s);
  ru_layout : layout_ok (fs_sb s) (fs_gdt s) (disk_len (fs_disk s));
  ru_sb : struct_ok (fs_sb s);
  ru_gdt : Forall struct_ok (fs_gdt s);
  ru_icache : icache_ok s;
  ru_ibits : bitmap_ok (fs_sb s) (EXT4_INODES_PER_GROUP (fs_sb s)) (fs_i_bitmap s);
  ru_dbits : bitmap_ok (fs_sb s) (EXT4_BLOCKS_PER_GROUP (fs_sb s)) (fs_d_bitmap s);
  ru_num : bm_group_num (fs_i_bitmap s) = EXT4_N_BLOCK_GROUPS (fs_sb s);
  ru_synced : synced s
}.

(** ** The bitmaps *)

Section flush_bitmaps.
Context (s : fs) (Hrun : steady s).
Local Abbreviation sb := (fs_sb s).
Local Abbreviation gdt := (fs_gdt s).
Local Abbreviation len := (disk_len (fs_disk s)).

(** What is known of the image between two writes. *)
Record flushing (d : disk_t) : Prop := mk_flushing {
  fl_ready : disk_ready d;
  fl_fd : disk_fd d = disk_fd (fs_disk s);
  fl_len : disk_len d = len;
  fl_bits : ∀ a g, mem_group s a = Some g → bg_status g ≠ BITMAP_S_DIRTY → holds d (bg_off g) (bg_bitmap g)
}.

Lemma mem_ok a g : mem_group s a = Some g →
  area_at sb gdt a = Some (bg_off g, zlen (bg_bitmap g)) ∧ Forall byte_ok (bg_bitmap g) ∧
  0 ≤ bg_off g ∧ bg_off g + zlen (bg_bitmap g) ≤ len ∧ zlen (bg_bitmap g) ≤ MAX_RW_COUNT.
Proof.
  intros Hg. pose proof (sy_place s (ru_synced _ Hrun) a g Hg) as Ha.
  pose proof (ru_layout _ Hrun) as [Hgeo _ _ _ _ Hsup Hlen Hin _]. destruct (Hin _ _ _ Ha) as [Hlo Hhi].
  pose proof (zlen_nonneg gdt). unfold gdt_end, BOOT_SECTOR_SIZE in *. change (sizeof ext4_super_block) with 1024 in *.
  change (sizeof ext4_group_desc) with 64 in *. rewrite MAX_RW_COUNT_eq.
  assert (zlen (bg_bitmap g) ≤ 2 ^ 29 ∧ Forall byte_ok (bg_bitmap g)) as [Hz Hb].
  { pose proof Hgeo as (?&?&?&?&?&?&?).
    destruct a as [i|i|i]; cbn in Hg; [destruct (ru_ibits _ Hrun) as [_ Hf] | destruct (ru_dbits _ Hrun) as [_ Hf] | done];
      destruct (proj1 (Forall_lookup _ _) Hf _ _ Hg) as [-> ?]; (split; [apply Z.div_le_upper_bound; nia | done]). }
  split_and!; try done; lia.
Qed.

(** One bitmap is written if it is dirty, and is on the image afterwards. *)
Lemma flush_group_run d a g n : flushing d → mem_group s a = Some g → n = zlen (bg_bitmap g) →
  ∃ d', flush_group (bg_off g) n g (set_fs_disk d s) = Ok (tt, set_fs_disk d' s) ∧ flushing d' ∧
    wrote d d' (bg_off g) n ∧ holds d' (bg_off g) (bg_bitmap g) ∧
    ∀ a' g', mem_group s a' = Some g' → holds d (bg_off g') (bg_bitmap g') → holds d' (bg_off g') (bg_bitmap g').
Proof.
  intros [Hr Hfd Hlen Hcl] Hg ->. destruct (mem_ok a g Hg) as (Ha & Hb & H0 & Hend & Hmax). unfold flush_group.
  destruct (Z.eqb_spec (bg_status g) BITMAP_S_DIRTY) as [E|E].
  - destruct (disk_write_run d (bg_off g) (bg_bitmap g)) as (d' & Hw & Hr' & Hwr & Hh); [done | done | lia | done | done|].
    assert (∀ a' g', mem_group s a' = Some g' → holds d (bg_off g') (bg_bitmap g') → holds d' (bg_off g') (bg_bitmap g')) as Hkeep.
    { intros a' g' Hg' Hh'. destruct (decide (a' = a)) as [->|Hne]; [congruence|].
      destruct (mem_ok a' g' Hg') as (Ha' & _). eapply wrote_holds; [exact Hwr | | exact Hh'].
      eapply (lo_apart _ _ _ (ru_layout _ Hrun)); [exact Ha' | exact Ha | done]. }
    exists d'. pose proof Hwr as (Hfd' & Hlen' & _). split_and!; try done.
    + pose proof (zlen_nonneg (bg_bitmap g)). unfold lift. erewrite M_bind_Ok by (rewrite buf_read_Ok by lia; reflexivity).
      rewrite drop_0, take_ge by (unfold zlen; lia). unfold k_disk_write. cbn [set_fs_disk fs_disk]. by rewrite Hw.
    + split; [done | congruence | congruence |]. intros a' g' Hg' Hst. apply (Hkeep a'); [done|]. by apply (Hcl a').
  - exists d. split; [done|]. split; [done|]. split; [done|]. split; [by apply (Hcl a) | done].
Qed.

Definition area_index (a : area) : nat :=
  match a with InodeBits i | BlockBits i | InodeTable i => i end.

(** Bytes outside the bitmaps stay. *)
Definition outside_bits (x : Z) : Prop :=
  ∀ a g, mem_group s a = Some g → x < bg_off g ∨ bg_off g + zlen (bg_bitmap g) ≤ x.

Lemma flush_bitmaps_run n i d : flushing d → Z.of_nat (i + n) = EXT4_N_BLOCK_GROUPS sb →
  ∃ d', flush_bitmaps (Z.of_nat i) n (set_fs_disk d s) = Ok (tt, set_fs_disk d' s) ∧ flushing d' ∧
    (∀ x, outside_bits x → disk_bytes d' !! x = disk_bytes d !! x) ∧
    ∀ a g, mem_group s a = Some g → (i ≤ area_index a)%nat ∨ holds d (bg_off g) (bg_bitmap g) → holds d' (bg_off g) (bg_bitmap g).
Proof.
  revert i d. induction n as [|n IH]; intros i d Hd Hn.
  { exists d. split; [done|]. split; [done|]. split; [done|]. intros a g Hg [Hi|Hh]; [|done].
    exfalso. destruct (ru_ibits _ Hrun) as [Hzi _], (ru_dbits _ Hrun) as [Hzd _]. unfold zlen in Hzi, Hzd.
    destruct a as [k|k|k]; cbn in Hg, Hi; [apply lookup_lt_Some in Hg; lia | apply lookup_lt_Some in Hg; lia | done]. }
  destruct (ru_ibits _ Hrun) as [Hzi Hfi], (ru_dbits _ Hrun) as [Hzd Hfd]. unfold zlen in Hzi, Hzd.
  destruct (lookup_lt_is_Some_2 (bm_group (fs_i_bitmap s)) i) as [ig Hig]; [lia|].
  destruct (lookup_lt_is_Some_2 (bm_group (fs_d_bitmap s)) i) as [dg Hdg]; [lia|].
  destruct (proj1 (Forall_lookup _ _) Hfi _ _ Hig) as [Hzig _], (proj1 (Forall_lookup _ _) Hfd _ _ Hdg) as [Hzdg _].
  destruct (flush_group_run d (InodeBits i) ig (EXT4_INODES_PER_GROUP sb / 8)) as (d1 & Hr1 & Hd1 & Hw1 & Hh1 & Hk1); try done.
  destruct (flush_group_run d1 (BlockBits i) dg (EXT4_BLOCKS_PER_GROUP sb / 8)) as (d2 & Hr2 & Hd2 & Hw2 & Hh2 & Hk2); try done.
  destruct (IH (S i) d2 Hd2) as (d' & Hr' & Hd' & Hx & Hk); [lia|]. exists d'. split_and!; try done.
  - cbn [flush_bitmaps]. rewrite (M_bind_Ok _ _ _ sb (set_fs_disk d s)) by reflexivity.
    rewrite (M_bind_Ok _ _ _ (fs_i_bitmap s) (set_fs_disk d s)) by reflexivity.
    rewrite (M_bind_Ok _ _ _ (fs_d_bitmap s) (set_fs_disk d s)) by reflexivity.
    assert (arr_get (bm_group (fs_i_bitmap s)) (Z.of_nat i) = Ok ig) as Ei by (apply arr_get_Ok; [lia | by rewrite Nat2Z.id]).
    assert (arr_get (bm_group (fs_d_bitmap s)) (Z.of_nat i) = Ok dg) as Ed by (apply arr_get_Ok; [lia | by rewrite Nat2Z.id]).
    erewrite M_bind_Ok by (unfold lift; rewrite Ei; reflexivity). erewrite M_bind_Ok by exact Hr1.
    erewrite M_bind_Ok by (unfold lift; rewrite Ed; reflexivity). erewrite M_bind_Ok by exact Hr2.
    by replace (Z.of_nat i + 1) with (Z.of_nat (S i)) by lia.
  - intros x Ho. rewrite Hx by done. destruct Hw1 as (_ & _ & Hw1), Hw2 as (_ & _ & Hw2).
    rewrite Hw2, Hw1; [done | |]; [rewrite <- Hzig; by apply (Ho (InodeBits i)) | rewrite <- Hzdg; by apply (Ho (BlockBits i))].
  - intros a g Hg Hi. apply (Hk a g Hg). destruct Hi as [Hi|Hh]; [|right; by eapply Hk2, Hk1].
    destruct (decide (area_index a = i)) as [Hai|]; [right|left; lia].
    destruct a as [k|k|k]; cbn in Hai, Hg; subst; [|by simplify_eq|done].
    simplify_eq. by apply (Hk2 (InodeBits i)).
Qed.
End flush_bitmaps.

(** ** The inodes *)

Lemma flush_inodes_run n i s : mounted s → icache_ok s → Z.of_nat (i + n) = icache_count (fs_icache s) →
  ∃ s', flush_inodes (Z.of_nat i) n s = Ok (tt, s') ∧ mounted s' ∧ icache_ok s' ∧ same_rest s s' ∧
    fs_icache s' = fs_icache s ∧ (∀ j, inode_in (fs_sb s) j → inode_view s' j = inode_view s j) ∧
    ∀ ino k e, cached s ino k e → (i ≤ k)%nat ∨ inode_on_disk s ino = Ok (ic_inode e) →
      inode_on_disk s' ino = Ok (ic_inode e).
Proof.
  revert i s. induction n as [|n IH]; intros i s Hm Hok Hn.
  { exists s. split_and!; try done. intros ino k e (_ & Hk & _) [Hi|Hd]; [lia | done]. }
  destruct (entry_exists s i Hok) as [e He]; [pose proof (io_count s Hok); lia|].
  assert (ICACHE_IS_DIRTY (Z.of_nat i) s = Ok (ic_status e =? ICACHE_S_DIRTY, s)) as Hdirty.
  { unfold ICACHE_IS_DIRTY. by erewrite M_bind_Ok by exact (get_entry_run s i e He). }
  assert (∃ s1, (if ic_status e =? ICACHE_S_DIRTY then icache_write_back (Z.of_nat i) else ret tt) s = Ok (tt, s1) ∧
    mounted s1 ∧ icache_ok s1 ∧ same_rest s s1 ∧ fs_icache s1 = fs_icache s ∧
    (∀ j, inode_in (fs_sb s) j → inode_view s1 j = inode_view s j) ∧
    ∀ ino k e', cached s ino k e' → k = i ∨ inode_on_disk s ino = Ok (ic_inode e') → inode_on_disk s1 ino = Ok (ic_inode e'))
    as (s1 & Hr1 & Hm1 & Hok1 & Hs1 & Hic1 & Hv1 & Hd1).
  { destruct (Z.eqb_spec (ic_status e) ICACHE_S_DIRTY) as [E|E].
    - assert (cached s (ic_inode_idx e) i e) as Hc by (split_and!; [done | lia | rewrite E; discriminate | done]).
      destruct (write_back_slot s _ i e Hm Hok Hc) as (s1 & Hr & ? & ? & ? & ? & Hd & Ho & ?). exists s1. split_and!; try done.
      intros ino k e' Hc' Hk. destruct (decide (ino = ic_inode_idx e)) as [->|Hne].
      + destruct (io_once s Hok _ _ _ _ _ Hc Hc'). destruct Hc' as (He' & _). congruence.
      + rewrite Ho; [|by eapply (io_entry s Hok) | done]. destruct Hk as [->|Hk]; [|done]. destruct Hc' as (He' & _ & _ & Hidx). congruence.
    - exists s. split_and!; try done. intros ino k e' Hc' [->|Hk]; [|done]. apply (io_clean s Hok _ _ _ Hc').
      destruct Hc' as (He' & _). congruence. }
  destruct (IH (S i) s1 Hm1 Hok1) as (s' & Hr' & Hm' & Hok' & Hs' & Hic' & Hv' & Hd'); [rewrite Hic1; lia|].
  exists s'. split_and!; try done.
  - cbn [flush_inodes]. erewrite M_bind_Ok by exact Hdirty. erewrite M_bind_Ok by exact Hr1.
    by replace (Z.of_nat i + 1) with (Z.of_nat (S i)) by lia.
  - by eapply same_rest_trans.
  - congruence.
  - intros j Hj. destruct Hs1 as (E & _). rewrite Hv', Hv1; [done | done | by rewrite E].
  - intros ino k e' Hc Hk. apply (Hd' ino k e').
    + unfold cached in *. by rewrite Hic1.
    + destruct (decide (S i ≤ k)%nat); [by left | right]. apply (Hd1 ino k e' Hc).
      destruct Hk as [Hk|Hk]; [left; lia | by right].
Qed.

(** After the loop the tables hold what the cache showed. *)
Lemma flush_inodes_all s : mounted s → icache_ok s →
  ∃ s', flush_inodes 0 (Z.to_nat (icache_count (fs_icache s))) s = Ok (tt, s') ∧ mounted s' ∧ same_rest s s' ∧
    ∀ j, inode_in (fs_sb s) j → inode_on_disk s' j = inode_view s j.
Proof.
  intros Hm Hok. pose proof (io_count s Hok) as Hc.
  destruct (flush_inodes_run (Z.to_nat (icache_count (fs_icache s))) 0 s Hm Hok) as (s' & Hr & Hm' & Hok' & Hs & Hic & Hv & Hd); [lia|].
  exists s'. split_and!; try done. intros j Hj. destruct (icache_find_ok s j Hok) as [(k & e & _ & Hk)|[_ Hno]].
  - rewrite (view_cached s j k e Hok Hk). apply (Hd j k e Hk). left. lia.
  - rewrite <- Hv by done. symmetry. apply view_uncached; [done|]. intros k e Hk. apply (Hno k e). unfold cached in *. by rewrite <- Hic.
Qed.

(** ** The descriptors *)

Lemma clean_ok g : struct_ok g → struct_ok (EXT4_GDT_SET_CLEAN g).
Proof.
  intros [_ H]. split; [exact I|]. destruct g. cbn in H |- *. assert (in_width 2 0) by (unfold in_width; lia).
  assert (in_width 4 0) by (unfold in_width; lia).
  repeat apply Forall2_cons in H as [? H]. repeat (apply Forall2_cons; split); assumption || constructor.
Qed.

Lemma clean_clean g : EXT4_GDT_SET_CLEAN (EXT4_GDT_SET_CLEAN g) = EXT4_GDT_SET_CLEAN g.
Proof. done. Qed.

Lemma desc_saved_same d o g g' : EXT4_GDT_SET_CLEAN g = EXT4_GDT_SET_CLEAN g' → desc_saved d o g → desc_saved d o g'.
Proof. intros E (g0 & ? & ? & ?). exists g0. split_and!; congruence. Qed.

Section flush_desc.
Context (s : fs) (off : Z) (Hr : disk_ready (fs_disk s)) (Hds : EXT4_DESC_SIZE (fs_sb s) = 64).
Context (Hst : Forall struct_ok (fs_gdt s)) (Hoff : 0 ≤ off) (Hlen : off + 64 * zlen (fs_gdt s) ≤ disk_len (fs_disk s)).

Lemma flush_desc_run i g : fs_gdt s !! i = Some g →
  EXT4_GDT_DIRTY_FLAG g = EXT4_GDT_DIRTY ∨ desc_saved (fs_disk s) (off + 64 * Z.of_nat i) g →
  ∃ d1 gdt1, flush_desc off (Z.of_nat i) g s = Ok (tt, set_fs_disk d1 (set_fs_gdt gdt1 s)) ∧ disk_ready d1 ∧
    wrote (fs_disk s) d1 off (64 * zlen (fs_gdt s)) ∧ Forall struct_ok gdt1 ∧
    map EXT4_GDT_SET_CLEAN gdt1 = map EXT4_GDT_SET_CLEAN (fs_gdt s) ∧ (∀ j, j ≠ i → gdt1 !! j = fs_gdt s !! j) ∧
    ∀ j g, fs_gdt s !! j = Some g → j = i ∨ desc_saved (fs_disk s) (off + 64 * Z.of_nat j) g →
      desc_saved d1 (off + 64 * Z.of_nat j) g.
Proof.
  intros Hg Hcase. pose proof (dr_len _ Hr). pose proof MAX_RW_COUNT_eq. apply lookup_lt_Some in Hg as Hi. unfold zlen in Hlen.
  pose proof (proj1 (Forall_lookup _ _) Hst _ _ Hg) as Hsg. unfold flush_desc. do 2 (erewrite M_bind_Ok by reflexivity).
  destruct (Z.eqb_spec (EXT4_GDT_DIRTY_FLAG g) EXT4_GDT_DIRTY) as [E|E].
  2:{ destruct Hcase as [?|Hs]; [done|]. exists (fs_disk s), (fs_gdt s). split; [by destruct s|]. split_and!; try done.
      intros j g' Hj [->|?]; [congruence | done]. }
  pose proof (clean_ok g Hsg) as Hsc. pose proof (zlen_bytes_of _ Hsc) as Hz. change (sizeof ext4_group_desc) with 64 in Hz.
  destruct (disk_write_run (fs_disk s) (off + 64 * Z.of_nat i) (bytes_of (EXT4_GDT_SET_CLEAN g))) as (d1 & Hw & Hr1 & Hwr & Hh);
    [done | lia | lia | lia | apply bytes_of_bytes_ok|]. rewrite Hz in Hwr.
  exists d1, (<[i := EXT4_GDT_SET_CLEAN g]> (fs_gdt s)). split_and!; [|done| | | | |].
  - erewrite M_bind_Ok by (unfold lift; rewrite arr_set_Ok by (unfold zlen; lia); reflexivity).
    rewrite Nat2Z.id. erewrite M_bind_Ok by reflexivity.
    erewrite M_bind_Ok by (unfold lift; rewrite Hds, buf_read_Ok by lia; reflexivity).
    rewrite drop_0, take_ge by (unfold zlen in Hz; lia). unfold k_disk_write. rewrite Hds. cbn [set_fs_gdt fs_disk].
    replace (u64 (off + Z.of_nat i * 64)) with (off + 64 * Z.of_nat i) by (unfold u64; rewrite Z.mod_small; lia).
    by rewrite Hw.
  - destruct Hwr as (? & ? & Hx). split; [done|]. split; [done|]. intros x Hx'. unfold zlen in Hx'. apply Hx. lia.
  - by apply Forall_insert.
  - rewrite list_fmap_insert, clean_clean. apply list_insert_id. by rewrite list_lookup_fmap, Hg.
  - intros j Hj. by rewrite list_lookup_insert_ne.
  - intros j g' Hj Hc. destruct (decide (j = i)) as [->|Hne].
    + exists (EXT4_GDT_SET_CLEAN g). split; [done|]. split; [|done]. rewrite clean_clean. congruence.
    + destruct Hc as [?|(g2 & Hg2 & ? & Hh2)]; [done|]. exists g2. split; [done|]. split; [done|].
      eapply wrote_holds; [exact Hwr | | exact Hh2]. rewrite (zlen_bytes_of g2 Hg2). change (sizeof ext4_group_desc) with 64. lia.
Qed.
End flush_desc.

Lemma flush_gdt_run n i s off : disk_ready (fs_disk s) → EXT4_DESC_SIZE (fs_sb s) = 64 →
  Forall struct_ok (fs_gdt s) → 0 ≤ off → off + 64 * zlen (fs_gdt s) ≤ disk_len (fs_disk s) →
  (i + n)%nat = length (fs_gdt s) →
  (∀ j g, fs_gdt s !! j = Some g → EXT4_GDT_DIRTY_FLAG g ≠ EXT4_GDT_DIRTY ∨ (j < i)%nat →
     desc_saved (fs_disk s) (off + 64 * Z.of_nat j) g) →
  ∃ d' gdt', flush_gdt off (Z.of_nat i) n s = Ok (tt, set_fs_disk d' (set_fs_gdt gdt' s)) ∧ disk_ready d' ∧
    wrote (fs_disk s) d' off (64 * zlen (fs_gdt s)) ∧
    map EXT4_GDT_SET_CLEAN gdt' = map EXT4_GDT_SET_CLEAN (fs_gdt s) ∧
    ∀ j g, fs_gdt s !! j = Some g → desc_saved d' (off + 64 * Z.of_nat j) g.
Proof.
  revert i s. induction n as [|n IH]; intros i s Hr Hds Hst Hoff Hlen Hn Hsav.
  { exists (fs_disk s), (fs_gdt s). split; [by destruct s|]. split_and!; try done.
    intros j g Hg. apply Hsav; [done|]. right. apply lookup_lt_Some in Hg. lia. }
  destruct (lookup_lt_is_Some_2 (fs_gdt s) i) as [g Hg]; [lia|].
  destruct (flush_desc_run s off Hr Hds Hst Hoff Hlen i g Hg) as (d1 & gdt1 & Hrun1 & Hr1 & Hw1 & Hst1 & Hmap1 & Hne1 & Hsv1).
  { destruct (decide (EXT4_GDT_DIRTY_FLAG g = EXT4_GDT_DIRTY)); [by left | right; apply Hsav; [done | by left]]. }
  assert (zlen gdt1 = zlen (fs_gdt s)) as Hz1 by (unfold zlen; apply (f_equal length) in Hmap1; rewrite !length_map in Hmap1; congruence).
  assert (∀ j a, gdt1 !! j = Some a → ∃ b, fs_gdt s !! j = Some b ∧ EXT4_GDT_SET_CLEAN b = EXT4_GDT_SET_CLEAN a) as Hsame.
  { intros j a Ha. apply (f_equal (.!! j)) in Hmap1. rewrite !list_lookup_fmap, Ha in Hmap1.
    destruct (fs_gdt s !! j) as [b|]; [|done]. exists b. split; [done|]. by apply (inj Some) in Hmap1. }
  pose proof Hw1 as (_ & Hl1 & _).
  destruct (IH (S i) (set_fs_disk d1 (set_fs_gdt gdt1 s))) as (d' & gdt' & Hrun & Hr' & Hw' & Hmap & Hsv);
    cbn [set_fs_disk set_fs_gdt fs_disk fs_gdt fs_sb] in *; try done; [lia | unfold zlen in Hz1; lia | |].
  { intros j a Ha Hd. destruct (Hsame j a Ha) as (b & Hb & Hab). apply (desc_saved_same _ _ b); [done|]. apply (Hsv1 j b Hb).
    destruct (decide (j = i)) as [->|Hne]; [by left | right]. rewrite Hne1 in Ha by done. simplify_eq.
    apply Hsav; [done|]. destruct Hd as [?|?]; [by left | right; lia]. }
  exists d', gdt'. split_and!; [|done| |congruence|].
  - cbn [flush_gdt]. erewrite M_bind_Ok by reflexivity.
    erewrite M_bind_Ok by (unfold lift; rewrite (arr_get_Ok _ _ g) by (rewrite ?Nat2Z.id; (done || lia)); reflexivity).
    erewrite M_bind_Ok by exact Hrun1. by replace (Z.of_nat i + 1) with (Z.of_nat (S i)) by lia.
  - rewrite Hz1 in Hw'. destruct Hw' as (? & ? & Hx), Hw1 as (? & ? & Hx1).
    split; [congruence|]. split; [congruence|]. intros x Hx'. rewrite Hx, Hx1 by lia. done.
  - intros j a Ha. destruct (gdt1 !! j) as [b|] eqn:Hb.
    + destruct (Hsame j b Hb) as (a' & Ha' & ?). rewrite Ha in Ha'. injection Ha' as <-. apply (desc_saved_same _ _ b); [done | by apply Hsv].
    + apply lookup_ge_None in Hb. apply lookup_lt_Some in Ha. unfold zlen in Hz1. lia.
Qed.

(** ** The whole of [op_destory] *)

Lemma saved_all d gdt off : (∀ j g, gdt !! j = Some g → desc_saved d (off + 64 * Z.of_nat j) g) →
  ∃ gdt0, map EXT4_GDT_SET_CLEAN gdt0 = map EXT4_GDT_SET_CLEAN gdt ∧ Forall struct_ok gdt0 ∧
    holds d off (concat (map bytes_of gdt0)).
Proof.
  revert off. induction gdt as [|g gdt IH]; intros off Hs; [by exists []|].
  destruct (Hs 0%nat g eq_refl) as (g0 & Hg0 & Hc & Hh). rewrite Z.mul_0_r, Z.add_0_r in Hh.
  destruct (IH (off + 64)) as (gdt0 & Hm & Hst & Hh').
  { intros j a Ha. replace (off + 64 + 64 * Z.of_nat j) with (off + 64 * Z.of_nat (S j)) by lia. by apply Hs. }
  exists (g0 :: gdt0). split; [cbn [map]; congruence|]. split; [by constructor|]. cbn [map concat]. apply holds_app.
  split; [done|]. rewrite (zlen_bytes_of g0 Hg0). exact Hh'.
Qed.

Lemma clean_same_areas gdt gdt' : map EXT4_GDT_SET_CLEAN gdt' = map EXT4_GDT_SET_CLEAN gdt → Forall2 same_areas gdt gdt'.
Proof.
  revert gdt'. induction gdt as [|g gdt IH]; intros [|g' gdt'] E; try done; constructor; cbn [map] in E.
  - apply (f_equal head) in E. cbn [head] in E. apply (inj Some) in E.
    split_and!; [apply (f_equal EXT4_DESC_INO_BITMAP) in E | apply (f_equal EXT4_DESC_BLOCK_BITMAP) in E
      | apply (f_equal EXT4_DESC_INODE_TABLE) in E]; exact E.
  - apply IH. by apply (f_equal tail) in E.
Qed.

(** The state with another image whose inode tables are the same. *)
Lemma frame_views s d' : mounted s → icache_ok s → disk_fd d' = disk_fd (fs_disk s) → disk_len d' = disk_len (fs_disk s) →
  disk_bytes_ok d' → (∀ x, ¬ outside_tables s x 1 → disk_bytes d' !! x = disk_bytes (fs_disk s) !! x) →
  mounted (set_fs_disk d' s) ∧ icache_ok (set_fs_disk d' s) ∧
  ∀ j, inode_in (fs_sb s) j → inode_view (set_fs_disk d' s) j = inode_view s j.
Proof.
  intros Hm Hok Hfd Hlen Hb Hx. destruct (tables_frame s d' Hm Hfd Hlen Hb Hx) as [Hm' Hd].
  assert (icache_ok (set_fs_disk d' s)) as Hok'.
  { destruct Hok as [? ? Honce Hent Hcl]. split; try done. intros j k e Hc Hdirty.
    rewrite Hd by by eapply (Hent j). by eapply Hcl. }
  split; [done|]. split; [done|]. intros j Hj.
  destruct (icache_find_ok s j Hok) as [(k & e & _ & Hc)|[_ Hn]].
  - rewrite (view_cached s j k e Hok Hc). by apply (view_cached _ j k).
  - rewrite !view_uncached by done. by apply Hd.
Qed.

(** A table is apart from the super block, the descriptors and the bitmaps. *)
Section apart.
Context (s : fs) (Hst : steady s).

Lemma steady_mounted : mounted s.
Proof. apply layout_mounted; apply Hst. Qed.

Lemma in_table x : ¬ outside_tables s x 1 →
  ∃ i g, fs_gdt s !! i = Some g ∧ table_off (fs_sb s) g ≤ x < table_off (fs_sb s) g + table_size (fs_sb s) ∧
    gdt_end (fs_sb s) (fs_gdt s) ≤ table_off (fs_sb s) g.
Proof.
  intros Hx. unfold outside_tables in Hx. apply not_Forall_Exists in Hx; [|intros g; apply _].
  apply Exists_exists in Hx as (g & [i Hi]%list_elem_of_lookup & Hx). exists i, g. split; [done|]. cbn in Hx. split; [lia|].
  apply (lo_inside _ _ _ (ru_layout _ Hst) (InodeTable i) _ (table_size (fs_sb s))). cbn. by rewrite Hi.
Qed.

Lemma table_outside_bits x : ¬ outside_tables s x 1 → outside_bits s x.
Proof.
  intros (i & g & Hi & Hx & _)%in_table a b Hb. destruct (mem_ok s Hst a b Hb) as (Ha & _).
  assert (a ≠ InodeTable i) as Hne by (intros ->; done).
  destruct (lo_apart _ _ _ (ru_layout _ Hst) a (InodeTable i) (bg_off b) (zlen (bg_bitmap b)) (table_off (fs_sb s) g) (table_size (fs_sb s)));
    [done | cbn; by rewrite Hi | done | lia | lia].
Qed.

Lemma bits_outside_tables a b x : mem_group s a = Some b → bg_off b ≤ x < bg_off b + zlen (bg_bitmap b) → outside_tables s x 1.
Proof.
  intros Hb Hx. destruct (decide (outside_tables s x 1)) as [|Hn]; [done|].
  destruct (table_outside_bits x Hn a b Hb); lia.
Qed.

Lemma head_outside_tables x : x < gdt_end (fs_sb s) (fs_gdt s) → outside_tables s x 1.
Proof.
  intros Hx. destruct (decide (outside_tables s x 1)) as [|Hn]; [done|]. apply in_table in Hn as (i & g & _ & ? & ?). lia.
Qed.
End apart.

Lemma set_disk_self s : set_fs_disk (fs_disk s) s = s.
Proof. by destruct s. Qed.

(** The image after the bitmaps and the inodes: [d] was the image before. *)
Record flushed (s : fs) (d : disk_t) (d' : disk_t) : Prop := mk_flushed {
  fd_ready : disk_ready d';
  fd_fd : disk_fd d' = disk_fd d;
  fd_len : disk_len d' = disk_len d;
  fd_bits : ∀ a g, mem_group s a = Some g → holds d' (bg_off g) (bg_bitmap g);
  fd_inodes : ∀ j, inode_in (fs_sb s) j → inode_on_disk (set_fs_disk d' s) j = inode_view s j;
  fd_head : ∀ x, x < gdt_end (fs_sb s) (fs_gdt s) → disk_bytes d' !! x = disk_bytes d !! x;
  fd_data : ∀ x, outside_bits s x → outside_tables s x 1 → disk_bytes d' !! x = disk_bytes d !! x
}.

Lemma flush_two s : steady s →
  ∃ d1 s2, flush_bitmaps 0 (Z.to_nat (bm_group_num (fs_i_bitmap s))) s = Ok (tt, set_fs_disk d1 s) ∧
    flush_inodes 0 (Z.to_nat (icache_count (fs_icache s))) (set_fs_disk d1 s) = Ok (tt, s2) ∧
    fs_sb s2 = fs_sb s ∧ fs_gdt s2 = fs_gdt s ∧ flushed s (fs_disk s) (fs_disk s2).
Proof.
  intros Hst. pose proof (steady_mounted s Hst) as Hm. pose proof (ru_icache s Hst) as Hok.
  assert (flushing s (fs_disk s)) as Hfl by (split; [apply Hst | done | done | apply (ru_synced s Hst)]).
  destruct (N_GROUPS_small _ (lo_geo _ _ _ (ru_layout s Hst))) as [HG _].
  destruct (flush_bitmaps_run s Hst (Z.to_nat (bm_group_num (fs_i_bitmap s))) 0 (fs_disk s) Hfl)
    as (d1 & Hr1 & [Hd1 Hfd1 Hl1 _] & Hx1 & Hh1); [rewrite (ru_num s Hst); lia|]. rewrite set_disk_self in Hr1.
  destruct (frame_views s d1 Hm Hok Hfd1 Hl1) as (Hm1 & Hok1 & Hv1); [apply Hd1 | intros x Hx; apply Hx1; by apply table_outside_bits|].
  destruct (flush_inodes_all (set_fs_disk d1 s) Hm1 Hok1) as (s2 & Hr2 & Hm2 & Hrest & Hd2).
  destruct Hrest as (Esb & Egdt & _ & _ & _ & _ & _ & _ & _ & Hsd). cbn [set_fs_disk fs_sb fs_gdt] in Esb, Egdt.
  destruct Hsd as (Hfd2 & Hl2 & Hx2). cbn [set_fs_disk fs_disk] in Hfd2, Hl2, Hx2.
  exists d1, s2. split; [done|]. split; [done|]. split; [done|]. split; [done|]. split.
  - split; [rewrite Hfd2, Hfd1; apply Hst | rewrite Hl2, Hl1; apply (lo_len _ _ _ (ru_layout s Hst)) | apply Hm2].
  - congruence.
  - congruence.
  - intros a g Hg. pose proof (Hh1 a g Hg (or_introl (Nat.le_0_l _))) as Hh. rewrite holds_lookup in *. intros i b Hb.
    rewrite Hx2; [by apply Hh|]. apply (bits_outside_tables s Hst a g); [done|]. apply lookup_lt_Some in Hb. unfold zlen. lia.
  - intros j Hj. rewrite <- Hv1, <- Hd2 by done. unfold inode_on_disk. cbn [set_fs_disk fs_sb fs_gdt fs_disk]. by rewrite Esb, Egdt.
  - intros x Hx. rewrite Hx2 by by apply (head_outside_tables s Hst). apply Hx1. intros a g Hg.
    destruct (mem_ok s Hst a g Hg) as (Ha & _). destruct (lo_inside _ _ _ (ru_layout s Hst) _ _ _ Ha). lia.
  - intros x Ho Ht. rewrite Hx2 by done. by apply Hx1.
Qed.

(** The descriptors and the super block are written below the areas. *)
Lemma flush_rest s s2 : steady s → fs_sb s2 = fs_sb s → fs_gdt s2 = fs_gdt s → flushed s (fs_disk s) (fs_disk s2) →
  ∃ d3 gdt' d4 gdt0, flush_gdt (gdt_off (fs_sb s2)) 0 (Z.to_nat (EXT4_N_BLOCK_GROUPS (fs_sb s2))) s2 =
      Ok (tt, set_fs_disk d3 (set_fs_gdt gdt' s2)) ∧
    disk_write d3 BOOT_SECTOR_SIZE (bytes_of (fs_sb s2)) = Ok d4 ∧
    image_ok d4 (fs_sb s) gdt0 ∧ map EXT4_GDT_SET_CLEAN gdt0 = map EXT4_GDT_SET_CLEAN (fs_gdt s) ∧
    disk_fd d4 = disk_fd (fs_disk s) ∧ disk_len d4 = disk_len (fs_disk s) ∧
    ∀ x, gdt_end (fs_sb s) (fs_gdt s) ≤ x → disk_bytes d4 !! x = disk_bytes (fs_disk s2) !! x.
Proof.
  intros Hst Esb Egdt [Hr Hfd Hl Hbits Hin Hhead _]. pose proof (ru_layout s Hst) as Hlo.
  pose proof Hlo as [_ Hcnt Hds _ _ Hsup Hend _ _]. unfold gdt_end in *. change (sizeof ext4_group_desc) with 64 in *.
  change BOOT_SECTOR_SIZE with 1024 in *. change (sizeof ext4_super_block) with 1024 in *. pose proof MAX_RW_COUNT_eq.
  pose proof (zlen_bytes_of _ (ru_sb s Hst)) as Hz. change (sizeof ext4_super_block) with 1024 in Hz.
  destruct (flush_gdt_run (length (fs_gdt s)) 0 s2 (gdt_off (fs_sb s))) as (d3 & gdt' & Hr3 & Hd3 & Hw3 & _ & Hsv3);
    rewrite ?Egdt, ?Esb; try done; try (rewrite ?Hl; lia); [apply Hst | |].
  { intros j g Hj [Hd|Hlt]; [|lia]. destruct (sy_gdt s (ru_synced s Hst) j g Hj Hd) as (g0 & Hg0 & Hc & Hh).
    exists g0. split; [done|]. split; [done|]. change (sizeof ext4_group_desc) with 64 in Hh. rewrite holds_lookup in *. intros i b Hb.
    rewrite Hhead; [by apply Hh|]. apply lookup_lt_Some in Hb. pose proof (zlen_bytes_of g0 Hg0) as Hzg.
    change (sizeof ext4_group_desc) with 64 in Hzg. unfold zlen in Hzg. apply lookup_lt_Some in Hj. unfold zlen. lia. }
  pose proof Hw3 as (Hfd3 & Hl3 & Hx3). rewrite Egdt in Hx3.
  destruct (disk_write_run d3 1024 (bytes_of (fs_sb s))) as (d4 & Hw4 & Hd4 & Hwr4 & Hh4); [done | lia | pose proof (zlen_nonneg (fs_gdt s)); lia | lia | apply bytes_of_bytes_ok |].
  pose proof Hwr4 as (Hfd4 & Hl4 & Hx4).
  destruct (saved_all d4 (fs_gdt s) (gdt_off (fs_sb s))) as (gdt0 & Hmap & Hst0 & Hh0).
  { intros j g Hj. rewrite Egdt in Hsv3. destruct (Hsv3 j g Hj) as (g0 & Hg0 & Hc & Hh). exists g0. split; [done|]. split; [done|].
    eapply wrote_holds; [exact Hwr4 | | exact Hh]. lia. }
  exists d3, gdt', d4, gdt0. split; [rewrite <- Hcnt; unfold zlen; by rewrite Nat2Z.id|]. split; [done|].
  split; [|split; [done|]; split; [congruence|]; split; [congruence|]].
  - split; [exact Hd4 | | apply Hst | exact Hst0 | exact Hh4 | exact Hh0]. rewrite Hl4, Hl3, Hl. apply (layout_same _ (fs_gdt s)); [by apply clean_same_areas | done].
  - intros x Hx. rewrite Hx4, Hx3 by (pose proof (zlen_nonneg (fs_gdt s)); lia). done.
Qed.

Lemma unmount_run s tr : steady s → decache_ok (fs_decache s) tr →
  ∃ s1 gdt0, op_destory s = Ok (tt, s1) ∧ image_ok (fs_disk s1) (fs_sb s) gdt0 ∧
    map EXT4_GDT_SET_CLEAN gdt0 = map EXT4_GDT_SET_CLEAN (fs_gdt s) ∧
    (∀ a g, mem_group s a = Some g → holds (fs_disk s1) (bg_off g) (bg_bitmap g)) ∧
    (∀ j, inode_in (fs_sb s) j → inode_on_disk (set_fs_disk (fs_disk s1) s) j = inode_view s j) ∧
    ∀ x, gdt_end (fs_sb s) (fs_gdt s) ≤ x → outside_bits s x → outside_tables s x 1 →
      disk_bytes (fs_disk s1) !! x = disk_bytes (fs_disk s) !! x.
Proof.
  intros Hst0 Hdc. set (s0 := set_fs_decache (mk_decache ∅ (dh_fresh (fs_decache s)) (dh_root (fs_decache s))) s).
  assert (steady s0) as Hst.
  { destruct Hst0 as [? ? ? ? [] ? ? ? []]. split; try assumption; split; assumption. }
  destruct (flush_two s0 Hst) as (d1 & s2 & Hr1 & Hr2 & Esb & Egdt & Hfl).
  destruct (flush_rest s0 s2 Hst Esb Egdt Hfl) as (d3 & gdt' & d4 & gdt0 & Hr3 & Hw4 & Him & Hmap & Hfd4 & Hl4 & Hx4).
  destruct Hfl as [Hr Hfd Hl Hbits Hin _ Hdata].
  exists (set_fs_disk d4 (set_fs_gdt gdt' s2)), gdt0. split; [|split; [exact Him | split; [exact Hmap | split_and!]]].
  - unfold op_destory. erewrite M_bind_Ok by (unfold k_decache_free_root; rewrite (decache_free_all _ _ Hdc); reflexivity).
    erewrite M_bind_Ok by reflexivity. erewrite M_bind_Ok by exact Hr1. erewrite M_bind_Ok by reflexivity.
    erewrite M_bind_Ok by exact Hr2. erewrite M_bind_Ok by reflexivity. erewrite M_bind_Ok by exact Hr3.
    erewrite M_bind_Ok by reflexivity. unfold k_disk_write. cbn [set_fs_disk set_fs_gdt fs_disk fs_sb]. by rewrite Hw4.
  - intros a g Hg. pose proof (Hbits a g Hg) as Hh. cbn [set_fs_disk fs_disk]. rewrite holds_lookup in *. intros i b Hb.
    destruct (mem_ok s0 Hst a g Hg) as (Ha & _). destruct (lo_inside _ _ _ (ru_layout s0 Hst) _ _ _ Ha).
    rewrite Hx4; [by apply Hh | lia].
  - intros j Hj. change (inode_view s j) with (inode_view s0 j). rewrite <- (Hin j Hj).
    change (inode_on_disk (set_fs_disk d4 s0) j = inode_on_disk (set_fs_disk (fs_disk s2) s0) j).
    assert (mounted (set_fs_disk (fs_disk s2) s0)) as Hm2.
    { apply layout_mounted; [|exact Hr]. cbn [set_fs_disk fs_sb fs_gdt fs_disk]. rewrite Hl. apply Hst. }
    apply (tables_frame (set_fs_disk (fs_disk s2) s0) d4 Hm2); [cbn; congruence | cbn; congruence | apply Him | | done].
    intros x Hx. cbn [set_fs_disk fs_disk]. apply Hx4. apply (in_table s0 Hst) in Hx as (i & g & _ & ? & ?). lia.
  - intros x Hx Ho Ht. cbn [set_fs_disk fs_disk]. rewrite Hx4 by exact Hx. by apply Hdata.
Qed.

(** ** The next mount *)

Lemma remounted_ok now sb : struct_ok sb → struct_ok (remounted now sb).
Proof.
  intros [_ H]. unfold remounted. set (v := u16 _). set (w := u32 now).
  assert (in_width 2 v) by apply u16_width. assert (in_width 4 w) by apply u32_width. clearbody v w.
  split; [exact I|]. destruct sb. cbn in H |- *.
  repeat apply Forall2_cons in H as [? H]. repeat (apply Forall2_cons; split); assumption || constructor.
Qed.

Lemma holds_desc d (gdt : list ext4_group_desc) off j g : Forall struct_ok gdt → holds d off (concat (map bytes_of gdt)) → gdt !! j = Some g →
  holds d (off + 64 * Z.of_nat j) (bytes_of g).
Proof.
  revert off j. induction gdt as [|g0 gdt IH]; intros off j Hs Hh Hj; [done|]. apply Forall_cons in Hs as [Hg0 Hs].
  cbn [map concat] in Hh. apply holds_app in Hh as [Hh Hh']. destruct j as [|j].
  - apply (inj Some) in Hj. subst g0. by rewrite Z.mul_0_r, Z.add_0_r.
  - rewrite (zlen_bytes_of g0 Hg0) in Hh'. change (sizeof ext4_group_desc) with 64 in Hh'.
    replace (off + 64 * Z.of_nat (S j)) with (off + 64 + 64 * Z.of_nat j) by lia. apply IH; [exact Hs | exact Hh' | exact Hj].
Qed.

Lemma group_of_disk_ok sb d blk per : 0 ≤ per →
  zlen (bg_bitmap (group_of_disk sb d blk per)) = per / 8 ∧
  holds d (bg_off (group_of_disk sb d blk per)) (bg_bitmap (group_of_disk sb d blk per)).
Proof.
  intros Hper. cbn. unfold zlen, holds. rewrite length_read_bytes. split; [dlia | done].
Qed.

(** A new mount is a state that can be unmounted. *)
Lemma mount_steady d sb gdt capable cntx now buf : image_ok d sb gdt → steady (mount_state d sb gdt capable cntx now buf).
Proof.
  intros Him. set (s := mount_state _ _ _ _ _ _ _). pose proof (mount_layout d sb gdt Him capable cntx now buf) as Hlo.
  destruct (mount_ok d sb gdt Him capable cntx now buf) as (_ & Hic & _ & _ & Hib & Hdb). fold s in Hlo, Hic, Hib, Hdb.
  destruct Him as [Hr Hlo0 Hsb Hgdt Hhs Hhg]. pose proof (lo_geo _ _ _ Hlo) as (?&?&?&?&?&?&?).
  assert (∀ a g, mem_group s a = Some g → area_at (fs_sb s) (fs_gdt s) a = Some (bg_off g, zlen (bg_bitmap g)) ∧ holds d (bg_off g) (bg_bitmap g)) as Hmem.
  { intros a g Hg. destruct a as [i|i|i]; [| |done]; cbn [mem_group] in Hg; cbn [area_at];
      change (fs_i_bitmap s) with (bitmap_of_disk (fs_sb s) d EXT4_DESC_INO_BITMAP (EXT4_INODES_PER_GROUP (fs_sb s)) (fs_gdt s)) in Hg;
      change (fs_d_bitmap s) with (bitmap_of_disk (fs_sb s) d EXT4_DESC_BLOCK_BITMAP (EXT4_BLOCKS_PER_GROUP (fs_sb s)) (fs_gdt s)) in Hg;
      cbn [bitmap_of_disk bm_group] in Hg; rewrite list_lookup_fmap in Hg;
      (destruct (fs_gdt s !! i) as [desc|]; [|done]); apply (inj Some) in Hg; subst g;
      [destruct (group_of_disk_ok (fs_sb s) d (EXT4_DESC_INO_BITMAP desc) (EXT4_INODES_PER_GROUP (fs_sb s))) as [Hz Hh]
      |destruct (group_of_disk_ok (fs_sb s) d (EXT4_DESC_BLOCK_BITMAP desc) (EXT4_BLOCKS_PER_GROUP (fs_sb s))) as [Hz Hh]]; try lia;
      rewrite Hz; (split; [reflexivity | exact Hh]). }
  split; [exact Hr | exact Hlo | by apply remounted_ok | | exact Hic | exact Hib | exact Hdb | apply (lo_count _ _ _ Hlo) |].
  - apply Forall_map. eapply Forall_impl; [exact Hgdt|]. apply clean_ok.
  - split; [intros a g Hg; by apply Hmem | intros a g Hg _; by apply (Hmem a)|].
    intros i g Hg _. unfold s, mount_state in Hg. cbn [fs_gdt] in Hg. rewrite list_lookup_fmap in Hg.
    destruct (gdt !! i) as [g0|] eqn:Hg0; [|done]. apply (inj Some) in Hg. subst g. exists g0.
    split; [by eapply Forall_lookup_1|]. split; [by rewrite clean_clean|].
    change (sizeof ext4_group_desc) with 64. by apply (holds_desc d gdt).
Qed.

Lemma bits_same (b b' : bitmap) per n : map bg_bitmap (bm_group b') = map bg_bitmap (bm_group b) → bitmap_bit b' per n = bitmap_bit b per n.
Proof.
  intros E. unfold bitmap_bit. apply (f_equal (.!! Z.to_nat (n / per))) in E. rewrite !list_lookup_fmap in E.
  destruct (bm_group b' !! _), (bm_group b !! _); cbn in E; try done. by injection E as ->.
Qed.

(** The bitmaps read from an image that holds them. *)
Lemma bitmap_read sb d f per gdt (b : bitmap) : 0 ≤ per → length (bm_group b) = length gdt →
  (∀ i g desc, bm_group b !! i = Some g → gdt !! i = Some desc →
     holds d (BLOCKS2BYTES sb (f desc)) (bg_bitmap g) ∧ zlen (bg_bitmap g) = per / 8) →
  map bg_bitmap (bm_group (bitmap_of_disk sb d f per gdt)) = map bg_bitmap (bm_group b).
Proof.
  intros Hper Hl Hh. apply list_eq. intros i. cbn [bitmap_of_disk bm_group]. rewrite !list_lookup_fmap.
  destruct (gdt !! i) as [desc|] eqn:Hd, (bm_group b !! i) as [g|] eqn:Hg; cbn.
  - destruct (Hh i g desc Hg Hd) as [H Hz]. f_equal. unfold holds in H. rewrite <- H. f_equal. unfold zlen in Hz. lia.
  - apply lookup_lt_Some in Hd. apply lookup_ge_None in Hg. lia.
  - apply lookup_lt_Some in Hg. apply lookup_ge_None in Hd. lia.
  - done.
Qed.

Lemma offset_clean now sb gdt j :
  inode_get_offset (remounted now sb) (map EXT4_GDT_SET_CLEAN gdt) j = inode_get_offset sb gdt j.
Proof.
  unfold inode_get_offset. change (EXT4_INODES_PER_GROUP (remounted now sb)) with (EXT4_INODES_PER_GROUP sb).
  change (EXT4_N_BLOCK_GROUPS (remounted now sb)) with (EXT4_N_BLOCK_GROUPS sb). unfold arr_get. rewrite list_lookup_fmap.
  destruct (ASSERT _) as [[]|]; [|done]. cbn [obind]. destruct (ASSERT _) as [[]|]; [|done]. cbn [obind].
  destruct (_ <? 0); [done|]. by destruct (gdt !! _).
Qed.

(** ** Properties *)

(** C2: Unmounting and mounting again keeps the file system: from a state in
    which whatever is not marked dirty is on the image, [op_destory] succeeds
    and [op_init] on the image it leaves succeeds.  The new state can be
    unmounted in turn, shows every inode as the old one did, has the same
    inodes and blocks in use, the same descriptors (marked clean) and the
    super block with the mount count and time of the new mount; the data
    outside the metadata is unchanged. *)
Theorem remount_roundtrip (s : fs) (tr : tree) (capable : Z) (cntx : option fuse_context) (now : Z) (buf : list Z)
    (Hst : steady s) (Hdc : decache_ok (fs_decache s) tr) :
  ∃ s1 s2, op_destory s = Ok (tt, s1) ∧ op_init (fs_disk s1) capable cntx now buf = Ok s2 ∧
    steady s2 ∧ decache_ok (fs_decache s2) {[ 1%positive := [] ]} ∧
    fs_sb s2 = remounted now (fs_sb s) ∧ fs_gdt s2 = map EXT4_GDT_SET_CLEAN (fs_gdt s) ∧
    (∀ ino, inode_in (fs_sb s) ino → inode_view s2 ino = inode_view s ino) ∧
    (∀ ino, inode_used (fs_sb s2) (fs_i_bitmap s2) ino = inode_used (fs_sb s) (fs_i_bitmap s) ino) ∧
    (∀ blk, block_used (fs_sb s2) (fs_d_bitmap s2) blk = block_used (fs_sb s) (fs_d_bitmap s) blk) ∧
    ∀ x, gdt_end (fs_sb s) (fs_gdt s) ≤ x → outside_bits s x → outside_tables s x 1 →
      disk_bytes (fs_disk s2) !! x = disk_bytes (fs_disk s) !! x.
Proof.
  destruct (unmount_run s tr Hst Hdc) as (s1 & gdt0 & Hrun & Him & Hmap & Hbits & Hin & Hdata).
  set (s2 := mount_state (fs_disk s1) (fs_sb s) gdt0 capable cntx now buf). pose proof (ru_layout s Hst) as Hlo.
  destruct (mount_ok _ _ _ Him capable cntx now buf) as (_ & Hic & _ & Hdc2 & _). fold s2 in Hic, Hdc2.
  assert (fs_gdt s2 = map EXT4_GDT_SET_CLEAN (fs_gdt s)) as Hg2 by exact Hmap.
  pose proof (lo_geo _ _ _ Hlo) as (?&?&?&?&?&?&?). pose proof (lo_count _ _ _ Hlo) as Hcnt.
  assert (0 ≤ EXT4_INODES_PER_GROUP (fs_sb s) ∧ 0 ≤ EXT4_BLOCKS_PER_GROUP (fs_sb s)) as [Hi0 Hb0] by lia.
  assert (∀ a i g desc, mem_group s a = Some g → fs_gdt s2 !! i = Some desc → ∃ desc0, fs_gdt s !! i = Some desc0 ∧ same_areas desc0 desc) as Hdesc.
  { intros a i g desc _ Hd. rewrite Hg2, list_lookup_fmap in Hd. destruct (fs_gdt s !! i) as [d0|]; [|done].
    apply (inj Some) in Hd. subst desc. by exists d0. }
  exists s1, s2. split; [exact Hrun|]. split; [exact (mount_run _ _ _ Him capable cntx now buf)|].
  split; [by apply mount_steady|]. split; [exact Hdc2|]. split; [reflexivity|]. split; [exact Hg2|]. split_and!.
  - intros ino Hino. rewrite <- (Hin ino Hino). rewrite view_uncached; [|exact Hic | intros k e (_ & Hk & _); cbn in Hk; lia].
    unfold inode_on_disk. rewrite Hg2. change (fs_sb s2) with (remounted now (fs_sb s)). rewrite offset_clean. done.
  - intros ino. apply bits_same, bitmap_read; [exact Hi0 | |].
    { destruct (ru_ibits s Hst) as [Hz _]. apply (f_equal length) in Hg2. rewrite length_map in Hg2.
      change (map EXT4_GDT_SET_CLEAN gdt0) with (fs_gdt s2). unfold zlen in *. lia. }
    intros i g desc Hg Hd. destruct (Hdesc (InodeBits i) i g desc Hg Hd) as (d0 & Hd0 & E & _).
    pose proof (Hbits (InodeBits i) g Hg) as Hh. destruct (mem_ok s Hst (InodeBits i) g Hg) as (Ha & _). cbn in Ha. rewrite Hd0 in Ha.
    apply some_pair_inv in Ha as [Eo Ez]. rewrite Eo in Hh. split; [|exact Ez]. rewrite E. exact Hh.
  - intros blk. apply bits_same, bitmap_read; [exact Hb0 | |].
    { destruct (ru_dbits s Hst) as [Hz _]. apply (f_equal length) in Hg2. rewrite length_map in Hg2.
      change (map EXT4_GDT_SET_CLEAN gdt0) with (fs_gdt s2). unfold zlen in *. lia. }
    intros i g desc Hg Hd. destruct (Hdesc (BlockBits i) i g desc Hg Hd) as (d0 & Hd0 & _ & E & _).
    pose proof (Hbits (BlockBits i) g Hg) as Hh. destruct (mem_ok s Hst (BlockBits i) g Hg) as (Ha & _). cbn in Ha. rewrite Hd0 in Ha.
    apply some_pair_inv in Ha as [Eo Ez]. rewrite Eo in Hh. split; [|exact Ez]. rewrite E. exact Hh.
  - exact Hdata.
Qed.

(** The smallest image, made and mounted. *)
Lemma test_mounted : ∃ d, image_ok d (mkfs_super (mkfs_geometry (512 * 1024))) (mkfs_gdt (mkfs_geometry (512 * 1024))).
Proof.
  assert (img_ok (512 * 1024)) as Himg by (split; [split|]; vm_compute; (discriminate || reflexivity)).
  assert (mkfs_used (mkfs_geometry (512 * 1024)) ≤ 4096) as Hused by (vm_compute; discriminate).
  destruct (fill_run _ Himg test_min_disk 1000 0 0 test_min_ready) as (d & _ & Hr & Hl & Hmade); [vm_compute; discriminate | exact Hused|].
  exists d. apply (made_image_ok _ Himg Hused eq_refl d 1000 0 0 Hr); [|exact Hmade]. rewrite Hl. vm_compute. discriminate.
Qed.

Lemma remount_roundtrip_witness : ∃ s s1 s2, fs_now s = 2000 ∧ op_destory s = Ok (tt, s1) ∧ op_init (fs_disk s1) 0 None 3000 [] = Ok s2 ∧
  steady s2 ∧ inode_view s2 2 = inode_view s 2.
Proof.
  destruct test_mounted as (d & Him). set (g := mkfs_geometry (512 * 1024)) in Him.
  set (s := mount_state d (mkfs_super g) (mkfs_gdt g) 0 None 2000 []). exists s.
  destruct (mount_ok _ _ _ Him 0 None 2000 []) as (_ & _ & _ & Hdc & _).
  destruct (remount_roundtrip s {[ 1%positive := [] ]} 0 None 3000 []) as (s1 & s2 & H1 & H2 & H3 & _ & _ & _ & Hv & _);
    [exact (mount_steady _ _ _ 0 None 2000 [] Him) | exact Hdc |].
  exists s1, s2. split; [reflexivity|]. split; [exact H1|]. split; [exact H2|]. split; [exact H3|].
  apply Hv. unfold inode_in. change (fs_sb s) with (remounted 2000 (mkfs_super g)).
  destruct (remounted_facts 2000 (mkfs_super g)) as (-> & _ & -> & _). split; vm_compute; discriminate.
Defined.
