(* ===== verification/Ctl.v ===== *)
(** * The control interface

    [src/src/ctl.c] and [sb_status] of [src/src/op_init.c]: the requests of
    [kfsctl] (status, log, add a version of a file, restore one).  The
    versions are kept compressed in inodes of their own, listed in the file
    [/.kfsctl]: a [CacheHeader] of 12 bytes and [CacheEntry]s of 464 bytes
    (name, number of versions, ten inode numbers, ten time stamps).

    zlib ([compress], [uncompress]) and the formatting of dates are
    parameters; so are the bytes of memory that [malloc], [realloc] and the
    stack provide without initialising them ([junk]) and the nanoseconds of
    the clock.  The socket loop of [ctl_init] is the function that serves one
    request. *)

From S2P Require Import Prelude Ext4 Disk Bitmap InodeMap Decache Fs Cache Dentry InodePath.
From S2P Require Import OpsAttr OpsName OpsData Mkfs.
From stdpp Require Import base numbers list gmap strings.
From Stdlib Require Import ZArith Lia.

Open Scope Z_scope.
Open Scope kfs_scope.

(** ** Data *)

Inductive kfs_cmd : Set := CMD_STATUS | CMD_LOG | CMD_ADD | CMD_RESTORE | CMD_OTHER (n : Z).

Record Request := mk_request { req_cmd : kfs_cmd; req_filename : list Z; req_data : Z }.

(** [msg] is the string written into the 1024 bytes of the response. *)
Record Response := mk_response { resp_need_print : Z; resp_msg : list Z }.

Definition BUFFER_SIZE : Z := 128.
Definition MAX_ENTRIES : Z := 10.
Definition HEADER_SIZE : Z := 12.
Definition ENTRY_SIZE : Z := 464.

(** Offsets of the members of [struct CacheEntry]. *)
Definition OFF_COUNT : Z := 256.
Definition OFF_INODE_IDX : Z := 260.
Definition OFF_TIMESTAMP : Z := 304.

(** ** Printing *)

Fixpoint print_dec_loop (fuel : nat) (n : Z) (acc : list Z) : list Z :=
  match fuel with
  | O => acc
  | S fuel =>
    let acc := (48 + n mod 10) :: acc in
    if n / 10 =? 0 then acc else print_dec_loop fuel (n / 10) acc
  end.

(** [%lu], [%u]: at most 20 digits. *)
Definition print_u (n : Z) : list Z := print_dec_loop 20 n [].

(** [%i]. *)
Definition print_i (n : Z) : list Z :=
  let n := s32 n in if n <? 0 then 45 :: print_u (- n) else print_u n.

(** [%2d] of a number that is not negative. *)
Definition print_2d (n : Z) : list Z := if n <? 10 then 32 :: print_u n else print_u n.

(** [buf_cnt += sprintf(resp->msg + buf_cnt, ...)]: with the NUL it must fit
    1024 bytes. *)
Definition sprintf (msg s : list Z) : outcome (list Z) :=
  if 1024 <=? zlen msg + zlen s then Fault Undefined else Ok (msg ++ s).

Definition NL : list Z := [10].
Definition TAB : list Z := [9].

Definition sb_status (sb : ext4_super_block) : outcome (list Z) :=
  m ← sprintf [] (cstr "  BLOCK SIZE:" ++ TAB ++ TAB ++ cstr " " ++ print_u (EXT4_BLOCK_SIZE sb) ++ NL);
  m ← sprintf m (cstr "  N BLOCK GROUPS:" ++ TAB ++ cstr " " ++ print_u (EXT4_N_BLOCK_GROUPS sb) ++ NL);
  m ← sprintf m (cstr "  INODE SIZE:" ++ TAB ++ TAB ++ cstr " " ++ print_i (EXT4_S_INODE_SIZE sb) ++ NL);
  m ← sprintf m (cstr "  INODES PER GROUP:" ++ TAB ++ cstr " " ++ print_i (EXT4_INODES_PER_GROUP sb) ++ NL);
  sprintf m (cstr "  BLOCKS PER GROUP:" ++ TAB ++ cstr " " ++ print_i (EXT4_BLOCKS_PER_GROUP sb) ++ NL).

Definition ctl_status : K Response :=
  sb ⇐ gets fs_sb;
  m ⇐ lift (sb_status sb);
  '(used_inode_num, free_inode_num) ⇐ reads (λ s, bitmap_inode_count (fs_sb s) (fs_i_bitmap s));
  m ⇐ lift (sprintf m (cstr "  inode[free:total]" ++ TAB ++ cstr " [" ++ print_u used_inode_num ++
        cstr "/" ++ print_u (u64 (free_inode_num + used_inode_num)) ++ cstr "]" ++ NL));
  '(used_pblock_num, free_pblock_num) ⇐ reads (λ s, bitmap_pblock_count (fs_sb s) (fs_d_bitmap s));
  m ⇐ lift (sprintf m (cstr "  pblock[free:total]" ++ TAB ++ cstr " [" ++ print_u used_pblock_num ++
        cstr "/" ++ print_u (u64 (free_pblock_num + used_pblock_num)) ++ cstr "]" ++ NL));
  ret (mk_response 1 m).

(** ** The file of versions *)

(** The string at an offset of a buffer: it must end inside the buffer. *)
Definition buf_cstr (buf : list Z) (off : Z) : outcome (list Z) :=
  bs ← buf_read buf off (zlen buf - off);
  let s := until_nul bs in
  if zlen s =? zlen bs then Fault Undefined else Ok s.

(** [op_read] into an uninitialised buffer of [n] bytes: the return value and
    the buffer. *)
Definition read_buf (junk path : list Z) (n : Z) (fi : option fuse_file_info) : K (Z * list Z) :=
  '(r, bs) ⇐ op_read path n 0 fi;
  ret (r, bs ++ take (Z.to_nat (n - zlen bs)) junk).

Definition hdr_signature (buf : list Z) : outcome Z := buf_load 4 buf 0.
Definition hdr_version (buf : list Z) : outcome Z := buf_load 4 buf 4.
Definition hdr_entries (buf : list Z) : outcome Z := buf_load 4 buf 8.

Definition hdr_valid (buf : list Z) : outcome bool :=
  s ← hdr_signature buf;
  v ← hdr_version buf;
  Ok ((s =? CACHE_SIGNATURE) && (v =? CACHE_VERSION)).

Definition entry_off (i : Z) : Z := HEADER_SIZE + i * ENTRY_SIZE.

(** A first version in entry [i] of the buffer. *)
Definition entry_first (buf : list Z) (i : Z) (cache_path : list Z) (cache_ino sec nsec : Z) :
    outcome (list Z) :=
  let o := entry_off i in
  buf ← buf_write buf o (cache_path ++ [0]);
  buf ← buf_store 4 buf (o + OFF_COUNT) 1;
  buf ← buf_store 4 buf (o + OFF_INODE_IDX) cache_ino;
  buf ← buf_store 8 buf (o + OFF_TIMESTAMP) sec;
  buf_store 8 buf (o + OFF_TIMESTAMP + 8) nsec.

(** The loop of [ctl_add_cache]: [Some (inl e)] is an error return,
    [Some (inr buf)] the version added to the entry of the file. *)
Fixpoint add_version (buf : list Z) (cache_path : list Z) (cache_ino sec nsec : Z) (i : Z) (n : nat) :
    outcome (option (Z + list Z)) :=
  match n with
  | O => Ok None
  | S n =>
    let o := entry_off i in
    name ← buf_cstr buf o;
    if bool_decide (cache_path = name) then
      count ← buf_load 4 buf (o + OFF_COUNT);
      if count <? MAX_ENTRIES then
        buf ← buf_store 4 buf (o + OFF_INODE_IDX + 4 * count) cache_ino;
        buf ← buf_store 8 buf (o + OFF_TIMESTAMP + 16 * count) sec;
        buf ← buf_store 8 buf (o + OFF_TIMESTAMP + 16 * count + 8) nsec;
        buf ← buf_store 4 buf (o + OFF_COUNT) (count + 1);
        Ok (Some (inr buf))
      else Ok (Some (inl (- ENOSPC)))
    else add_version buf cache_path cache_ino sec nsec (i + 1) n
  end.

(** The new contents of [/.kfsctl] from the old one ([old], of which [hdr] is
    the header).  In a file with entries, a new entry does not change the
    number of entries in the header of the buffer. *)
Definition add_cache_buf (junk hdr old : list Z) (cache_path : list Z)
    (cache_ino sec nsec : Z) : outcome (Z + list Z) :=
  entries ← hdr_entries hdr;
  if entries =? 0 then
    buf ← buf_store 4 (hdr ++ take (Z.to_nat ENTRY_SIZE) junk) 8 1;
    buf ← entry_first buf 0 cache_path cache_ino sec nsec;
    Ok (inr buf)
  else
    r ← add_version old cache_path cache_ino sec nsec 0 (Z.to_nat entries);
    match r with
    | Some (inl e) => Ok (inl e)
    | Some (inr buf) => Ok (inr buf)
    | None =>
      buf ← entry_first (old ++ take (Z.to_nat ENTRY_SIZE) junk) entries cache_path cache_ino sec nsec;
      Ok (inr buf)
    end.

Definition ctl_add_cache (junk : list Z) (nsec : Z) (cache_path : list Z) (cache_ino : Z) : K Z :=
  r ⇐ inode_get_by_path KFSCTL_FILENAME;
  match r with
  | inl _ => ret (- ENOENT)
  | inr _ =>
    '(rd, hdr) ⇐ read_buf junk KFSCTL_FILENAME HEADER_SIZE None;
    if rd <? 0 then ret (- EIO)
    else
      valid ⇐ lift (hdr_valid hdr);
      if negb valid then ret (- EINVAL)
      else
        entries ⇐ lift (hdr_entries hdr);
        let cache_size := u64 (HEADER_SIZE + ENTRY_SIZE * entries) in
        '(rd, old) ⇐ (if entries =? 0 then ret (0, [])
                      else read_buf junk KFSCTL_FILENAME cache_size None);
        if rd <? 0 then ret (- EIO)
        else
          now ⇐ gets fs_now;
          b ⇐ lift (add_cache_buf junk hdr old cache_path cache_ino now nsec);
          match b with
          | inl e => ret e
          | inr buf =>
            w ⇐ op_write 0 KFSCTL_FILENAME buf 0 None;
            if w <? 0 then ret (- EIO) else ret 0
          end
  end.

Section zlib.
(** [compress src cap]: the bytes written to a buffer of [cap] bytes, whose
    number is the new [destLen].  [uncompress src cap] likewise. *)
Context (compress uncompress : list Z → Z → list Z).
(** [strftime("%Y-%m-%d %H:%M:%S", localtime(sec))]. *)
Context (time_string : Z → list Z).

Definition ctl_add (junk : list Z) (nsec : Z) (req : Request) : K (Z * Response) :=
  let filename := req_filename req in
  let resp := mk_response 0 [] in
  r ⇐ inode_get_by_path filename;
  match r with
  | inl _ => ret (- ENOENT, resp)
  | inr (i, _) =>
    inode ⇐ get_inode i;
    let inode_size := EXT4_INODE_GET_SIZE inode in
    '(rd, buffer) ⇐ read_buf junk filename inode_size None;
    if rd <? 0 then ret (- EIO, resp)
    else
      let cap := if inode_size <=? BUFFER_SIZE then BUFFER_SIZE else inode_size in
      let compressed := compress buffer cap in
      let compress_size := zlen compressed in
      new_inode_idx ⇐ k_bitmap_inode_find EXT4_ROOT_INO;
      if new_inode_idx =? 0 then ret (- ENOSPC, resp)
      else
        new_inode ⇐ inode_create new_inode_idx 0x124;
        k_bitmap_inode_set new_inode_idx true ;;;
        pblock_idx ⇐ k_bitmap_pblock_find new_inode_idx EXT4_INODE_PBLOCK_NUM;
        inode_init_pblock new_inode pblock_idx ;;;
        upd_inode new_inode (EXT4_INODE_SET_SIZE compress_size) ;;;
        sb ⇐ gets fs_sb;
        k_disk_write (BLOCKS2BYTES sb pblock_idx) compressed ;;;
        e ⇐ ctl_add_cache junk nsec filename new_inode_idx;
        ret (e, resp)
  end.

(** The lines of one entry of the log. *)
Fixpoint log_versions (buf : list Z) (o j : Z) (n : nat) (msg : list Z) : outcome (list Z) :=
  match n with
  | O => Ok msg
  | S n =>
    sec ← buf_load 8 buf (o + OFF_TIMESTAMP + 16 * j);
    msg ← sprintf msg (cstr "  [" ++ print_2d j ++ cstr "] " ++ time_string sec ++ NL);
    log_versions buf o (j + 1) n msg
  end.

Fixpoint log_entries (buf : list Z) (i : Z) (n : nat) (msg : list Z) : outcome (list Z) :=
  match n with
  | O => Ok msg
  | S n =>
    let o := entry_off i in
    name ← buf_cstr buf o;
    msg ← sprintf msg (name ++ NL);
    count ← buf_load 4 buf (o + OFF_COUNT);
    msg ← log_versions buf o 0 (Z.to_nat count) msg;
    log_entries buf (i + 1) n msg
  end.

(** [/.kfsctl] with its entries, or the message of the error. *)
Definition read_entries (junk hdr : list Z) : K (option (list Z)) :=
  entries ⇐ lift (hdr_entries hdr);
  '(rd, buf) ⇐ read_buf junk KFSCTL_FILENAME (u64 (HEADER_SIZE + ENTRY_SIZE * entries)) None;
  ret (if rd <? 0 then None else Some buf).

Definition ctl_log (junk : list Z) : K Response :=
  '(rd, hdr) ⇐ read_buf junk KFSCTL_FILENAME HEADER_SIZE None;
  if rd <? 0 then
    m ⇐ lift (sprintf [] (cstr "fail to read /.kfsctl" ++ NL)); ret (mk_response 1 m)
  else
    valid ⇐ lift (hdr_valid hdr);
    if negb valid then
      m ⇐ lift (sprintf [] (cstr "invalid /.kfsctl signature or version" ++ NL));
      ret (mk_response 1 m)
    else
      entries ⇐ lift (hdr_entries hdr);
      if entries =? 0 then
        m ⇐ lift (sprintf [] (cstr "no entries in /.kfsctl" ++ NL)); ret (mk_response 1 m)
      else
        m ⇐ lift (sprintf [] (print_u entries ++ cstr " entries found" ++ NL));
        buf ⇐ read_entries junk hdr;
        match buf with
        | None => ret (mk_response 1 m)
        | Some buf =>
          entries ⇐ lift (hdr_entries buf);
          m ⇐ lift (log_entries buf 0 (Z.to_nat entries) m);
          ret (mk_response 1 m)
        end.

(** [while (temp_len >= buffer_size)]: the buffer is doubled, but [temp_len],
    the room [uncompress] is told of, is the size it filled before. *)
Fixpoint uncompress_loop (fuel : nat) (src out : list Z) (buffer_size : Z) : outcome (list Z) :=
  match fuel with
  | O => Fault OutOfFuel
  | S fuel =>
    if buffer_size <=? zlen out then
      uncompress_loop fuel src (uncompress src (zlen out)) (u64 (buffer_size * 2))
    else Ok out
  end.

(** 0, -1 or [-EIO]. *)
Definition ctl_restore_cache (junk : list Z) (filename : list Z) (inode_idx : Z) : K Z :=
  r ⇐ inode_get_by_number (u32 inode_idx);
  match r with
  | inl _ => ret (-1)
  | inr i =>
    inode ⇐ get_inode i;
    let inode_size := EXT4_INODE_GET_SIZE inode in
    '(rd, buffer) ⇐ read_buf junk [] inode_size (Some (mk_file_info inode_idx 0));
    if rd <? 0 then ret (- EIO)
    else
      out ⇐ lift (uncompress_loop 64 buffer (uncompress buffer BUFFER_SIZE) BUFFER_SIZE);
      '(st, _) ⇐ op_getattr filename;
      (if st <? 0 then op_create filename (Z.lor 0x1ed S_IFREG) ;;; ret tt else ret tt) ;;;
      op_write 0 filename out 0 None ;;;
      ret 0
  end.

(** The loop of [ctl_restore]: the message, and whether it went to [end]. *)
Fixpoint restore_loop (junk : list Z) (req : Request) (buf : list Z) (i : Z) (n : nat)
    (msg : list Z) : K (list Z) :=
  match n with
  | O => lift (sprintf msg (cstr "file [" ++ req_filename req ++ cstr "] not found" ++ NL))
  | S n =>
    let o := entry_off i in
    name ⇐ lift (buf_cstr buf o);
    if bool_decide (req_filename req = name) then
      count ⇐ lift (buf_load 4 buf (o + OFF_COUNT));
      '(version, m) ⇐
        (if (count <=? req_data req) || (req_data req =? INT_MAX) then
           m ⇐ lift (sprintf msg (cstr "restore to lastest version" ++ NL));
           ret (s32 (count - 1), m)
         else
           m ⇐ lift (sprintf msg (cstr "restore to version " ++ print_i (req_data req) ++ NL));
           ret (req_data req, m));
      ino ⇐ lift (buf_load 4 buf (o + OFF_INODE_IDX + 4 * version));
      e ⇐ ctl_restore_cache junk name ino;
      if e <? 0 then lift (sprintf m (cstr "fail to restore cache" ++ NL)) else ret m
    else restore_loop junk req buf (i + 1) n msg
  end.

Definition ctl_restore (junk : list Z) (req : Request) : K Response :=
  massert (0 <=? req_data req) ;;;
  '(rd, hdr) ⇐ read_buf junk KFSCTL_FILENAME HEADER_SIZE None;
  m ⇐ (if rd <? 0 then lift (sprintf [] (cstr "fail to read /.kfsctl" ++ NL))
       else
         valid ⇐ lift (hdr_valid hdr);
         if negb valid then
           lift (sprintf [] (cstr "invalid /.kfsctl signature or version" ++ NL))
         else
           entries ⇐ lift (hdr_entries hdr);
           if entries =? 0 then lift (sprintf [] (cstr "no entries" ++ NL))
           else
             buf ⇐ read_entries junk hdr;
             match buf with
             | None => ret []
             | Some buf =>
               entries ⇐ lift (hdr_entries buf);
               restore_loop junk req buf 0 (Z.to_nat entries) []
             end);
  ret (mk_response 1 m).

(** One request of the loop of [ctl_init]; [resp0] is the uninitialised
    response an unknown command gets. *)
Definition ctl_serve (junk : list Z) (nsec : Z) (resp0 : Response) (req : Request) : K Response :=
  match req_cmd req with
  | CMD_STATUS => ctl_status
  | CMD_LOG => ctl_log junk
  | CMD_ADD => '(_, resp) ⇐ ctl_add junk nsec req; ret resp
  | CMD_RESTORE => ctl_restore junk req
  | CMD_OTHER _ => ret resp0
  end.
End zlib.
