(* ===== verification/Hashtable.v ===== *)
(** * The hash table

    [src/include/hashtable]: a table of chains.  A chain owns its nodes, and
    a node owns copies of its key and value ([key_size] and [value_size]
    bytes), so a chain is the list of its pairs, first node first.
    Allocation succeeds.  [nodes] is [None] for NULL.

    [ht_map] is the abstract view, a finite map from keys to values; the
    theorems show that the operations are those of the map. *)

From S2P Require Import Prelude.
From stdpp Require Import base numbers list gmap fin_maps.
From Stdlib Require Import ZArith Lia.

Open Scope Z_scope.
Open Scope kfs_scope.

(** ** Data *)

Definition HT_MINIMUM_CAPACITY : Z := 8.
Definition HT_LOAD_FACTOR : Z := 5.
Definition HT_GROWTH_FACTOR : Z := 2.
(** [(1 / 4)], an integer division. *)
Definition HT_SHRINK_THRESHOLD : Z := 1 / 4.
Definition HT_ERROR : Z := -1.
Definition HT_SUCCESS : Z := 0.
Definition HT_UPDATED : Z := 1.
Definition HT_INSERTED : Z := 0.
Definition HT_NOT_FOUND : Z := 0.
Definition HT_FOUND : Z := 1.

Abbreviation bytes := (list Z).
Abbreviation chain := (list (bytes * bytes)).

Record HashTable := mk_hashtable {
  ht_size : Z;
  ht_threshold : Z;
  ht_capacity : Z;
  ht_key_size : Z;
  ht_value_size : Z;
  ht_compare : bytes → bytes → Z → Z;
  ht_hash : bytes → Z → Z;
  ht_nodes : option (list chain)
}.

Definition ht_eta (t : HashTable) : HashTable :=
  mk_hashtable (ht_size t) (ht_threshold t) (ht_capacity t) (ht_key_size t) (ht_value_size t)
    (ht_compare t) (ht_hash t) (ht_nodes t).

Definition set_ht_size (v : Z) (t : HashTable) : HashTable :=
  ltac:(setter (ht_eta t) (ht_size t) v).
Definition set_ht_nodes (v : option (list chain)) (t : HashTable) : HashTable :=
  ltac:(setter (ht_eta t) (ht_nodes t) v).

(** ** Private operations *)

(** [memcmp(first, second, n)]: 0 when the [n] bytes are equal; the sign of a
    difference is not used. *)
Definition ht_default_compare (first_key second_key : bytes) (key_size : Z) : Z :=
  if bool_decide (take (Z.to_nat key_size) first_key = take (Z.to_nat key_size) second_key)
  then 0 else 1.

(** A [char] converted to [size_t]. *)
Definition char_to_size (b : Z) : Z := if b <? 128 then b else u64 (b - 256).

Definition ht_default_hash (key : bytes) (key_size : Z) : Z :=
  foldl (λ hash b, Z.lxor (u64 (u64 (Z.shiftl hash 5) + hash)) (char_to_size b))
    5381 (take (Z.to_nat key_size) key).

Definition ht_index (t : HashTable) (key : bytes) : outcome Z :=
  if ht_capacity t =? 0 then Fault Undefined
  else Ok (ht_hash t key (ht_key_size t) mod ht_capacity t).

Definition ht_equal (t : HashTable) (first_key second_key : bytes) : bool :=
  ht_compare t first_key second_key (ht_key_size t) =? 0.

Definition ht_should_grow (t : HashTable) : outcome bool :=
  ASSERT (ht_size t <=? ht_capacity t) ;; Ok (ht_size t =? ht_capacity t).

Definition ht_should_shrink (t : HashTable) : outcome bool :=
  ASSERT (ht_size t <=? ht_capacity t) ;;
  Ok (ht_size t =? u64 (ht_capacity t * HT_SHRINK_THRESHOLD)).

Definition ht_allocate (t : HashTable) (capacity : Z) : HashTable :=
  mk_hashtable (ht_size t) (u64 (capacity * HT_LOAD_FACTOR)) capacity (ht_key_size t)
    (ht_value_size t) (ht_compare t) (ht_hash t) (Some (replicate (Z.to_nat capacity) [])).

(** The copies [malloc] and [memcpy] make of a key and a value. *)
Definition ht_node (t : HashTable) (key value : bytes) : bytes * bytes :=
  (take (Z.to_nat (ht_key_size t)) key, take (Z.to_nat (ht_value_size t)) value).

Definition ht_push_front (t : HashTable) (index : Z) (kv : bytes * bytes) : outcome HashTable :=
  nodes ← deref (ht_nodes t);
  c ← arr_get nodes index;
  nodes ← arr_set nodes index (kv :: c);
  Ok (set_ht_nodes (Some nodes) t).

(** The chains, [capacity] of them. *)
Definition ht_chains (t : HashTable) : outcome (list chain) :=
  nodes ← deref (ht_nodes t);
  if ht_capacity t <=? zlen nodes then Ok (take (Z.to_nat (ht_capacity t)) nodes)
  else Fault Undefined.

(** The nodes of the old chains, in order, each in front of its new chain. *)
Fixpoint ht_rehash (t : HashTable) (old : list (bytes * bytes)) : outcome HashTable :=
  match old with
  | [] => Ok t
  | kv :: old =>
    i ← ht_index t kv.1;
    t ← ht_push_front t i kv;
    ht_rehash t old
  end.

Definition ht_resize (t : HashTable) (new_capacity : Z) : outcome HashTable :=
  let resize new_capacity :=
    old ← ht_chains t;
    ht_rehash (ht_allocate t new_capacity) (concat old) in
  if new_capacity <? HT_MINIMUM_CAPACITY then
    if HT_MINIMUM_CAPACITY <? ht_capacity t then resize HT_MINIMUM_CAPACITY else Ok t
  else resize new_capacity.

Definition ht_adjust_capacity (t : HashTable) : outcome HashTable :=
  ht_resize t (u64 (ht_size t * HT_GROWTH_FACTOR)).

(** ** Operations *)

Definition ht_is_initialized (t : HashTable) : bool :=
  match ht_nodes t with Some _ => true | None => false end.

Definition ht_setup (t : HashTable) (key_size value_size capacity : Z) : HashTable :=
  let capacity := if capacity <? HT_MINIMUM_CAPACITY then HT_MINIMUM_CAPACITY else capacity in
  let t := ht_allocate t capacity in
  mk_hashtable 0 (ht_threshold t) (ht_capacity t) key_size value_size ht_default_compare
    ht_default_hash (ht_nodes t).

Fixpoint ht_copy_chains (t : HashTable) (index : Z) (chains : list chain) : outcome HashTable :=
  match chains with
  | [] => Ok t
  | c :: chains =>
    t ← (fix go (t : HashTable) (c : chain) : outcome HashTable :=
           match c with
           | [] => Ok t
           | (k, v) :: c => t ← ht_push_front t index (ht_node t k v); go t c
           end) t c;
    ht_copy_chains t (index + 1) chains
  end.

(** The first table after the copy. *)
Definition ht_copy (first second : HashTable) : outcome HashTable :=
  ASSERT (ht_is_initialized second) ;;
  let t := ht_allocate first (ht_capacity second) in
  let t := mk_hashtable (ht_size second) (ht_threshold t) (ht_capacity t) (ht_key_size second)
             (ht_value_size second) (ht_compare second) (ht_hash second) (ht_nodes t) in
  chains ← ht_chains second;
  ht_copy_chains t 0 chains.

(** Both tables after the move. *)
Definition ht_move (first second : HashTable) : outcome (HashTable * HashTable) :=
  ASSERT (ht_is_initialized second) ;; Ok (second, set_ht_nodes None second).

(** Sizes, functions and chains are exchanged; [capacity] and [threshold]
    stay. *)
Definition ht_swap (first second : HashTable) : outcome (HashTable * HashTable) :=
  ASSERT (ht_is_initialized first) ;;
  ASSERT (ht_is_initialized second) ;;
  Ok (mk_hashtable (ht_size second) (ht_threshold first) (ht_capacity first) (ht_key_size second)
        (ht_value_size second) (ht_compare second) (ht_hash second) (ht_nodes second),
      mk_hashtable (ht_size first) (ht_threshold second) (ht_capacity second) (ht_key_size first)
        (ht_value_size first) (ht_compare first) (ht_hash first) (ht_nodes first)).

(** [memcpy] over the value of the first node with an equal key. *)
Fixpoint chain_update (t : HashTable) (key value : bytes) (c : chain) : option chain :=
  match c with
  | [] => None
  | (k, v) :: c =>
    if ht_equal t key k
    then Some ((k, take (Z.to_nat (ht_value_size t)) value) :: c)
    else match chain_update t key value c with Some c => Some ((k, v) :: c) | None => None end
  end.

Definition ht_insert (t : HashTable) (key value : bytes) : outcome (Z * HashTable) :=
  ASSERT (ht_is_initialized t) ;;
  grow ← ht_should_grow t;
  t ← (if grow : bool then ht_adjust_capacity t else Ok t);
  index ← ht_index t key;
  nodes ← deref (ht_nodes t);
  c ← arr_get nodes index;
  match chain_update t key value c with
  | Some c =>
    nodes ← arr_set nodes index c;
    Ok (HT_UPDATED, set_ht_nodes (Some nodes) t)
  | None =>
    t ← ht_push_front t index (ht_node t key value);
    Ok (HT_INSERTED, set_ht_size (u64 (ht_size t + 1)) t)
  end.

Fixpoint chain_find (t : HashTable) (key : bytes) (c : chain) : option bytes :=
  match c with
  | [] => None
  | (k, v) :: c => if ht_equal t key k then Some v else chain_find t key c
  end.

(** NULL when there is none. *)
Definition ht_lookup (t : HashTable) (key : bytes) : outcome (option bytes) :=
  index ← ht_index t key;
  nodes ← deref (ht_nodes t);
  c ← arr_get nodes index;
  Ok (chain_find t key c).

(** The same body with [const]. *)
Definition ht_const_lookup : HashTable → bytes → outcome (option bytes) := ht_lookup.

Definition ht_contains (t : HashTable) (key : bytes) : outcome Z :=
  ASSERT (ht_is_initialized t) ;;
  r ← ht_lookup t key;
  Ok (match r with Some _ => HT_FOUND | None => HT_NOT_FOUND end).

(** The chain without its first node with an equal key. *)
Fixpoint chain_erase (t : HashTable) (key : bytes) (c : chain) : option chain :=
  match c with
  | [] => None
  | (k, v) :: c =>
    if ht_equal t key k then Some c
    else match chain_erase t key c with Some c => Some ((k, v) :: c) | None => None end
  end.

Definition ht_erase (t : HashTable) (key : bytes) : outcome (Z * HashTable) :=
  index ← ht_index t key;
  nodes ← deref (ht_nodes t);
  c ← arr_get nodes index;
  match chain_erase t key c with
  | None => Ok (HT_NOT_FOUND, t)
  | Some c =>
    nodes ← arr_set nodes index c;
    let t := set_ht_size (u64 (ht_size t - 1)) (set_ht_nodes (Some nodes) t) in
    shrink ← ht_should_shrink t;
    t ← (if shrink : bool then ht_adjust_capacity t else Ok t);
    Ok (HT_SUCCESS, t)
  end.

(** [free] of the array of chains leaves a dangling pointer, which nothing
    uses before it is set again. *)
Definition ht_destroy (t : HashTable) : outcome (Z * HashTable) :=
  ASSERT (ht_is_initialized t) ;;
  _ ← ht_chains t;
  Ok (HT_SUCCESS, set_ht_nodes None t).

Definition ht_clear (t : HashTable) : outcome (Z * HashTable) :=
  ASSERT (ht_is_initialized t) ;;
  r ← ht_destroy t;
  Ok (HT_SUCCESS, set_ht_size 0 (ht_allocate r.2 HT_MINIMUM_CAPACITY)).

Definition ht_is_empty (t : HashTable) : bool := ht_size t =? 0.

Definition ht_reserve (t : HashTable) (minimum_capacity : Z) : outcome HashTable :=
  ASSERT (ht_is_initialized t) ;;
  if ht_threshold t <? minimum_capacity then ht_resize t (minimum_capacity / HT_LOAD_FACTOR)
  else Ok t.

(** ** Abstract view and invariant *)

Definition ht_pairs (t : HashTable) : list (bytes * bytes) := concat (default [] (ht_nodes t)).

Definition ht_map (t : HashTable) : gmap bytes bytes := list_to_map (ht_pairs t).

(** The comparison tells keys of [key_size] bytes apart. *)
Definition ht_functions_ok (t : HashTable) : Prop :=
  ∀ k1 k2, zlen k1 = ht_key_size t → zlen k2 = ht_key_size t →
    ht_equal t k1 k2 = bool_decide (k1 = k2).

(** Chain [i] of the [capacity] chains holds the keys with that index, every
    key is there once. *)
Record nodes_ok (t : HashTable) (ns : list chain) : Prop := mk_nodes_ok {
  no_nodes : ht_nodes t = Some ns;
  no_len : zlen ns = ht_capacity t;
  no_cap : HT_MINIMUM_CAPACITY ≤ ht_capacity t;
  no_sizes : 0 ≤ ht_key_size t ∧ 0 ≤ ht_value_size t;
  no_fun : ht_functions_ok t;
  no_index : ∀ i c kv, ns !! i = Some c → kv ∈ c →
    zlen kv.1 = ht_key_size t ∧ zlen kv.2 = ht_value_size t ∧
    ht_hash t kv.1 (ht_key_size t) mod ht_capacity t = Z.of_nat i;
  no_nodup : NoDup (concat ns).*1
}.

Definition ht_ok (t : HashTable) : Prop :=
  ∃ ns, nodes_ok t ns ∧ ht_size t = zlen (concat ns) ∧ ht_size t ≤ ht_capacity t.

(** ** Lemmas *)

(** The other chains. *)
Definition others (i : nat) (ns : list chain) : list (bytes * bytes) :=
  concat (take i ns) ++ concat (drop (S i) ns).

Lemma concat_chain (ns : list chain) i c : ns !! i = Some c → concat ns ≡ₚ c ++ others i ns.
Proof.
  intros Hi. rewrite <- (take_drop_middle ns i c Hi) at 1. unfold others.
  rewrite concat_app. cbn. solve_Permutation.
Qed.

Lemma concat_insert (ns : list chain) i c c' :
  ns !! i = Some c → concat (<[i := c']> ns) ≡ₚ c' ++ others i ns.
Proof.
  intros Hi. rewrite insert_take_drop by (by eapply lookup_lt_Some). unfold others.
  rewrite concat_app. cbn. solve_Permutation.
Qed.

Lemma elem_of_others (ns : list chain) i kv :
  kv ∈ others i ns → ∃ j c, j ≠ i ∧ ns !! j = Some c ∧ kv ∈ c.
Proof.
  unfold others. rewrite elem_of_app, !list_elem_of_In, !in_concat. intros [(c & Hc & H)|(c & Hc & H)].
  - apply list_elem_of_In, list_elem_of_lookup in Hc as [j Hj].
    apply lookup_take_Some in Hj as [Hj Hlt]. exists j, c. rewrite list_elem_of_In. split_and!; [lia|done..].
  - apply list_elem_of_In, list_elem_of_lookup in Hc as [j Hj]. rewrite lookup_drop in Hj.
    exists (S i + j)%nat, c. rewrite list_elem_of_In. split_and!; [lia|done..].
Qed.

Lemma ht_index_ok t ns key : nodes_ok t ns →
  ht_index t key = Ok (ht_hash t key (ht_key_size t) mod ht_capacity t) ∧
  0 ≤ ht_hash t key (ht_key_size t) mod ht_capacity t < ht_capacity t.
Proof.
  intros Hok. pose proof (no_cap _ _ Hok). unfold ht_index, HT_MINIMUM_CAPACITY in *.
  destruct (Z.eqb_spec (ht_capacity t) 0); [lia|]. split; [done|]. apply Z.mod_pos_bound. lia.
Qed.

Lemma ht_chain_ok t ns key : nodes_ok t ns → ∃ i c,
  ht_index t key = Ok (Z.of_nat i) ∧ ns !! i = Some c ∧ arr_get ns (Z.of_nat i) = Ok c ∧
  0 ≤ Z.of_nat i < zlen ns ∧ Z.of_nat i = ht_hash t key (ht_key_size t) mod ht_capacity t ∧
  (∀ v, zlen key = ht_key_size t → (key, v) ∉ others i ns).
Proof.
  intros Hok. destruct (ht_index_ok t ns key Hok) as [Hi Hr].
  set (x := ht_hash t key (ht_key_size t) mod ht_capacity t) in *.
  rewrite <- (no_len _ _ Hok) in Hr. destruct (arr_get_is_Ok ns x Hr) as [c Hc].
  pose proof (arr_get_inv _ _ _ Hc) as [_ Hl]. exists (Z.to_nat x), c.
  rewrite Z2Nat.id by lia. split_and!; try done; try lia.
  intros v Hk Hin. destruct (elem_of_others _ _ _ Hin) as (j & c' & Hj & Hc' & Hkv).
  destruct (no_index _ _ Hok j c' _ Hc' Hkv) as (_ & _ & Hx). cbn in Hx. fold x in Hx. lia.
Qed.

Section chains.
Context (t : HashTable) (Hfun : ht_functions_ok t).
Context (key : bytes) (Hkey : zlen key = ht_key_size t).

Local Abbreviation keys_sized c := (Forall (λ kv : bytes * bytes, zlen kv.1 = ht_key_size t) c).

Lemma ht_equal_key k : zlen k = ht_key_size t → ht_equal t key k = bool_decide (key = k).
Proof. intros. by apply Hfun. Qed.

Lemma chain_find_spec c : keys_sized c →
  chain_find t key c = (list_to_map c : gmap bytes bytes) !! key.
Proof.
  induction 1 as [|[k v] c Hk _ IH]; [done|]. cbn. rewrite ht_equal_key by done.
  rewrite lookup_insert. case_bool_decide; case_decide; congruence.
Qed.

Lemma chain_update_spec value c : keys_sized c →
  match chain_update t key value c with
  | None => key ∉ c.*1
  | Some c' => ∃ c1 v c2, c = c1 ++ (key, v) :: c2 ∧
      c' = c1 ++ (key, take (Z.to_nat (ht_value_size t)) value) :: c2
  end.
Proof.
  induction 1 as [|[k v] c Hk _ IH]; cbn; [apply not_elem_of_nil|].
  rewrite ht_equal_key by done. case_bool_decide as E.
  - subst. by exists [], v, c.
  - destruct (chain_update t key value c) as [c'|].
    + destruct IH as (c1 & v' & c2 & -> & ->). by exists ((k, v) :: c1), v', c2.
    + rewrite not_elem_of_cons. done.
Qed.

Lemma chain_erase_spec c : keys_sized c →
  match chain_erase t key c with
  | None => key ∉ c.*1
  | Some c' => ∃ c1 v c2, c = c1 ++ (key, v) :: c2 ∧ c' = c1 ++ c2
  end.
Proof.
  induction 1 as [|[k v] c Hk _ IH]; cbn; [apply not_elem_of_nil|].
  rewrite ht_equal_key by done. case_bool_decide as E.
  - subst. by exists [], v, c.
  - destruct (chain_erase t key c) as [c'|].
    + destruct IH as (c1 & v' & c2 & -> & ->). by exists ((k, v) :: c1), v', c2.
    + rewrite not_elem_of_cons. done.
Qed.
End chains.

Lemma chain_keys_sized t ns i c : nodes_ok t ns → ns !! i = Some c →
  Forall (λ kv : bytes * bytes, zlen kv.1 = ht_key_size t) c.
Proof.
  intros Hok Hi. apply Forall_forall. intros kv Hkv.
  by destruct (no_index _ _ Hok i c kv Hi Hkv).
Qed.

(** The nodes after the chain of [key] became [c']. *)
Lemma nodes_ok_insert t ns i c c' :
  nodes_ok t ns → ns !! i = Some c →
  (∀ kv, kv ∈ c' → kv ∈ c ∨ zlen kv.1 = ht_key_size t ∧ zlen kv.2 = ht_value_size t ∧
     ht_hash t kv.1 (ht_key_size t) mod ht_capacity t = Z.of_nat i) →
  NoDup (c' ++ others i ns).*1 →
  nodes_ok (set_ht_nodes (Some (<[i := c']> ns)) t) (<[i := c']> ns).
Proof.
  intros Hok Hi Hc' Hnd. pose proof Hok as [? Hlen ? ? ? Hidx ?].
  constructor; cbn; try done.
  - unfold zlen in *. by rewrite length_insert.
  - intros j cj kv Hj Hkv. destruct (decide (i = j)) as [->|].
    + rewrite list_lookup_insert_eq in Hj by (by eapply lookup_lt_Some). simplify_eq.
      destruct (Hc' kv Hkv) as [?|?]; [by eapply Hidx | done].
    + rewrite list_lookup_insert_ne in Hj by done. by eapply Hidx.
  - by rewrite (concat_insert ns i c c').
Qed.

(** Pushing a pair with a new key. *)
Lemma ht_push_ok t ns i kv :
  nodes_ok t ns → zlen kv.1 = ht_key_size t → zlen kv.2 = ht_value_size t →
  ht_index t kv.1 = Ok i → kv.1 ∉ (concat ns).*1 →
  ∃ ns', ht_push_front t i kv = Ok (set_ht_nodes (Some ns') t) ∧
    nodes_ok (set_ht_nodes (Some ns') t) ns' ∧ concat ns' ≡ₚ kv :: concat ns.
Proof.
  intros Hok Hk Hv Hi Hnew.
  destruct (ht_chain_ok t ns kv.1 Hok) as (j & c & Hi' & Hc & Hget & Hr & Hj & _).
  rewrite Hi' in Hi. injection Hi as <-. exists (<[j := kv :: c]> ns). unfold ht_push_front.
  rewrite (no_nodes _ _ Hok). cbn [deref obind]. rewrite Hget. cbn [obind].
  rewrite arr_set_Ok, Nat2Z.id by done. cbn [obind]. split; [done|].
  pose proof (concat_chain ns j c Hc) as Hp. split.
  - eapply nodes_ok_insert; [done..| |].
    + intros kv' [->|?]%elem_of_cons; [right | by left]. done.
    + cbn. rewrite <- Hp. apply NoDup_cons. split; [done | by apply Hok].
  - rewrite (concat_insert ns j c) by done. cbn. by rewrite <- Hp.
Qed.

Lemma ht_rehash_ok t ns old :
  nodes_ok t ns → Forall (λ kv : bytes * bytes, zlen kv.1 = ht_key_size t ∧
                           zlen kv.2 = ht_value_size t) old →
  NoDup (old ++ concat ns).*1 →
  ∃ ns', ht_rehash t old = Ok (set_ht_nodes (Some ns') t) ∧
    nodes_ok (set_ht_nodes (Some ns') t) ns' ∧ concat ns' ≡ₚ old ++ concat ns.
Proof.
  intros Hok Hold. revert t ns Hok Hold. induction old as [|kv old IH]; intros t ns Hok Hold Hnd.
  - exists ns. cbn. destruct t. pose proof (no_nodes _ _ Hok) as Hn. cbn in Hn. subst. done.
  - apply Forall_cons in Hold as [[Hk Hv] Hold]. cbn in Hnd. apply NoDup_cons in Hnd as [Hnew Hnd].
    rewrite fmap_app, elem_of_app in Hnew.
    destruct (ht_index_ok t ns kv.1 Hok) as [Hi _]. cbn [ht_rehash]. rewrite Hi. cbn [obind].
    destruct (ht_push_ok t ns _ kv Hok Hk Hv Hi) as (ns1 & -> & Hok1 & Hp1); [naive_solver|].
    cbn [obind]. destruct (IH _ ns1 Hok1 Hold) as (ns' & -> & Hok' & Hp').
    { rewrite Hp1. rewrite <- Permutation_middle. cbn. apply NoDup_cons. split; [|done].
      rewrite fmap_app, elem_of_app. naive_solver. }
    exists ns'. split; [done|]. split; [done|]. rewrite Hp', Hp1. symmetry. apply Permutation_middle.
Qed.

Lemma concat_empty n : concat (replicate n ([] : chain)) = [].
Proof. by induction n. Qed.

(** A fresh table of [n] empty chains. *)
Lemma ht_allocate_ok t ns n : nodes_ok t ns → HT_MINIMUM_CAPACITY ≤ n →
  nodes_ok (ht_allocate t n) (replicate (Z.to_nat n) []) ∧
  concat (replicate (Z.to_nat n) ([] : chain)) = [].
Proof.
  intros Hok Hn. unfold HT_MINIMUM_CAPACITY in *.
  pose proof (concat_empty (Z.to_nat n)) as Hc. split; [|done]. pose proof Hok as [? ? ? ? ? ? ?]. constructor; cbn; try done.
  - unfold zlen. rewrite length_replicate. lia.
  - intros i c kv Hi Hkv. apply lookup_replicate in Hi as [-> _]. by apply not_elem_of_nil in Hkv.
  - change (NoDup (concat (replicate (Z.to_nat n) ([] : chain))).*1). rewrite Hc. constructor.
Qed.

Lemma ht_chains_ok t ns : nodes_ok t ns → ht_chains t = Ok ns.
Proof.
  intros Hok. unfold ht_chains. rewrite (no_nodes _ _ Hok). cbn.
  pose proof (no_len _ _ Hok) as Hl. rewrite <- Hl, (proj2 (Z.leb_le _ _)) by lia.
  unfold zlen. by rewrite Nat2Z.id, firstn_all.
Qed.

Lemma pairs_sized t ns : nodes_ok t ns →
  Forall (λ kv : bytes * bytes, zlen kv.1 = ht_key_size t ∧ zlen kv.2 = ht_value_size t) (concat ns).
Proof.
  intros Hok. apply Forall_forall. intros kv. rewrite list_elem_of_In, in_concat.
  intros (c & Hc & Hkv). apply list_elem_of_In, list_elem_of_lookup in Hc as [i Hi].
  apply list_elem_of_In in Hkv. by destruct (no_index _ _ Hok i c kv Hi Hkv) as (?&?&_).
Qed.

Lemma zlen_perm {A} (l l' : list A) : l ≡ₚ l' → zlen l = zlen l'.
Proof. intros H. unfold zlen. by rewrite (Permutation_length H). Qed.

Lemma ht_map_perm t ns l : nodes_ok t ns → concat ns ≡ₚ l →
  ht_map t = list_to_map l ∧ NoDup l.*1.
Proof.
  intros Hok Hp. unfold ht_map, ht_pairs. rewrite (no_nodes _ _ Hok). cbn.
  pose proof (no_nodup _ _ Hok) as Hnd. split; [|by rewrite <- Hp].
  by apply list_to_map_proper.
Qed.

(** What does not change when the chains do. *)
Definition same_config (t t' : HashTable) : Prop :=
  ht_key_size t' = ht_key_size t ∧ ht_value_size t' = ht_value_size t ∧
  ht_compare t' = ht_compare t ∧ ht_hash t' = ht_hash t ∧ ht_size t' = ht_size t.

Lemma ht_resize_ok t ns n : nodes_ok t ns →
  ∃ t' ns', ht_resize t n = Ok t' ∧ nodes_ok t' ns' ∧ concat ns' ≡ₚ concat ns ∧
    same_config t t' ∧
    (ht_capacity t' = n ∨ n < HT_MINIMUM_CAPACITY ∧ ht_capacity t' = HT_MINIMUM_CAPACITY).
Proof.
  intros Hok. assert (∀ m, HT_MINIMUM_CAPACITY ≤ m → ∃ ns',
    (old ← ht_chains t; ht_rehash (ht_allocate t m) (concat old)) =
      Ok (set_ht_nodes (Some ns') (ht_allocate t m)) ∧
    nodes_ok (set_ht_nodes (Some ns') (ht_allocate t m)) ns' ∧ concat ns' ≡ₚ concat ns) as Hre.
  { intros m Hm. rewrite (ht_chains_ok t ns Hok). cbn [obind].
    destruct (ht_allocate_ok t ns m Hok Hm) as [Hok0 Hc0].
    destruct (ht_rehash_ok _ _ (concat ns) Hok0 (pairs_sized t ns Hok)) as (ns' & ? & ? & Hp).
    - rewrite Hc0, app_nil_r. by apply Hok.
    - exists ns'. rewrite Hc0, app_nil_r in Hp. done. }
  unfold ht_resize. destruct (Z.ltb_spec n HT_MINIMUM_CAPACITY) as [Hn|Hn].
  - destruct (Z.ltb_spec HT_MINIMUM_CAPACITY (ht_capacity t)).
    + destruct (Hre HT_MINIMUM_CAPACITY ltac:(lia)) as (ns' & -> & ? & ?).
      eexists _, ns'. split_and!; try done. by right.
    + exists t, ns. split_and!; try done. right. pose proof (no_cap _ _ Hok). lia.
  - destruct (Hre n Hn) as (ns' & -> & ? & ?). eexists _, ns'. split_and!; try done. by left.
Qed.

(** The table [ht_insert] works on, grown when it was full. *)
Lemma ht_grow_ok t ns : nodes_ok t ns → 0 ≤ ht_size t ≤ ht_capacity t → ht_capacity t < 2 ^ 60 →
  ∃ t' ns', (grow ← ht_should_grow t; if grow : bool then ht_adjust_capacity t else Ok t) = Ok t' ∧
    nodes_ok t' ns' ∧ concat ns' ≡ₚ concat ns ∧ same_config t t' ∧ ht_size t' < ht_capacity t'.
Proof.
  intros Hok Hs Hc. pose proof (no_cap _ _ Hok) as Hm. unfold HT_MINIMUM_CAPACITY in Hm.
  unfold ht_should_grow, ht_adjust_capacity. rewrite (proj2 (Z.leb_le _ _)) by lia.
  cbn [ASSERT obind]. destruct (Z.eqb_spec (ht_size t) (ht_capacity t)).
  - unfold u64, HT_GROWTH_FACTOR. rewrite Z.mod_small by lia.
    destruct (ht_resize_ok t ns (ht_size t * 2) Hok) as (t' & ns' & ? & ? & ? & Hcfg & Hcap).
    exists t', ns'. split_and!; try done. destruct Hcfg as (_ & _ & _ & _ & ->).
    unfold HT_MINIMUM_CAPACITY in Hcap. lia.
  - exists t, ns. split_and!; try done. lia.
Qed.

(** The abstract effect on the map of the three changes to a chain. *)
Lemma list_to_map_update (c1 c2 l : list (bytes * bytes)) k v v' :
  NoDup ((c1 ++ (k, v) :: c2) ++ l).*1 →
  list_to_map ((c1 ++ (k, v') :: c2) ++ l) =@{gmap bytes bytes}
    <[k := v']> (list_to_map ((c1 ++ (k, v) :: c2) ++ l)) ∧
  is_Some ((list_to_map ((c1 ++ (k, v) :: c2) ++ l) : gmap bytes bytes) !! k) ∧
  NoDup ((c1 ++ (k, v') :: c2) ++ l).*1.
Proof.
  intros Hnd. assert (∀ w, (c1 ++ (k, w) :: c2) ++ l ≡ₚ (k, w) :: (c1 ++ c2 ++ l)) as Hp.
  { intros w. rewrite <- !app_assoc. cbn. symmetry. apply Permutation_middle. }
  assert (NoDup ((c1 ++ (k, v') :: c2) ++ l).*1) as Hnd'.
  { rewrite Hp. rewrite Hp in Hnd. done. }
  rewrite (list_to_map_proper _ _ Hnd (Hp v)), (list_to_map_proper _ _ Hnd' (Hp v')). cbn.
  split_and!; [|by rewrite lookup_insert_eq | done]. by rewrite insert_insert_eq.
Qed.

(** A chain is replaced: the map and the number of pairs. *)
Lemma ht_chain_change t ns i c c' :
  nodes_ok t ns → ns !! i = Some c →
  (∀ kv, kv ∈ c' → kv ∈ c ∨ zlen kv.1 = ht_key_size t ∧ zlen kv.2 = ht_value_size t ∧
     ht_hash t kv.1 (ht_key_size t) mod ht_capacity t = Z.of_nat i) →
  NoDup (c' ++ others i ns).*1 →
  nodes_ok (set_ht_nodes (Some (<[i := c']> ns)) t) (<[i := c']> ns) ∧
  ht_map (set_ht_nodes (Some (<[i := c']> ns)) t) = list_to_map (c' ++ others i ns) ∧
  zlen (concat (<[i := c']> ns)) = zlen (concat ns) + zlen c' - zlen c.
Proof.
  intros Hok Hi Hc' Hnd. pose proof (nodes_ok_insert t ns i c c' Hok Hi Hc' Hnd) as Hok'.
  split; [done|]. split.
  - apply (ht_map_perm _ _ _ Hok'). by eapply concat_insert.
  - rewrite (zlen_perm _ _ (concat_insert ns i c c' Hi)), (zlen_perm _ _ (concat_chain ns i c Hi)).
    rewrite !zlen_app. lia.
Qed.

Lemma ht_ok_map_size t ns : nodes_ok t ns → ht_map t = list_to_map (concat ns).
Proof. intros Hok. by apply (ht_map_perm t ns). Qed.

(** A table that did not change its pairs or its settings. *)
Lemma ht_map_same t ns t' ns' : nodes_ok t ns → nodes_ok t' ns' → concat ns' ≡ₚ concat ns →
  ht_map t' = ht_map t.
Proof.
  intros Hok Hok' Hp. rewrite (proj1 (ht_map_perm t' ns' _ Hok' Hp)).
  symmetry. by apply (ht_map_perm t ns).
Qed.

(** A key that is in its chain or nowhere. *)
Lemma ht_absent (ns : list chain) i c key : ns !! i = Some c → key ∉ c.*1 →
  (∀ v, (key, v) ∉ others i ns) → key ∉ (concat ns).*1.
Proof.
  intros Hc Hu Hoth. rewrite (concat_chain ns i c Hc), fmap_app, not_elem_of_app.
  split; [done|]. intros [[k v] [-> Hkv]]%list_elem_of_fmap. by apply (Hoth v).
Qed.

(** The size is no part of the chains. *)
Lemma nodes_ok_size t ns n : nodes_ok t ns → nodes_ok (set_ht_size n t) ns.
Proof. by intros [? ? ? ? ? ? ?]. Qed.

(** What [ht_insert] does after the growth, key present. *)
Lemma ht_update_ok t ns i c1 v c2 key value :
  nodes_ok t ns → ns !! i = Some (c1 ++ (key, v) :: c2) →
  zlen key = ht_key_size t → zlen value = ht_value_size t →
  let ns' := <[i := c1 ++ (key, value) :: c2]> ns in
  nodes_ok (set_ht_nodes (Some ns') t) ns' ∧
  ht_map (set_ht_nodes (Some ns') t) = <[key := value]> (ht_map t) ∧
  is_Some (ht_map t !! key) ∧ zlen (concat ns') = zlen (concat ns).
Proof.
  intros Hok Hc Hk Hv ns'.
  destruct (ht_map_perm t ns _ Hok (concat_chain ns i _ Hc)) as [Hmap Hnd].
  destruct (list_to_map_update c1 c2 (others i ns) key v value Hnd) as (Hmu & Hsome & Hnd').
  assert ((key, v) ∈ c1 ++ (key, v) :: c2) as Hin.
  { rewrite elem_of_app, elem_of_cons. auto. }
  destruct (no_index _ _ Hok i _ _ Hc Hin) as (_ & _ & Hx).
  destruct (ht_chain_change t ns i _ (c1 ++ (key, value) :: c2) Hok Hc) as (Hok' & Hm' & Hz);
    [|done|].
  - intros kv. rewrite !elem_of_app, !elem_of_cons. intros [?|[->|?]]; [auto|right|auto]. done.
  - rewrite <- Hmap in *. unfold ns'. rewrite Hm', Hz. split_and!; [done..|].
    rewrite !zlen_app, !zlen_cons. lia.
Qed.

(** The removal of a key from its chain. *)
Lemma ht_remove_ok t ns i c1 v c2 key :
  nodes_ok t ns → ns !! i = Some (c1 ++ (key, v) :: c2) →
  let ns' := <[i := c1 ++ c2]> ns in
  nodes_ok (set_ht_nodes (Some ns') t) ns' ∧
  ht_map (set_ht_nodes (Some ns') t) = delete key (ht_map t) ∧
  is_Some (ht_map t !! key) ∧ zlen (concat ns') = zlen (concat ns) - 1.
Proof.
  intros Hok Hc ns'.
  destruct (ht_map_perm t ns _ Hok (concat_chain ns i _ Hc)) as [Hmap Hnd].
  assert ((c1 ++ (key, v) :: c2) ++ others i ns ≡ₚ (key, v) :: ((c1 ++ c2) ++ others i ns)) as Hp.
  { rewrite <- !app_assoc. cbn. symmetry. apply Permutation_middle. }
  rewrite (list_to_map_proper _ _ Hnd Hp) in Hmap. rewrite Hp in Hnd.
  apply NoDup_cons in Hnd as [Hnew Hnd].
  destruct (ht_chain_change t ns i _ (c1 ++ c2) Hok Hc) as (Hok' & Hm' & Hz); [|done|].
  - intros kv. rewrite !elem_of_app, elem_of_cons. intros [?|?]; auto.
  - split_and!; [done| | |].
    + unfold ns'. rewrite Hm', Hmap. cbn. rewrite delete_insert_id; [done|].
      by apply not_elem_of_list_to_map.
    + rewrite Hmap. cbn. by rewrite lookup_insert_eq.
    + unfold ns'. rewrite Hz, !zlen_app, zlen_cons. lia.
Qed.

(** The default comparison is usable. *)
Lemma ht_default_ok t : ht_compare t = ht_default_compare → ht_functions_ok t.
Proof.
  intros Hc k1 k2 Hk1 Hk2. unfold ht_equal, ht_default_compare. rewrite Hc. unfold ht_default_compare.
  rewrite !take_ge by (unfold zlen in *; lia). by case_bool_decide.
Qed.

(** The chains of a new table. *)
Lemma ht_setup_nodes t key_size value_size capacity :
  0 ≤ key_size → 0 ≤ value_size →
  ∃ ns, nodes_ok (ht_setup t key_size value_size capacity) ns ∧ concat ns = [].
Proof.
  intros Hk Hv. unfold ht_setup. set (n := if capacity <? _ then _ else _).
  assert (HT_MINIMUM_CAPACITY ≤ n) as Hn.
  { unfold n. destruct (Z.ltb_spec capacity HT_MINIMUM_CAPACITY); lia. }
  unfold HT_MINIMUM_CAPACITY in *. exists (replicate (Z.to_nat n) []).
  split; [constructor; cbn; try done | apply concat_empty].
  - rewrite zlen_replicate; lia.
  - by apply ht_default_ok.
  - intros i c kv [-> _]%lookup_replicate Hkv. by apply not_elem_of_nil in Hkv.
  - rewrite (concat_empty (Z.to_nat n)). constructor.
Qed.

Lemma ht_setup_ok t key_size value_size capacity : 0 ≤ key_size → 0 ≤ value_size →
  ht_ok (ht_setup t key_size value_size capacity) ∧
  ht_map (ht_setup t key_size value_size capacity) = ∅.
Proof.
  intros Hk Hv. pose proof (ht_setup_nodes t key_size value_size capacity Hk Hv) as (ns & Hok & Hn).
  rewrite (ht_ok_map_size _ _ Hok), Hn. split; [|done]. exists ns. rewrite Hn. cbn.
  pose proof (no_cap _ _ Hok) as H8. unfold HT_MINIMUM_CAPACITY in H8. cbn in H8.
  split_and!; [done..|]. lia.
Qed.

(** A table of one-byte keys and values. *)
Definition test_ht (capacity : Z) : HashTable :=
  ht_setup (mk_hashtable 0 0 0 0 0 ht_default_compare ht_default_hash None) 1 1 capacity.

(** ** Properties *)

(** C25: Lookup is lookup in the map: for a well-formed table and a key of the
    right size, [ht_lookup] returns, with the value the map has for the key
    (NULL when it has none), and [ht_contains] tells whether there is one. *)
Theorem ht_lookup_refines (t : HashTable) (key : bytes)
    (Hok : ht_ok t) (Hk : zlen key = ht_key_size t) :
  ht_lookup t key = Ok (ht_map t !! key) ∧
  ht_contains t key = Ok (if decide (is_Some (ht_map t !! key)) then HT_FOUND else HT_NOT_FOUND).
Proof.
  destruct Hok as (ns & Hok & _ & _).
  assert (ht_lookup t key = Ok (ht_map t !! key)) as Hl.
  { destruct (ht_chain_ok t ns key Hok) as (i & c & Hi & Hc & Hget & _ & _ & Hoth).
    unfold ht_lookup. rewrite Hi, (no_nodes _ _ Hok). cbn [deref obind]. rewrite Hget. cbn [obind].
    rewrite chain_find_spec by (done || by apply Hok || by eapply chain_keys_sized).
    destruct (ht_map_perm t ns _ Hok (concat_chain ns i c Hc)) as [-> Hnd].
    rewrite list_to_map_app. f_equal. symmetry. rewrite lookup_union_l; [done|].
    apply not_elem_of_list_to_map. intros [[k v] [-> Hkv]]%list_elem_of_fmap. by eapply Hoth. }
  split; [done|]. unfold ht_contains, ht_is_initialized. rewrite (no_nodes _ _ Hok). cbn [ASSERT obind].
  rewrite Hl. cbn [obind]. destruct (ht_map t !! key) as [v|].
  - by rewrite decide_True by eauto.
  - rewrite decide_False; [done | by intros [? ?]].
Qed.

Lemma ht_lookup_refines_witness : ht_lookup (test_ht 8) [5] = Ok (ht_map (test_ht 8) !! [5]).
Proof. refine (proj1 (ht_lookup_refines (test_ht 8) [5] _ _)); [by apply ht_setup_ok | done]. Defined.

(** C24: Insertion is insertion into the map: it returns, the new table is
    well formed and represents the map with the key bound to the value, and
    the result tells whether the key was there.  The table grows on the way
    when it is full. *)
Theorem ht_insert_refines (t : HashTable) (key value : bytes)
    (Hok : ht_ok t) (Hcap : ht_capacity t < 2 ^ 60)
    (Hk : zlen key = ht_key_size t) (Hv : zlen value = ht_value_size t) :
  ∃ r t', ht_insert t key value = Ok (r, t') ∧ ht_ok t' ∧
    ht_map t' = <[key := value]> (ht_map t) ∧
    r = (if decide (is_Some (ht_map t !! key)) then HT_UPDATED else HT_INSERTED).
Proof.
  destruct Hok as (ns & Hok & Hsz & Hle). pose proof (zlen_nonneg (concat ns)).
  destruct (ht_grow_ok t ns Hok ltac:(lia) Hcap) as (t1 & ns1 & Hg & Hok1 & Hp1 & Hcfg & Hlt).
  destruct Hcfg as (Hks & Hvs & _ & _ & Hs1).
  pose proof (ht_map_same t ns t1 ns1 Hok Hok1 Hp1) as Hm1. pose proof (zlen_perm _ _ Hp1) as Hz1.
  unfold ht_insert, ht_is_initialized. rewrite (no_nodes _ _ Hok). cbn [ASSERT obind].
  destruct (ht_should_grow t) as [grow|]; [|done]. cbn [obind] in *. rewrite Hg. cbn [obind].
  destruct (ht_chain_ok t1 ns1 key Hok1) as (i & c & Hi & Hc & Hget & Hr & Hidx & Hoth).
  rewrite Hi. cbn [obind]. rewrite (no_nodes _ _ Hok1). cbn [deref obind]. rewrite Hget. cbn [obind].
  assert (take (Z.to_nat (ht_value_size t1)) value = value) as Htv.
  { apply take_ge. unfold zlen in *. lia. }
  pose proof (chain_update_spec t1 (no_fun _ _ Hok1) key ltac:(congruence) value c
    (chain_keys_sized _ _ _ _ Hok1 Hc)) as Hu.
  rewrite <- Hm1. destruct (chain_update t1 key value c) as [c'|].
  - destruct Hu as (c1 & v & c2 & -> & ->). rewrite Htv, arr_set_Ok, Nat2Z.id by done.
    cbn [obind].
    destruct (ht_update_ok t1 ns1 i c1 v c2 key value) as (Hok2 & Hm2 & Hs & Hz); [congruence..|].
    eexists _, _; split; [done|]. rewrite decide_True by done. split_and!; try done.
    eexists; split; [exact Hok2|]. rewrite Hz. cbn. lia.
  - assert (key ∉ (concat ns1).*1) as Hnew.
    { apply (ht_absent ns1 i c); [done..|]. intros v. apply Hoth. congruence. }
    unfold ht_node. rewrite Htv, take_ge by (unfold zlen in *; lia).
    destruct (ht_push_ok t1 ns1 (Z.of_nat i) (key, value) Hok1) as (ns2 & -> & Hok2 & Hp2);
      [cbn; congruence..|done|done|].
    cbn [obind]. eexists _, _; split; [done|].
    rewrite (proj1 (ht_map_perm _ _ _ (nodes_ok_size _ _ _ Hok2) Hp2)), (ht_ok_map_size t1 ns1 Hok1).
    rewrite decide_False by (rewrite not_elem_of_list_to_map_1 by done; by intros [? ?]).
    split_and!; try done. exists ns2. split; [by apply nodes_ok_size|].
    rewrite (zlen_perm _ _ Hp2), zlen_cons. cbn. unfold u64. rewrite Z.mod_small; lia.
Qed.

Lemma ht_insert_refines_witness :
  ∃ r t', ht_insert (test_ht 8) [5] [7] = Ok (r, t') ∧ ht_ok t' ∧
    ht_map t' = <[[5] := [7]]> (ht_map (test_ht 8)) ∧
    r = (if decide (is_Some (ht_map (test_ht 8) !! [5])) then HT_UPDATED else HT_INSERTED).
Proof. apply (ht_insert_refines (test_ht 8) [5] [7]); [by apply ht_setup_ok | done..]. Defined.

(** C26: Erasure is deletion from the map: it returns, and the new table is
    well formed and represents the map without the key.  The result is 0 in
    both cases, because [HT_SUCCESS] and [HT_NOT_FOUND] are the same number.
    The table shrinks only when its last pair goes: [HT_SHRINK_THRESHOLD] is
    an integer division, 0. *)
Theorem ht_erase_refines (t : HashTable) (key : bytes)
    (Hok : ht_ok t) (Hcap : ht_capacity t < 2 ^ 60) (Hk : zlen key = ht_key_size t) :
  ∃ t', ht_erase t key = Ok (HT_SUCCESS, t') ∧ ht_ok t' ∧
    ht_map t' = delete key (ht_map t) ∧
    (ht_size t' ≠ 0 → ht_capacity t' = ht_capacity t).
Proof.
  destruct Hok as (ns & Hok & Hsz & Hle). pose proof (zlen_nonneg (concat ns)).
  unfold ht_erase.
  destruct (ht_chain_ok t ns key Hok) as (i & c & Hi & Hc & Hget & Hr & Hidx & Hoth).
  rewrite Hi. cbn [obind]. rewrite (no_nodes _ _ Hok). cbn [deref obind]. rewrite Hget. cbn [obind].
  pose proof (chain_erase_spec t (no_fun _ _ Hok) key ltac:(congruence) c
    (chain_keys_sized _ _ _ _ Hok Hc)) as Hu.
  destruct (chain_erase t key c) as [c'|].
  - destruct Hu as (c1 & v & c2 & -> & ->). rewrite arr_set_Ok, Nat2Z.id by done. cbn [obind].
    destruct (ht_remove_ok t ns i c1 v c2 key Hok Hc) as (Hok1 & Hm1 & Hs & Hz).
    set (t1 := set_ht_size _ (set_ht_nodes _ t)).
    assert (ht_size t1 = zlen (concat (<[i := c1 ++ c2]> ns))) as Hsz1.
    { pose proof (zlen_nonneg (concat (<[i := c1 ++ c2]> ns))). cbn. unfold u64.
      rewrite Z.mod_small; lia. }
    assert (nodes_ok t1 (<[i := c1 ++ c2]> ns)) as Hok1' by (by apply nodes_ok_size).
    assert (ht_capacity t1 = ht_capacity t) as Hc1 by done.
    unfold ht_should_shrink. rewrite (proj2 (Z.leb_le _ _)) by lia. cbn [ASSERT obind].
    unfold HT_SHRINK_THRESHOLD. change (1 / 4) with 0. rewrite Z.mul_0_r. change (u64 0) with 0.
    destruct (Z.eqb_spec (ht_size t1) 0) as [H0|H0].
    + unfold ht_adjust_capacity. rewrite H0.
      destruct (ht_resize_ok t1 _ (u64 (0 * HT_GROWTH_FACTOR)) Hok1') as
        (t2 & ns2 & -> & Hok2 & Hp2 & (_ & _ & _ & _ & Hs2) & _).
      cbn [obind]. exists t2. split; [done|]. split_and!.
      * exists ns2. rewrite (zlen_perm _ _ Hp2), <- Hsz1. pose proof (no_cap _ _ Hok2).
        unfold HT_MINIMUM_CAPACITY in *. split_and!; [done|lia..].
      * rewrite (ht_map_same _ _ _ _ Hok1' Hok2 Hp2). done.
      * lia.
    + cbn [obind]. exists t1. split_and!; try done. exists (<[i := c1 ++ c2]> ns).
      split_and!; [done..|lia].
  - cbn [obind]. exists t. split_and!; try done; [by exists ns|].
    rewrite delete_id; [done|]. rewrite (ht_ok_map_size t ns Hok).
    apply not_elem_of_list_to_map_1, (ht_absent ns i c); [done..|]. intros v. by apply Hoth.
Qed.

Lemma ht_erase_refines_witness :
  ∃ t', ht_erase (test_ht 8) [5] = Ok (HT_SUCCESS, t') ∧ ht_ok t' ∧
    ht_map t' = delete [5] (ht_map (test_ht 8)) ∧
    (ht_size t' ≠ 0 → ht_capacity t' = ht_capacity (test_ht 8)).
Proof. apply (ht_erase_refines (test_ht 8) [5]); [by apply ht_setup_ok | done..]. Defined.

(** A new table is well formed and empty, and [ht_reserve] changes neither
    the map nor the well-formedness of a table, whatever capacity it is asked
    for. *)
Lemma ht_setup_reserve (t : HashTable) (key_size value_size capacity n : Z)
    (Hk : 0 ≤ key_size) (Hv : 0 ≤ value_size) :
  (ht_ok (ht_setup t key_size value_size capacity) ∧
   ht_map (ht_setup t key_size value_size capacity) = ∅) ∧
  (ht_ok t → ht_capacity t < 2 ^ 60 → ht_threshold t = ht_capacity t * HT_LOAD_FACTOR →
   ∃ t', ht_reserve t n = Ok t' ∧ ht_ok t' ∧ ht_map t' = ht_map t).
Proof.
  split.
  - by apply ht_setup_ok.
  - intros (ns & Hok & Hsz & Hle) Hcap Hth. unfold ht_reserve, ht_is_initialized.
    rewrite (no_nodes _ _ Hok). cbn [ASSERT obind].
    destruct (Z.ltb_spec (ht_threshold t) n) as [Hn|Hn].
    + destruct (ht_resize_ok t ns (n / HT_LOAD_FACTOR) Hok) as
        (t' & ns' & -> & Hok' & Hp & (_ & _ & _ & _ & Hs) & Hc').
      exists t'. split; [done|]. rewrite (ht_map_same t ns t' ns' Hok Hok' Hp). split; [|done].
      exists ns'. rewrite (zlen_perm _ _ Hp). pose proof (no_cap _ _ Hok).
      assert (ht_capacity t ≤ n / HT_LOAD_FACTOR).
      { unfold HT_LOAD_FACTOR in *. apply Z.div_le_lower_bound; lia. }
      split_and!; [done|lia|]. lia.
    + exists t. split_and!; try done. by exists ns.
Qed.

(** [ht_swap] exchanges the maps of two tables of equal capacity.  For
    tables of different capacities neither result is well formed, since the
    chains are exchanged and the capacity is not. *)
Lemma ht_swap_spec (first second : HashTable) (H1 : ht_ok first) (H2 : ht_ok second) :
  ∃ f s, ht_swap first second = Ok (f, s) ∧
    (ht_capacity first = ht_capacity second →
       ht_ok f ∧ ht_ok s ∧ ht_map f = ht_map second ∧ ht_map s = ht_map first) ∧
    (ht_capacity first ≠ ht_capacity second → ¬ ht_ok f ∧ ¬ ht_ok s).
Proof.
  destruct H1 as (ns1 & Hok1 & Hs1 & Hc1), H2 as (ns2 & Hok2 & Hs2 & Hc2).
  unfold ht_swap, ht_is_initialized. rewrite (no_nodes _ _ Hok1), (no_nodes _ _ Hok2).
  cbn [ASSERT obind]. eexists _, _. split; [done|].
  destruct Hok1 as [Hn1 Hl1 ? ? ? Hi1 ?], Hok2 as [Hn2 Hl2 ? ? ? Hi2 ?]. split.
  - intros E. split_and!.
    + exists ns2. split_and!; [|done|cbn; lia]. constructor; cbn; try done; [lia..|].
      rewrite E. done.
    + exists ns1. split_and!; [|done|cbn; lia]. constructor; cbn; try done; [lia..|].
      rewrite <- E. done.
    + unfold ht_map, ht_pairs. cbn. by rewrite Hn2.
    + unfold ht_map, ht_pairs. cbn. by rewrite Hn1.
  - intros Hne. split; intros (ns & [Hn Hl ? ? ? ? ?] & _); cbn in *; simplify_eq; congruence.
Qed.


