(* ===== verification/XattrMap.v ===== *)
(** * Extended attribute names

    [src/kfsd/src/passthrough/xattrmap.rs]: the rules that translate the
    names of extended attributes between a guest and the host, their textual
    form and its parser.  A Rust [char] is its code point, a [CString] the
    list of its bytes; [panic!] and a failing [unwrap] are faults. *)

From S2P Require Import Prelude.
From stdpp Require Import base numbers list strings.
From Stdlib Require Import ZArith Lia.

Open Scope Z_scope.
Open Scope kfs_scope.

(** ** Data *)

(** The bytes [got] are those the message shows. *)
Inductive ErrorKind :=
  | InvalidScope (got : list Z)
  | InvalidType (got : list Z)
  | InvalidDelimiter
  | IncompleteRule
  | MapRuleViolation
  | NoRulesProvided
  | UnterminatedMapping.

Record xattr_error := mk_xattr_error {
  xe_cause : ErrorKind;
  xe_rule : option nat
}.

(** The bit flags [CLIENT] and [SERVER]. *)
Record Scope := mk_Scope {
  sc_client : bool;
  sc_server : bool
}.

Definition CLIENT : Scope := mk_Scope true false.
Definition SERVER : Scope := mk_Scope false true.
Definition ALL : Scope := mk_Scope true true.

(** [self.contains(other)]. *)
Definition scope_contains (a b : Scope) : bool :=
  implb (sc_client b) (sc_client a) && implb (sc_server b) (sc_server a).

Inductive rule_type := Prefix | Okay | Bad | Unsupported | Map.

Instance scope_eq_dec : EqDecision Scope.
Proof. solve_decision. Defined.
Instance rule_type_eq_dec : EqDecision rule_type.
Proof. solve_decision. Defined.

Record Rule := mk_Rule {
  r_scope : Scope;
  r_type : rule_type;
  r_key : list Z;
  r_prepend : list Z
}.

(** [AppliedRule]. *)
Inductive applied :=
  | Pass (name : list Z)
  | Deny
  | NotSupported.

(** ** Operations *)

Definition bytes_are (bs : list Z) (s : string) : bool := bool_decide (bs = cstr s).

Definition scope_from_bytes (bs : list Z) : ErrorKind + Scope :=
  if bytes_are bs "all" then inr ALL
  else if bytes_are bs "client" then inr CLIENT
  else if bytes_are bs "server" then inr SERVER
  else inl (InvalidScope bs).

Definition type_from_bytes (bs : list Z) : ErrorKind + rule_type :=
  if bytes_are bs "prefix" then inr Prefix
  else if bytes_are bs "ok" then inr Okay
  else if bytes_are bs "bad" then inr Bad
  else if bytes_are bs "unsupported" then inr Unsupported
  else if bytes_are bs "map" then inr Map
  else inl (InvalidType bs).

Fixpoint starts_with (name prefix : list Z) {struct prefix} : bool :=
  match prefix, name with
  | [], _ => true
  | p :: prefix, n :: name => (p =? n) && starts_with name prefix
  | _ :: _, [] => false
  end.

(** Called with [CLIENT] or [SERVER] only. *)
Definition matches (r : Rule) (scope : Scope) (xattr_name : list Z) : bool :=
  if negb (scope_contains (r_scope r) scope) then false
  else if sc_client scope then starts_with xattr_name (r_key r)
  else starts_with xattr_name (r_prepend r).

(** [CString::new(bytes).unwrap()]. *)
Definition CString_new (bs : list Z) : outcome (list Z) :=
  ASSERT (forallb (λ b, negb (b =? 0)) bs) ;; Ok bs.

(** The characters up to the next delimiter, each truncated to a byte, and
    what follows the delimiter. *)
Fixpoint next_token (delim : Z) (tokens : list Z) : ErrorKind + (list Z * list Z) :=
  match tokens with
  | [] => inl IncompleteRule
  | ch :: tokens =>
    if ch =? delim then inr ([], tokens)
    else
      match next_token delim tokens with
      | inl e => inl e
      | inr (bs, rest) => inr (u8 ch :: bs, rest)
      end
  end.

(** An operation that panics, fails or returns. *)
Definition rbind {A B} (x : outcome (ErrorKind + A)) (f : A → outcome (ErrorKind + B)) :
    outcome (ErrorKind + B) :=
  r ← x;
  match r with
  | inl e => Ok (inl e)
  | inr a => f a
  end.

(** Key and prepend, the last two fields of a rule. *)
Definition rule_fields (delim : Z) (scope : Scope) (type_ : rule_type) (tokens : list Z) :
    outcome (ErrorKind + (Rule * list Z)) :=
  rbind (Ok (next_token delim tokens)) (λ '(bs, tokens),
  key ← CString_new bs;
  rbind (Ok (next_token delim tokens)) (λ '(bs, tokens),
  prepend ← CString_new bs;
  Ok (inr (mk_Rule scope type_ key prepend, tokens)))).

Definition from_tokens (tokens : list Z) : outcome (ErrorKind + (Rule * list Z)) :=
  match tokens with
  | [] => Ok (inl InvalidDelimiter)
  | delim :: tokens =>
    rbind (Ok (next_token delim tokens)) (λ '(bs, tokens),
    rbind (Ok (type_from_bytes bs)) (λ type_,
    match type_ with
    | Map => rule_fields delim ALL Map tokens
    | _ =>
      rbind (Ok (next_token delim tokens)) (λ '(bs, tokens),
      rbind (Ok (scope_from_bytes bs)) (λ scope,
      rule_fields delim scope type_ tokens))
    end))
  end.

Definition expand_map_type (r : Rule) : outcome (list Rule) :=
  ASSERT (bool_decide (r_type r = Map)) ;;
  let first := mk_Rule ALL Prefix (r_key r) (r_prepend r) in
  if bool_decide (r_key r = []) then Ok [first; mk_Rule ALL Bad [] []]
  else Ok [first; mk_Rule ALL Bad (r_prepend r) (r_key r); mk_Rule ALL Okay [] []].

(** [char::is_ascii_whitespace] and [char::is_whitespace]. *)
Definition is_ascii_whitespace (c : Z) : bool :=
  existsb (Z.eqb c) [0x20; 0x9; 0xa; 0xc; 0xd].
Definition is_whitespace (c : Z) : bool :=
  (0x9 <=? c) && (c <=? 0xd) || (0x2000 <=? c) && (c <=? 0x200a) ||
  existsb (Z.eqb c) [0x20; 0x85; 0xa0; 0x1680; 0x2028; 0x2029; 0x202f; 0x205f; 0x3000].

Fixpoint trim_start (s : list Z) : list Z :=
  match s with
  | c :: s' => if is_whitespace c then trim_start s' else s
  | [] => []
  end.
Definition trim (s : list Z) : list Z := rev (trim_start (rev (trim_start s))).

(** The loop of [try_from]; every turn consumes a character. *)
Fixpoint parse_rules (fuel : nat) (unparsed : list Z) (rules : list Rule) :
    outcome (xattr_error + list Rule) :=
  match unparsed with
  | [] => Ok (inr rules)
  | ch :: rest =>
    match fuel with
    | O => Fault OutOfFuel
    | S fuel =>
      if is_ascii_whitespace ch then parse_rules fuel rest rules
      else
        r ← from_tokens unparsed;
        match r with
        | inl e => Ok (inl (mk_xattr_error e (Some (length rules + 1)%nat)))
        | inr (rule, unparsed) =>
          if bool_decide (r_type rule = Map) then
            match unparsed with
            | _ :: _ => Ok (inl (mk_xattr_error MapRuleViolation (Some (length rules + 1)%nat)))
            | [] =>
              more ← expand_map_type rule;
              parse_rules fuel unparsed (rules ++ more)
            end
          else parse_rules fuel unparsed (rules ++ [rule])
        end
    end
  end.

Definition try_from (input : list Z) : outcome (xattr_error + list Rule) :=
  let trimmed := trim input in
  r ← parse_rules (length trimmed) trimmed [];
  match r with
  | inr [] => Ok (inl (mk_xattr_error NoRulesProvided None))
  | _ => Ok r
  end.

Definition find_rule (rules : list Rule) (scope : Scope) (xattr_name : list Z) : xattr_error + Rule :=
  match List.find (λ r, matches r scope xattr_name) rules with
  | Some r => inr r
  | None => inl (mk_xattr_error UnterminatedMapping None)
  end.

Definition map_client_xattr (rules : list Rule) (xattr_name : list Z) : outcome (xattr_error + applied) :=
  match find_rule rules CLIENT xattr_name with
  | inl e => Ok (inl e)
  | inr rule =>
    match r_type rule with
    | Okay => Ok (inr (Pass xattr_name))
    | Bad => Ok (inr Deny)
    | Unsupported => Ok (inr NotSupported)
    | Prefix => name ← CString_new (r_prepend rule ++ xattr_name); Ok (inr (Pass name))
    | Map => Fault AssertFail
    end
  end.

(** [xattr_names.split(|b| *b == 0)]. *)
Fixpoint split_nul (bs cur : list Z) : list (list Z) :=
  match bs with
  | [] => [rev cur]
  | b :: bs => if b =? 0 then rev cur :: split_nul bs [] else split_nul bs (b :: cur)
  end.

Fixpoint map_names (rules : list Rule) (names : list (list Z)) (filtered : list Z) :
    outcome (xattr_error + list Z) :=
  match names with
  | [] => Ok (inr filtered)
  | xattr_name :: names =>
    match find_rule rules SERVER xattr_name with
    | inl e => Ok (inl e)
    | inr rule =>
      match r_type rule with
      | Bad | Unsupported => map_names rules names filtered
      | Okay => map_names rules names (filtered ++ xattr_name ++ [0])
      | Prefix =>
        let n := length (r_prepend rule) in
        ASSERT (Nat.leb n (length xattr_name)) ;;
        map_names rules names (filtered ++ drop n xattr_name ++ [0])
      | Map => Fault AssertFail
      end
    end
  end.

Definition map_server_xattrlist (rules : list Rule) (xattr_names : list Z) :
    outcome (xattr_error + list Z) :=
  let unprocessed := filter (λ bs, bs ≠ []) (split_nul xattr_names []) in
  r ← map_names rules unprocessed [];
  match r with
  | inl e => Ok (inl e)
  | inr [] => Ok (inr [0])
  | inr filtered => Ok (inr filtered)
  end.

(** ** Lemmas *)

Definition nul_free (bs : list Z) : Prop := Forall (λ b, b ≠ 0) bs.

Lemma CString_new_Ok bs : nul_free bs → CString_new bs = Ok bs.
Proof.
  intros Hb. unfold CString_new. rewrite (proj2 (forallb_forall _ bs)); [done|].
  intros b Hin%list_elem_of_In. apply negb_true_iff, Z.eqb_neq. unfold nul_free in Hb. rewrite Forall_forall in Hb. by apply Hb.
Qed.

Lemma starts_with_app s t : starts_with (s ++ t) s = true.
Proof. induction s as [|c s IH]; [done|]. cbn. by rewrite Z.eqb_refl. Qed.

Lemma starts_with_prefix name p : starts_with name p = true ↔ ∃ t, name = p ++ t.
Proof.
  split; [|intros [t ->]; apply starts_with_app]. revert name.
  induction p as [|c p IH]; intros [|n name]; cbn; [by exists [] | by exists (n :: name) | done |].
  intros [->%Z.eqb_eq H]%andb_true_iff. destruct (IH name H) as [t ->]. by exists t.
Qed.

(** A token is the text up to the delimiter, which is consumed. *)
Lemma next_token_text delim ts bs rest : next_token delim ts = inr (bs, rest) →
  ∃ field, ts = field ++ (delim :: rest) ∧ (delim ∉ field) ∧ bs = map u8 field.
Proof.
  revert bs. induction ts as [|c ts IH]; intros bs; cbn; [done|]. destruct (Z.eqb_spec c delim) as [->|Hc].
  - intros [= <- <-]. exists []. split_and!; [done | apply not_elem_of_nil | done].
  - destruct (next_token delim ts) as [|[bs' r]]; [done|]. intros [= <- <-].
    destruct (IH bs' eq_refl) as (field & -> & Hd & ->). exists (c :: field).
    split_and!; [done | by rewrite not_elem_of_cons | done].
Qed.

Lemma next_token_shorter delim ts bs rest : next_token delim ts = inr (bs, rest) → (length rest < length ts)%nat.
Proof. intros (field & -> & _)%next_token_text. rewrite length_app. cbn. lia. Qed.

(** A field of the text, up to its delimiter, has a character whose lowest
    byte is zero. *)
Definition bad_field (ts : list Z) : Prop :=
  ∃ pre field delim post c, ts = pre ++ field ++ (delim :: post) ∧ (delim ∉ field) ∧ c ∈ field ∧ c mod 256 = 0.

Lemma bad_field_app ts ts' : bad_field ts' → bad_field (ts ++ ts').
Proof.
  intros (pre & field & delim & post & c & -> & Hd & Hc & H0). exists (ts ++ pre), field, delim, post, c.
  by rewrite app_assoc.
Qed.

Lemma bad_field_cons c ts : bad_field ts → bad_field (c :: ts).
Proof. apply (bad_field_app [c]). Qed.

(** Making a C string of a token: it panics only on such a field. *)
Lemma CString_new_token delim ts bs rest : next_token delim ts = inr (bs, rest) →
  (nul_free bs ∧ CString_new bs = Ok bs) ∨ (bad_field ts ∧ CString_new bs = Fault AssertFail).
Proof.
  intros (field & -> & Hd & ->)%next_token_text. destruct (decide (Forall (λ c, u8 c ≠ 0) field)) as [Hf|Hf].
  - left. assert (nul_free (map u8 field)) by (by apply Forall_fmap). split; [done | by apply CString_new_Ok].
  - right. apply not_Forall_Exists in Hf; [|apply _]. apply Exists_exists in Hf as (c & Hin & Hc%dec_stable).
    split; [by exists [], field, delim, rest, c|]. unfold CString_new.
    destruct (forallb _ _) eqn:E; [|done]. rewrite forallb_forall in E.
    specialize (E (u8 c) ltac:(by apply list_elem_of_In, list_elem_of_fmap_2)). by rewrite Hc in E.
Qed.

(** A rule that can be applied. *)
Definition rule_ok (r : Rule) : Prop := nul_free (r_key r) ∧ nul_free (r_prepend r).

(** What the parser of a rule or of its fields does: it returns, or panics on
    a field. *)
Definition parses (ts : list Z) (r : outcome (ErrorKind + (Rule * list Z))) : Prop :=
  (∃ v, r = Ok v ∧
    match v with
    | inl _ => True
    | inr (rule, rest) => rule_ok rule ∧ (∃ read, ts = read ++ rest ∧ read ≠ [])
    end) ∨
  (r = Fault AssertFail ∧ bad_field ts).

Lemma parses_app pre ts r : parses ts r → parses (pre ++ ts) r.
Proof.
  intros [(v & -> & Hv)|[-> Hb]]; [left | right; split; [done | by apply bad_field_app]].
  exists v. split; [done|]. destruct v as [|[rule rest]]; [done|].
  destruct Hv as (? & read & -> & ?). split; [done|]. exists (pre ++ read).
  split; [by rewrite app_assoc | by destruct pre].
Qed.

(** Reading a token leaves less to read. *)
Lemma parses_token delim ts k :
  (∀ bs rest, next_token delim ts = inr (bs, rest) → parses rest (k bs rest) ∨ parses ts (k bs rest)) →
  parses ts (rbind (Ok (next_token delim ts)) (λ '(bs, rest), k bs rest)).
Proof.
  intros Hk. destruct (next_token delim ts) as [e|[bs rest]] eqn:E; cbn; [left; by exists (inl e)|].
  destruct (Hk bs rest eq_refl) as [H|H]; [|done]. apply next_token_text in E as (field & -> & _).
  change (delim :: rest) with ([delim] ++ rest). rewrite app_assoc. by apply parses_app.
Qed.

Lemma rule_fields_parses delim scope t ts : parses ts (rule_fields delim scope t ts).
Proof.
  apply (parses_token delim ts (λ bs rest, key ← CString_new bs;
    rbind (Ok (next_token delim rest)) (λ '(bs, rest), prepend ← CString_new bs; Ok (inr (mk_Rule scope t key prepend, rest))))).
  intros bs rest E. destruct (CString_new_token _ _ _ _ E) as [[Hb ->]|[Hbad ->]]; [left | by right; right].
  cbn [obind]. apply (parses_token delim rest (λ bs' rest', prepend ← CString_new bs';
    Ok (inr (mk_Rule scope t bs prepend, rest')))).
  intros bs' rest' E'. right. destruct (CString_new_token _ _ _ _ E') as [[Hb' ->]|[Hbad ->]]; [|by right].
  left. eexists; split; [done|]. split; [done|]. apply next_token_text in E' as (field & -> & _).
  exists (field ++ [delim]). split; [by rewrite <- app_assoc | by destruct field].
Qed.

Lemma from_tokens_parses ts : parses ts (from_tokens ts).
Proof.
  destruct ts as [|delim ts]; [left; by exists (inl InvalidDelimiter)|]. apply (parses_app [delim]).
  unfold from_tokens. apply (parses_token delim ts (λ bs rest, rbind (Ok (type_from_bytes bs)) _)).
  intros bs rest _. left. destruct (type_from_bytes bs) as [e|t]; cbn; [left; by exists (inl e)|].
  assert (parses rest (rbind (Ok (next_token delim rest)) (λ '(bs, tokens),
      rbind (Ok (scope_from_bytes bs)) (λ scope, rule_fields delim scope t tokens)))) as H.
  { apply (parses_token delim rest (λ bs tokens, rbind (Ok (scope_from_bytes bs)) (λ scope, rule_fields delim scope t tokens))).
    intros bs' rest' _. left. destruct (scope_from_bytes bs') as [e|sc]; cbn; [left; by exists (inl e) | by apply rule_fields_parses]. }
  destruct t; try exact H. by apply rule_fields_parses.
Qed.

(** A rule of a parsed map. *)
Definition map_rule_ok (r : Rule) : Prop := rule_ok r ∧ r_type r ≠ Map.

Lemma expand_ok r : r_type r = Map → rule_ok r → ∃ rs, expand_map_type r = Ok rs ∧ Forall map_rule_ok rs ∧ rs ≠ [].
Proof.
  intros Ht [Hk Hp]. unfold expand_map_type. rewrite bool_decide_true by done. cbn [ASSERT obind].
  assert (nul_free []) by constructor.
  case_bool_decide; (eexists; split; [reflexivity|]; split; [|done]); repeat constructor; done.
Qed.

Lemma parse_rules_total fuel ts acc : (length ts ≤ fuel)%nat → Forall map_rule_ok acc →
  (∃ v, parse_rules fuel ts acc = Ok v ∧ match v with inl _ => True | inr rs => Forall map_rule_ok rs end) ∨
  (parse_rules fuel ts acc = Fault AssertFail ∧ bad_field ts).
Proof.
  revert ts acc. induction fuel as [|fuel IH]; intros [|c ts] acc Hf Hacc; cbn in Hf; try lia; [left; by exists (inr acc).. |].
  cbn [parse_rules]. destruct (is_ascii_whitespace c).
  { destruct (IH ts acc) as [?|[? ?]]; [lia | done | by left | right; split; [done | by apply bad_field_cons]]. }
  destruct (from_tokens_parses (c :: ts)) as [(v & Hv & Hp)|[-> ?]]; [|by right]. rewrite Hv. cbn [obind].
  destruct v as [e|[rule rest]]; [left; by eexists (inl _)|]. destruct Hp as (Hrule & read & E & Hne).
  assert (length rest ≤ fuel)%nat as Hlen.
  { apply (f_equal length) in E. rewrite length_app in E. cbn in E. destruct read; [done | cbn in E; lia]. }
  rewrite E. case_bool_decide as Ht.
  - destruct rest; [|left; by eexists (inl _)]. destruct (expand_ok rule Ht Hrule) as (rs & -> & Hrs & _). cbn [obind].
    destruct (IH [] (acc ++ rs)) as [?|[? ?]]; [done | by apply Forall_app | by left | right; split; [done | by apply bad_field_app]].
  - destruct (IH rest (acc ++ [rule])) as [?|[? ?]]; [done | | by left | right; split; [done | by apply bad_field_app]].
    apply Forall_app. split; [done | by apply Forall_singleton].
Qed.

Lemma trim_start_drop s : ∃ n, trim_start s = drop n s.
Proof. induction s as [|c s [n IH]]; cbn; [by exists 0%nat|]. destruct (is_whitespace c); [by exists (S n) | by exists 0%nat]. Qed.

Lemma trim_sub s : (∀ P : Z → Prop, Forall P s → Forall P (trim s)) ∧ (length (trim s) ≤ length s)%nat.
Proof.
  unfold trim. destruct (trim_start_drop s) as [n ->]. destruct (trim_start_drop (rev (drop n s))) as [m ->]. split.
  - intros P Hs. rewrite rev_alt, <- rev_alt. apply Forall_rev, Forall_drop, Forall_rev, Forall_drop, Hs.
  - rewrite length_rev, length_drop, length_rev, length_drop. lia.
Qed.

(** ** The text of a map *)

Definition type_text (t : rule_type) : list Z :=
  match t with
  | Prefix => cstr "prefix" | Okay => cstr "ok" | Bad => cstr "bad"
  | Unsupported => cstr "unsupported" | Map => cstr "map"
  end.

Definition scope_text (s : Scope) : list Z :=
  if sc_client s then if sc_server s then cstr "all" else cstr "client" else cstr "server".

(** [:type:scope:key:prepend:] with a delimiter. *)
Definition print_rule (delim : Z) (r : Rule) : list Z :=
  delim :: type_text (r_type r) ++ delim :: scope_text (r_scope r) ++ delim :: r_key r ++ delim :: r_prepend r ++ [delim].

(** The rules with the space before each. *)
Definition print_rules (items : list (list Z * Z * Rule)) : list Z :=
  concat (map (λ '(ws, delim, r), ws ++ print_rule delim r) items).

(** Text a token can be read back from. *)
Definition token_ok (delim : Z) (s : list Z) : Prop := Forall (λ c, 0 < c < 256) s ∧ delim ∉ s.

Record printable (item : list Z * Z * Rule) : Prop := mk_printable {
  pr_space : Forall (λ c, is_ascii_whitespace c = true) item.1.1;
  pr_delim : is_whitespace item.1.2 = false;
  pr_type : r_type item.2 ≠ Map ∧ token_ok item.1.2 (type_text (r_type item.2));
  pr_scope : (sc_client (r_scope item.2) || sc_server (r_scope item.2)) = true ∧ token_ok item.1.2 (scope_text (r_scope item.2));
  pr_key : token_ok item.1.2 (r_key item.2);
  pr_prepend : token_ok item.1.2 (r_prepend item.2)
}.

Lemma next_token_print delim s rest : token_ok delim s → next_token delim (s ++ delim :: rest) = inr (s, rest).
Proof.
  intros [Hs Hd]. induction Hs as [|c s Hc Hs IH]; cbn; [by rewrite Z.eqb_refl|]. apply not_elem_of_cons in Hd as [Hne Hd].
  rewrite (proj2 (Z.eqb_neq c delim)) by done. rewrite (IH Hd). unfold u8. by rewrite Z.mod_small by lia.
Qed.

Lemma token_nul_free delim s : token_ok delim s → nul_free s.
Proof. intros [H _]. eapply Forall_impl; [exact H|]. cbn. lia. Qed.

Lemma type_text_parse t : type_from_bytes (type_text t) = inr t.
Proof. by destruct t. Qed.

Lemma scope_text_parse s : (sc_client s || sc_server s) = true → scope_from_bytes (scope_text s) = inr s.
Proof. by destruct s as [[] []]. Qed.

Lemma from_tokens_print ws delim r rest : printable (ws, delim, r) →
  from_tokens (print_rule delim r ++ rest) = Ok (inr (r, rest)).
Proof.
  intros [_ _ [Hm Ht] [Hs Hsc] Hk Hp]. cbn [fst snd] in *. unfold print_rule. cbn [app from_tokens].
  repeat (rewrite <- app_assoc; cbn [app]). rewrite (next_token_print _ _ _ Ht). cbn. rewrite type_text_parse. cbn.
  assert (∀ t, rbind (Ok (next_token delim (scope_text (r_scope r) ++ delim :: r_key r ++ delim :: r_prepend r ++ delim :: rest)))
    (λ '(bs, tokens), rbind (Ok (scope_from_bytes bs)) (λ scope, rule_fields delim scope t tokens)) =
    Ok (inr (mk_Rule (r_scope r) t (r_key r) (r_prepend r), rest))) as H.
  { intros t. rewrite (next_token_print _ _ _ Hsc). cbn. rewrite scope_text_parse by done. cbn. unfold rule_fields.
    rewrite (next_token_print _ _ _ Hk). cbn. rewrite CString_new_Ok by by eapply token_nul_free. cbn.
    rewrite (next_token_print _ _ _ Hp). cbn. by rewrite CString_new_Ok by by eapply token_nul_free. }
  destruct r as [sc t k p]. cbn in *. destruct t; try done; apply H.
Qed.

Lemma ascii_is_whitespace c : is_ascii_whitespace c = true → is_whitespace c = true.
Proof.
  unfold is_ascii_whitespace. cbn [existsb]. intros H. rewrite !orb_true_iff, !Z.eqb_eq in H.
  by destruct H as [->|[->|[->|[->|[->|?]]]]].
Qed.

Lemma parse_spaces fuel ws ts acc : Forall (λ c, is_ascii_whitespace c = true) ws →
  parse_rules (length ws + fuel) (ws ++ ts) acc = parse_rules fuel ts acc.
Proof. induction 1 as [|c ws Hc _ IH]; [done|]. cbn [length app parse_rules Nat.add]. by rewrite Hc. Qed.

Lemma parse_rules_print items fuel acc : Forall printable items → (length (print_rules items) ≤ fuel)%nat →
  parse_rules fuel (print_rules items) acc = Ok (inr (acc ++ map snd items)).
Proof.
  intros Hi. revert fuel acc. induction Hi as [|[[ws delim] r] items Hp Hi IH]; intros fuel acc Hf; [by destruct fuel; rewrite app_nil_r|].
  unfold print_rules in *. cbn [map concat] in *. rewrite <- app_assoc. rewrite !length_app in Hf.
  replace fuel with (length ws + (fuel - length ws))%nat by lia. rewrite parse_spaces by apply Hp.
  set (rest := concat (map (λ '(ws, delim, r), ws ++ print_rule delim r) items)) in *.
  assert (1 ≤ length (print_rule delim r))%nat by (unfold print_rule; cbn; lia).
  destruct (fuel - length ws)%nat as [|fuel'] eqn:Ef; [lia|].
  pose proof (from_tokens_print ws delim r rest Hp) as Hft. pose proof (pr_delim _ Hp) as Hd. cbn in Hd.
  unfold print_rule in Hft |- *. cbn [app] in Hft |- *. cbn [parse_rules].
  destruct (is_ascii_whitespace delim) eqn:Ew; [apply ascii_is_whitespace in Ew; congruence|].
  rewrite Hft. cbn [obind]. rewrite bool_decide_false by apply (proj1 (pr_type _ Hp)).
  rewrite IH by lia. by rewrite <- app_assoc.
Qed.

Lemma trim_start_app ws s : Forall (λ c, is_whitespace c = true) ws → trim_start (ws ++ s) = trim_start s.
Proof. induction 1 as [|c ws Hc _ IH]; cbn; [done|]. by rewrite Hc. Qed.

Lemma trim_body lead trail c b b' c' : Forall (λ c, is_whitespace c = true) lead → Forall (λ c, is_whitespace c = true) trail →
  is_whitespace c = false → is_whitespace c' = false → c :: b = b' ++ [c'] → trim (lead ++ (c :: b) ++ trail) = c :: b.
Proof.
  intros Hl Ht Hc Hc' E. unfold trim. rewrite trim_start_app by done.
  change ((c :: b) ++ trail) with (c :: b ++ trail). cbn [trim_start]. rewrite Hc.
  change (c :: b ++ trail) with ((c :: b) ++ trail). rewrite E, rev_app_distr, trim_start_app.
  - rewrite rev_app_distr. cbn [rev app trim_start]. rewrite Hc'. cbn [rev]. by rewrite rev_involutive.
  - rewrite Forall_forall in *. intros x Hx%list_elem_of_In%in_rev%list_elem_of_In. by apply Ht.
Qed.

Lemma print_rules_last items : Forall printable items → items ≠ [] →
  ∃ b c, print_rules items = b ++ [c] ∧ is_whitespace c = false.
Proof.
  intros Hi Hne. destruct (exists_last Hne) as (front & [[ws delim] r] & ->). apply Forall_app in Hi as [_ Hi].
  apply Forall_cons in Hi as [Hi _]. unfold print_rules. rewrite map_app, concat_app. cbn [map concat]. rewrite app_nil_r.
  assert (∃ p, print_rule delim r = p ++ [delim]) as [p ->].
  { unfold print_rule. eexists (delim :: type_text (r_type r) ++ delim :: scope_text (r_scope r) ++ delim :: r_key r ++ delim :: r_prepend r).
    cbn [app]. f_equal. rewrite <- app_assoc. f_equal. cbn [app]. f_equal. rewrite <- app_assoc. f_equal. cbn [app]. f_equal.
    rewrite <- app_assoc. f_equal. }
  set (x := concat _). exists (x ++ ws ++ p), delim. split; [by rewrite <- !app_assoc | apply (pr_delim _ Hi)].
Qed.

(** ** Lists of names *)

(** Names one after the other, each with its final byte 0. *)
Definition nul_list (names : list (list Z)) : list Z := concat (map (λ n, n ++ [0]) names).

Definition name_ok (n : list Z) : Prop := nul_free n ∧ n ≠ [].

Lemma split_nul_app n rest cur : nul_free n → split_nul (n ++ 0 :: rest) cur = (rev cur ++ n) :: split_nul rest [].
Proof.
  intros Hn. revert cur. induction Hn as [|b n Hb _ IH]; intros cur; cbn; [by rewrite app_nil_r|].
  rewrite (proj2 (Z.eqb_neq b 0)) by done. rewrite IH. cbn [rev]. by rewrite <- app_assoc.
Qed.

Lemma split_nul_list names : Forall name_ok names → filter (λ bs, bs ≠ []) (split_nul (nul_list names) []) = names.
Proof.
  induction 1 as [|n names [Hn Hne] _ IH]; [done|]. unfold nul_list in *. cbn [map concat]. rewrite <- app_assoc. cbn [app].
  rewrite split_nul_app by done. cbn [rev app]. rewrite filter_cons_True by done. by rewrite IH.
Qed.

(** What the host names become, one by one. *)
Lemma map_names_list rules names outs acc : Forall2 (λ n o, ∀ acc k, map_names rules (n :: k) acc = map_names rules k (acc ++ o ++ [0])) names outs →
  map_names rules names acc = Ok (inr (acc ++ nul_list outs)).
Proof.
  intros H. revert acc. induction H as [|n o names outs Hno _ IH]; intros acc; [by rewrite app_nil_r|].
  rewrite Hno, IH. unfold nul_list. cbn [map concat]. by rewrite <- !app_assoc.
Qed.

(** The rules a [map] rule stands for. *)
Definition map_rules (key prepend : list Z) : list Rule :=
  match expand_map_type (mk_Rule ALL Map key prepend) with Ok rs => rs | Fault _ => [] end.

Lemma map_rules_eq key prepend : map_rules key prepend =
  mk_Rule ALL Prefix key prepend ::
    if bool_decide (key = []) then [mk_Rule ALL Bad [] []] else [mk_Rule ALL Bad prepend key; mk_Rule ALL Okay [] []].
Proof. unfold map_rules, expand_map_type. rewrite bool_decide_true by done. cbn. by case_bool_decide. Qed.

Lemma map_rules_client key prepend name : nul_free prepend → nul_free name →
  map_client_xattr (map_rules key prepend) name = Ok (inr
    (if starts_with name key then Pass (prepend ++ name)
     else if starts_with name prepend then Deny else Pass name)).
Proof.
  intros Hp Hn. rewrite map_rules_eq. unfold map_client_xattr, find_rule.
  case_bool_decide as Hk; cbn [List.find]; unfold matches; cbn [r_scope r_key r_prepend r_type scope_contains ALL CLIENT sc_client sc_server implb andb negb].
  - rewrite Hk. cbn [starts_with]. cbn [r_type r_prepend]. by rewrite CString_new_Ok by by apply Forall_app.
  - destruct (starts_with name key); cbn [r_type r_prepend]; [by rewrite CString_new_Ok by by apply Forall_app|].
    by destruct (starts_with name prepend).
Qed.

(** A name the client may use comes back as the client knows it. *)
Lemma map_rules_server key prepend name n' acc k :
  (n' = prepend ++ name ∧ starts_with name key = true) ∨
  (n' = name ∧ starts_with name key = false ∧ starts_with name prepend = false) →
  map_names (map_rules key prepend) (n' :: k) acc = map_names (map_rules key prepend) k (acc ++ name ++ [0]).
Proof.
  intros Hn. rewrite map_rules_eq. cbn [map_names]. unfold find_rule.
  assert (starts_with n' prepend = true ∧ n' = prepend ++ name ∨ starts_with n' prepend = false ∧ starts_with n' key = false ∧ key ≠ [] ∧ n' = name) as H.
  { destruct Hn as [[-> _]|(-> & Hk & Hp)]; [left; by rewrite starts_with_app | right]. split_and!; try done. by intros ->. }
  case_bool_decide as Hk; cbn [List.find]; unfold matches; cbn [r_scope r_key r_prepend r_type scope_contains ALL SERVER sc_client sc_server implb andb negb];
    (destruct H as [[E ->]|(E & E' & Hne & ->)]; rewrite E, ?E'; cbn [r_type r_prepend]; try done).
  - rewrite length_app, (proj2 (Nat.leb_le _ _)) by lia. cbn [ASSERT obind]. by rewrite drop_app_length.
  - rewrite length_app, (proj2 (Nat.leb_le _ _)) by lia. cbn [ASSERT obind]. by rewrite drop_app_length.
Qed.

(** ** Properties *)

(** C40: The parser of extended attribute maps terminates on every text, in
    one of three ways: with an error; with a map that is not empty, in which no
    [map] rule is left and every key and prepend is a C string, so that
    [map_client_xattr] and [map_server_xattrlist] have no rule to panic on; or
    with a panic, and then a field of the text holds a character whose lowest
    byte is 0 (such as U+0100). *)
Theorem xattr_parse_total (input : list Z) :
  match try_from input with
  | Ok (inl _) => True
  | Ok (inr rules) => rules ≠ [] ∧ Forall map_rule_ok rules
  | Fault f => f = AssertFail ∧ bad_field (trim input)
  end.
Proof.
  unfold try_from. destruct (parse_rules_total (length (trim input)) (trim input) [])
    as [(v & -> & Hv)|[-> ?]]; [done | constructor | | done].
  cbn [obind]. by destruct v as [e|[|r rs]].
Qed.

Lemma xattr_parse_total_witness :
  (∃ rules, try_from (cstr ":map:trusted.:user.virtiofs.:") = Ok (inr rules) ∧
     rules ≠ [] ∧ Forall map_rule_ok rules) ∧
  try_from (cstr ":ok:all:" ++ [256] ++ cstr "::") = Fault AssertFail.
Proof.
  split; [|by vm_compute].
  destruct (try_from (cstr ":map:trusted.:user.virtiofs.:")) as [[e|rules]|f] eqn:E;
    [by vm_compute in E | | by vm_compute in E].
  exists rules. split; [reflexivity|].
  pose proof (xattr_parse_total (cstr ":map:trusted.:user.virtiofs.:")) as H. rewrite E in H. exact H.
Defined.

(** C39: Parsing is the inverse of printing: rules that are written out with
    any delimiters that do not occur in their fields, any ASCII white space
    before each and any white space around the whole, are read back as they
    were. *)
Theorem xattr_print_parse (lead trail : list Z) (items : list (list Z * Z * Rule))
    (Hl : Forall (λ c, is_whitespace c = true) lead) (Ht : Forall (λ c, is_whitespace c = true) trail)
    (Hi : Forall printable items) (Hne : items ≠ []) :
  try_from (lead ++ print_rules items ++ trail) = Ok (inr (map snd items)).
Proof.
  destruct items as [|[[ws delim] r] items]; [done|]. apply Forall_cons in Hi as [Hp Hi].
  assert (printable ([], delim, r)) as Hp' by (destruct Hp; split; try done; constructor).
  set (items' := ([], delim, r) :: items). assert (Forall printable items') as Hi' by by constructor.
  destruct (print_rules_last items' Hi' ltac:(done)) as (b' & c' & E & Hc').
  assert (∃ b, print_rules items' = delim :: b) as [b Eb] by (unfold print_rules; cbn; eauto).
  assert (print_rules ((ws, delim, r) :: items) = ws ++ print_rules items') as -> by (unfold print_rules, items'; cbn [map concat]; by rewrite <- app_assoc).
  assert (trim (lead ++ (ws ++ print_rules items') ++ trail) = print_rules items') as Htrim.
  { rewrite app_assoc, (app_assoc lead), <- (app_assoc (lead ++ ws)), Eb. apply (trim_body (lead ++ ws) trail delim b b' c'); try done.
    - apply Forall_app. split; [done|]. eapply Forall_impl; [apply (pr_space _ Hp)|]. cbn. apply ascii_is_whitespace.
    - apply (pr_delim _ Hp).
    - congruence. }
  unfold try_from. rewrite Htrim, (parse_rules_print items' _ [] Hi') by lia. done.
Qed.

Lemma xattr_print_parse_witness :
  try_from (cstr " /prefix/all/trusted./user.virtiofs./ :ok:all:::") =
    Ok (inr [mk_Rule ALL Prefix (cstr "trusted.") (cstr "user.virtiofs."); mk_Rule ALL Okay [] []]).
Proof.
  apply (xattr_print_parse (cstr " ") [] [([], 47, mk_Rule ALL Prefix (cstr "trusted.") (cstr "user.virtiofs.")); (cstr " ", 58, mk_Rule ALL Okay [] [])]).
  - repeat constructor.
  - constructor.
  - repeat apply Forall_cons_2; try apply Forall_nil_2; split; cbn [fst snd r_type r_scope r_key r_prepend];
      try (split; [discriminate || reflexivity |]); try (apply (bool_decide_unpack _); vm_compute; exact I); try reflexivity.
  - discriminate.
Defined.

(** C13: A [map] rule isolates the guest without losing its attributes:
    whatever list of names the guest may use (each of them passes, to some
    host name), the listing of those host names is translated back to exactly
    the names of the guest, in order; a name is denied exactly when it lacks
    the key and has the reserved prefix; and a host name the guest reaches
    has the reserved prefix or lacks the key. *)
Theorem xattr_map_roundtrip (key prepend : list Z) (names hosts : list (list Z))
    (Hp : nul_free prepend) (Hn : Forall name_ok names) (Hne : names ≠ [])
    (Hmap : Forall2 (λ n h, map_client_xattr (map_rules key prepend) n = Ok (inr (Pass h))) names hosts) :
  map_server_xattrlist (map_rules key prepend) (nul_list hosts) = Ok (inr (nul_list names)) ∧
  Forall (λ h, starts_with h prepend = true ∨ starts_with h key = false) hosts ∧
  ∀ name, nul_free name →
    (map_client_xattr (map_rules key prepend) name = Ok (inr Deny) ↔
     starts_with name key = false ∧ starts_with name prepend = true).
Proof.
  assert (Forall2 (λ n h, name_ok n ∧ ((h = prepend ++ n ∧ starts_with n key = true) ∨
    (h = n ∧ starts_with n key = false ∧ starts_with n prepend = false))) names hosts) as H.
  { clear Hne. induction Hmap as [|n h names hosts Hnh _ IH]; constructor; apply Forall_cons in Hn as [Hn Hns]; [|by apply IH].
    split; [done|]. rewrite map_rules_client in Hnh by (done || apply Hn).
    destruct (starts_with n key); [left; by injection Hnh as <-|]. destruct (starts_with n prepend); [done|]. right. by injection Hnh as <-. }
  split_and!.
  - unfold map_server_xattrlist. rewrite split_nul_list.
    2:{ clear -H Hp. induction H as [|n h names hosts [[Hn Hne] Hnh] _ IH]; constructor; [|done]. destruct Hnh as [[-> _]|[-> _]]; [|done].
        split; [by apply Forall_app|]. by intros [_ ?]%app_nil. }
    rewrite (map_names_list _ hosts names).
    + cbn [obind app]. destruct names as [|[|c n] names]; [done| |done]. by apply Forall_cons in Hn as [[_ ?] _].
    + apply Forall2_flip. eapply Forall2_impl; [exact H|]. intros n h [_ Hnh] acc k. by apply map_rules_server.
  - clear -H. induction H as [|n h names hosts [_ Hnh] _ IH]; constructor; [|done].
    destruct Hnh as [[-> _]|(-> & ? & ?)]; [left; apply starts_with_app | by right].
  - intros name Hname. rewrite map_rules_client by done. destruct (starts_with name key), (starts_with name prepend); split; try done; by intros [? ?].
Qed.

Lemma xattr_map_roundtrip_witness :
  map_server_xattrlist (map_rules (cstr "trusted.") (cstr "user.virtiofs.")) (nul_list [cstr "user.virtiofs.trusted.a"; cstr "user.b"]) =
    Ok (inr (nul_list [cstr "trusted.a"; cstr "user.b"])).
Proof.
  apply (xattr_map_roundtrip (cstr "trusted.") (cstr "user.virtiofs.") [cstr "trusted.a"; cstr "user.b"]).
  - apply (bool_decide_unpack _). vm_compute. exact I.
  - apply (bool_decide_unpack _). vm_compute. exact I.
  - discriminate.
  - repeat constructor.
Defined.
