(* ===== verification/InodeStore.v ===== *)
(** * The inode store of kfsd

    [src/kfsd/src/passthrough/inode_store.rs]: the inodes the server knows,
    with their reference counts, found by FUSE inode number, by the numbers
    of the host file system or by file handle.  Threads share the inodes
    through [Arc]s, which are locations here.  The calls that decrement a
    count are written as the sequence of their atomic accesses, since other
    threads may increment the same count in between ([InodeRefs]).  The
    migration info of an inode is behind a mutex; [info_wanted] names the one
    that the next access has to wait for.  A failing [unwrap] or [assert!] is
    a fault. *)

From S2P Require Import Prelude.
From stdpp Require Import base numbers list gmap sorting.
From Stdlib Require Import ZArith Lia.

Open Scope Z_scope.
Open Scope kfs_scope.

(** ** Data *)

Definition Inode : Set := Z.
Definition arc : Set := positive.

(** Inode number, device and mount. *)
Record InodeIds := mk_InodeIds {
  ii_ino : Z;
  ii_dev : Z;
  ii_mnt_id : Z
}.

Instance inode_ids_eq_dec : EqDecision InodeIds.
Proof. solve_decision. Defined.
Instance inode_ids_countable : Countable InodeIds.
Proof.
  apply (inj_countable' (λ i, (ii_ino i, ii_dev i, ii_mnt_id i)) (λ '(a, b, c), mk_InodeIds a b c)). by intros [].
Defined.

(** Mount and the bytes of the kernel's handle. *)
Definition FileHandle : Set := Z * list Z.

Inductive FileOrHandle :=
  | File (fd : Z)
  | Handle (h : FileHandle)
  | Invalid.

(** A strong reference is the [Arc] it holds. *)
Inductive InodeLocation :=
  | RootNode
  | Path (parent : arc) (filename : list Z).

Record InodeData := mk_InodeData {
  id_inode : Inode;
  id_file_or_handle : FileOrHandle;
  id_refcount : Z;
  id_ids : InodeIds;
  id_mode : Z;
  id_migration_info : option InodeLocation
}.

(** The three maps, and what the [Arc]s of the program point to. *)
Record InodeStoreInner := mk_InodeStoreInner {
  st_arcs : gmap arc InodeData;
  st_data : gmap Inode arc;
  st_by_ids : gmap InodeIds Inode;
  st_by_handle : gmap FileHandle Inode
}.

Definition set_refcount (rc : Z) (d : InodeData) : InodeData :=
  mk_InodeData (id_inode d) (id_file_or_handle d) rc (id_ids d) (id_mode d) (id_migration_info d).
Definition set_migration_info (m : option InodeLocation) (d : InodeData) : InodeData :=
  mk_InodeData (id_inode d) (id_file_or_handle d) (id_refcount d) (id_ids d) (id_mode d) m.
Definition set_arc (a : arc) (d : InodeData) (s : InodeStoreInner) : InodeStoreInner :=
  mk_InodeStoreInner (<[a := d]> (st_arcs s)) (st_data s) (st_by_ids s) (st_by_handle s).

Definition deref (s : InodeStoreInner) (a : arc) : outcome InodeData :=
  match st_arcs s !! a with
  | Some d => Ok d
  | None => Fault Undefined
  end.

(** The strong reference of a migration info. *)
Definition info_parent (m : option InodeLocation) : option arc :=
  match m with
  | Some (Path parent _) => Some parent
  | _ => None
  end.

(** ** The maps *)

Definition insert_new (a : arc) (data : InodeData) (s : InodeStoreInner) : outcome InodeStoreInner :=
  let by_ids := <[id_ids data := id_inode data]> (st_by_ids s) in
  let by_handle :=
    match id_file_or_handle data with
    | Handle h => <[h := id_inode data]> (st_by_handle s)
    | _ => st_by_handle s
    end in
  let existing := st_data s !! id_inode data in
  ASSERT (bool_decide (existing = None)) ;;
  Ok (mk_InodeStoreInner (st_arcs s) (<[id_inode data := a]> (st_data s)) by_ids by_handle).

Definition get (s : InodeStoreInner) (inode : Inode) : option arc := st_data s !! inode.
Definition contains (s : InodeStoreInner) (inode : Inode) : bool := bool_decide (is_Some (st_data s !! inode)).
Definition inode_by_ids (s : InodeStoreInner) (ids : InodeIds) : option Inode := st_by_ids s !! ids.
Definition inode_by_handle (s : InodeStoreInner) (h : FileHandle) : option Inode := st_by_handle s !! h.
Definition is_empty (s : InodeStoreInner) : bool := bool_decide (st_data s = ∅).

(** [.map(|inode| self.get(inode).unwrap())]. *)
Definition get_unwrap (s : InodeStoreInner) (inode : option Inode) : outcome (option arc) :=
  match inode with
  | None => Ok None
  | Some inode =>
    match get s inode with
    | Some a => Ok (Some a)
    | None => Fault AssertFail
    end
  end.
Definition get_by_ids (s : InodeStoreInner) (ids : InodeIds) : outcome (option arc) :=
  get_unwrap s (inode_by_ids s ids).
Definition get_by_handle (s : InodeStoreInner) (h : FileHandle) : outcome (option arc) :=
  get_unwrap s (inode_by_handle s h).

(** [remove]: the inode leaves the three maps, and the strong reference of
    its migration info is to be dropped.  [lock] waits until no other thread
    has the mutex of the migration info: [info_wanted] below. *)
Definition remove (inode : Inode) (s : InodeStoreInner) : outcome (InodeStoreInner * option arc) :=
  match st_data s !! inode with
  | None => Ok (s, None)
  | Some a =>
    data ← deref s a;
    let by_handle :=
      match id_file_or_handle data with
      | Handle h => delete h (st_by_handle s)
      | _ => st_by_handle s
      end in
    Ok (mk_InodeStoreInner (<[a := set_migration_info None data]> (st_arcs s)) (delete inode (st_data s))
          (delete (id_ids data) (st_by_ids s)) by_handle,
        info_parent (id_migration_info data))
  end.

(** ** Decrements

    The holder of the write lock works on a list of calls of [forget_one].
    The head is under way: the count is loaded, then exchanged for the new
    one if it is still the same, then the inode is removed if the new count
    is 0.  What [remove] drops is the next call.  [clear_migration_info] first
    goes through the inodes, one at a time, and takes the strong references
    out of their migration infos, to be dropped afterwards in this order. *)

Inductive phase :=
  | Sweep (inodes : list arc)
  | Load
  | Exchange (a : arc) (refcount : Z)
  | Remove.

Record holder := mk_holder {
  ho_todo : list (Inode * Z);
  ho_phase : phase
}.

Definition drop_unlocked (s : InodeStoreInner) (a : arc) : outcome (Inode * Z) :=
  inode_data ← deref s a; Ok (id_inode inode_data, 1).

(** [let Some(mig_info) = inode.migration_info.lock().unwrap().take()], for
    the next inode of [clear_migration_info]. *)
Definition take_info (a : arc) (inodes : list arc) (todo : list (Inode * Z)) (s : InodeStoreInner) :
    outcome (holder * InodeStoreInner) :=
  inode ← deref s a;
  let s := set_arc a (set_migration_info None inode) s in
  calls ← match info_parent (id_migration_info inode) with
          | None => Ok []
          | Some parent => call ← drop_unlocked s parent; Ok [call]
          end;
  Ok (mk_holder (todo ++ calls) (match inodes with [] => Load | _ => Sweep inodes end), s).

(** One atomic access of [forget_one]. *)
Definition forget_one (c : holder) (s : InodeStoreInner) : outcome (holder * InodeStoreInner) :=
  match ho_todo c with
  | [] => Ok (c, s)
  | (inode, count) :: todo =>
    match ho_phase c with
    | Sweep _ => Ok (c, s)
    | Load =>
      match get s inode with
      | None => Ok (mk_holder todo Load, s)
      | Some a => data ← deref s a; Ok (mk_holder (ho_todo c) (Exchange a (id_refcount data)), s)
      end
    | Exchange a refcount =>
      data ← deref s a;
      let new_count := Z.max 0 (refcount - count) in
      if id_refcount data =? refcount then
        let s := set_arc a (set_refcount new_count data) s in
        if new_count =? 0 then Ok (mk_holder (ho_todo c) Remove, s)
        else Ok (mk_holder todo Load, s)
      else Ok (mk_holder (ho_todo c) Load, s)
    | Remove =>
      ' (s, parent) ← remove inode s;
      match parent with
      | None => Ok (mk_holder todo Load, s)
      | Some p => call ← drop_unlocked s p; Ok (mk_holder (call :: todo) Load, s)
      end
    end
  end.

(** [forget_many], and [forget_one] of the store for a list of one call. *)
Definition forget_many (inodes : list (Inode * Z)) : holder := mk_holder inodes Load.

Definition key_le (x y : Inode * arc) : Prop := fst x ≤ fst y.
Instance key_le_dec x y : Decision (key_le x y).
Proof. unfold key_le. apply _. Defined.

(** The values of the map in the order of the inode numbers. *)
Definition values (s : InodeStoreInner) : list arc :=
  map snd (merge_sort key_le (map_to_list (st_data s))).

Definition clear_migration_info (s : InodeStoreInner) : holder :=
  mk_holder [] (match values s with [] => Load | _ => Sweep (values s) end).

(** The next access of the holder. *)
Definition holder_access (c : holder) (s : InodeStoreInner) : outcome (holder * InodeStoreInner) :=
  match ho_phase c with
  | Sweep (a :: inodes) => take_info a inodes (ho_todo c) s
  | _ => forget_one c s
  end.

Definition finished (c : holder) : bool :=
  match ho_phase c, ho_todo c with
  | Sweep (_ :: _), _ => false
  | _, [] => true
  | _, _ => false
  end.

(** The inode whose migration info the next access locks: it waits, with the
    write lock held, while another thread has that mutex.  [remove] locks it
    after the maps have changed, which no other thread can see. *)
Definition info_wanted (c : holder) (s : InodeStoreInner) : option arc :=
  match ho_phase c, ho_todo c with
  | Sweep (a :: _), _ => Some a
  | Remove, (inode, _) :: _ => get s inode
  | _, _ => None
  end.

(** What [clear] does after [clear_migration_info]. *)
Definition clear (s : InodeStoreInner) : InodeStoreInner := mk_InodeStoreInner (st_arcs s) ∅ ∅ ∅.

(** ** Increments *)

Inductive store_error :=
  | NotFound
  | DoubleUse (inode : Inode).

(** [fetch_update]; the addition wraps in the release profile. *)
Definition increment_refcount_for (a : arc) (s : InodeStoreInner) : outcome (store_error + InodeStoreInner) :=
  d ← deref s a;
  let rc := id_refcount d in
  if 0 <? rc then Ok (inr (set_arc a (set_refcount (u64 (rc + 1)) d) s))
  else Ok (inl NotFound).

Definition new_with_data (a : arc) (s : InodeStoreInner) : outcome (store_error + (arc * InodeStoreInner)) :=
  r ← increment_refcount_for a s;
  match r with
  | inl e => Ok (inl e)
  | inr s => Ok (inr (a, s))
  end.

(** [clone], of a strong reference. *)
Definition clone (a : arc) (s : InodeStoreInner) : outcome (arc * InodeStoreInner) :=
  r ← increment_refcount_for a s;
  match r with
  | inl _ => Fault AssertFail
  | inr s => Ok (a, s)
  end.

(** By handle; else by numbers, if a file is open. *)
Definition claim_inode (handle : option FileHandle) (ids : InodeIds) (s : InodeStoreInner) :
    outcome (store_error + (arc * InodeStoreInner)) :=
  by_handle ← match handle with Some h => get_by_handle s h | None => Ok None end;
  data ← match by_handle with
         | Some a => Ok (Some a)
         | None =>
           r ← get_by_ids s ids;
           match r with
           | None => Ok None
           | Some a =>
             d ← deref s a;
             Ok match id_file_or_handle d with File _ => Some a | _ => None end
           end
         end;
  match data with
  | None => Ok (inl NotFound)
  | Some a => new_with_data a s
  end.

(** [Arc::new] gives the new inode the location [a]. *)
Definition get_or_insert (a : arc) (data : InodeData) (s : InodeStoreInner) :
    outcome (store_error + (arc * InodeStoreInner)) :=
  let handle := match id_file_or_handle data with Handle h => Some h | _ => None end in
  r ← claim_inode handle (id_ids data) s;
  match r with
  | inr r => Ok (inr r)
  | inl _ =>
    if contains s (id_inode data) then Ok (inl (DoubleUse (id_inode data)))
    else
      let data := set_refcount 1 data in
      s ← insert_new a data (set_arc a data s);
      Ok (inr (a, s))
  end.

Definition new_inode (a : arc) (data : InodeData) (s : InodeStoreInner) : outcome (store_error + InodeStoreInner) :=
  if contains s (id_inode data) then Ok (inl (DoubleUse (id_inode data)))
  else s ← insert_new a data (set_arc a data s); Ok (inr s).
