(* ===== verification/InodeRefs.v ===== *)
(** * References to inodes, with all threads

    [InodeStore] under concurrent use.  A state has the store, the holder of
    its write lock, the [Arc]s threads have looked up and not yet counted, the
    strong references of the server, the lookups the guest has been given and
    the mutexes of migration infos that threads hold.  Threads that increment
    a count do not take the write lock, so their steps may fall between any
    two steps of the holder; the holder waits for the mutex of a migration
    info.  A guest is polite when it forgets only what it was given. *)

From stdpp Require Import base numbers list gmap sorting.
From Stdlib Require Import ZArith Lia.
From S2P Require Import Prelude InodeStore.

Open Scope Z_scope.
Open Scope kfs_scope.

(** ** States and steps

    [y_info] has the inodes whose migration info a thread has locked, with
    the reference that the thread took out of the info and drops, which takes
    the write lock, before it unlocks the info. *)

Record sys := mk_sys {
  y_store : InodeStoreInner;
  y_lock : option (holder * bool);
  y_weak : list arc;
  y_refs : arc → Z;
  y_guest : arc → Z;
  y_info : gmap arc (option arc)
}.

Definition bump (f : arc → Z) (o : option arc) (n : Z) (a : arc) : Z :=
  if decide (o = Some a) then f a + n else f a.

(** What a list of calls will take from the count of [a]. *)
Fixpoint pend (s : InodeStoreInner) (todo : list (Inode * Z)) (a : arc) : Z :=
  match todo with
  | [] => 0
  | (inode, count) :: todo => (if decide (get s inode = Some a) then count else 0) + pend s todo a
  end.

Definition info_owned (refs : arc → Z) (m : option InodeLocation) : Prop :=
  ∀ p, info_parent m = Some p → 0 < refs p.

Inductive event := Holder | Other.

Instance event_eq_dec : EqDecision event.
Proof. solve_decision. Defined.

(** The count of [a] does not wrap when it goes up. *)
Definition room (a : arc) (s : InodeStoreInner) : Prop :=
  ∀ d, st_arcs s !! a = Some d → id_refcount d + 1 < 2 ^ 64.

Inductive step (polite : bool) : event → sys → sys → Prop :=
  (** The two halves of [get_strong]. *)
  | step_get s ws r g h inode a :
      get s inode = Some a →
      step polite Other (mk_sys s None ws r g h) (mk_sys s None (a :: ws) r g h)
  | step_upgrade s l ws ws' a r g h res :
      room a s → increment_refcount_for a s = Ok res →
      step polite Other (mk_sys s l (ws ++ a :: ws') r g h)
        match res with
        | inr s' => mk_sys s' l (ws ++ ws') (bump r (Some a) 1) g h
        | inl _ => mk_sys s l (ws ++ ws') r g h
        end
  | step_clone s l ws r g h a b s' :
      0 < r a → room a s → clone a s = Ok (b, s') →
      step polite Other (mk_sys s l ws r g h) (mk_sys s' l ws (bump r (Some b) 1) g h)
  | step_claim s ws r g h handle ids a s' :
      room a s → claim_inode handle ids s = Ok (inr (a, s')) →
      step polite Other (mk_sys s None ws r g h) (mk_sys s' None ws (bump r (Some a) 1) g h)
  (** The reference in the data moves into the store, or stays with the
      caller if the inode was there. *)
  | step_get_or_insert s ws r g h a data b s' :
      st_arcs s !! a = None → info_owned r (id_migration_info data) → room b s →
      get_or_insert a data s = Ok (inr (b, s')) →
      step polite Other (mk_sys s None ws r g h)
        (mk_sys s' None ws
           (bump (if decide (b = a) then bump r (info_parent (id_migration_info data)) (-1) else r) (Some b) 1) g h)
  (** The count of the data is the guest's. *)
  | step_new_inode s ws r g h a data s' :
      st_arcs s !! a = None → info_owned r (id_migration_info data) → 0 < id_refcount data →
      new_inode a data s = Ok (inr s') →
      step polite Other (mk_sys s None ws r g h)
        (mk_sys s' None ws (bump r (info_parent (id_migration_info data)) (-1)) (bump g (Some a) (id_refcount data)) h)
  | step_leak s l ws r g h a :
      0 < r a →
      step polite Other (mk_sys s l ws r g h) (mk_sys s l ws (bump r (Some a) (-1)) (bump g (Some a) 1) h)
  (** A thread that holds a reference to [b] locks its migration info, sets
      it, drops the reference of the old one and unlocks it, as
      [update_inode_migration_info] does. *)
  | step_lock_info s l ws r g h b :
      0 < r b → h !! b = None →
      step polite Other (mk_sys s l ws r g h) (mk_sys s l ws r g (<[b := None]> h))
  | step_set_info s l ws r g h b d m :
      0 < r b → h !! b = Some None → deref s b = Ok d → info_owned r m →
      step polite Other (mk_sys s l ws r g h)
        (mk_sys (set_arc b (set_migration_info m d) s) l ws
           (bump (bump r (info_parent m) (-1)) (info_parent (id_migration_info d)) 1) g
           (<[b := info_parent (id_migration_info d)]> h))
  | step_drop_info s ws r g h b a call :
      h !! b = Some (Some a) → 0 < r a → drop_unlocked s a = Ok call →
      step polite Other (mk_sys s None ws r g h)
        (mk_sys s (Some (forget_many [call], false)) ws (bump r (Some a) (-1)) g (<[b := None]> h))
  | step_unlock_info s l ws r g h b :
      h !! b = Some None →
      step polite Other (mk_sys s l ws r g h) (mk_sys s l ws r g (delete b h))
  (** The calls that take the write lock for several accesses. *)
  | step_drop s ws r g h a call :
      0 < r a → drop_unlocked s a = Ok call →
      step polite Other (mk_sys s None ws r g h)
        (mk_sys s (Some (forget_many [call], false)) ws (bump r (Some a) (-1)) g h)
  | step_forget s ws r g h calls :
      Forall (λ c, 0 ≤ c.2) calls → (polite = true → ∀ a, pend s calls a ≤ g a) →
      step polite Other (mk_sys s None ws r g h)
        (mk_sys s (Some (forget_many calls, false)) ws r (λ a, Z.max 0 (g a - pend s calls a)) h)
  | step_clear_info s ws r g h :
      step polite Other (mk_sys s None ws r g h) (mk_sys s (Some (clear_migration_info s, false)) ws r g h)
  | step_clear s ws r g h :
      polite = false →
      step polite Other (mk_sys s None ws r g h) (mk_sys s (Some (clear_migration_info s, true)) ws r g h)
  | step_holder s c b ws r g h c' s' :
      finished c = false → (∀ a, info_wanted c s = Some a → h !! a = None) → holder_access c s = Ok (c', s') →
      step polite Holder (mk_sys s (Some (c, b)) ws r g h) (mk_sys s' (Some (c', b)) ws r g h)
  | step_unlock s c (b : bool) ws r g h :
      finished c = true →
      step polite Holder (mk_sys s (Some (c, b)) ws r g h) (mk_sys (if b then clear s else s) None ws r g h).

Definition sys0 : sys := mk_sys (mk_InodeStoreInner ∅ ∅ ∅ ∅) None [] (λ _, 0) (λ _, 0) ∅.

Inductive steps (polite : bool) : list event → sys → sys → Prop :=
  | steps_nil y : steps polite [] y y
  | steps_snoc evs e y1 y2 y3 : steps polite evs y1 y2 → step polite e y2 y3 → steps polite (evs ++ [e]) y1 y3.

(** Runs in which the write lock is held before every step. *)
Inductive locked_run (polite : bool) : list event → sys → sys → Prop :=
  | locked_nil y : locked_run polite [] y y
  | locked_cons e evs y1 y2 y3 :
      y_lock y1 ≠ None → step polite e y1 y2 → locked_run polite evs y2 y3 → locked_run polite (e :: evs) y1 y3.

(** ** The maps are consistent *)

Definition valid (s : InodeStoreInner) (a : arc) : Prop := is_Some (st_arcs s !! a).

Definition stored (s : InodeStoreInner) (i : Inode) (P : InodeData → Prop) : Prop :=
  ∃ a d, st_data s !! i = Some a ∧ st_arcs s !! a = Some d ∧ P d.

Record store_ok (s : InodeStoreInner) : Prop := mk_store_ok {
  so_data i a : st_data s !! i = Some a → ∃ d, st_arcs s !! a = Some d ∧ id_inode d = i;
  so_ids x i : st_by_ids s !! x = Some i → stored s i (λ d, id_ids d = x);
  so_handle h i : st_by_handle s !! h = Some i → stored s i (λ d, id_file_or_handle d = Handle h);
  so_info b d p : st_arcs s !! b = Some d → info_parent (id_migration_info d) = Some p → valid s p
}.

Definition same_id (d d' : InodeData) : Prop :=
  id_inode d' = id_inode d ∧ id_ids d' = id_ids d ∧ id_file_or_handle d' = id_file_or_handle d.

Definition holder_ok (s : InodeStoreInner) (c : holder) : Prop :=
  match ho_phase c with
  | Sweep inodes => inodes ≠ [] ∧ Forall (valid s) inodes
  | Load => True
  | Exchange a _ => ∃ i n todo, ho_todo c = (i, n) :: todo ∧ get s i = Some a
  | Remove => ∃ i n todo, ho_todo c = (i, n) :: todo ∧ is_Some (get s i)
  end.

Record sys_ok (y : sys) : Prop := mk_sys_ok {
  yo_store : store_ok (y_store y);
  yo_weak : Forall (valid (y_store y)) (y_weak y);
  yo_refs a : 0 < y_refs y a → valid (y_store y) a;
  yo_lock c b : y_lock y = Some (c, b) → holder_ok (y_store y) c
}.

Lemma deref_Ok s a d : deref s a = Ok d ↔ st_arcs s !! a = Some d.
Proof. unfold deref. destruct (st_arcs s !! a); split; by intros [= ->]. Qed.

Lemma valid_deref s a : valid s a → ∃ d, deref s a = Ok d.
Proof. intros [d Hd]. exists d. by apply deref_Ok. Qed.

(** Changing the content of an [Arc]. *)
Lemma valid_set s a d b : valid s b → valid (set_arc a d s) b.
Proof. intros H. unfold valid. cbn. apply lookup_insert_is_Some. destruct (decide (a = b)); eauto. Qed.

Lemma stored_set s a d' i P : (∀ d, st_arcs s !! a = Some d → P d → P d') → stored s i P → stored (set_arc a d' s) i P.
Proof.
  intros HP (b & e & Hb & He & Hp). exists b. cbn. destruct (decide (a = b)) as [->|Hne].
  - exists d'. rewrite lookup_insert_eq. eauto.
  - exists e. by rewrite lookup_insert_ne.
Qed.

Lemma store_ok_set s a d' : store_ok s → (∀ d, st_arcs s !! a = Some d → same_id d d') →
  (∀ p, info_parent (id_migration_info d') = Some p → valid s p) → store_ok (set_arc a d' s).
Proof.
  intros [Hd Hi Hh Hp] Hsame Hinfo. split.
  - intros i b Hb. destruct (stored_set s a d' i (λ d, id_inode d = i)) as (b' & e & Hb' & He & Hie).
    + intros d Ha <-. by destruct (Hsame d Ha) as (-> & _).
    + destruct (Hd i b Hb) as (d & ? & ?). by exists b, d.
    + cbn in *. assert (b' = b) as -> by congruence. eauto.
  - intros x i Hx. apply stored_set; [|by apply Hi]. intros d Ha <-. by destruct (Hsame d Ha) as (_ & -> & _).
  - intros h i Hx. apply stored_set; [|by apply Hh]. intros d Ha Hdh. by destruct (Hsame d Ha) as (_ & _ & ->).
  - intros b d p Hb Hbp. apply valid_set. cbn in Hb. apply lookup_insert_Some in Hb as [[_ <-]|[_ Hb]]; eauto.
Qed.

Lemma store_ok_refcount s a d n : store_ok s → st_arcs s !! a = Some d → store_ok (set_arc a (set_refcount n d) s).
Proof.
  intros Hok Ha. apply store_ok_set; [done| |].
  - intros d' Ha'. assert (d' = d) as -> by congruence. done.
  - intros p Hp. by eapply (so_info s Hok).
Qed.

(** A new inode. *)
Lemma insert_new_inv a data s s' : insert_new a data s = Ok s' →
  st_data s !! id_inode data = None ∧ st_arcs s' = st_arcs s ∧ st_data s' = <[id_inode data := a]> (st_data s) ∧
  st_by_ids s' = <[id_ids data := id_inode data]> (st_by_ids s) ∧
  (∀ h, st_by_handle s' !! h = Some (id_inode data) ∧ id_file_or_handle data = Handle h ∨
        st_by_handle s' !! h = st_by_handle s !! h).
Proof.
  unfold insert_new. case_bool_decide as Hn; [|done]. intros [= <-]. cbn. split_and!; try done.
  intros h. destruct (id_file_or_handle data) as [|h'|]; [by right| |by right].
  destruct (decide (h' = h)) as [->|]; [left; by rewrite lookup_insert_eq | right; by rewrite lookup_insert_ne].
Qed.

Lemma stored_insert a data s s' i P : insert_new a data s = Ok s' → stored s i P → stored s' i P.
Proof.
  intros (Hn & Ha & Hd & _)%insert_new_inv (b & e & Hb & He & Hp). exists b, e. rewrite Ha, Hd.
  by rewrite lookup_insert_ne by congruence.
Qed.

Lemma insert_new_ok a data s s' : store_ok s → st_arcs s !! a = Some data → insert_new a data s = Ok s' → store_ok s'.
Proof.
  intros [Hd Hi Hh Hp] Ha Hins. pose proof (λ i P, stored_insert a data s s' i P Hins) as Hold.
  apply insert_new_inv in Hins as (Hn & Harcs & Hdata & Hids & Hhandle).
  assert (∀ P : InodeData → Prop, P data → stored s' (id_inode data) P) as Hnew.
  { intros P HP. exists a, data. rewrite Harcs, Hdata, lookup_insert_eq. done. }
  split.
  - intros i b. rewrite Hdata, Harcs. intros [[<- <-]|[_ Hb]]%lookup_insert_Some; eauto.
  - intros x i. rewrite Hids. intros [[<- <-]|[_ Hb]]%lookup_insert_Some; [by apply Hnew | by apply Hold, Hi].
  - intros h i Hhi. destruct (Hhandle h) as [[E Hdh]|E]; rewrite E in Hhi; [|by apply Hold, Hh].
    injection Hhi as <-. by apply Hnew.
  - intros b d p. unfold valid. rewrite Harcs. apply Hp.
Qed.

(** An inode that leaves the maps. *)
Lemma remove_inv i s a d : st_data s !! i = Some a → st_arcs s !! a = Some d →
  ∃ s', remove i s = Ok (s', info_parent (id_migration_info d)) ∧
    st_arcs s' = <[a := set_migration_info None d]> (st_arcs s) ∧ st_data s' = delete i (st_data s) ∧
    st_by_ids s' = delete (id_ids d) (st_by_ids s) ∧
    ∀ h, st_by_handle s' !! h = None ∧ id_file_or_handle d = Handle h ∨
         st_by_handle s' !! h = st_by_handle s !! h ∧ id_file_or_handle d ≠ Handle h.
Proof.
  intros Ha Hd. unfold remove. rewrite Ha. apply deref_Ok in Hd as ->. cbn [obind].
  eexists. split; [done|]. cbn. split_and!; try done. intros h.
  destruct (id_file_or_handle d) as [|h'|]; [by right| |by right]. destruct (decide (h' = h)) as [->|Hne].
  - left. by rewrite lookup_delete_eq.
  - right. rewrite lookup_delete_ne by done. split; [done|]. by intros [=].
Qed.

Lemma remove_ok i s s' o : store_ok s → remove i s = Ok (s', o) → store_ok s'.
Proof.
  intros Hok Hrem. unfold remove in Hrem. destruct (st_data s !! i) as [a|] eqn:Ha; [|by injection Hrem as <- _].
  destruct Hok as [Hd Hi Hh Hp]. destruct (Hd i a Ha) as (d & Had & Hdi).
  destruct (remove_inv i s a d Ha Had) as (s1 & E & Harcs & Hdata & Hids & Hhandle).
  unfold remove in E. rewrite Ha in E. rewrite E in Hrem. injection Hrem as <- _.
  assert (∀ j P, stored s j P → (P d → j ≠ i) → (∀ m, P d → P (set_migration_info m d)) → stored s1 j P) as Hold.
  { intros j P (b & e & Hb & He & HP) Hne Hm. exists b. rewrite Hdata, Harcs. destruct (decide (a = b)) as [<-|Hab].
    - assert (e = d) as -> by congruence. rewrite lookup_insert_eq, lookup_delete_ne by (intros <-; by apply Hne). eauto.
    - rewrite lookup_insert_ne by done. exists e. split; [|done]. rewrite lookup_delete_ne; [done|]. intros <-. congruence. }
  split.
  - intros j b. rewrite Hdata. intros [Hne Hb]%lookup_delete_Some. destruct (Hd j b Hb) as (e & He & Hj).
    rewrite Harcs. destruct (decide (a = b)) as [<-|]; [congruence|]. rewrite lookup_insert_ne by done. eauto.
  - intros x j. rewrite Hids. intros [Hne Hb]%lookup_delete_Some. apply Hold; [by apply Hi|done|done].
  - intros h j Hj. destruct (Hhandle h) as [[E' _]|[E' Hne]]; rewrite E' in Hj; [done|]. apply Hold; [by apply Hh|done|done].
  - intros b e p. unfold valid. rewrite Harcs. intros [[_ <-]|[_ Hb]]%lookup_insert_Some Hbp; [done|].
    apply lookup_insert_is_Some. destruct (decide (a = p)); [by left|]. right. split; [done|]. by eapply Hp.
Qed.

Lemma clear_ok s : store_ok s → store_ok (clear s).
Proof. intros Hok. split; cbn; [intros ??|intros ??|intros ??|apply (so_info s Hok)]; by rewrite lookup_empty. Qed.

(** ** What the operations do *)

(** The count of [a] goes up by one; it was not 0. *)
Definition counted (a : arc) (s s' : InodeStoreInner) : Prop :=
  ∃ d, st_arcs s !! a = Some d ∧ 0 < id_refcount d ∧ s' = set_arc a (set_refcount (id_refcount d + 1) d) s.

Lemma increment_inv a s res : room a s → increment_refcount_for a s = Ok res →
  match res with inl _ => True | inr s' => counted a s s' end.
Proof.
  unfold increment_refcount_for. intros Hroom (d & Hd%deref_Ok & H)%bind_Ok_inv. specialize (Hroom d Hd).
  destruct (Z.ltb_spec 0 (id_refcount d)); injection H as <-; [|done]. exists d. split_and!; [done..|].
  unfold u64. by rewrite Z.mod_small by lia.
Qed.

Lemma clone_inv a s b s' : room a s → clone a s = Ok (b, s') → b = a ∧ counted a s s'.
Proof.
  unfold clone. intros Hroom ([e|s1] & H1 & H)%bind_Ok_inv; [done|]. apply increment_inv in H1; [|done]. by injection H as <- <-.
Qed.

Lemma new_with_data_inv a s b s' : room b s → new_with_data a s = Ok (inr (b, s')) → b = a ∧ counted a s s'.
Proof.
  unfold new_with_data. intros Hroom ([e|s1] & H1 & H)%bind_Ok_inv; [done|]. injection H as <- <-. by apply increment_inv in H1.
Qed.

Lemma claim_inv handle ids s a s' : room a s → claim_inode handle ids s = Ok (inr (a, s')) → counted a s s'.
Proof.
  unfold claim_inode. intros Hroom (x & _ & (y & _ & H)%bind_Ok_inv)%bind_Ok_inv.
  destruct y as [b|]; [|done]. by apply new_with_data_inv in H as [-> H].
Qed.

Lemma get_or_insert_inv a data s b s' : room b s → get_or_insert a data s = Ok (inr (b, s')) →
  counted b s s' ∨ b = a ∧ insert_new a (set_refcount 1 data) (set_arc a (set_refcount 1 data) s) = Ok s'.
Proof.
  unfold get_or_insert. intros Hroom ([e|[b' s1]] & H1 & H)%bind_Ok_inv.
  - destruct (contains s _); [done|]. apply bind_Ok_inv in H as (s1 & H2 & [= <- <-]). by right.
  - injection H as <- <-. left. by eapply claim_inv.
Qed.

Lemma new_inode_inv a data s s' : new_inode a data s = Ok (inr s') → insert_new a data (set_arc a data s) = Ok s'.
Proof. unfold new_inode. destruct (contains s _); [done|]. by intros (s1 & H & [= <-])%bind_Ok_inv. Qed.

(** The calls for a reference that is to be dropped. *)
Definition drops (s : InodeStoreInner) (o : option arc) (calls : list (Inode * Z)) : Prop :=
  match o with
  | None => calls = []
  | Some p => ∃ e, st_arcs s !! p = Some e ∧ calls = [(id_inode e, 1)]
  end.

(** The cases of one access of [forget_one]. *)
Inductive forgets (i : Inode) (n : Z) (todo : list (Inode * Z)) (s : InodeStoreInner) :
    phase → holder → InodeStoreInner → Prop :=
  | forgets_absent : get s i = None → forgets i n todo s Load (mk_holder todo Load) s
  | forgets_load a d : get s i = Some a → st_arcs s !! a = Some d →
      forgets i n todo s Load (mk_holder ((i, n) :: todo) (Exchange a (id_refcount d))) s
  | forgets_again a d rc : get s i = Some a → st_arcs s !! a = Some d → id_refcount d ≠ rc →
      forgets i n todo s (Exchange a rc) (mk_holder ((i, n) :: todo) Load) s
  | forgets_less a d : get s i = Some a → st_arcs s !! a = Some d → n < id_refcount d →
      forgets i n todo s (Exchange a (id_refcount d)) (mk_holder todo Load)
        (set_arc a (set_refcount (id_refcount d - n) d) s)
  | forgets_last a d : get s i = Some a → st_arcs s !! a = Some d → id_refcount d ≤ n →
      forgets i n todo s (Exchange a (id_refcount d)) (mk_holder ((i, n) :: todo) Remove)
        (set_arc a (set_refcount 0 d) s)
  | forgets_remove a d s' calls : get s i = Some a → st_arcs s !! a = Some d →
      remove i s = Ok (s', info_parent (id_migration_info d)) → drops s' (info_parent (id_migration_info d)) calls →
      forgets i n todo s Remove (mk_holder (calls ++ todo) Load) s'.

Lemma forget_one_spec i n todo ph s : (∀ inodes, ph ≠ Sweep inodes) → store_ok s → holder_ok s (mk_holder ((i, n) :: todo) ph) →
  ∃ c' s', forget_one (mk_holder ((i, n) :: todo) ph) s = Ok (c', s') ∧ forgets i n todo s ph c' s'.
Proof.
  intros Hph Hok Hc. unfold forget_one. cbn [ho_todo ho_phase]. destruct ph as [inodes| |a rc|]; unfold holder_ok in Hc; cbn in Hc.
  - by destruct (Hph inodes).
  - destruct (get s i) as [a|] eqn:Ha; [|eexists _, _; split; [done | by constructor]].
    destruct (so_data s Hok i a Ha) as (d & Hd & _). rewrite (proj2 (deref_Ok s a d) Hd). cbn [obind].
    eexists _, _. split; [done | by econstructor].
  - destruct Hc as (? & ? & ? & [= <- <- <-] & Ha). destruct (so_data s Hok i a Ha) as (d & Hd & _).
    rewrite (proj2 (deref_Ok s a d) Hd). cbn [obind]. destruct (Z.eqb_spec (id_refcount d) rc) as [<-|Hne].
    + destruct (Z.eqb_spec (Z.max 0 (id_refcount d - n)) 0) as [E|E]; eexists _, _; (split; [done|]).
      * rewrite E. constructor; [done..|lia].
      * replace (Z.max 0 (id_refcount d - n)) with (id_refcount d - n) by lia. constructor; [done..|lia].
    + eexists _, _. split; [done | by econstructor].
  - destruct Hc as (? & ? & ? & [= <- <- <-] & [a Ha]). destruct (so_data s Hok i a Ha) as (d & Hd & _).
    destruct (remove_inv i s a d Ha Hd) as (s' & Hrem & Harcs & _). rewrite Hrem. cbn [obind].
    destruct (info_parent (id_migration_info d)) as [p|] eqn:Hp.
    + assert (valid s' p) as [e He].
      { unfold valid. rewrite Harcs. apply lookup_insert_is_Some. destruct (decide (a = p)); [by left | right].
        split; [done|]. by eapply (so_info s Hok). }
      unfold drop_unlocked. rewrite (proj2 (deref_Ok s' p e) He). cbn [obind]. eexists _, _. split; [done|].
      apply (forgets_remove i n todo s a d s' [(id_inode e, 1)]); rewrite ?Hp; [done..|by exists e].
    + eexists _, _. split; [done|]. apply (forgets_remove i n todo s a d s' []); by rewrite ?Hp.
Qed.

(** The cases of one access of the holder of the lock. *)
Inductive accesses : holder → InodeStoreInner → holder → InodeStoreInner → Prop :=
  | accesses_sweep a inodes todo s d calls : st_arcs s !! a = Some d →
      drops (set_arc a (set_migration_info None d) s) (info_parent (id_migration_info d)) calls →
      accesses (mk_holder todo (Sweep (a :: inodes))) s
        (mk_holder (todo ++ calls) (match inodes with [] => Load | _ => Sweep inodes end))
        (set_arc a (set_migration_info None d) s)
  | accesses_call i n todo ph s c' s' : forgets i n todo s ph c' s' →
      accesses (mk_holder ((i, n) :: todo) ph) s c' s'.

Lemma take_info_spec a inodes todo s : store_ok s → valid s a →
  ∃ c' s', take_info a inodes todo s = Ok (c', s') ∧ accesses (mk_holder todo (Sweep (a :: inodes))) s c' s'.
Proof.
  intros Hok [d Hd]. unfold take_info. rewrite (proj2 (deref_Ok s a d) Hd). cbn [obind].
  destruct (info_parent (id_migration_info d)) as [p|] eqn:Hp; cbn [obind].
  - destruct (valid_set s a (set_migration_info None d) p) as [e He]; [by eapply (so_info s Hok)|].
    unfold drop_unlocked. rewrite (proj2 (deref_Ok _ p e) He). cbn [obind]. eexists _, _. split; [done|].
    apply accesses_sweep; [done|]. rewrite Hp. by exists e.
  - eexists _, _. split; [done|]. apply accesses_sweep; [done|]. by rewrite Hp.
Qed.

Lemma holder_access_spec c s : store_ok s → holder_ok s c → finished c = false →
  ∃ c' s', holder_access c s = Ok (c', s') ∧ accesses c s c' s'.
Proof.
  destruct c as [todo ph]. intros Hok Hc Hf. unfold holder_access, finished in *. cbn [ho_phase ho_todo] in *.
  assert ((∀ inodes, ph ≠ Sweep inodes) → ∃ c' s', forget_one (mk_holder todo ph) s = Ok (c', s') ∧ accesses (mk_holder todo ph) s c' s') as Hcall.
  { intros Hph. destruct todo as [|[i n] todo]; [destruct ph as [inodes| | |]; [by destruct (Hph inodes)|done..]|].
    destruct (forget_one_spec i n todo ph s Hph Hok Hc) as (c' & s' & E & H). exists c', s'. split; [done|by constructor]. }
  destruct ph as [[|a inodes]| |a rc|]; [by destruct Hc| |by apply Hcall..].
  apply take_info_spec; [done|]. by destruct Hc as [_ [? _]%Forall_cons].
Qed.

Lemma values_valid s : store_ok s → Forall (valid s) (values s).
Proof.
  intros Hok. unfold values. rewrite merge_sort_Permutation. apply Forall_forall. intros a ([i b] & -> & Hin)%list_elem_of_fmap.
  apply elem_of_map_to_list in Hin. destruct (so_data s Hok i b Hin) as (d & Hd & _). by exists d.
Qed.

Lemma clear_migration_info_ok s : store_ok s → holder_ok s (clear_migration_info s).
Proof.
  intros Hok. pose proof (values_valid s Hok) as Hv. unfold clear_migration_info, holder_ok. by destruct (values s).
Qed.

Lemma store_ok_info s a d m : store_ok s → st_arcs s !! a = Some d → (∀ p, info_parent m = Some p → valid s p) →
  store_ok (set_arc a (set_migration_info m d) s).
Proof. intros Hok Hd Hm. apply store_ok_set; [done| |done]. intros d' Hd'. assert (d' = d) as -> by congruence. done. Qed.

(** ** Every state is well formed *)

Definition weight (s : InodeStoreInner) (ph : phase) : Z :=
  match ph with
  | Sweep inodes => 5 * Z.of_nat (length inodes) + 2
  | Load => 2
  | Exchange a rc => if decide (id_refcount <$> st_arcs s !! a = Some rc) then 1 else 3
  | Remove => 0
  end.

(** A bound on the accesses the holder of the lock has left. *)
Definition potential (y : sys) : Z :=
  match y_lock y with
  | None => 0
  | Some (c, _) =>
    4 * Z.of_nat (size (st_data (y_store y))) + 4 * Z.of_nat (length (ho_todo c)) + weight (y_store y) (ho_phase c) + 1
  end.

Lemma forgets_ok i n todo s ph c' s' : store_ok s → forgets i n todo s ph c' s' →
  store_ok s' ∧ holder_ok s' c' ∧ (∀ a, valid s a → valid s' a).
Proof.
  intros Hok Hf. destruct Hf as [|a d Ha Hd|a d rc Ha Hd Hne|a d Ha Hd Hlt|a d Ha Hd Hle|a d s' calls Ha Hd Hrem Hcalls].
  - done.
  - split_and!; try done. by exists i, n, todo.
  - done.
  - split_and!; [by apply store_ok_refcount | done | intros b; apply valid_set].
  - split_and!; [by apply store_ok_refcount | by exists i, n, todo; eauto | intros b; apply valid_set].
  - split_and!; [by eapply remove_ok | done |]. destruct (remove_inv i s a d Ha Hd) as (s1 & E & Harcs & _).
    rewrite E in Hrem. injection Hrem as <-. intros b Hb. unfold valid. rewrite Harcs. by apply lookup_insert_is_Some'; right.
Qed.

Lemma accesses_ok c s c' s' : store_ok s → holder_ok s c → accesses c s c' s' →
  store_ok s' ∧ holder_ok s' c' ∧ (∀ a, valid s a → valid s' a).
Proof.
  intros Hok Hc Ha. destruct Ha as [a inodes todo s d calls Hd Hcalls|i n todo ph s c' s' Hf]; [|by eapply forgets_ok].
  assert (∀ b, valid s b → valid (set_arc a (set_migration_info None d) s) b) as Hv by (intros b; apply valid_set).
  split_and!; [by apply store_ok_info | | done]. destruct Hc as [_ [_ Hin]%Forall_cons].
  destruct inodes as [|b inodes]; [done|]. split; [done|]. by eapply Forall_impl.
Qed.

Lemma drops_length s o calls : drops s o calls → (length calls ≤ 1)%nat.
Proof. destruct o; [intros (? & _ & ->) | intros ->]; cbn; lia. Qed.

Lemma forgets_potential i n todo s ph c' s' b ws r g h : store_ok s → forgets i n todo s ph c' s' →
  potential (mk_sys s' (Some (c', b)) ws r g h) < potential (mk_sys s (Some (mk_holder ((i, n) :: todo) ph, b)) ws r g h).
Proof.
  intros Hok Hf. unfold potential. cbn [y_lock y_store ho_todo ho_phase length].
  destruct Hf as [|a d Ha Hd|a d rc Ha Hd Hne|a d Ha Hd Hlt|a d Ha Hd Hle|a d s' calls Ha Hd Hrem Hcalls]; cbn [weight ho_todo ho_phase length st_data set_arc].
  - lia.
  - rewrite Hd, decide_True by done. lia.
  - rewrite Hd, decide_False by (cbn; congruence). lia.
  - case_decide; lia.
  - case_decide; lia.
  - destruct (remove_inv i s a d Ha Hd) as (s1 & E & _ & Hdata & _). rewrite E in Hrem. injection Hrem as <-.
    rewrite Hdata, length_app. pose proof (map_size_delete i (st_data s)) as Hsize. unfold get in Ha. rewrite Ha in Hsize.
    apply drops_length in Hcalls.
    assert (size (st_data s) ≠ 0%nat) by (intros E0%map_size_empty_inv; by rewrite E0, lookup_empty in Ha).
    lia.
Qed.

Lemma accesses_potential c s c' s' b ws r g h : store_ok s → accesses c s c' s' →
  potential (mk_sys s' (Some (c', b)) ws r g h) < potential (mk_sys s (Some (c, b)) ws r g h).
Proof.
  intros Hok Ha. destruct Ha as [a inodes todo s d calls Hd Hcalls|i n todo ph s c' s' Hf]; [|by apply forgets_potential].
  apply drops_length in Hcalls. unfold potential. cbn [y_lock y_store ho_todo ho_phase st_data set_arc]. rewrite length_app.
  destruct inodes; cbn [weight length]; lia.
Qed.

(** ** Counting references *)

Definition ind (o : option arc) (a : arc) : Z := if decide (o = Some a) then 1 else 0.

(** The references to [a] in migration infos. *)
Definition mig (arcs : gmap arc InodeData) (a : arc) : Z :=
  Z.of_nat (size (filter (λ x : arc * InodeData, info_parent (id_migration_info x.2) = Some a) arcs)).

Lemma bump_eq f o n a : bump f o n a = f a + n * ind o a.
Proof. unfold bump, ind. case_decide; lia. Qed.

Lemma ind_range o a : 0 ≤ ind o a ≤ 1.
Proof. unfold ind. case_decide; lia. Qed.

Lemma ind_None a : ind None a = 0.
Proof. done. Qed.

Lemma ind_same a : ind (Some a) a = 1.
Proof. unfold ind. by rewrite decide_True. Qed.

Lemma ind_other a b : a ≠ b → ind (Some a) b = 0.
Proof. intros Hne. unfold ind. rewrite decide_False; [done|congruence]. Qed.

Lemma mig_nonneg arcs a : 0 ≤ mig arcs a.
Proof. unfold mig. lia. Qed.

Lemma mig_fresh arcs b d a : arcs !! b = None →
  mig (<[b := d]> arcs) a = mig arcs a + ind (info_parent (id_migration_info d)) a.
Proof.
  intros Hb. unfold mig, ind. rewrite map_filter_insert. cbn [snd]. case_decide as H.
  - rewrite map_size_insert_None; [lia|]. apply map_lookup_filter_None. by left.
  - rewrite delete_id by done. lia.
Qed.

Lemma mig_set arcs b d d' a : arcs !! b = Some d →
  mig (<[b := d']> arcs) a =
    mig arcs a - ind (info_parent (id_migration_info d)) a + ind (info_parent (id_migration_info d')) a.
Proof.
  intros Hb. rewrite <- (insert_delete_eq arcs b d'), mig_fresh by apply lookup_delete_eq.
  rewrite <- (insert_delete_id arcs b d Hb) at 2. rewrite mig_fresh by apply lookup_delete_eq. lia.
Qed.

Lemma mig_parent arcs b d p : arcs !! b = Some d → info_parent (id_migration_info d) = Some p → 0 < mig arcs p.
Proof.
  intros Hb Hp. unfold mig. assert (size (filter (λ x : arc * InodeData, info_parent (id_migration_info x.2) = Some p) arcs) ≠ 0%nat); [|lia].
  intros E%map_size_empty_inv. apply (f_equal (lookup b)) in E. rewrite lookup_empty, map_lookup_filter_None in E.
  destruct E as [E|E]; [congruence | by apply (E d)].
Qed.

(** ** Well-formedness is preserved *)

Lemma holder_ok_same s s' c : st_data s' = st_data s → (∀ a, valid s a → valid s' a) → holder_ok s c → holder_ok s' c.
Proof.
  unfold holder_ok, get. intros -> Hv. destruct (ho_phase c) as [inodes| | |]; try done. intros [? ?]. split; [done|]. by eapply Forall_impl.
Qed.

Lemma bump_valid s r o n : (∀ a, 0 < r a → valid s a) → (∀ p, o = Some p → valid s p) → ∀ a, 0 < bump r o n a → valid s a.
Proof. intros Hr Ho a. unfold bump. case_decide; auto. Qed.

(** A new content for the [Arc]s, the maps unchanged. *)
Lemma sys_ok_arcs s s' l ws ws' r g r' g' h : sys_ok (mk_sys s l ws r g h) → store_ok s' → st_data s' = st_data s →
  (∀ a, valid s a → valid s' a) → Forall (valid s) ws' → (∀ a, 0 < r' a → valid s a) → sys_ok (mk_sys s' l ws' r' g' h).
Proof.
  intros [_ _ _ Hl] Hok Hd Hv Hws Hr. split; cbn; [done|by eapply Forall_impl|auto|]. intros c b Hc.
  eapply holder_ok_same; [exact Hd | exact Hv | by eapply Hl].
Qed.

Lemma sys_ok_infos s l ws r g h h' : sys_ok (mk_sys s l ws r g h) → sys_ok (mk_sys s l ws r g h').
Proof. by intros []. Qed.

Lemma counted_ok s s' a : store_ok s → counted a s s' → store_ok s' ∧ st_data s' = st_data s ∧ (∀ b, valid s b → valid s' b) ∧ valid s a.
Proof. intros Hok (d & Hd & _ & ->). split_and!; [by apply store_ok_refcount|done|intros b; apply valid_set|by exists d]. Qed.

Lemma sys_ok_counted s s' l ws ws' r g a h : sys_ok (mk_sys s l ws r g h) → counted a s s' → Forall (valid s) ws' →
  sys_ok (mk_sys s' l ws' (bump r (Some a) 1) g h).
Proof.
  intros Hy Hc Hws. destruct (counted_ok s s' a (yo_store _ Hy) Hc) as (? & ? & ? & ?).
  apply (sys_ok_arcs s s' l ws ws' r g); try done. apply bump_valid; [apply (yo_refs _ Hy) | by intros p [= <-]].
Qed.

Lemma sys_ok_inserted s s' ws r g r' g' a data h : sys_ok (mk_sys s None ws r g h) → st_arcs s !! a = None →
  info_owned r (id_migration_info data) → insert_new a data (set_arc a data s) = Ok s' →
  (∀ b, 0 < r' b → 0 < r b ∨ b = a) → sys_ok (mk_sys s' None ws r' g' h).
Proof.
  intros [Hs Hw Hr _] Ha Hinfo Hins Hr'. cbn in *. assert (∀ b, valid (set_arc a data s) b → valid s' b) as Hv.
  { apply insert_new_inv in Hins as (_ & E & _). unfold valid. by rewrite E. }
  split; cbn.
  - apply (insert_new_ok a data (set_arc a data s)); [|cbn; apply lookup_insert_eq|done]. apply store_ok_set; [done|congruence|]. intros p Hp. by apply Hr, Hinfo.
  - eapply Forall_impl; [exact Hw|]. intros b Hb. by apply Hv, valid_set.
  - intros b [Hb| ->]%Hr'; apply Hv; [by apply valid_set, Hr|]. eexists. cbn. apply lookup_insert_eq.
  - done.
Qed.

Lemma sys_ok_lock s ws r g r' g' c b h : sys_ok (mk_sys s None ws r g h) → (∀ a, 0 < r' a → 0 < r a) → holder_ok s c →
  sys_ok (mk_sys s (Some (c, b)) ws r' g' h).
Proof. intros [Hs Hw Hr _] Hr' Hc. cbn in *. split; cbn; [done|done|auto|]. by intros c' b' [= <- _]. Qed.

Lemma bump_less r o a : 0 < bump r o (-1) a → 0 < r a.
Proof. unfold bump. case_decide; lia. Qed.

Lemma step_sys_ok polite e y y' : sys_ok y → step polite e y y' → sys_ok y'.
Proof.
  intros Hy Hs. pose proof (yo_store _ Hy) as Hok. pose proof (yo_weak _ Hy) as Hw. pose proof (yo_refs _ Hy) as Hr.
  destruct Hs as [s ws r g h i a Ha|s l ws ws' a r g h res Hroom Hres|s l ws r g h a b s' Hra Hroom Hc|s ws r g h hd ids a s' Hroom Hc|
    s ws r g h a data b s' Ha Hinfo Hroom Hi|s ws r g h a data s' Ha Hinfo Hrc Hi|s l ws r g h a Hra|s l ws r g h b Hb Hh|
    s l ws r g h b d m Hb Hh Hd Hm|s ws r g h b a call Hh Hra Hcall|s l ws r g h b Hh|
    s ws r g h a call Hra Hcall|s ws r g h calls Hcalls Hpol|s ws r g h|s ws r g h Hpol|
    s c b ws r g h c' s' Hne Hfree Hf|s c b ws r g h Hnil]; cbn in Hok, Hw, Hr.
  - apply (sys_ok_arcs s s None ws _ r g); try done. constructor; [|done]. destruct (so_data s Hok i a Ha) as (d & ? & _). by exists d.
  - apply increment_inv in Hres; [|done]. apply Forall_app in Hw as [Hw Hw']. apply Forall_cons in Hw' as [Ha Hw'].
    destruct res as [e|s']; [apply (sys_ok_arcs s s l (ws ++ a :: ws') _ r g) | eapply sys_ok_counted]; try done; by apply Forall_app.
  - apply clone_inv in Hc as [-> Hc]; [|done]. by eapply sys_ok_counted.
  - apply claim_inv in Hc; [|done]. by eapply sys_ok_counted.
  - apply get_or_insert_inv in Hi as [Hc|[-> Hi]]; [| |done].
    + rewrite decide_False; [by eapply sys_ok_counted|]. intros ->. destruct Hc as (d & ? & _). congruence.
    + rewrite decide_True by done. apply (sys_ok_inserted s s' ws r g _ g a (set_refcount 1 data)); [done..|].
      intros c. rewrite bump_eq. unfold ind. case_decide; [right; congruence|].
      rewrite Z.mul_0_r, Z.add_0_r. intros ?%bump_less. by left.
  - apply new_inode_inv in Hi. apply (sys_ok_inserted s s' ws r g _ _ a data); [done..|]. intros c ?%bump_less. by left.
  - apply (sys_ok_arcs s s l ws ws r g); try done. intros c ?%bump_less. by apply Hr.
  - by eapply sys_ok_infos.
  - apply deref_Ok in Hd. apply (sys_ok_infos _ _ _ _ _ h).
    eapply sys_ok_arcs; [exact Hy|apply store_ok_info|done|intros c; apply valid_set|done|]; try done.
    + intros p Hp. by apply Hr, Hm.
    + apply bump_valid; [intros c ?%bump_less; by apply Hr|]. intros p Hp. by eapply (so_info s Hok).
  - apply (sys_ok_infos _ _ _ _ _ h). eapply sys_ok_lock; [exact Hy|apply bump_less|done].
  - by eapply sys_ok_infos.
  - eapply sys_ok_lock; [exact Hy|apply bump_less|done].
  - by eapply sys_ok_lock.
  - eapply sys_ok_lock; [exact Hy|done|]. by apply clear_migration_info_ok.
  - eapply sys_ok_lock; [exact Hy|done|]. by apply clear_migration_info_ok.
  - pose proof (yo_lock _ Hy _ _ eq_refl) as Hho. cbn in Hho.
    destruct (holder_access_spec c s Hok Hho Hne) as (c1 & s1 & E & Hac). rewrite E in Hf. injection Hf as <- <-.
    destruct (accesses_ok c s c1 s1 Hok Hho Hac) as (? & ? & Hv). split; cbn; [done|by eapply Forall_impl|auto|]. by intros c' b' [= <- _].
  - split; cbn; [|by destruct b|by destruct b|done]. destruct b; [by apply clear_ok | done].
Qed.

Lemma sys0_ok : sys_ok sys0.
Proof. split; cbn; [split; cbn; intros; by rewrite lookup_empty in *|constructor|lia|done]. Qed.

Lemma steps_sys_ok polite evs y : steps polite evs sys0 y → sys_ok y.
Proof.
  remember sys0 as y0 eqn:E. induction 1 as [|evs e y1 y2 y3 _ IH Hs]; subst; [apply sys0_ok|]. eapply step_sys_ok; [by apply IH | done].
Qed.

(** ** Accounting

    With polite guests every count is the number of references. *)

(** The calls whose counts are still to be taken. *)
Definition remaining (l : option (holder * bool)) : list (Inode * Z) :=
  match l with
  | None => []
  | Some (c, _) => match ho_phase c with Remove => tail (ho_todo c) | _ => ho_todo c end
  end.

Definition removing (l : option (holder * bool)) (i : Inode) : Prop :=
  ∃ c b n todo, l = Some (c, b) ∧ ho_phase c = Remove ∧ ho_todo c = (i, n) :: todo.

Record acct (y : sys) : Prop := mk_acct {
  ac_count a d : st_arcs (y_store y) !! a = Some d →
    id_refcount d = y_refs y a + y_guest y a + mig (st_arcs (y_store y)) a + pend (y_store y) (remaining (y_lock y)) a;
  ac_none a : st_arcs (y_store y) !! a = None → y_refs y a = 0 ∧ y_guest y a = 0 ∧ mig (st_arcs (y_store y)) a = 0;
  ac_nonneg a : 0 ≤ y_refs y a ∧ 0 ≤ y_guest y a;
  ac_todo : Forall (λ c, 0 ≤ c.2) (remaining (y_lock y));
  ac_stored a d : st_arcs (y_store y) !! a = Some d → 0 < id_refcount d → get (y_store y) (id_inode d) = Some a;
  ac_zero i a d : get (y_store y) i = Some a → st_arcs (y_store y) !! a = Some d → id_refcount d = 0 → removing (y_lock y) i;
  ac_removing i : removing (y_lock y) i → ∃ a d, get (y_store y) i = Some a ∧ st_arcs (y_store y) !! a = Some d ∧ id_refcount d = 0;
  ac_clear c : y_lock y ≠ Some (c, true);
  ac_gone a d : st_arcs (y_store y) !! a = Some d → get (y_store y) (id_inode d) ≠ Some a → info_parent (id_migration_info d) = None
}.

Lemma pend_nonneg s todo a : Forall (λ c, 0 ≤ c.2) todo → 0 ≤ pend s todo a.
Proof. induction 1 as [|[i n] todo Hn _ IH]; cbn in *; [lia|]. case_decide; lia. Qed.

Lemma pend_same s s' todo a : st_data s' = st_data s → pend s' todo a = pend s todo a.
Proof. intros E. induction todo as [|[i n] todo IH]; cbn; [done|]. unfold get. by rewrite E, IH. Qed.

Lemma pend_app s todo todo' a : pend s (todo ++ todo') a = pend s todo a + pend s todo' a.
Proof. induction todo as [|[i n] todo IH]; cbn; lia. Qed.

Lemma pend_one s p i a : get s i = Some p → pend s [(i, 1)] a = ind (Some p) a.
Proof. intros E. cbn. rewrite E. unfold ind. case_decide; lia. Qed.

(** References to an inode keep it in the store. *)
Lemma acct_held y a : acct y → 0 < y_refs y a + y_guest y a + mig (st_arcs (y_store y)) a →
  ∃ d, st_arcs (y_store y) !! a = Some d ∧ 0 < id_refcount d ∧ get (y_store y) (id_inode d) = Some a.
Proof.
  intros Hy Hpos. destruct (st_arcs (y_store y) !! a) as [d|] eqn:Hd.
  - assert (0 < id_refcount d) as Hrc.
    { rewrite (ac_count y Hy a d Hd). pose proof (pend_nonneg (y_store y) _ a (ac_todo y Hy)). lia. }
    exists d. split_and!; [done..|]. by apply (ac_stored y Hy).
  - destruct (ac_none y Hy a Hd) as (? & ? & ?). lia.
Qed.

(** Changes of the [Arc] of [a] that keep its identity, with the lock state
    unchanged: the count and the references move together. *)
Lemma acct_arc s l ws ws' r g r' g' a d d' h : acct (mk_sys s l ws r g h) → st_arcs s !! a = Some d →
  id_inode d' = id_inode d → (get s (id_inode d) = Some a ∨ id_migration_info d' = id_migration_info d) →
  (∀ b, 0 ≤ r' b ∧ 0 ≤ g' b) → (id_refcount d = 0 ↔ id_refcount d' = 0) →
  (∀ b, st_arcs s !! b = None → r' b + g' b + ind (info_parent (id_migration_info d')) b = 0) →
  (∀ b, (if decide (b = a) then id_refcount d' - id_refcount d else 0) =
        r' b - r b + (g' b - g b) - ind (info_parent (id_migration_info d)) b + ind (info_parent (id_migration_info d')) b) →
  acct (mk_sys (set_arc a d' s) l ws' r' g' h).
Proof.
  intros Hy Hd Hid Hg Hnn Hz Hnone Heq. pose proof (mig_set (st_arcs s) a d d') as Hmig.
  assert (0 < id_refcount d' → 0 < id_refcount d) as Hpos.
  { pose proof (ac_count _ Hy a d Hd) as E. cbn in E. pose proof (ac_nonneg _ Hy a). pose proof (mig_nonneg (st_arcs s) a).
    pose proof (pend_nonneg s _ a (ac_todo _ Hy)). cbn in *. lia. }
  split; cbn.
  - intros b e He. rewrite Hmig by done. rewrite (pend_same s) by done. specialize (Heq b).
    apply lookup_insert_Some in He as [[<- <-]|[Hne He]].
    + pose proof (ac_count _ Hy a d Hd) as E. cbn in E. rewrite decide_True in Heq by done. lia.
    + pose proof (ac_count _ Hy b e He) as E. cbn in E. rewrite decide_False in Heq by done. lia.
  - intros b [Hb Hne]%lookup_insert_None. rewrite Hmig by done. destruct (ac_none _ Hy b Hb) as (? & ? & Hm). cbn in *.
    specialize (Heq b). rewrite decide_False in Heq by done. specialize (Hnone b Hb). specialize (Hnn b).
    pose proof (ind_range (info_parent (id_migration_info d')) b). lia.
  - done.
  - apply (ac_todo _ Hy).
  - intros b e He Hrc. unfold get. cbn. apply lookup_insert_Some in He as [[<- <-]|[Hne He]].
    + rewrite Hid. apply (ac_stored _ Hy a d Hd). auto.
    + by apply (ac_stored _ Hy b e He).
  - intros i b e Hi He Hrc. apply lookup_insert_Some in He as [[<- <-]|[Hne He]].
    + apply (ac_zero _ Hy i a d Hi Hd). tauto.
    + by apply (ac_zero _ Hy i b e Hi He).
  - intros i Hi. destruct (ac_removing _ Hy i Hi) as (b & e & Hb & He & Hrc). cbn in He.
    destruct (decide (a = b)) as [<-|Hne].
    + exists a, d'. rewrite lookup_insert_eq. assert (e = d) as -> by congruence. tauto.
    + exists b, e. by rewrite lookup_insert_ne.
  - apply (ac_clear _ Hy).
  - intros b e He Hb. apply lookup_insert_Some in He as [[<- <-]|[Hne He]].
    + rewrite Hid in Hb. destruct Hg as [Hg| ->]; [done|]. by apply (ac_gone _ Hy a d Hd).
    + by apply (ac_gone _ Hy b e He).
Qed.

Lemma acct_counted s s' l ws ws' r g a h : acct (mk_sys s l ws r g h) → counted a s s' →
  acct (mk_sys s' l ws' (bump r (Some a) 1) g h).
Proof.
  intros Hy (d & Hd & Hrc & ->). eapply acct_arc; try done; cbn.
  - by right.
  - intros b. pose proof (ac_nonneg _ Hy b). rewrite bump_eq. pose proof (ind_range (Some a) b). cbn in *. lia.
  - lia.
  - intros b Hb. destruct (ac_none _ Hy b Hb) as (? & ? & Hm). cbn in *. rewrite bump_eq.
    rewrite (ind_other a b) by congruence.
    assert (ind (info_parent (id_migration_info d)) b = 0) as ->; [|lia]. unfold ind. case_decide as Hp; [|done].
    pose proof (mig_parent (st_arcs s) a d b Hd Hp). lia.
  - intros b. rewrite bump_eq. unfold ind. repeat case_decide; simplify_eq; try done; lia.
Qed.

Lemma acct_set_info s l ws r g a d m h : acct (mk_sys s l ws r g h) → 0 < r a → st_arcs s !! a = Some d → info_owned r m →
  acct (mk_sys (set_arc a (set_migration_info m d) s) l ws
         (bump (bump r (info_parent m) (-1)) (info_parent (id_migration_info d)) 1) g h).
Proof.
  intros Hy Hra Hd Hm.
  assert (∀ b, ind (info_parent m) b ≤ r b) as Hle.
  { intros b. pose proof (ac_nonneg _ Hy b). cbn in *. unfold ind. case_decide as E; [|lia]. specialize (Hm b E). lia. }
  eapply acct_arc; [exact Hy|exact Hd|done|left| |done| |]; cbn.
  - destruct (acct_held _ a Hy) as (d' & Hd' & _ & Hget); [cbn; pose proof (ac_nonneg _ Hy a); pose proof (mig_nonneg (st_arcs s) a); cbn in *; lia|].
    cbn in *. congruence.
  - intros b. pose proof (ac_nonneg _ Hy b). specialize (Hle b). rewrite !bump_eq. pose proof (ind_range (info_parent (id_migration_info d)) b). cbn in *. lia.
  - intros b Hb. destruct (ac_none _ Hy b Hb) as (? & ? & ?). cbn in *. rewrite !bump_eq.
    assert (ind (info_parent (id_migration_info d)) b = 0) as ->; [|lia]. unfold ind. case_decide as Hp; [|done].
    pose proof (mig_parent (st_arcs s) a d b Hd Hp). lia.
  - intros b. rewrite !bump_eq. case_decide; lia.
Qed.

Lemma acct_inserted s s' ws r g a data m k h : acct (mk_sys s None ws r g h) → store_ok s → st_arcs s !! a = None →
  info_owned r (id_migration_info data) → insert_new a data (set_arc a data s) = Ok s' →
  id_refcount data = m + k → 0 ≤ m → 0 ≤ k → 0 < m + k →
  acct (mk_sys s' None ws (bump (bump r (info_parent (id_migration_info data)) (-1)) (Some a) m) (bump g (Some a) k) h).
Proof.
  intros Hy Hok Ha Hinfo Hins Hrc Hm Hk Hmk. apply insert_new_inv in Hins as (Hn & Harcs & Hdata & _). cbn in *.
  assert (∀ b, ind (info_parent (id_migration_info data)) b ≤ r b) as Hle.
  { intros b. pose proof (ac_nonneg _ Hy b). cbn in *. unfold ind. case_decide as E; [|lia]. specialize (Hinfo b E). lia. }
  destruct (ac_none _ Hy a Ha) as (Hra & Hga & Hma). cbn in *.
  split; cbn; rewrite ?Harcs.
  - intros b e He. rewrite mig_fresh, !bump_eq by done. apply lookup_insert_Some in He as [[<- <-]|[Hne He]].
    + specialize (Hle a). pose proof (ind_range (info_parent (id_migration_info data)) a). rewrite ind_same. lia.
    + pose proof (ac_count _ Hy b e He) as E. cbn in E. rewrite (ind_other a b) by done. lia.
  - intros b [Hb Hne]%lookup_insert_None. destruct (ac_none _ Hy b Hb) as (? & ? & ?). cbn in *. rewrite mig_fresh, !bump_eq by done.
    specialize (Hle b). pose proof (ind_range (info_parent (id_migration_info data)) b).
    rewrite (ind_other a b) by done. lia.
  - intros b. specialize (Hle b). pose proof (ac_nonneg _ Hy b). pose proof (ind_range (Some a) b). cbn in *. rewrite !bump_eq. nia.
  - constructor.
  - intros b e He Hpos. unfold get. rewrite Hdata. apply lookup_insert_Some in He as [[<- <-]|[Hne He]]; [apply lookup_insert_eq|].
    pose proof (ac_stored _ Hy b e He Hpos) as Hb. unfold get in Hb. cbn in Hb. rewrite lookup_insert_ne; [done|congruence].
  - intros i b e. unfold get. rewrite Hdata. intros Hi He Hz. apply lookup_insert_Some in He as [[<- <-]|[Hne He]]; [lia|].
    apply lookup_insert_Some in Hi as [[_ Hab]|[_ Hi]]; [congruence|]. by destruct (ac_zero _ Hy i b e Hi He Hz) as (? & ? & ? & ? & ? & _).
  - intros i (? & ? & ? & ? & ? & _). done.
  - done.
  - intros b e He. unfold get. rewrite Hdata. apply lookup_insert_Some in He as [[<- <-]|[Hne He]]; [by rewrite lookup_insert_eq|].
    intros Hb. apply (ac_gone _ Hy b e He). intros Hb'. apply Hb. cbn in Hb'. rewrite lookup_insert_ne; [done|]. unfold get in Hb'. congruence.
Qed.

(** Taking and releasing the lock: references become calls. *)
Lemma acct_calls s l ws r g r' g' calls h : acct (mk_sys s l ws r g h) → remaining l = [] → (∀ i, ¬ removing l i) →
  Forall (λ c, 0 ≤ c.2) calls → (∀ b, 0 ≤ r' b ∧ 0 ≤ g' b) →
  (∀ b, r b + g b = r' b + g' b + pend s calls b) →
  acct (mk_sys s (Some (forget_many calls, false)) ws r' g' h).
Proof.
  intros Hy Hrem Hrm Hcalls Hnn Heq. split; cbn.
  - intros b e He. pose proof (ac_count _ Hy b e He) as E. cbn in E. rewrite Hrem in E. cbn in E. specialize (Heq b). lia.
  - intros b Hb. destruct (ac_none _ Hy b Hb) as (? & ? & ?). cbn in *. specialize (Heq b). specialize (Hnn b).
    pose proof (pend_nonneg s calls b Hcalls). lia.
  - done.
  - done.
  - apply (ac_stored _ Hy).
  - intros i b e Hi He Hz. by destruct (Hrm i (ac_zero _ Hy i b e Hi He Hz)).
  - intros i (c & b & n & todo & [= <- <-] & ? & _). done.
  - done.
  - apply (ac_gone _ Hy).
Qed.

(** The steps of the holder. *)
Lemma stored_inode s : store_ok s → ∀ i a d, get s i = Some a → st_arcs s !! a = Some d → id_inode d = i.
Proof. intros Hok i a d Hi Hd. destruct (so_data s Hok i a Hi) as (d' & Hd' & <-). congruence. Qed.

Lemma removing_iff todo ph b i : removing (Some (mk_holder todo ph, b)) i ↔ ph = Remove ∧ ∃ n t, todo = (i, n) :: t.
Proof.
  split.
  - intros (c & b' & n & t & [= <- <-] & ? & ?). cbn in *. eauto.
  - intros (-> & n & t & ->). by eexists _, _, _, _.
Qed.

Lemma drops_pend s o calls : drops s o calls → (∀ p e, o = Some p → st_arcs s !! p = Some e → get s (id_inode e) = Some p) →
  Forall (λ c, 0 ≤ c.2) calls ∧ ∀ a, pend s calls a = ind o a.
Proof.
  destruct o as [p|]; cbn [drops].
  - intros (e & He & ->) Hget. split; [by constructor|]. intros a. apply pend_one. eauto.
  - intros -> _. by split; [constructor|].
Qed.

Lemma acct_phase s l l' ws r g h : acct (mk_sys s l ws r g h) → (∀ a, pend s (remaining l') a = pend s (remaining l) a) →
  Forall (λ c, 0 ≤ c.2) (remaining l') → (∀ i, removing l i ↔ removing l' i) → (∀ c, l' ≠ Some (c, true)) →
  acct (mk_sys s l' ws r g h).
Proof.
  intros [H1 H2 H3 H4 H5 H6 H7 H8 H9] Hp Ht Hr Hc. cbn in *. split; cbn; try done.
  - intros a d Hd. rewrite Hp. by apply H1.
  - intros i a d Hi Hd Hz. apply Hr. by eapply H6.
  - intros i Hi. by apply H7, Hr.
Qed.

Lemma acct_taken s l l' ws r g i n todo a d h : acct (mk_sys s l ws r g h) → remaining l = (i, n) :: todo → (∀ j, ¬ removing l j) →
  store_ok s → get s i = Some a → st_arcs s !! a = Some d → remaining l' = todo →
  (∀ j, removing l' j ↔ j = i ∧ id_refcount d = n) → (∀ c, l' ≠ Some (c, true)) →
  acct (mk_sys (set_arc a (set_refcount (id_refcount d - n) d) s) l' ws r g h).
Proof.
  intros Hy Hrem Hrm Hok Hi Hd Hrem' Hrm' Hc. pose proof (stored_inode s Hok) as Hid. pose proof (ac_todo _ Hy) as Htodo. cbn in Htodo. rewrite Hrem in Htodo.
  apply Forall_cons in Htodo as [Hn Htodo]. cbn in Hn.
  assert (∀ b, mig (<[a := set_refcount (id_refcount d - n) d]> (st_arcs s)) b = mig (st_arcs s) b) as Hmig.
  { intros b. rewrite (mig_set _ a d) by done. cbn. lia. }
  pose proof (ac_count _ Hy) as Hcount. cbn in Hcount. rewrite Hrem in Hcount. cbn [pend] in Hcount. rewrite Hi in Hcount.
  pose proof (pend_nonneg s todo a Htodo) as Hpa. pose proof (Hcount a d Hd) as Ha. rewrite decide_True in Ha by done.
  pose proof (ac_nonneg _ Hy a) as Hra. cbn in Hra. pose proof (mig_nonneg (st_arcs s) a).
  split; cbn; rewrite ?Hrem'.
  - intros b e He. rewrite Hmig, (pend_same s) by done. apply lookup_insert_Some in He as [[<- <-]|[Hne He]]; [cbn; lia|].
    rewrite (Hcount b e He), decide_False by congruence. lia.
  - intros b [Hb _]%lookup_insert_None. rewrite Hmig. by apply (ac_none _ Hy).
  - apply (ac_nonneg _ Hy).
  - done.
  - intros b e He Hpos. unfold get. cbn. apply lookup_insert_Some in He as [[<- <-]|[Hne He]]; [cbn; by rewrite (Hid i a d Hi Hd)|].
    by apply (ac_stored _ Hy b e He).
  - intros j b e Hj He Hz. apply Hrm'. apply lookup_insert_Some in He as [[<- <-]|[Hne He]].
    + cbn in Hz. split; [|lia]. by rewrite <- (Hid j a d Hj Hd), (Hid i a d Hi Hd).
    + by destruct (Hrm j (ac_zero _ Hy j b e Hj He Hz)).
  - intros j [-> Hz]%Hrm'. exists a, (set_refcount (id_refcount d - n) d). rewrite lookup_insert_eq. split_and!; [done..|cbn; lia].
  - done.
  - intros b e He. unfold get. cbn. apply lookup_insert_Some in He as [[<- <-]|[Hne He]]; [apply (ac_gone _ Hy a d Hd) | by apply (ac_gone _ Hy b e He)].
Qed.

(** The removal of [a]: nothing refers to it, and its migration info becomes
    a call. *)
Lemma acct_removed s s' l l' ws r g i todo a d calls h : acct (mk_sys s l ws r g h) → store_ok s →
  remaining l = todo → (∀ j, removing l j ↔ j = i) → get s i = Some a → st_arcs s !! a = Some d →
  remove i s = Ok (s', info_parent (id_migration_info d)) → drops s' (info_parent (id_migration_info d)) calls →
  remaining l' = calls ++ todo → (∀ j, ¬ removing l' j) → (∀ c, l' ≠ Some (c, true)) →
  acct (mk_sys s' l' ws r g h).
Proof.
  intros Hy Hok Hrem Hrm Hi Hd Hremove Hcalls Hrem' Hrm' Hc. pose proof (stored_inode s Hok) as Hid.
  destruct (remove_inv i s a d Hi Hd) as (s1 & E & Harcs & Hdata & _). rewrite E in Hremove. injection Hremove as <-.
  destruct (ac_removing _ Hy i) as (a' & d' & Hi' & Hd' & Hz); [by apply Hrm|]. cbn in Hi', Hd'.
  assert (a' = a) as -> by congruence. assert (d' = d) as -> by congruence. clear Hi' Hd'.
  pose proof (ac_todo _ Hy) as Htodo. pose proof (ac_count _ Hy) as Hcount. cbn in Htodo, Hcount. rewrite Hrem in *.
  pose proof (pend_nonneg s todo a Htodo) as Hpa. pose proof (ac_nonneg _ Hy a) as Hra. pose proof (mig_nonneg (st_arcs s) a) as Hma.
  pose proof (Hcount a d Hd) as Ha. cbn in Hra.
  assert (∀ j b, get s1 j = Some b ↔ get s j = Some b ∧ b ≠ a) as Hget.
  { intros j b. unfold get. rewrite Hdata, lookup_delete_Some. split.
    - intros [Hne Hj]. split; [done|]. intros ->. by rewrite <- (Hid j a d Hj Hd), (Hid i a d Hi Hd) in Hne.
    - intros [Hj Hne]. split; [|done]. intros <-. unfold get in Hi. congruence. }
  assert (∀ b, pend s1 todo b = if decide (b = a) then 0 else pend s todo b) as Hpend.
  { intros b. clear -Hget. induction todo as [|[j n] todo IH]; cbn; [by case_decide|]. rewrite IH.
    destruct (decide (get s1 j = Some b)) as [[H1 H2]%Hget|H]; [|].
    { by rewrite !(decide_False (P := b = a)), decide_True by done. }
    case_decide as Hba; [done|]. rewrite (decide_False (P := get s j = Some b)); [done|]. intros Hj. apply H, Hget. done. }
  assert (∀ b, mig (st_arcs s1) b = mig (st_arcs s) b - ind (info_parent (id_migration_info d)) b) as Hmig.
  { intros b. rewrite Harcs, (mig_set _ a d) by done. cbn. rewrite ind_None. lia. }
  assert (Forall (λ c, 0 ≤ c.2) calls ∧ ∀ b, pend s1 calls b = ind (info_parent (id_migration_info d)) b) as [Hcn Hcp].
  { apply (drops_pend s1); [done|]. intros p e Hp He. apply Hget.
    pose proof (mig_parent (st_arcs s) a d p Hd Hp) as Hmp. assert (p ≠ a) as Hpa' by (intros ->; lia). split; [|done].
    rewrite Harcs, lookup_insert_ne in He by done. apply (ac_stored _ Hy p e He). rewrite (Hcount p e He).
    pose proof (pend_nonneg s todo p Htodo). pose proof (ac_nonneg _ Hy p). cbn in *. lia. }
  split; cbn; rewrite ?Hrem'.
  - intros b e He. rewrite Harcs in He. rewrite Hmig, pend_app, Hcp, Hpend. apply lookup_insert_Some in He as [[<- <-]|[Hne He]].
    + rewrite decide_True by done. cbn. lia.
    + rewrite decide_False by done. rewrite (Hcount b e He). lia.
  - intros b Hb. rewrite Harcs in Hb. apply lookup_insert_None in Hb as [Hb _]. destruct (ac_none _ Hy b Hb) as (? & ? & ?). cbn in *.
    pose proof (mig_nonneg (st_arcs s1) b). pose proof (ind_range (info_parent (id_migration_info d)) b). rewrite Hmig in *. lia.
  - apply (ac_nonneg _ Hy).
  - by apply Forall_app.
  - intros b e He Hpos. rewrite Harcs in He. apply lookup_insert_Some in He as [[<- <-]|[Hne He]]; [cbn in Hpos; lia|].
    apply Hget. split; [by apply (ac_stored _ Hy b e He) | done].
  - intros j b e [Hj Hne]%Hget He Hz'. rewrite Harcs, lookup_insert_ne in He by done.
    pose proof (ac_zero _ Hy j b e Hj He Hz') as ->%Hrm. congruence.
  - intros j Hj. by destruct (Hrm' j).
  - done.
  - intros b e He Hb. rewrite Harcs in He. apply lookup_insert_Some in He as [[<- <-]|[Hne He]]; [done|].
    apply (ac_gone _ Hy b e He). intros Hb'. apply Hb, Hget. done.
Qed.

(** An info that is taken out becomes a call. *)
Lemma acct_swept s l l' ws r g h todo a d calls : let s' := set_arc a (set_migration_info None d) s in
  acct (mk_sys s l ws r g h) → st_arcs s !! a = Some d → drops s' (info_parent (id_migration_info d)) calls →
  remaining l = todo → remaining l' = todo ++ calls → (∀ i, ¬ removing l i) → (∀ i, ¬ removing l' i) →
  (∀ c, l' ≠ Some (c, true)) → acct (mk_sys s' l' ws r g h).
Proof.
  intros s' Hy Hd Hcalls Hrem Hrem' Hrm Hrm' Hc. pose proof (ac_count _ Hy) as Hcount. pose proof (ac_todo _ Hy) as Htodo.
  cbn in Hcount, Htodo. rewrite Hrem in Hcount, Htodo.
  assert (∀ b, mig (st_arcs s') b = mig (st_arcs s) b - ind (info_parent (id_migration_info d)) b) as Hmig.
  { intros b. unfold s'. cbn [st_arcs set_arc]. rewrite (mig_set _ a d) by done. cbn. rewrite ind_None. lia. }
  assert (∀ b e, st_arcs s' !! b = Some e → ∃ e0, st_arcs s !! b = Some e0 ∧ id_inode e = id_inode e0 ∧ id_refcount e = id_refcount e0 ∧
    (id_migration_info e = None ∨ e = e0)) as Hback.
  { unfold s'. cbn. intros b e [[<- <-]|[Hne He]]%lookup_insert_Some; [exists d | exists e]; auto. }
  destruct (drops_pend s' _ calls Hcalls) as [Hcn Hcp].
  { intros p e Hp (e0 & He0 & -> & _)%Hback. pose proof (mig_parent (st_arcs s) a d p Hd Hp) as Hmp.
    apply (ac_stored _ Hy p e0 He0). rewrite (Hcount p e0 He0). pose proof (pend_nonneg s todo p Htodo). pose proof (ac_nonneg _ Hy p). cbn in *. lia. }
  split; cbn [y_store y_lock y_refs y_guest]; rewrite ?Hrem'.
  - intros b e (e0 & He0 & _ & -> & _)%Hback. rewrite Hmig, pend_app, Hcp, (pend_same s) by done. rewrite (Hcount b e0 He0). lia.
  - intros b Hb. unfold s' in Hb. cbn in Hb. apply lookup_insert_None in Hb as [Hb _]. destruct (ac_none _ Hy b Hb) as (? & ? & ?). cbn in *.
    rewrite Hmig.     pose proof (mig_nonneg (st_arcs s') b) as Hm. rewrite Hmig in Hm. pose proof (ind_range (info_parent (id_migration_info d)) b). lia.
  - apply (ac_nonneg _ Hy).
  - by apply Forall_app.
  - intros b e (e0 & He0 & -> & -> & _)%Hback Hpos. by apply (ac_stored _ Hy b e0).
  - intros i b e Hi (e0 & He0 & _ & -> & _)%Hback Hz. by destruct (Hrm i (ac_zero _ Hy i b e0 Hi He0 Hz)).
  - intros i Hi. by destruct (Hrm' i).
  - done.
  - intros b e (e0 & He0 & -> & _ & [-> | ->])%Hback Hb; [done|]. by apply (ac_gone _ Hy b e0).
Qed.

Lemma acct_holder s c b ws r g c' s' h : acct (mk_sys s (Some (c, b)) ws r g h) → sys_ok (mk_sys s (Some (c, b)) ws r g h) →
  finished c = false → holder_access c s = Ok (c', s') → acct (mk_sys s' (Some (c', b)) ws r g h).
Proof.
  intros Hy Hok Hne Hf. pose proof (yo_store _ Hok) as Hst.
  destruct (holder_access_spec c s Hst (yo_lock _ Hok _ _ eq_refl) Hne) as (c1 & s1 & E & Hac). rewrite E in Hf. injection Hf as <- <-.
  destruct b; [by destruct (ac_clear _ Hy c)|].
  destruct Hac as [a inodes todo s d calls Hd Hcalls|i n todo ph s c1 s1 Hfg].
  { eapply acct_swept; [exact Hy|exact Hd|exact Hcalls|done|by destruct inodes|..|done]; intros j; rewrite removing_iff; [by intros [? _]|].
    by destruct inodes; intros [? _]. }
  pose proof (ac_todo _ Hy) as Htodo. pose proof (ac_nonneg _ Hy) as Hnn. cbn in Htodo, Hnn.
  destruct Hfg as [Hi|a d Ha Hd|a d rc Ha Hd Hrc|a d Ha Hd Hlt|a d Ha Hd Hle|a d s' calls Ha Hd Hrem Hcalls].
  - eapply acct_phase; [exact Hy| | | |done]; cbn.
    + intros a. by rewrite Hi, decide_False by done.
    + by apply Forall_cons in Htodo as [_ ?].
    + intros j. rewrite !removing_iff. by split; intros [? _].
  - eapply acct_phase; [exact Hy|done|done| |done]. intros j. rewrite !removing_iff. by split; intros [? _].
  - eapply acct_phase; [exact Hy|done|done| |done]. intros j. rewrite !removing_iff. by split; intros [? _].
  - eapply acct_taken; [exact Hy|done| |done..| |done]; intros j; rewrite removing_iff; [by intros [? _]|].
    split; [by intros [? _] | intros; lia].
  - assert (id_refcount d = n) as En.
    { pose proof (ac_count _ Hy a d Hd) as Ec. cbn in Ec. rewrite Ha, decide_True in Ec by done. specialize (Hnn a).
      apply Forall_cons in Htodo as [_ Htodo]. pose proof (pend_nonneg s todo a Htodo). pose proof (mig_nonneg (st_arcs s) a). lia. }
    replace 0 with (id_refcount d - n) by lia.
    eapply acct_taken; [exact Hy|done| |done..| |done]; intros j; rewrite removing_iff; [by intros [? _]|].
    split; [by intros (_ & ? & ? & [= <- _ _]) | intros [-> _]; eauto].
  - eapply acct_removed; [exact Hy|done|done| |exact Ha|exact Hd|exact Hrem|exact Hcalls|done| |done]; intros j; rewrite removing_iff.
    + split; [by intros (_ & ? & ? & [= <- _ _]) | intros ->; eauto].
    + by intros [? _].
Qed.

Lemma acct_ext s l ws r g r' g' h : acct (mk_sys s l ws r g h) → (∀ a, r' a = r a) → (∀ a, g' a = g a) → acct (mk_sys s l ws r' g' h).
Proof.
  intros [H1 H2 H3 H4 H5 H6 H7 H8 H9] Hr Hg. cbn in *. split; cbn; try done; intros a; rewrite Hr, Hg; auto.
Qed.

Lemma acct_infos s l ws r g h h' : acct (mk_sys s l ws r g h) → acct (mk_sys s l ws r g h').
Proof. by intros []. Qed.

Lemma removing_free i : ¬ removing None i.
Proof. by intros (? & ? & ? & ? & ? & _). Qed.

Lemma clear_info_idle s b : remaining (Some (clear_migration_info s, b)) = [] ∧
  ∀ i, ¬ removing (Some (clear_migration_info s, b)) i.
Proof. unfold clear_migration_info. split; [by destruct (values s)|]. intros i. rewrite removing_iff. by intros (_ & ? & ? & ?). Qed.

Lemma acct_drop s ws r g h a call : acct (mk_sys s None ws r g h) → 0 < r a → drop_unlocked s a = Ok call →
  acct (mk_sys s (Some (forget_many [call], false)) ws (bump r (Some a) (-1)) g h).
Proof.
  intros Hy Hra Hcall. pose proof (ac_nonneg _ Hy) as Hnn. cbn in Hnn.
  unfold drop_unlocked in Hcall. apply bind_Ok_inv in Hcall as (d & Hd%deref_Ok & [= <-]).
  destruct (acct_held _ a Hy) as (d' & Hd' & _ & Hget); [cbn; specialize (Hnn a); pose proof (mig_nonneg (st_arcs s) a); lia|]. cbn in Hd', Hget.
  assert (d' = d) as -> by congruence. apply (acct_calls s None ws r g); [done|done|apply removing_free|by repeat constructor| |].
  - intros b. rewrite bump_eq. specialize (Hnn b). destruct (decide (a = b)) as [<-|]; [rewrite ind_same|rewrite ind_other by done]; lia.
  - intros b. rewrite bump_eq, (pend_one s a) by done. lia.
Qed.

Lemma step_acct e y y' : sys_ok y → acct y → step true e y y' → acct y'.
Proof.
  intros Hok Hy Hs. pose proof (yo_store _ Hok) as Hst. pose proof (ac_nonneg _ Hy) as Hnn.
  destruct Hs as [s ws r g h i a Ha|s l ws ws' a r g h res Hroom Hres|s l ws r g h a b s' Hra Hroom Hc|s ws r g h hd ids a s' Hroom Hc|
    s ws r g h a data b s' Ha Hinfo Hroom Hi|s ws r g h a data s' Ha Hinfo Hrc Hi|s l ws r g h a Hra|s l ws r g h b Hb Hh|
    s l ws r g h b d m Hb Hh Hd Hm|s ws r g h b a call Hh Hra Hcall|s l ws r g h b Hh|
    s ws r g h a call Hra Hcall|s ws r g h calls Hcalls Hpol|s ws r g h|s ws r g h Hpol|
    s c b ws r g h c' s' Hne Hfree Hf|s c b ws r g h Hnil]; cbn in Hst, Hnn.
  - by destruct Hy.
  - apply increment_inv in Hres; [|done]. destruct res as [e|s']; [by destruct Hy | by eapply acct_counted].
  - apply clone_inv in Hc as [-> Hc]; [|done]. by eapply acct_counted.
  - apply claim_inv in Hc; [|done]. by eapply acct_counted.
  - apply get_or_insert_inv in Hi as [Hc|[-> Hi]]; [| |done].
    + rewrite decide_False; [by eapply acct_counted|]. intros ->. destruct Hc as (d & ? & _). congruence.
    + rewrite decide_True by done. eapply acct_ext; [by apply (acct_inserted s s' ws r g a (set_refcount 1 data) 1 0)|done|].
      intros c. rewrite bump_eq. lia.
  - apply new_inode_inv in Hi. eapply acct_ext; [apply (acct_inserted s s' ws r g a data 0 (id_refcount data)); done || lia| |done].
    intros c. rewrite (bump_eq _ (Some a)). lia.
  - pose proof Hy as [H1 H2 H3 H4 H5 H6 H7 H8 H9]. cbn in *. split; cbn; try done; intros b; rewrite !bump_eq.
    + intros d Hd. rewrite (H1 b d Hd). lia.
    + intros Hb. destruct (decide (a = b)) as [<-|]; [destruct (H2 a Hb); lia|]. rewrite ind_other by done. specialize (H2 b Hb). lia.
    + specialize (Hnn b). destruct (decide (a = b)) as [<-|]; [rewrite ind_same|rewrite ind_other by done]; lia.
  - by eapply acct_infos.
  - apply deref_Ok in Hd. apply (acct_infos _ _ _ _ _ h). by apply acct_set_info.
  - apply (acct_infos _ _ _ _ _ h). by apply acct_drop.
  - by eapply acct_infos.
  - by apply acct_drop.
  - apply (acct_calls s None ws r g); [done|done|apply removing_free|done|intros b; specialize (Hnn b); lia|].
    intros b. specialize (Hpol eq_refl b). lia.
  - destruct (clear_info_idle s false) as [E Hrm]. eapply acct_phase; [exact Hy|by rewrite E..| |done].
    intros i. split; [intros []%removing_free | intros []%Hrm].
  - done.
  - by eapply acct_holder.
  - destruct b; [by destruct (ac_clear _ Hy c)|]. eapply acct_phase; [exact Hy| |constructor| |done]; destruct c as [todo ph];
      (assert (todo = []) as -> by (unfold finished in Hnil; cbn in Hnil; destruct ph as [[]| | |], todo; done)).
    + intros a. by destruct ph.
    + intros i. rewrite removing_iff. split; [by intros (_ & ? & ? & ?) | intros []%removing_free].
Qed.

Lemma acct0 : acct sys0.
Proof.
  split; cbn; try done; try (intros; by rewrite ?lookup_empty in *).
  by intros i (? & ? & ? & ? & ? & _).
Qed.

Lemma steps_acct evs y : steps true evs sys0 y → acct y.
Proof.
  intros Hrun. remember sys0 as y0 eqn:E. induction Hrun as [|evs e y1 y2 y3 Hrun IH Hs]; subst; [apply acct0|].
  eapply step_acct; [by eapply steps_sys_ok | by apply IH | done].
Qed.

(** ** Progress *)

Lemma weight_nonneg s ph : 0 ≤ weight s ph.
Proof. destruct ph; cbn -[Z.mul]; try lia. case_decide; lia. Qed.

Lemma potential_nonneg y : 0 ≤ potential y.
Proof.
  unfold potential. destruct (y_lock y) as [[c b]|]; [|done]. pose proof (weight_nonneg (y_store y) (ho_phase c)). lia.
Qed.

Lemma holder_potential polite y y' : sys_ok y → step polite Holder y y' → potential y' < potential y.
Proof.
  intros Hok Hs. inversion Hs as [| | | | | | | | | | | | | | |s c b ws r g h c' s' Hne Hfree Hf|s c b ws r g h Hnil]; subst.
  - pose proof (yo_store _ Hok) as Hst.
    destruct (holder_access_spec c s Hst (yo_lock _ Hok _ _ eq_refl) Hne) as (c1 & s1 & E & Hac). rewrite E in Hf. injection Hf as <- <-.
    by apply accesses_potential.
  - unfold potential. cbn. pose proof (weight_nonneg s (ho_phase c)). lia.
Qed.

Lemma weight_other s s' ph : weight s' ph ≤ weight s ph + 2.
Proof. destruct ph; cbn; try lia. repeat case_decide; lia. Qed.

Lemma other_potential polite y y' : y_lock y ≠ None → step polite Other y y' →
  y_lock y' = y_lock y ∧ st_data (y_store y') = st_data (y_store y) ∧ potential y' ≤ potential y + 2.
Proof.
  assert (∀ s s' l ws ws' r r' g g' h h', st_data s' = st_data s → y_lock (mk_sys s' l ws' r' g' h') = l ∧ st_data s' = st_data s ∧
    potential (mk_sys s' l ws' r' g' h') ≤ potential (mk_sys s l ws r g h) + 2) as Hgen.
  { intros s s' l ws ws' r r' g g' h h' E. split_and!; [done..|]. unfold potential. cbn. destruct l as [[c b]|]; [|lia]. rewrite E.
    pose proof (weight_other s s' (ho_phase c)). lia. }
  intros Hl Hs. inversion Hs as [|s l ws ws' a r g h res Hroom Hres|s l ws r g h a b s' Hra Hroom Hc| | | | | | | | | | | | | |]; subst;
    try done; try by apply Hgen.
  - apply increment_inv in Hres; [|done]. destruct res as [e|s']; apply Hgen; [done|]. by destruct Hres as (d & _ & _ & ->).
  - apply clone_inv in Hc as [-> (d & _ & _ & ->)]; [|done]. by apply Hgen.
Qed.

(** The holder is stuck exactly when another thread has the mutex it needs. *)
Lemma holder_enabled polite y c b : sys_ok y → y_lock y = Some (c, b) →
  (∃ y', step polite Holder y y') ↔ ∀ a, info_wanted c (y_store y) = Some a → y_info y !! a = None.
Proof.
  destruct y as [s l ws r g h]. cbn. intros Hok ->. destruct (finished c) eqn:Hf.
  - split; [|intros _; eexists; by apply step_unlock]. intros _ a Ha. unfold finished, info_wanted in *.
    by destruct (ho_phase c) as [[]| | |], (ho_todo c).
  - destruct (holder_access_spec c s (yo_store _ Hok) (yo_lock _ Hok _ _ eq_refl) Hf) as (c1 & s1 & E & _). split.
    + intros [y' Hs]. inversion Hs; subst; [done|congruence].
    + intros Hfree. eexists. by eapply step_holder.
Qed.

Lemma holder_info polite y y' : step polite Holder y y' → y_info y' = y_info y.
Proof. by inversion 1. Qed.

(** A thread that has to take the write lock before it unlocks an info keeps
    the info locked while the write lock is held. *)
Lemma other_info polite y y' a p : y_lock y ≠ None → y_info y !! a = Some (Some p) → step polite Other y y' →
  y_info y' !! a = Some (Some p).
Proof.
  intros Hl Ha Hs. inversion Hs; subst; cbn in *; try done.
  - by destruct res.
  - rewrite lookup_insert_ne; [done|congruence].
  - rewrite lookup_insert_ne; [done|congruence].
  - rewrite lookup_delete_ne; [done|congruence].
Qed.

Lemma wanted_same c s s' : st_data s' = st_data s → info_wanted c s' = info_wanted c s.
Proof. unfold info_wanted, get. by intros ->. Qed.

(** The holder waits for an info whose owner waits for the write lock. *)
Definition deadlocked (y : sys) (c : holder) (b : bool) (a p : arc) : Prop :=
  y_lock y = Some (c, b) ∧ info_wanted c (y_store y) = Some a ∧ y_info y !! a = Some (Some p).

Lemma deadlock_forever polite evs y y' c b a p : sys_ok y → deadlocked y c b a p → steps polite evs y y' →
  sys_ok y' ∧ deadlocked y' c b a p.
Proof.
  intros Hok Hd. induction 1 as [|evs e y1 y2 y3 _ IH Hs]; [done|]. destruct (IH Hok Hd) as [Hok2 (Hl & Hw & Hi)].
  split; [by eapply step_sys_ok|]. assert (y_lock y2 ≠ None) as Hl' by congruence. destruct e.
  - pose proof (proj1 (holder_enabled polite y2 c b Hok2 Hl) (ex_intro _ y3 Hs) a Hw). congruence.
  - destruct (other_potential _ _ _ Hl' Hs) as (El & Es & _). unfold deadlocked.
    by rewrite El, (wanted_same c _ _ Es), (other_info _ _ _ _ _ Hl' Hi Hs).
Qed.

Definition count_event (e : event) (evs : list event) : Z := Z.of_nat (length (filter (e =.) evs)).

Lemma locked_run_bound polite evs y y' : sys_ok y → locked_run polite evs y y' →
  count_event Holder evs + potential y' ≤ potential y + 2 * count_event Other evs.
Proof.
  intros Hok Hr. unfold count_event. induction Hr as [y|e evs y1 y2 y3 Hl Hs _ IH]; [cbn; lia|].
  specialize (IH (step_sys_ok _ _ _ _ Hok Hs)). destruct e.
  - pose proof (holder_potential _ _ _ Hok Hs). rewrite filter_cons_True, filter_cons_False by done. cbn [length]. lia.
  - destruct (other_potential _ _ _ Hl Hs) as (_ & _ & ?). rewrite filter_cons_False, filter_cons_True by done. cbn [length]. lia.
Qed.

Lemma holder_alone polite y : sys_ok y → y_info y = ∅ →
  ∃ evs y', Forall (Holder =.) evs ∧ locked_run polite evs y y' ∧ y_lock y' = None.
Proof.
  intros Hok Hi. remember (Z.to_nat (potential y)) as k eqn:Ek. revert y Hok Hi Ek. induction (lt_wf k) as [k _ IH]; intros y Hok Hi ->.
  destruct (y_lock y) as [[c b]|] eqn:Hl; [|by exists [], y; split_and!; [constructor|constructor|]].
  destruct (proj2 (holder_enabled polite y c b Hok Hl)) as [y1 Hs]; [intros a _; by rewrite Hi, lookup_empty|].
  pose proof (holder_potential _ _ _ Hok Hs). pose proof (potential_nonneg y1). pose proof (holder_info _ _ _ Hs) as Hi1. rewrite Hi in Hi1.
  destruct (IH (Z.to_nat (potential y1)) ltac:(lia) y1 (step_sys_ok _ _ _ _ Hok Hs) Hi1 eq_refl) as (evs & y' & Hevs & Hrun & Hfin).
  exists (Holder :: evs), y'. split_and!; [by constructor| |done]. econstructor; [congruence|done..].
Qed.

(** A run in which a lookup falls between the load and the exchange of a
    drop. *)
Definition test_root : InodeData := mk_InodeData 1 (File 3) 2 (mk_InodeIds 2 8 0) 16877 None.
Definition test_child : InodeData := mk_InodeData 2 (Handle (0, [7])) 1 (mk_InodeIds 12 8 0) 33188 None.

Definition test_store : InodeStoreInner := Eval vm_compute in
  match new_inode 1%positive test_root (y_store sys0) with
  | Ok (inr s) => match get_or_insert 2%positive test_child s with Ok (inr (_, s)) => s | _ => y_store sys0 end
  | _ => y_store sys0
  end.

(** One more step of a run, its premises by evaluation, the last one first. *)
Ltac premise :=
  first [ intros ? E; vm_compute in E; first [discriminate E | injection E as <-; vm_compute; reflexivity]
        | vm_compute; reflexivity ].
Ltac next_step H st := eapply steps_snoc in H; [|(eapply st; [.. | premise]); premise].

Lemma test_locked : ∃ r g,
  steps true [Other; Other; Other; Other; Holder] sys0
    (mk_sys test_store (Some (mk_holder [(2, 1)] (Exchange 2%positive 1), false)) [2%positive] r g ∅).
Proof.
  pose proof (steps_nil true sys0) as H.
  next_step H (step_new_inode true (y_store sys0) [] (λ _, 0) (λ _, 0) ∅ 1%positive test_root).
  next_step H uconstr:(step_get_or_insert true _ _ _ _ _ 2%positive test_child).
  next_step H uconstr:(step_get true _ _ _ _ _ 2).
  next_step H uconstr:(step_drop true _ _ _ _ _ 2%positive).
  next_step H step_holder. eexists _, _. exact H.
Qed.

Lemma test_run : ∃ y,
  steps true [Other; Other; Other; Other; Holder; Other; Holder; Holder; Holder; Holder] sys0 y ∧
  y_lock y = None ∧ get (y_store y) 2 = Some 2%positive.
Proof.
  destruct test_locked as (r & g & H). next_step H uconstr:(step_upgrade true _ _ [] []).
  do 3 next_step H step_holder. next_step H step_unlock. eexists. split; [exact H|]. by vm_compute.
Qed.

(** A rename has taken the old location of inode 2 and is about to drop its
    parent while a migration is cancelled. *)
Definition test_located : InodeData := mk_InodeData 2 (Handle (0, [7])) 1 (mk_InodeIds 12 8 0) 33188 (Some (Path 1%positive [97])).

Lemma test_rename : ∃ evs y c a p, steps true evs sys0 y ∧ deadlocked y c false a p.
Proof.
  pose proof (steps_nil true sys0) as H.
  next_step H uconstr:(step_new_inode true _ _ _ _ _ 1%positive test_root).
  next_step H uconstr:(step_get true _ _ _ _ _ 1).
  next_step H uconstr:(step_upgrade true _ _ [] []).
  next_step H uconstr:(step_get_or_insert true _ _ _ _ _ 2%positive test_located).
  next_step H uconstr:(step_lock_info true _ _ _ _ _ _ 2%positive).
  next_step H uconstr:(step_set_info true _ _ _ _ _ _ 2%positive _ None).
  eapply steps_snoc in H; [|apply step_clear_info].
  next_step H step_holder. eexists _, _, _, _, _. split; [exact H|]. by vm_compute.
Qed.

(** ** Properties *)

(** C4: With polite guests, in every interleaving, the count of an inode is
    the number of strong references of the server, lookups of the guest,
    references in migration infos and calls under way; an inode that is
    referred to is in the store under its number with a positive count, also
    while another thread is in the middle of a decrement; and when the lock is
    free every inode in the store is referred to. *)
Theorem inode_refcounts (evs : list event) (y : sys) (Hrun : steps true evs sys0 y) :
  (∀ a d, st_arcs (y_store y) !! a = Some d →
    id_refcount d = y_refs y a + y_guest y a + mig (st_arcs (y_store y)) a + pend (y_store y) (remaining (y_lock y)) a) ∧
  (∀ a, 0 < y_refs y a + y_guest y a + mig (st_arcs (y_store y)) a →
    ∃ d, st_arcs (y_store y) !! a = Some d ∧ 0 < id_refcount d ∧ get (y_store y) (id_inode d) = Some a) ∧
  (y_lock y = None → ∀ i a, get (y_store y) i = Some a → 0 < y_refs y a + y_guest y a + mig (st_arcs (y_store y)) a).
Proof.
  pose proof (steps_acct _ _ Hrun) as Hy. pose proof (steps_sys_ok _ _ _ Hrun) as Hok. split_and!; [apply Hy|intros a; by apply acct_held|].
  intros Hl i a Hi. destruct (so_data _ (yo_store _ Hok) i a Hi) as (d & Hd & _). pose proof (ac_count y Hy a d Hd) as Ec.
  rewrite Hl in Ec. cbn in Ec. assert (id_refcount d ≠ 0) as Hnz.
  { intros Hz. pose proof (ac_zero y Hy i a d Hi Hd Hz) as Hrm. rewrite Hl in Hrm. by destruct Hrm as (? & ? & ? & ? & ? & _). }
  pose proof (ac_nonneg y Hy a). pose proof (mig_nonneg (st_arcs (y_store y)) a). lia.
Qed.

Lemma inode_refcounts_witness : ∃ y, y_lock y = None ∧ 0 < y_refs y 2%positive + y_guest y 2%positive + mig (st_arcs (y_store y)) 2%positive.
Proof.
  destruct test_run as (y & Hrun & Hl & Hg). exists y. split; [exact Hl|].
  destruct (inode_refcounts _ y Hrun) as (_ & _ & H). exact (H Hl 2 2%positive Hg).
Defined.

(** C33: Whatever the guest forgets, a thread that holds the write lock never
    panics; it can go on exactly when no other thread has the mutex of the
    migration info it needs next; it finishes on its own when no such mutex is
    held; in any interleaving the number of its accesses is bounded by the
    inodes and the calls it has, plus two for every step of another thread in
    between; and when it waits for an info that a rename has locked before
    dropping the old parent, neither ever goes on: the lock is held forever. *)
Theorem forget_progress (polite : bool) (evs : list event) (y : sys) (c : holder) (b : bool)
    (Hrun : steps polite evs sys0 y) (Hl : y_lock y = Some (c, b)) :
  ((∃ y', step polite Holder y y') ↔ ∀ a, info_wanted c (y_store y) = Some a → y_info y !! a = None) ∧
  (y_info y = ∅ → ∃ evs' y', Forall (Holder =.) evs' ∧ locked_run polite evs' y y' ∧ y_lock y' = None) ∧
  (∀ evs' y', locked_run polite evs' y y' → count_event Holder evs' ≤ potential y + 2 * count_event Other evs') ∧
  (∀ a p, info_wanted c (y_store y) = Some a → y_info y !! a = Some (Some p) →
    ∀ evs' y', steps polite evs' y y' → y_lock y' = Some (c, b) ∧ y_info y' !! a = Some (Some p)).
Proof.
  pose proof (steps_sys_ok _ _ _ Hrun) as Hok. split; [|split; [|split]].
  - exact (holder_enabled polite y c b Hok Hl).
  - by apply holder_alone.
  - intros evs' y' Hr. pose proof (locked_run_bound _ _ _ _ Hok Hr). pose proof (potential_nonneg y'). lia.
  - intros a p Ha Hi evs' y' Hr. by destruct (deadlock_forever polite evs' y y' c b a p) as (_ & ? & _ & ?).
Qed.

Lemma forget_progress_witness :
  (∃ y c, y_lock y = Some (c, false) ∧ ∃ evs y', locked_run true evs y y' ∧ y_lock y' = None) ∧
  ∃ y c, y_lock y = Some (c, false) ∧ ∀ evs y', steps true evs y y' → y_lock y' = Some (c, false).
Proof.
  split.
  - destruct test_locked as (r & g & H). match type of H with steps _ _ _ ?y => exists y end. eexists. split; [reflexivity|].
    destruct (forget_progress true _ _ _ _ H eq_refl) as (_ & Hd & _). destruct (Hd eq_refl) as (evs & y' & _ & Hrun & Hl).
    exists evs, y'. split; [exact Hrun | exact Hl].
  - destruct test_rename as (evs & y & c & a & p & H & Hl & Hw & Hi). exists y, c. split; [exact Hl|].
    destruct (forget_progress true _ _ _ _ H Hl) as (_ & _ & _ & Hd). intros evs' y' Hr. exact (proj1 (Hd a p Hw Hi evs' y' Hr)).
Defined.

(** C34: Whatever the guest forgets, the maps by numbers and by handle never
    lead to a missing inode, so the lookups do not panic, and what they
    return has the numbers or the handle that were asked for. *)
Theorem inode_lookups (polite : bool) (evs : list event) (y : sys) (Hrun : steps polite evs sys0 y) :
  (∀ ids, ∃ o, get_by_ids (y_store y) ids = Ok o ∧
    ∀ a, o = Some a → ∃ d, deref (y_store y) a = Ok d ∧ id_ids d = ids) ∧
  (∀ h, ∃ o, get_by_handle (y_store y) h = Ok o ∧
    ∀ a, o = Some a → ∃ d, deref (y_store y) a = Ok d ∧ id_file_or_handle d = Handle h).
Proof.
  pose proof (yo_store _ (steps_sys_ok _ _ _ Hrun)) as Hok. split.
  - intros ids. unfold get_by_ids, inode_by_ids, get_unwrap. destruct (st_by_ids (y_store y) !! ids) as [i|] eqn:E; [|by exists None].
    destruct (so_ids _ Hok ids i E) as (a & d & Ha & Hd & Hi). unfold get. rewrite Ha. exists (Some a). split; [done|].
    intros a' [= <-]. exists d. by rewrite deref_Ok.
  - intros h. unfold get_by_handle, inode_by_handle, get_unwrap. destruct (st_by_handle (y_store y) !! h) as [i|] eqn:E; [|by exists None].
    destruct (so_handle _ Hok h i E) as (a & d & Ha & Hd & Hi). unfold get. rewrite Ha. exists (Some a). split; [done|].
    intros a' [= <-]. exists d. by rewrite deref_Ok.
Qed.

Lemma inode_lookups_witness : ∃ y, get (y_store y) 2 = Some 2%positive ∧ ∀ ids, ∃ o, get_by_ids (y_store y) ids = Ok o.
Proof.
  destruct test_run as (y & Hrun & _ & Hg). exists y. split; [exact Hg|]. intros ids.
  destruct (inode_lookups true _ y Hrun) as [H _]. destruct (H ids) as (o & E & _). exists o. exact E.
Defined.
