(* ===== verification/Migration.v ===== *)
(** * Migration of the kfsd state

    [src/kfsd/src/passthrough/device_state]: the state of the server is turned
    into a list of inodes and handles on the source and applied on the
    destination, which opens every inode by its parent and its name.  The
    system calls are arguments; file handles are not verified
    ([migration_verify_handles] off); the byte encoding is that of a library
    and is not modelled. *)

From stdpp Require Import base numbers list gmap sorting.
From Stdlib Require Import ZArith Lia.
From S2P Require Import Prelude InodeStore InodeRefs.

Open Scope Z_scope.
Open Scope kfs_scope.

(** ** Data *)

Definition ROOT_ID : Inode := 1.

(** [serialized::InodeLocation] and [serialized::Inode]. *)
Inductive s_location :=
  | SRootNode
  | SPath (parent : Inode) (filename : list Z)
  | SInvalid
  | SFullPath (filename : list Z).

Record s_inode := mk_s_inode {
  si_id : Inode;
  si_refcount : Z;
  si_location : s_location
}.

(** [serialized::Handle], with the flags of [OpenInode]. *)
Record s_handle := mk_s_handle {
  sh_id : Z;
  sh_inode : Inode;
  sh_flags : Z
}.

Record NegotiatedOpts := mk_NegotiatedOpts {
  no_writeback : bool;
  no_announce_submounts : bool;
  no_posix_acl : bool;
  no_sup_group_extension : bool
}.

Record PassthroughFsV1 := mk_PassthroughFsV1 {
  v1_inodes : list s_inode;
  v1_next_inode : Z;
  v1_handles : list s_handle;
  v1_next_handle : Z;
  v1_negotiated_opts : NegotiatedOpts
}.

(** [hd_file] is [None] for an invalid handle. *)
Record HandleData := mk_HandleData {
  hd_inode : Inode;
  hd_file : option Z;
  hd_flags : Z
}.

Record PassthroughFs := mk_PassthroughFs {
  pf_inodes : InodeStoreInner;
  pf_next_inode : Z;
  pf_handles : gmap Z HandleData;
  pf_next_handle : Z;
  pf_opts : NegotiatedOpts
}.

(** The order of the keys of the map. *)
Definition handle_le (x y : Z * HandleData) : Prop := fst x ≤ fst y.
Instance handle_le_dec x y : Decision (handle_le x y).
Proof. unfold handle_le. apply _. Defined.

Inductive MigrationOnError := Abort | GuestError.

Instance on_error_eq_dec : EqDecision MigrationOnError.
Proof. solve_decision. Defined.

(** The options the user allows; the last one is not configured. *)
Record Config := mk_Config {
  cfg_opts : NegotiatedOpts;
  cfg_migration_confirm_paths : bool;
  cfg_migration_on_error : MigrationOnError
}.

Inductive mig_error :=
  | NoRoot
  | NoLocation
  | Lost
  | OptionRefused
  | WrongRoot
  | CannotOpen
  | Store (e : store_error)
  | Unresolved
  | NoInode.

(** [?]; on the destination an error comes with what has changed so far. *)
Definition ebind {E A B} (x : outcome (E + A)) (f : A → outcome (E + B)) : outcome (E + B) :=
  r ← x;
  match r with
  | inl e => Ok (inl e)
  | inr a => f a
  end.

Notation "x ⟵ y ; z" := (ebind y (λ x, z)) (at level 20, y at level 100, z at level 200, right associativity) : kfs_scope.

(** ** Calls on the store without other threads *)

Fixpoint drain (fuel : nat) (c : holder) (s : InodeStoreInner) : outcome InodeStoreInner :=
  if finished c then Ok s
  else
    match fuel with
    | O => Fault OutOfFuel
    | S fuel => ' (c, s) ← holder_access c s; drain fuel c s
    end.

Definition drain_fuel (c : holder) (s : InodeStoreInner) : nat :=
  8 + 4 * (size (st_data s) + length (ho_todo c)) + 5 * match ho_phase c with Sweep inodes => length inodes | _ => 0 end.

Definition run_calls (c : holder) (s : InodeStoreInner) : outcome InodeStoreInner := drain (drain_fuel c s) c s.

(** The end of the life of a strong reference. *)
Definition drop_reference (a : arc) (s : InodeStoreInner) : outcome InodeStoreInner :=
  call ← drop_unlocked s a; run_calls (forget_many [call]) s.

(** [clear] of the store. *)
Definition clear_store (s : InodeStoreInner) : outcome InodeStoreInner :=
  s ← run_calls (clear_migration_info s) s;
  Ok (clear s).

(** The location of the next [Arc]. *)
Definition new_arc (s : InodeStoreInner) : arc := fresh (dom (st_arcs s) : gset arc).

(** ** The source *)

Section serialization.
  (** Whether an inode is found under a parent and a name; its path below the
      shared directory. *)
  Variable check_presence : InodeData → InodeData → list Z → bool.
  Variable path_from_proc_self_fd : InodeData → option (list Z).
  Variable cfg : Config.

(** [InodeMigrationInfo::as_serialized]. *)
Definition info_as_serialized (inode_data : InodeData) (m : InodeLocation) (s : InodeStoreInner) :
    outcome (mig_error + s_location) :=
  match m with
  | RootNode => Ok (inr SRootNode)
  | Path parent filename =>
    p ← deref s parent;
    if cfg_migration_confirm_paths cfg && negb (check_presence inode_data p filename) then
      match path_from_proc_self_fd inode_data with
      | None => Ok (inl Lost)
      | Some path_in_shared_dir => Ok (inr (SFullPath path_in_shared_dir))
      end
    else Ok (inr (SPath (id_inode p) filename))
  end.

Definition is_root_node (m : InodeLocation) : bool :=
  match m with
  | RootNode => true
  | Path _ _ => false
  end.

Definition inode_as_serialized (d : InodeData) (s : InodeStoreInner) : outcome (mig_error + s_inode) :=
  let id := id_inode d in
  let refcount := id_refcount d in
  match id_migration_info d with
  | None => Ok (inl NoLocation)
  | Some m =>
    ASSERT (Bool.eqb (id =? ROOT_ID) (is_root_node m)) ;;
    location ⟵ info_as_serialized d m s;
    Ok (inr (mk_s_inode id refcount location))
  end.

(** The inodes in the order of their numbers; one that cannot be serialized
    is marked as invalid. *)
Fixpoint inodes_as_serialized (arcs : list arc) (s : InodeStoreInner) : outcome (list s_inode) :=
  match arcs with
  | [] => Ok []
  | a :: arcs =>
    d ← deref s a;
    r ← inode_as_serialized d s;
    rest ← inodes_as_serialized arcs s;
    Ok (match r with inl _ => mk_s_inode (id_inode d) (id_refcount d) SInvalid | inr n => n end :: rest)
  end.

Definition handle_as_serialized (h : Z * HandleData) : s_handle :=
  mk_s_handle (fst h) (hd_inode (snd h)) (hd_flags (snd h)).

(** [TryFrom<&PassthroughFs> for PassthroughFsV1]. *)
Definition serialize_fs (fs : PassthroughFs) : outcome (mig_error + PassthroughFsV1) :=
  let s := pf_inodes fs in
  let handles_map := merge_sort handle_le (map_to_list (pf_handles fs)) in
  inodes ⟵ match get s ROOT_ID with
           | Some _ => l ← inodes_as_serialized (values s) s; Ok (inr l)
           | None => if is_empty s then Ok (inr []) else Ok (inl NoRoot)
           end;
  Ok (inr (mk_PassthroughFsV1 inodes (pf_next_inode fs) (map handle_as_serialized handles_map)
             (pf_next_handle fs) (pf_opts fs))).

End serialization.

(** ** The destination *)

Section deserialization.
  (** Opening the shared directory, an entry of a directory, and an inode with
      the flags of a handle. *)
  Variable open_root : option (FileOrHandle * InodeIds * Z).
  Variable open_path : FileOrHandle → list Z → option (FileOrHandle * InodeIds * Z).
  Variable open_inode : InodeData → Z → option Z.
  Variable cfg : Config.

(** [NegotiatedOpts::apply]: each option is stored before the next one is
    looked at. *)
Definition opts_apply (opts cur : NegotiatedOpts) : option mig_error * NegotiatedOpts :=
  if negb (no_writeback (cfg_opts cfg)) && no_writeback opts then (Some OptionRefused, cur)
  else
    let cur := mk_NegotiatedOpts (no_writeback opts) (no_announce_submounts cur) (no_posix_acl cur) (no_sup_group_extension cur) in
    if negb (no_announce_submounts (cfg_opts cfg)) && no_announce_submounts opts then (Some OptionRefused, cur)
    else
      let cur := mk_NegotiatedOpts (no_writeback cur) (no_announce_submounts opts) (no_posix_acl cur) (no_sup_group_extension cur) in
      if negb (no_posix_acl (cfg_opts cfg)) && no_posix_acl opts then (Some OptionRefused, cur)
      else
        let cur := mk_NegotiatedOpts (no_writeback cur) (no_announce_submounts cur) (no_posix_acl opts) (no_sup_group_extension cur) in
        (None, mk_NegotiatedOpts (no_writeback cur) (no_announce_submounts cur) (no_posix_acl cur) (no_sup_group_extension opts)).

Definition add_inode (data : InodeData) (s : InodeStoreInner) : outcome (mig_error * InodeStoreInner + InodeStoreInner) :=
  r ← new_inode (new_arc s) data s;
  Ok match r with inl e => inl (Store e, s) | inr s => inr s end.

(** [open_root_node] of the file system. *)
Definition open_root_node (s : InodeStoreInner) : outcome (mig_error * InodeStoreInner + InodeStoreInner) :=
  match open_root with
  | None => Ok (inl (CannotOpen, s))
  | Some (f, ids, mode) => add_inode (mk_InodeData ROOT_ID f 2 ids mode None) s
  end.

Definition deserialize_invalid_inode (n : s_inode) : mig_error + InodeData :=
  match cfg_migration_on_error cfg with
  | Abort => inl CannotOpen
  | GuestError => inr (mk_InodeData (si_id n) Invalid (si_refcount n) (mk_InodeIds 0 0 0) 0 None)
  end.

(** The strong reference to the parent is dropped at the end. *)
Definition deserialize_path (n : s_inode) (parent : arc) (filename : list Z) (s : InodeStoreInner) :
    outcome (option InodeData * InodeStoreInner) :=
  p ← deref s parent;
  let r :=
    match id_file_or_handle p with
    | Invalid => None
    | f =>
      match open_path f filename with
      | None => None
      | Some (g, ids, mode) => Some (mk_InodeData (si_id n) g (si_refcount n) ids mode None)
      end
    end in
  s ← drop_reference parent s;
  Ok (r, s).

(** The data, or that of an invalid inode, is added. *)
Definition add_located (n : s_inode) (r : option InodeData) (s : InodeStoreInner) :
    outcome (mig_error * InodeStoreInner + (bool * InodeStoreInner)) :=
  match match r with Some d => inr d | None => deserialize_invalid_inode n end with
  | inl e => Ok (inl (e, s))
  | inr d => s ⟵ add_inode d s; Ok (inr (true, s))
  end.

(** [Inode::deserialize_with_fs]: [false] if the inode has to wait. *)
Definition deserialize_inode (n : s_inode) (s : InodeStoreInner) :
    outcome (mig_error * InodeStoreInner + (bool * InodeStoreInner)) :=
  match si_location n with
  | SRootNode =>
    if negb (si_id n =? ROOT_ID) then Ok (inl (WrongRoot, s))
    else
      s ⟵ open_root_node s;
      match get s ROOT_ID with
      | None => Fault AssertFail
      | Some a => d ← deref s a; Ok (inr (true, set_arc a (set_refcount (si_refcount n) d) s))
      end
  | SPath parent filename =>
    if si_id n =? ROOT_ID then Ok (inl (WrongRoot, s))
    else
      match get s parent with
      | None => Ok (inr (false, s))
      | Some p => ' (r, s) ← deserialize_path n p filename s; add_located n r s
      end
  | SInvalid => add_located n None s
  | SFullPath filename =>
    if si_id n =? ROOT_ID then Ok (inl (WrongRoot, s))
    else
      r ← match get s ROOT_ID with
          | None => Ok (inl NotFound)
          | Some a => new_with_data a s
          end;
      match r with
      | inl _ => Ok (inr (false, s))
      | inr (shared_dir, s) => ' (r, s) ← deserialize_path n shared_dir filename s; add_located n r s
      end
  end.

(** [Vec::swap_remove]. *)
Definition swap_remove (i : nat) (l : list s_inode) : list s_inode :=
  match last l with
  | Some x => take (length l - 1) (<[i := x]> l)
  | None => l
  end.

(** One pass over the inodes that are left. *)
Fixpoint apply_pass (fuel : nat) (i : nat) (inodes : list s_inode) (processed_any : bool) (s : InodeStoreInner) :
    outcome (mig_error * InodeStoreInner + (list s_inode * bool * InodeStoreInner)) :=
  match inodes !! i with
  | None => Ok (inr (inodes, processed_any, s))
  | Some n =>
    match fuel with
    | O => Fault OutOfFuel
    | S fuel =>
      r ⟵ deserialize_inode n s;
      if fst r then apply_pass fuel i (swap_remove i inodes) true (snd r)
      else apply_pass fuel (S i) inodes processed_any (snd r)
    end
  end.

Fixpoint apply_inodes (fuel : nat) (inodes : list s_inode) (s : InodeStoreInner) :
    outcome (mig_error * InodeStoreInner + InodeStoreInner) :=
  match inodes with
  | [] => Ok (inr s)
  | _ =>
    match fuel with
    | O => Fault OutOfFuel
    | S fuel =>
      r ⟵ apply_pass (length inodes) 0 inodes false s;
      if snd (fst r) then apply_inodes fuel (fst (fst r)) (snd r) else Ok (inl (Unresolved, snd r))
    end
  end.

(** [Handle::deserialize_with_fs]. *)
Definition deserialize_handle (h : s_handle) (s : InodeStoreInner) (handles : gmap Z HandleData) :
    outcome (mig_error * gmap Z HandleData + gmap Z HandleData) :=
  match get s (sh_inode h) with
  | None => Ok (inl (NoInode, handles))
  | Some a =>
    d ← deref s a;
    match open_inode d (sh_flags h), cfg_migration_on_error cfg with
    | None, Abort => Ok (inl (CannotOpen, handles))
    | file, _ => Ok (inr (<[sh_id h := mk_HandleData (sh_inode h) file (sh_flags h)]> handles))
    end
  end.

Fixpoint apply_handles (hs : list s_handle) (s : InodeStoreInner) (handles : gmap Z HandleData) :
    outcome (mig_error * gmap Z HandleData + gmap Z HandleData) :=
  match hs with
  | [] => Ok (inr handles)
  | h :: hs => handles ⟵ deserialize_handle h s handles; apply_handles hs s handles
  end.

(** [PassthroughFsV1::apply]. *)
Definition apply (v : PassthroughFsV1) (fs : PassthroughFs) : outcome (mig_error * PassthroughFs + PassthroughFs) :=
  match opts_apply (v1_negotiated_opts v) (pf_opts fs) with
  | (Some e, opts) => Ok (inl (e, mk_PassthroughFs (pf_inodes fs) (pf_next_inode fs) (pf_handles fs) (pf_next_handle fs) opts))
  | (None, opts) =>
    s ← clear_store (pf_inodes fs);
    r ← apply_inodes (length (v1_inodes v)) (v1_inodes v) s;
    match r with
    | inl (e, s) => Ok (inl (e, mk_PassthroughFs s (pf_next_inode fs) (pf_handles fs) (pf_next_handle fs) opts))
    | inr s =>
      r ← apply_handles (v1_handles v) s ∅;
      match r with
      | inl (e, handles) => Ok (inl (e, mk_PassthroughFs s (v1_next_inode v) handles (pf_next_handle fs) opts))
      | inr handles => Ok (inr (mk_PassthroughFs s (v1_next_inode v) handles (v1_next_handle v) opts))
      end
    end
  end.

End deserialization.

(** ** Counts on the destination *)

Definition count (s : InodeStoreInner) (i : Inode) : Z :=
  match get s i with
  | None => 0
  | Some a => match st_arcs s !! a with Some d => id_refcount d | None => 0 end
  end.

(** A store without migration infos in its inodes, each of which has a
    reference. *)
Record quiet (s : InodeStoreInner) : Prop := mk_quiet {
  qu_ok : store_ok s;
  qu_info i a d : get s i = Some a → st_arcs s !! a = Some d → id_migration_info d = None;
  qu_pos i a d : get s i = Some a → st_arcs s !! a = Some d → 0 < id_refcount d
}.

Lemma quiet_get s i a : quiet s → get s i = Some a →
  ∃ d, st_arcs s !! a = Some d ∧ id_inode d = i ∧ id_migration_info d = None ∧ count s i = id_refcount d ∧ 0 < id_refcount d.
Proof.
  intros Hq Hi. destruct (so_data s (qu_ok s Hq) i a Hi) as (d & Hd & Hid). exists d. unfold count. rewrite Hi, Hd.
  split_and!; [done..|by eapply qu_info|done|by eapply qu_pos].
Qed.

Lemma quiet_count s i : quiet s → (get s i = None ∧ count s i = 0) ∨ (is_Some (get s i) ∧ 0 < count s i).
Proof.
  intros Hq. destruct (get s i) as [a|] eqn:Hi.
  - right. destruct (quiet_get s i a Hq Hi) as (d & _ & _ & _ & -> & ?). eauto.
  - left. unfold count. by rewrite Hi.
Qed.

(** The count of one inode changes. *)
Lemma quiet_set s i a d n : quiet s → get s i = Some a → st_arcs s !! a = Some d → 0 < n →
  quiet (set_arc a (set_refcount n d) s) ∧ ∀ j, count (set_arc a (set_refcount n d) s) j = if decide (j = i) then n else count s j.
Proof.
  intros Hq Hi Hd Hn. pose proof (stored_inode s (qu_ok s Hq)) as Hid. split; [split; cbn|].
  - apply store_ok_refcount; [apply Hq|done].
  - intros j b e Hj He. apply lookup_insert_Some in He as [[<- <-]|[Hne He]]; cbn; by eapply (qu_info s Hq).
  - intros j b e Hj He. apply lookup_insert_Some in He as [[<- <-]|[Hne He]]; [done|]. by eapply (qu_pos s Hq).
  - intros j. unfold count, get. cbn. case_decide as Hji.
    + subst j. unfold get in Hi. rewrite Hi, lookup_insert_eq. done.
    + destruct (st_data s !! j) as [b|] eqn:Hj; [|done]. rewrite lookup_insert_ne; [done|]. intros <-.
      apply Hji. by rewrite <- (Hid j a d Hj Hd), (Hid i a d Hi Hd).
Qed.

Lemma quiet_remove s i a d s' : quiet s → get s i = Some a → st_arcs s !! a = Some d →
  remove i (set_arc a (set_refcount 0 d) s) = Ok (s', None) → quiet s' ∧ ∀ j, count s' j = if decide (j = i) then 0 else count s j.
Proof.
  intros Hq Hi Hd Hrem. pose proof (stored_inode s (qu_ok s Hq)) as Hid. set (s1 := set_arc a (set_refcount 0 d) s) in *.
  assert (store_ok s1) as Hok by (apply store_ok_refcount; [apply Hq|done]).
  assert (st_arcs s1 !! a = Some (set_refcount 0 d)) as Hd1 by apply lookup_insert_eq.
  destruct (remove_inv i s1 a _ Hi Hd1) as (s2 & E & Harcs & Hdata & _). rewrite E in Hrem. injection Hrem as -> _.
  assert (∀ j b, get s' j = Some b → j ≠ i ∧ get s j = Some b ∧ b ≠ a) as Hget.
  { intros j b. unfold get. rewrite Hdata. intros [Hne Hj]%lookup_delete_Some. split_and!; [done..|]. intros ->.
    apply Hne. by rewrite <- (Hid j a d Hj Hd), (Hid i a d Hi Hd). }
  assert (∀ b, b ≠ a → st_arcs s' !! b = st_arcs s !! b) as Hother.
  { intros b Hb. rewrite Harcs, lookup_insert_ne by done. unfold s1. cbn. by rewrite lookup_insert_ne. }
  split; [split|].
  - by eapply remove_ok.
  - intros j b e (_ & Hj & Hb)%Hget. rewrite Hother by done. by apply (qu_info s Hq j b e).
  - intros j b e (_ & Hj & Hb)%Hget. rewrite Hother by done. by apply (qu_pos s Hq j b e).
  - intros j. unfold count. case_decide as Hji.
    + subst j. unfold get. by rewrite Hdata, lookup_delete_eq.
    + destruct (get s' j) as [b|] eqn:Hj.
      * destruct (Hget j b Hj) as (_ & -> & Hb). by rewrite Hother.
      * unfold get in Hj |- *. rewrite Hdata, lookup_delete_ne in Hj by done. unfold s1 in Hj. cbn in Hj. by rewrite Hj.
Qed.

Lemma drain_S fuel c s : finished c = false → drain (S fuel) c s = (' (c, s) ← holder_access c s; drain fuel c s).
Proof. intros Hf. cbn [drain]. by rewrite Hf. Qed.

Lemma drain_finished fuel c s : finished c = true → drain fuel c s = Ok s.
Proof. intros Hf. destruct fuel; cbn [drain]; by rewrite Hf. Qed.

Lemma drop_reference_spec s i a : quiet s → get s i = Some a →
  ∃ s', drop_reference a s = Ok s' ∧ quiet s' ∧ ∀ j, count s' j = if decide (j = i) then count s i - 1 else count s j.
Proof.
  intros Hq Hi. destruct (quiet_get s i a Hq Hi) as (d & Hd & Hid & Hinfo & Hc & Hpos).
  unfold drop_reference, drop_unlocked. rewrite (proj2 (deref_Ok s a d) Hd). cbn [obind]. rewrite Hid.
  unfold run_calls. assert (∃ n, drain_fuel (forget_many [(i, 1)]) s = S (S (S n))) as [n ->] by (eexists; reflexivity).
  rewrite drain_S by done. unfold holder_access, forget_many. cbn [ho_phase]. unfold forget_one. cbn [ho_todo ho_phase].
  rewrite Hi, (proj2 (deref_Ok s a d) Hd). cbn [obind].
  rewrite drain_S by done. unfold holder_access. cbn [ho_phase]. unfold forget_one. cbn [ho_todo ho_phase].
  rewrite (proj2 (deref_Ok s a d) Hd). cbn [obind]. rewrite Z.eqb_refl.
  destruct (Z.eqb_spec (Z.max 0 (id_refcount d - 1)) 0) as [E|E]; cbn [obind].
  - rewrite E, drain_S by done. unfold holder_access. cbn [ho_phase]. unfold forget_one. cbn [ho_todo ho_phase].
    destruct (remove_inv i (set_arc a (set_refcount 0 d) s) a (set_refcount 0 d)) as (s' & Hrem & _); [done|apply lookup_insert_eq|].
    cbn [set_refcount id_migration_info] in Hrem. rewrite Hinfo in Hrem. cbn [info_parent] in Hrem. rewrite Hrem. cbn [obind].
    rewrite drain_finished by done.
    exists s'. split; [done|]. destruct (quiet_remove s i a d s' Hq Hi Hd Hrem) as [Hq' Hcount]. split; [done|].
    intros j. rewrite Hcount. case_decide; lia.
  - rewrite drain_finished by done. replace (Z.max 0 (id_refcount d - 1)) with (id_refcount d - 1) by lia. eexists. split; [done|].
    destruct (quiet_set s i a d (id_refcount d - 1) Hq Hi Hd) as [Hq' Hcount]; [lia|]. split; [done|]. intros j. by rewrite Hcount, Hc.
Qed.

Lemma add_inode_spec s d : quiet s → get s (id_inode d) = None → id_migration_info d = None → 0 < id_refcount d →
  ∃ s', add_inode d s = Ok (inr s') ∧ quiet s' ∧ ∀ j, count s' j = if decide (j = id_inode d) then id_refcount d else count s j.
Proof.
  intros Hq Hn Hinfo Hpos. set (a := new_arc s).
  assert (st_arcs s !! a = None) as Ha by (apply (not_elem_of_dom (D := gset arc)); unfold a, new_arc; apply is_fresh).
  assert (store_ok (set_arc a d s)) as Hok by (apply store_ok_set; [apply Hq|congruence|by rewrite Hinfo]).
  unfold add_inode, new_inode. fold a. unfold contains. rewrite bool_decide_false by (unfold get in Hn; rewrite Hn; by intros [? ?]).
  destruct (insert_new a d (set_arc a d s)) as [s'|] eqn:Hins.
  2:{ unfold insert_new in Hins. rewrite bool_decide_true in Hins by exact Hn. done. }
  cbn [obind]. exists s'. split; [done|]. pose proof (insert_new_ok a d _ s' Hok (lookup_insert_eq _ _ _) Hins) as Hok'.
  apply insert_new_inv in Hins as (_ & Harcs & Hdata & _). cbn in Harcs, Hdata. split; [split|].
  - done.
  - intros i b e. unfold get. rewrite Harcs, Hdata. intros [[<- <-]|[Hne Hi]]%lookup_insert_Some.
    + rewrite lookup_insert_eq. by intros [= <-].
    + destruct (so_data s (qu_ok s Hq) i b Hi) as (e' & He' & _). rewrite lookup_insert_ne by congruence. by apply (qu_info s Hq i).
  - intros i b e. unfold get. rewrite Harcs, Hdata. intros [[<- <-]|[Hne Hi]]%lookup_insert_Some.
    + rewrite lookup_insert_eq. by intros [= <-].
    + destruct (so_data s (qu_ok s Hq) i b Hi) as (e' & He' & _). rewrite lookup_insert_ne by congruence. by apply (qu_pos s Hq i).
  - intros j. unfold count, get. rewrite Harcs, Hdata. case_decide as Hj.
    + subst j. by rewrite !lookup_insert_eq.
    + rewrite lookup_insert_ne by done. destruct (st_data s !! j) as [b|] eqn:Hb; [|done].
      destruct (so_data s (qu_ok s Hq) j b Hb) as (e' & He' & _). by rewrite lookup_insert_ne by congruence.
Qed.

Lemma drain_total fuel c s : store_ok s → holder_ok s c →
  potential (mk_sys s (Some (c, false)) [] (λ _, 0) (λ _, 0) ∅) ≤ Z.of_nat fuel → ∃ s', drain fuel c s = Ok s' ∧ store_ok s'.
Proof.
  revert c s. induction fuel as [|fuel IH]; intros c s Hok Hc Hp.
  - pose proof (weight_nonneg s (ho_phase c)). unfold potential in Hp. cbn in Hp. lia.
  - cbn [drain]. destruct (finished c) eqn:Hf; [by exists s|].
    destruct (holder_access_spec c s Hok Hc Hf) as (c' & s' & -> & Ha). cbn [obind].
    destruct (accesses_ok c s c' s' Hok Hc Ha) as (Hok' & Hc' & _).
    pose proof (accesses_potential c s c' s' false [] (λ _, 0) (λ _, 0) ∅ Hok Ha). apply IH; [done..|lia].
Qed.

Lemma clear_store_spec s : store_ok s → ∃ s', clear_store s = Ok s' ∧ quiet s' ∧ ∀ i, get s' i = None.
Proof.
  intros Hok. unfold clear_store, run_calls. set (c := clear_migration_info s).
  destruct (drain_total (drain_fuel c s) c s) as (s2 & -> & Hok2); [done|by apply clear_migration_info_ok| |].
  { unfold potential, drain_fuel, c, clear_migration_info. cbn [y_lock y_store ho_todo ho_phase].
    destruct (values s); cbn [weight length]; lia. }
  cbn [obind]. exists (clear s2). split; [done|]. split; [|intros i; apply lookup_empty].
  split; [by apply clear_ok| |]; intros i a d H; unfold get in H; cbn in H; by rewrite lookup_empty in H.
Qed.

(** ** The list of the inodes *)

Definition kid (n : s_inode) (i : Inode) : Z :=
  match si_location n with
  | SPath p _ => if decide (p = i) then 1 else 0
  | _ => 0
  end.

Fixpoint kids (l : list s_inode) (i : Inode) : Z :=
  match l with
  | [] => 0
  | n :: l => kid n i + kids l i
  end.

(** What a list must be like: parents are listed and there is no circle; the
    count of an inode is the number of its listed children and [own]. *)
Record listed (own : Inode → Z) (rank : Inode → nat) (l : list s_inode) : Prop := mk_listed {
  li_nodup : NoDup (map si_id l);
  li_root n : n ∈ l → si_location n = SRootNode → si_id n = ROOT_ID;
  li_path n p name : n ∈ l → si_location n = SPath p name →
    si_id n ≠ ROOT_ID ∧ p ∈ map si_id l ∧ (rank p < rank (si_id n))%nat;
  li_full n name : n ∈ l → si_location n = SFullPath name → si_id n ≠ ROOT_ID ∧ ROOT_ID ∈ map si_id l ∧ 0 < own ROOT_ID;
  li_count n : n ∈ l → si_refcount n = own (si_id n) + kids l (si_id n);
  li_pos n : n ∈ l → 0 < si_refcount n < 2 ^ 64 - 1;
  li_own i : 0 ≤ own i
}.

Lemma kid_range n i : 0 ≤ kid n i ≤ 1.
Proof. unfold kid. destruct (si_location n); try lia. case_decide; lia. Qed.

Lemma kids_nonneg l i : 0 ≤ kids l i.
Proof. induction l as [|n l IH]; cbn; [lia|]. pose proof (kid_range n i). lia. Qed.

Lemma kids_app l l' i : kids (l ++ l') i = kids l i + kids l' i.
Proof. induction l as [|n l IH]; cbn; lia. Qed.

Instance kids_proper : Proper ((≡ₚ) ==> (=) ==> (=)) kids.
Proof. intros l l' H i ? <-. induction H; cbn; lia. Qed.

Lemma kids_none l i : (∀ n, n ∈ l → kid n i = 0) → kids l i = 0.
Proof.
  induction l as [|n l IH]; intros H; [done|]. cbn. rewrite IH by (intros; apply H; by right). rewrite H by (by left). done.
Qed.

Lemma swap_remove_perm i l n : l !! i = Some n → l ≡ₚ n :: swap_remove i l.
Proof.
  intros Hi. unfold swap_remove. destruct (last l) as [x|] eqn:Hl; [|apply last_None in Hl as ->; done].
  apply last_Some in Hl as [l1 ->]. rewrite length_app. cbn [length]. replace (length l1 + 1 - 1)%nat with (length l1) by lia.
  destruct (decide (i < length l1)%nat) as [Hlt|Hge].
  - rewrite insert_app_l, take_app_length' by (done || by rewrite length_insert).
    rewrite lookup_app_l in Hi by done. rewrite (insert_take_drop l1) by done. rewrite <- (take_drop_middle l1 i n Hi) at 1.
    rewrite <- !app_assoc. cbn [app]. rewrite <- Permutation_middle. f_equiv.
    rewrite <- (Permutation_middle (take i l1)), app_assoc. by rewrite <- Permutation_cons_append.
  - assert (i = length l1) as ->. { apply lookup_lt_Some in Hi. rewrite length_app in Hi. cbn in Hi. lia. }
    rewrite list_lookup_middle in Hi by done. injection Hi as ->. rewrite insert_app_r_alt, Nat.sub_diag by done. cbn [insert list_insert].
    rewrite take_app_length. by rewrite <- Permutation_cons_append.
Qed.

(** ** The passes *)

Section passes.
  Variable open_root : option (FileOrHandle * InodeIds * Z).
  Variable open_path : FileOrHandle → list Z → option (FileOrHandle * InodeIds * Z).
  Variable cfg : Config.
  Variables (own : Inode → Z) (rank : Inode → nat) (L : list s_inode).
  Hypothesis HL : listed own rank L.

(** The inodes [P] are done and the inodes [l] are left. *)
Record progress (P l : list s_inode) (s : InodeStoreInner) : Prop := mk_progress {
  pg_quiet : quiet s;
  pg_perm : L ≡ₚ P ++ l;
  pg_closed n p name : n ∈ P → si_location n = SPath p name → p ∈ map si_id P;
  pg_count i : count s i = if decide (i ∈ map si_id P) then own i + kids l i else 0
}.

(** Inodes that have to wait for another one of the list. *)
Definition waits (l : list s_inode) (n : s_inode) : Prop :=
  match si_location n with
  | SPath p _ => p ∈ map si_id l
  | SFullPath _ => ROOT_ID ∈ map si_id l
  | _ => False
  end.

Definition refused (e : mig_error) : Prop := e = CannotOpen ∧ (cfg_migration_on_error cfg = Abort ∨ open_root = None).

Lemma progress_elem P l s n : progress P l s → n ∈ P ∨ n ∈ l ↔ n ∈ L.
Proof. intros Hp. rewrite (pg_perm P l s Hp). by rewrite elem_of_app. Qed.

Lemma progress_ids P l s i : progress P l s → i ∈ map si_id L → i ∈ map si_id P ∨ i ∈ map si_id l.
Proof. intros Hp. rewrite (pg_perm P l s Hp). rewrite map_app, elem_of_app. done. Qed.

Lemma progress_apart P l s i : progress P l s → i ∈ map si_id P → i ∈ map si_id l → False.
Proof.
  intros Hp. pose proof (li_nodup _ _ _ HL) as Hn. rewrite (pg_perm P l s Hp), map_app in Hn. apply NoDup_app in Hn as (_ & H & _). apply H.
Qed.

(** An inode that is added with its count, after the reference it has to its
    parent is dropped. *)
Lemma progress_add P l l' s s' n : progress P l s → l ≡ₚ n :: l' → quiet s' →
  (∀ p name, si_location n = SPath p name → p ∈ map si_id P) →
  (∀ j, count s' j = if decide (j = si_id n) then si_refcount n else count s j - kid n j) →
  progress (n :: P) l' s'.
Proof.
  intros Hp El Hq Hpar Hc. assert (n ∈ l) as Hnl by (rewrite El; by left).
  assert (n ∈ L) as HnL by (apply (progress_elem P l s n Hp); by right).
  assert (si_id n ∉ map si_id P) as HnP.
  { intros H. eapply progress_apart; [exact Hp|exact H|]. by apply list_elem_of_fmap_2. }
  split; [done| |..].
  - rewrite (pg_perm P l s Hp), El. by rewrite <- Permutation_middle.
  - intros m p name [->|Hm]%elem_of_cons Hloc; cbn; right; [by eapply Hpar | by eapply (pg_closed P l s Hp)].
  - intros j. rewrite Hc, (pg_count P l s Hp). assert (kids l j = kid n j + kids l' j) as Ek by (by rewrite El).
    case_decide as Hj.
    + subst j. rewrite decide_True by (cbn; by left). rewrite (li_count _ _ _ HL n HnL), (pg_perm P l s Hp), kids_app, Ek.
      assert (kid n (si_id n) = 0) as ->.
      { unfold kid. destruct (si_location n) as [|p name| |] eqn:Hloc; try done. case_decide as E; [|done]. subst p.
        destruct (li_path _ _ _ HL n _ _ HnL Hloc) as (_ & _ & ?). lia. }
      rewrite (kids_none P); [lia|]. intros m Hm. unfold kid. destruct (si_location m) as [|p name| |] eqn:Hloc; try done.
      case_decide as E; [|done]. subst p. destruct (HnP). by eapply (pg_closed P l s Hp).
    + cbn [map]. case_decide as HjP; [rewrite decide_True by (by right); lia|]. rewrite decide_False by (intros [?|?]%elem_of_cons; done).
      unfold kid. destruct (si_location n) as [|p name| |] eqn:Hloc; try lia. case_decide as E; [|lia]. subst p. destruct HjP. by eapply Hpar.
Qed.

Lemma add_located_spec n r s : quiet s → get s (si_id n) = None → 0 < si_refcount n →
  (∀ d, r = Some d → id_inode d = si_id n ∧ id_refcount d = si_refcount n ∧ id_migration_info d = None) →
  ∃ v, add_located cfg n r s = Ok v ∧
    match v with
    | inl (e, _) => refused e
    | inr (b, s') => b = true ∧ quiet s' ∧ ∀ j, count s' j = if decide (j = si_id n) then si_refcount n else count s j
    end.
Proof.
  intros Hq Hn Hpos Hr. unfold add_located.
  assert (∀ d, id_inode d = si_id n → id_refcount d = si_refcount n → id_migration_info d = None →
    ∃ s', add_inode d s = Ok (inr s') ∧ quiet s' ∧ ∀ j, count s' j = if decide (j = si_id n) then si_refcount n else count s j) as Hadd.
  { intros d Hid Hrc Hinfo. rewrite <- Hid, <- Hrc in *. by apply add_inode_spec. }
  destruct r as [d|].
  - destruct (Hr d eq_refl) as (Hid & Hrc & Hinfo). destruct (Hadd d Hid Hrc Hinfo) as (s' & -> & Hq' & Hc). eexists. by split; [|cbn].
  - unfold deserialize_invalid_inode. destruct (cfg_migration_on_error cfg) eqn:Ecfg.
    + exists (inl (CannotOpen, s)). split; [done|]. split; [done|by left].
    + edestruct (Hadd (mk_InodeData (si_id n) Invalid (si_refcount n) (mk_InodeIds 0 0 0) 0 None)) as (s' & -> & Hq' & Hc); [done..|].
      eexists. by split; [|cbn].
Qed.

Lemma deserialize_path_spec n i a name s : quiet s → get s i = Some a →
  ∃ r s', deserialize_path open_path n a name s = Ok (r, s') ∧ quiet s' ∧
    (∀ j, count s' j = if decide (j = i) then count s i - 1 else count s j) ∧
    ∀ d, r = Some d → id_inode d = si_id n ∧ id_refcount d = si_refcount n ∧ id_migration_info d = None.
Proof.
  intros Hq Hi. destruct (quiet_get s i a Hq Hi) as (d & Hd & _). unfold deserialize_path. rewrite (proj2 (deref_Ok s a d) Hd). cbn [obind].
  destruct (drop_reference_spec s i a Hq Hi) as (s' & -> & Hq' & Hc). cbn [obind]. eexists _, s'. split_and!; [done..|].
  intros e. destruct (id_file_or_handle d); [| |done]; destruct (open_path _ name) as [[[g ids] mode]|]; intros [=]; by subst e.
Qed.

Lemma progress_absent P l s n : progress P l s → n ∈ l → get s (si_id n) = None.
Proof.
  intros Hp Hn. destruct (quiet_count s (si_id n) (pg_quiet P l s Hp)) as [[? _]|[_ Hpos]]; [done|].
  rewrite (pg_count P l s Hp), decide_False in Hpos; [lia|]. intros H. eapply progress_apart; [exact Hp|exact H|]. by apply list_elem_of_fmap_2.
Qed.

(** An inode that is done and has a reference is in the store. *)
Lemma progress_stored P l s i : progress P l s → i ∈ map si_id P → 0 < own i + kids l i → ∃ a, get s i = Some a.
Proof.
  intros Hp Hi Hpos. destruct (quiet_count s i (pg_quiet P l s Hp)) as [[_ Hz]|[[a Ha] _]]; [|eauto].
  rewrite (pg_count P l s Hp), decide_True in Hz by done. lia.
Qed.

Definition stepped (P l l' : list s_inode) (n : s_inode) (s : InodeStoreInner) (v : mig_error * InodeStoreInner + (bool * InodeStoreInner)) : Prop :=
  match v with
  | inl (e, _) => refused e
  | inr (false, s') => s' = s ∧ waits l n
  | inr (true, s') => progress (n :: P) l' s'
  end.

Lemma step_root P l l' s n : progress P l s → l ≡ₚ n :: l' → n ∈ L → si_location n = SRootNode →
  ∃ v, deserialize_inode open_root open_path cfg n s = Ok v ∧ stepped P l l' n s v.
Proof.
  intros Hp El HnL Hloc. pose proof (li_root _ _ _ HL n HnL Hloc) as Hid. pose proof (li_pos _ _ _ HL n HnL) as Hrc.
  unfold deserialize_inode. rewrite Hloc, (proj2 (Z.eqb_eq _ _) Hid). cbn [negb]. unfold open_root_node.
  destruct open_root as [[[f ids] mode]|] eqn:Eroot; [|by exists (inl (CannotOpen, s)); split; [|split; [|right]]].
  destruct (add_inode_spec s (mk_InodeData ROOT_ID f 2 ids mode None)) as (s1 & -> & Hq1 & Hc1); [apply Hp| |done|done|].
  { cbn [id_inode]. rewrite <- Hid. apply (progress_absent P l); [done|]. rewrite El. by left. }
  cbn [ebind obind]. cbn [id_inode id_refcount] in Hc1.
  assert (∃ a, get s1 ROOT_ID = Some a) as [a Ha].
  { destruct (quiet_count s1 ROOT_ID Hq1) as [[_ Hz]|[[a ?] _]]; [|eauto]. rewrite Hc1, decide_True in Hz by done. lia. }
  rewrite Ha. destruct (quiet_get s1 ROOT_ID a Hq1 Ha) as (d & Hd & _). rewrite (proj2 (deref_Ok s1 a d) Hd). cbn [obind].
  eexists. split; [done|]. cbn [stepped]. destruct (quiet_set s1 ROOT_ID a d (si_refcount n) Hq1 Ha Hd) as [Hq2 Hc2]; [lia|].
  eapply progress_add; [exact Hp|exact El|exact Hq2| |].
  - intros p name Hloc'. congruence.
  - intros j. rewrite Hc2, Hc1, Hid. unfold kid. rewrite Hloc. repeat case_decide; lia.
Qed.

Lemma step_path P l l' s n p name : progress P l s → l ≡ₚ n :: l' → n ∈ L → si_location n = SPath p name →
  ∃ v, deserialize_inode open_root open_path cfg n s = Ok v ∧ stepped P l l' n s v.
Proof.
  intros Hp El HnL Hloc. destruct (li_path _ _ _ HL n p name HnL Hloc) as (Hroot & Hpl & Hrank). pose proof (li_pos _ _ _ HL n HnL) as Hrc.
  assert (n ∈ l) as Hnl by (rewrite El; by left).
  unfold deserialize_inode. rewrite Hloc, (proj2 (Z.eqb_neq _ _) Hroot).
  destruct (progress_ids P l s p Hp Hpl) as [HpP|Hpl'].
  - destruct (progress_stored P l s p Hp HpP) as [a Ha].
    { pose proof (li_own _ _ _ HL p). pose proof (kids_nonneg l' p). rewrite El. cbn [kids]. unfold kid. rewrite Hloc, decide_True by done. lia. }
    rewrite Ha. destruct (deserialize_path_spec n p a name s (pg_quiet _ _ _ Hp) Ha) as (r & s1 & -> & Hq1 & Hc1 & Hr). cbn [obind].
    assert (p ≠ si_id n) as Hpn by (intros E; rewrite E in Hrank; lia).
    destruct (add_located_spec n r s1) as (v & -> & Hv); [done| |lia|done|].
    { destruct (quiet_count s1 (si_id n) Hq1) as [[? _]|[_ Hpos]]; [done|]. rewrite Hc1, decide_False in Hpos by done.
      unfold count in Hpos. rewrite (progress_absent P l s n) in Hpos by done. lia. }
    exists v. split; [done|]. destruct v as [e|[b s2]]; [done|]. destruct Hv as (-> & Hq2 & Hc2). cbn [stepped].
    eapply progress_add; [exact Hp|exact El|exact Hq2| |].
    + intros p' name' Hloc'. congruence.
    + intros j. rewrite Hc2, Hc1. unfold kid. rewrite Hloc. repeat case_decide; simplify_eq; lia.
  - assert (get s p = None) as ->.
    { apply list_elem_of_fmap in Hpl' as (m & -> & Hm). by apply (progress_absent P l). }
    exists (inr (false, s)). split; [done|]. split; [done|]. unfold waits. by rewrite Hloc.
Qed.

Lemma step_full P l l' s n name : progress P l s → l ≡ₚ n :: l' → n ∈ L → si_location n = SFullPath name →
  ∃ v, deserialize_inode open_root open_path cfg n s = Ok v ∧ stepped P l l' n s v.
Proof.
  intros Hp El HnL Hloc. destruct (li_full _ _ _ HL n name HnL Hloc) as (Hroot & Hrl & Hown). pose proof (li_pos _ _ _ HL n HnL) as Hrc.
  assert (n ∈ l) as Hnl by (rewrite El; by left).
  unfold deserialize_inode. rewrite Hloc, (proj2 (Z.eqb_neq _ _) Hroot).
  destruct (progress_ids P l s ROOT_ID Hp Hrl) as [HP|Hl].
  - destruct (progress_stored P l s ROOT_ID Hp HP) as [a Ha]; [pose proof (kids_nonneg l ROOT_ID); lia|].
    destruct (quiet_get s ROOT_ID a (pg_quiet _ _ _ Hp) Ha) as (d & Hd & _ & _ & Hc & Hpos).
    assert (id_refcount d + 1 < 2 ^ 64) as Hov.
    { rewrite <- Hc, (pg_count P l s Hp), decide_True by done. apply list_elem_of_fmap in Hrl as (m & Em & Hm).
      pose proof (li_pos _ _ _ HL m Hm) as Hmp. rewrite (li_count _ _ _ HL m Hm), <- Em, (pg_perm P l s Hp), kids_app in Hmp.
      pose proof (kids_nonneg P ROOT_ID). lia. }
    rewrite Ha. unfold new_with_data, increment_refcount_for. rewrite (proj2 (deref_Ok s a d) Hd). cbn [obind].
    rewrite (proj2 (Z.ltb_lt _ _) Hpos). cbn [obind]. unfold u64. rewrite Z.mod_small by lia.
    destruct (quiet_set s ROOT_ID a d (id_refcount d + 1) (pg_quiet _ _ _ Hp) Ha Hd) as [Hq1 Hc1]; [lia|].
    set (s1 := set_arc a _ s) in *.
    destruct (deserialize_path_spec n ROOT_ID a name s1 Hq1 Ha) as (r & s2 & -> & Hq2 & Hc2 & Hr). cbn [obind].
    assert (∀ j, count s2 j = count s j) as Hsame by (intros j; rewrite Hc2, !Hc1; repeat case_decide; simplify_eq; lia).
    destruct (add_located_spec n r s2) as (v & -> & Hv); [done| |lia|done|].
    { destruct (quiet_count s2 (si_id n) Hq2) as [[? _]|[_ Hpos2]]; [done|]. rewrite Hsame in Hpos2.
      unfold count in Hpos2. rewrite (progress_absent P l s n) in Hpos2 by done. lia. }
    exists v. split; [done|]. destruct v as [e|[b s3]]; [done|]. destruct Hv as (-> & Hq3 & Hc3). cbn [stepped].
    eapply progress_add; [exact Hp|exact El|exact Hq3| |].
    + intros p' name' Hloc'. congruence.
    + intros j. rewrite Hc3, Hsame. unfold kid. rewrite Hloc. case_decide; lia.
  - assert (get s ROOT_ID = None) as ->.
    { apply list_elem_of_fmap in Hl as (m & -> & Hm). by apply (progress_absent P l). }
    exists (inr (false, s)). split; [done|]. split; [done|]. unfold waits. by rewrite Hloc.
Qed.

Lemma step_any P l l' s n : progress P l s → l ≡ₚ n :: l' →
  ∃ v, deserialize_inode open_root open_path cfg n s = Ok v ∧ stepped P l l' n s v.
Proof.
  intros Hp El. assert (n ∈ l) as Hnl by (rewrite El; by left).
  assert (n ∈ L) as HnL by (apply (progress_elem P l s n Hp); by right).
  destruct (si_location n) as [|p name| |name] eqn:Hloc; [by apply step_root|by eapply step_path| |by eapply step_full].
  unfold deserialize_inode. rewrite Hloc. pose proof (li_pos _ _ _ HL n HnL).
  destruct (add_located_spec n None s) as (v & -> & Hv); [apply Hp|by apply (progress_absent P l)|lia|done|].
  exists v. split; [done|]. destruct v as [e|[b s1]]; [done|]. destruct Hv as (-> & Hq & Hc). cbn [stepped].
  eapply progress_add; [exact Hp|exact El|exact Hq| |].
  - intros p' name' Hloc'. congruence.
  - intros j. rewrite Hc. unfold kid. rewrite Hloc. case_decide; lia.
Qed.

(** A pass ends with fewer inodes left, or all of them wait. *)
Lemma apply_pass_spec fuel i l any s P : progress P l s → (length l ≤ i + fuel)%nat →
  (∀ j n, (j < i)%nat → l !! j = Some n → any = false → waits l n) →
  ∃ v, apply_pass open_root open_path cfg fuel i l any s = Ok v ∧
    match v with
    | inl (e, _) => refused e
    | inr (l', any', s') =>
      (∃ P', progress P' l' s') ∧ (length l' ≤ length l)%nat ∧
      (any' = true ∧ (any = true ∨ (length l' < length l)%nat) ∨ any' = false ∧ any = false ∧ l' = l ∧ ∀ n, n ∈ l → waits l n)
    end.
Proof.
  revert i l any s P. induction fuel as [|fuel IH]; intros i l any s P Hp Hlen Hw.
  - assert (apply_pass open_root open_path cfg 0 i l any s = Ok (inr (l, any, s))) as ->.
    { cbn. by rewrite (lookup_ge_None_2 l i) by lia. }
    eexists. split; [done|]. split_and!; [eauto|lia|]. destruct any; [by left; auto|]. right. split_and!; [done..|].
    intros n [j Hj]%list_elem_of_lookup. pose proof (lookup_lt_Some _ _ _ Hj). eapply (Hw j); [lia|done|done].
  - cbn [apply_pass]. destruct (l !! i) as [n|] eqn:Hi.
    2:{ eexists. split; [done|]. split_and!; [eauto|lia|]. destruct any; [by left; auto|]. right. split_and!; [done..|].
        intros n [j Hj]%list_elem_of_lookup. apply lookup_ge_None in Hi. pose proof (lookup_lt_Some _ _ _ Hj). eapply (Hw j); [lia|done|done]. }
    pose proof (swap_remove_perm i l n Hi) as El. destruct (step_any P l (swap_remove i l) s n Hp El) as (v & -> & Hv). cbn [ebind obind].
    destruct v as [e|[[|] s1]]; [by exists (inl e)| |]; cbn [stepped fst snd] in *.
    + pose proof (Permutation_length El) as Hl. cbn in Hl.
      destruct (IH i (swap_remove i l) true s1 (n :: P) Hv) as (v & -> & H); [lia|done|]. exists v. split; [done|].
      destruct v as [e|[[l' any'] s']]; [done|]. destruct H as (? & ? & [[-> _]|(_ & ? & _)]); [|done].
      split_and!; [done|lia|]. left. split; [done|]. right. lia.
    + destruct Hv as [-> Hwait]. destruct (IH (S i) l any s P Hp) as (v & -> & H); [lia| |eauto].
      intros j m Hj Hm Hany. destruct (decide (j = i)) as [->|]; [congruence|]. apply (Hw j m); [lia|done|done].
Qed.

(** Some inode never waits. *)
Lemma not_all_wait P l s : progress P l s → (∀ n, n ∈ l → waits l n) → l = [].
Proof.
  intros Hp Hall. assert (∀ m, m ∈ l → m ∈ L) as HlL by (intros m Hm; apply (progress_elem P l s m Hp); by right).
  assert (∀ k n, n ∈ l → (rank (si_id n) < k)%nat → False) as Hno.
  { induction k as [|k IH]; intros n Hn Hk; [lia|]. pose proof (Hall n Hn) as Hw. unfold waits in Hw.
    destruct (si_location n) as [|p name| |name] eqn:Hloc; try done.
    - destruct (li_path _ _ _ HL n p name (HlL n Hn) Hloc) as (_ & _ & Hr). apply list_elem_of_fmap in Hw as (m & -> & Hm). apply (IH m Hm). lia.
    - apply list_elem_of_fmap in Hw as (m & Em & Hm). pose proof (Hall m Hm) as Hw. unfold waits in Hw.
      destruct (si_location m) as [|p' name'| |name'] eqn:Hloc'; try done.
      + by destruct (li_path _ _ _ HL m p' name' (HlL m Hm) Hloc') as (? & _).
      + by destruct (li_full _ _ _ HL m name' (HlL m Hm) Hloc') as (? & _). }
  destruct l as [|n l]; [done|]. destruct (Hno (S (rank (si_id n))) n); [by left|lia].
Qed.

Lemma apply_inodes_spec fuel l s P : progress P l s → (length l ≤ fuel)%nat →
  ∃ v, apply_inodes open_root open_path cfg fuel l s = Ok v ∧
    match v with
    | inl (e, _) => refused e
    | inr s' => quiet s' ∧ ∀ i, count s' i = if decide (i ∈ map si_id L) then own i else 0
    end.
Proof.
  revert l s P. induction fuel as [|fuel IH]; intros l s P Hp Hlen.
  all: destruct l as [|n l]; [|try (cbn in Hlen; lia)].
  1,2: exists (inr s); split; [done|]; split; [apply Hp|]; intros i; rewrite (pg_count P [] s Hp);
    assert (i ∈ map si_id L ↔ i ∈ map si_id P) as Hi by (rewrite (pg_perm P [] s Hp), app_nil_r; done);
    cbn [kids]; repeat case_decide; tauto || lia.
  cbn [apply_inodes]. set (l0 := n :: l) in *.
  destruct (apply_pass_spec (length l0) 0 l0 false s P Hp) as (v & -> & Hv); [lia|lia|]. cbn [ebind obind].
  destruct v as [e|[[l' any] s']]; [by exists (inl e)|]. destruct Hv as ([P' Hp'] & _ & [(-> & [|Hlt])|(_ & _ & _ & Hall)]); [done| |]; cbn [fst snd].
  - apply (IH l' s' P' Hp'). cbn in *. lia.
  - by pose proof (not_all_wait P l0 s Hp Hall).
Qed.

End passes.

(** ** Handles *)

Lemma apply_handles_spec open_inode cfg hs s acc : store_ok s → NoDup (map sh_id hs) →
  (∀ h, h ∈ hs → is_Some (get s (sh_inode h))) →
  ∃ v, apply_handles open_inode cfg hs s acc = Ok v ∧
    match v with
    | inl (e, _) => e = CannotOpen ∧ cfg_migration_on_error cfg = Abort
    | inr m =>
      (∀ h, h ∈ hs → ∃ f, m !! sh_id h = Some (mk_HandleData (sh_inode h) f (sh_flags h))) ∧
      (∀ id, id ∉ map sh_id hs → m !! id = acc !! id)
    end.
Proof.
  intros Hok. revert acc. induction hs as [|h hs IH]; intros acc Hnd Hget.
  { exists (inr acc). split; [done|]. split; [|done]. by intros h ?%elem_of_nil. }
  apply NoDup_cons in Hnd as [Hnot Hnd]. fold (map sh_id hs) in Hnot, Hnd. cbn [apply_handles]. unfold deserialize_handle.
  destruct (Hget h) as [a Ha]; [by left|]. rewrite Ha. destruct (so_data s Hok _ a Ha) as (d & Hd & _).
  rewrite (proj2 (deref_Ok s a d) Hd). cbn [obind].
  destruct (decide (open_inode d (sh_flags h) = None ∧ cfg_migration_on_error cfg = Abort)) as [[E1 E2]|Hne].
  { rewrite E1, E2. cbn [ebind obind]. by exists (inl (CannotOpen, acc)). }
  set (m := <[sh_id h := mk_HandleData (sh_inode h) (open_inode d (sh_flags h)) (sh_flags h)]> acc).
  assert (match open_inode d (sh_flags h), cfg_migration_on_error cfg with
          | None, Abort => Ok (inl (CannotOpen, acc))
          | file, _ => Ok (inr (<[sh_id h := mk_HandleData (sh_inode h) file (sh_flags h)]> acc))
          end = Ok (inr m)) as ->.
  { unfold m. destruct (open_inode d (sh_flags h)); [done|]. destruct (cfg_migration_on_error cfg); [tauto|done]. }
  cbn [ebind obind]. destruct (IH m Hnd) as (v & -> & Hv); [intros; apply Hget; by right|]. exists v. split; [done|].
  destruct v as [e|m']; [done|]. destruct Hv as [H1 H2]. split.
  - intros h' [->|Hh']%elem_of_cons; [|by apply H1]. rewrite H2 by done. unfold m. rewrite lookup_insert_eq. eauto.
  - intros id [Hid Hni]%not_elem_of_cons. rewrite H2 by done. unfold m. by rewrite lookup_insert_ne.
Qed.

(** ** The source *)

(** The counts fit, the root and only the root is marked as such, and
    following the parents ends. *)
Record prepared (s : InodeStoreInner) (rank : Inode → nat) : Prop := mk_prepared {
  pr_root i a d m : get s i = Some a → st_arcs s !! a = Some d → id_migration_info d = Some m → (i = ROOT_ID ↔ m = RootNode);
  pr_rank i a d p e name : get s i = Some a → st_arcs s !! a = Some d → id_migration_info d = Some (Path p name) →
    st_arcs s !! p = Some e → (rank (id_inode e) < rank i)%nat;
  pr_width i a d : get s i = Some a → st_arcs s !! a = Some d → id_refcount d < 2 ^ 64 - 1
}.

Section source.
  Variable check_presence : InodeData → InodeData → list Z → bool.
  Variable path_from_proc_self_fd : InodeData → option (list Z).
  Variable cfg : Config.
  Variable s : InodeStoreInner.
  Hypothesis Hok : store_ok s.

(** What an inode becomes. *)
Definition node_of (a : arc) (n : s_inode) : Prop :=
  ∃ d, st_arcs s !! a = Some d ∧ si_id n = id_inode d ∧ si_refcount n = id_refcount d ∧
    match id_migration_info d with
    | None => si_location n = SInvalid
    | Some RootNode => si_location n = SRootNode
    | Some (Path p name) =>
      ∃ e, st_arcs s !! p = Some e ∧
        (si_location n = SPath (id_inode e) name ∨
         cfg_migration_confirm_paths cfg = true ∧ (si_location n = SInvalid ∨ ∃ f, si_location n = SFullPath f))
    end.

Lemma inodes_as_serialized_spec vs :
  Forall (λ a, ∃ d, st_arcs s !! a = Some d ∧ ∀ m, id_migration_info d = Some m → (id_inode d = ROOT_ID ↔ m = RootNode)) vs →
  ∃ l, inodes_as_serialized check_presence path_from_proc_self_fd cfg vs s = Ok l ∧ Forall2 node_of vs l.
Proof using Hok.
  induction 1 as [|a vs (d & Hd & Hm) _ (l & E & IH)]; [by exists []|]. cbn [inodes_as_serialized].
  rewrite (proj2 (deref_Ok s a d) Hd). cbn [obind]. unfold inode_as_serialized.
  destruct (id_migration_info d) as [m|] eqn:Em.
  2:{ cbn [obind]. rewrite E. cbn [obind]. eexists. split; [done|]. constructor; [|done]. exists d. by rewrite Em. }
  assert (Bool.eqb (id_inode d =? ROOT_ID) (is_root_node m) = true) as ->.
  { destruct (Hm m eq_refl) as [H1 H2]. apply Bool.eqb_true_iff. destruct (Z.eqb_spec (id_inode d) ROOT_ID) as [Er|Er].
    - by rewrite (H1 Er).
    - destruct m; [by destruct Er; apply H2 | done]. }
  cbn [ASSERT obind]. destruct m as [|p name]; cbn [info_as_serialized].
  { cbn [ebind obind]. rewrite E. cbn [obind]. eexists. split; [done|]. constructor; [|done]. exists d. by rewrite Em. }
  destruct (so_info s Hok a d p Hd) as [e He]; [by rewrite Em|]. rewrite (proj2 (deref_Ok s p e) He). cbn [obind].
  destruct (cfg_migration_confirm_paths cfg && _) eqn:Ec.
  - apply andb_true_iff in Ec as [Ec _]. destruct (path_from_proc_self_fd d) as [f|]; cbn [ebind obind]; rewrite E; cbn [obind];
      eexists; (split; [done|]); (constructor; [|done]); exists d; rewrite Em; split_and!; try done; exists e; (split; [done|]); right; eauto.
  - cbn [ebind obind]. rewrite E. cbn [obind]. eexists. split; [done|]. constructor; [|done]. exists d. rewrite Em. split_and!; try done.
    exists e. split; [done|]. by left.
Qed.

End source.

(** The references to [p] in the migration infos of the given inodes. *)
Fixpoint infos_to (arcs : gmap arc InodeData) (vs : list arc) (p : arc) : Z :=
  match vs with
  | [] => 0
  | a :: vs =>
    match arcs !! a with
    | Some d => ind (info_parent (id_migration_info d)) p
    | None => 0
    end + infos_to arcs vs p
  end.

Lemma infos_to_delete arcs vs a p : a ∉ vs → infos_to (delete a arcs) vs p = infos_to arcs vs p.
Proof.
  induction vs as [|b vs IH]; intros Ha; [done|]. apply not_elem_of_cons in Ha as [Hne Ha]. cbn. by rewrite lookup_delete_ne, IH.
Qed.

Lemma mig_infos arcs vs p : NoDup vs → Forall (λ a, is_Some (arcs !! a)) vs →
  (∀ b d, arcs !! b = Some d → b ∉ vs → info_parent (id_migration_info d) = None) → mig arcs p = infos_to arcs vs p.
Proof.
  revert arcs. induction vs as [|a vs IH]; intros arcs Hnd Hv Hother.
  - cbn. unfold mig. rewrite (map_empty_filter_2 _ arcs); [done|]. intros b d Hb. cbn. rewrite (Hother b d Hb); [done|]. by intros ?%elem_of_nil.
  - apply NoDup_cons in Hnd as [Hna Hnd]. apply Forall_cons in Hv as [[d Hd] Hv]. cbn. rewrite Hd.
    rewrite <- (infos_to_delete arcs vs a) by done. rewrite <- (IH (delete a arcs)); [|done| |].
    + rewrite <- (insert_delete_id arcs a d Hd) at 1. rewrite mig_fresh by apply lookup_delete_eq. lia.
    + rewrite Forall_forall in Hv |- *. intros b Hb. rewrite lookup_delete_ne by (intros ->; done). by apply Hv.
    + intros b e [Hne He]%lookup_delete_Some Hb. apply (Hother b e He). apply not_elem_of_cons. done.
Qed.

(** The inodes of the store with their numbers, in order. *)
Definition entries (s : InodeStoreInner) : list (Inode * arc) := merge_sort key_le (map_to_list (st_data s)).

Lemma entries_elem s i a : (i, a) ∈ entries s ↔ get s i = Some a.
Proof. unfold entries. rewrite merge_sort_Permutation. by rewrite elem_of_map_to_list. Qed.

Lemma values_nodup s : store_ok s → NoDup (values s).
Proof.
  intros Hok. apply (NoDup_fmap_2_strong snd (entries s)).
  - intros [i a] [j b] Hi Hj E. cbn in E. subst b. apply entries_elem in Hi, Hj. destruct (so_data s Hok i a Hi) as (d & Hd & <-).
    destruct (so_data s Hok j a Hj) as (d' & Hd' & <-). congruence.
  - unfold entries. rewrite merge_sort_Permutation. apply NoDup_map_to_list.
Qed.

Lemma values_elem s a : a ∈ values s ↔ ∃ i, get s i = Some a.
Proof.
  unfold values. fold (entries s). rewrite list_elem_of_fmap. split.
  - intros ([i b] & -> & H%entries_elem). by exists i.
  - intros [i H%entries_elem]. by exists (i, a).
Qed.

(** Children in the list and references in the infos. *)
Lemma kids_infos cfg s vs l q p : store_ok s → Forall2 (node_of cfg s) vs l → get s q = Some p →
  (∀ b d e, st_arcs s !! b = Some d → info_parent (id_migration_info d) = Some e → ∃ x, st_arcs s !! e = Some x ∧ get s (id_inode x) = Some e) →
  kids l q ≤ infos_to (st_arcs s) vs p ∧ (cfg_migration_confirm_paths cfg = false → kids l q = infos_to (st_arcs s) vs p).
Proof.
  intros Hok Hl Hq Hst. induction Hl as [|a n vs l (d & Hd & _ & _ & Hloc) _ [IH1 IH2]]; [done|]. cbn. rewrite Hd.
  enough (kid n q ≤ ind (info_parent (id_migration_info d)) p ∧
    (cfg_migration_confirm_paths cfg = false → kid n q = ind (info_parent (id_migration_info d)) p)) as [H1 H2].
  { split; [lia|]. intros Hc. specialize (H2 Hc). specialize (IH2 Hc). lia. }
  unfold kid. destruct (id_migration_info d) as [[|e name]|] eqn:Ei; cbn [info_parent].
  - rewrite Hloc, ind_None. lia.
  - destruct (Hst a d e Hd) as (x & Hx & Hge); [by rewrite Ei|]. destruct Hloc as (x' & Hx' & Hloc). assert (x' = x) as -> by congruence.
    assert (id_inode x = q ↔ e = p) as Heq.
    { split; [intros <-; congruence|]. intros ->. destruct (so_data s Hok q p Hq) as (y & ? & <-). congruence. }
    pose proof (ind_range (Some e) p). destruct Hloc as [->|[-> [->|[f ->]]]]; [|by split; [lia|]..].
    unfold ind. repeat case_decide; simplify_eq; try lia; tauto.
  - rewrite Hloc, ind_None. lia.
Qed.

Lemma source_ids cfg s l : store_ok s → Forall2 (node_of cfg s) (values s) l → map si_id l = map fst (entries s).
Proof.
  intros Hok Hl. unfold values in Hl. fold (entries s) in Hl.
  assert (Forall (λ x, get s x.1 = Some x.2) (entries s)) as He by (apply Forall_forall; intros [i a]; by rewrite entries_elem).
  revert l Hl. induction He as [|[i a] es Hi _ IH]; intros l Hl; [by apply Forall2_nil_inv_l in Hl as ->|].
  apply Forall2_cons_inv_l in Hl as (n & l' & (d & Hd & Hid & _) & Hl & ->). cbn. rewrite (IH l' Hl). f_equal.
  rewrite Hid. cbn in Hi. by apply (stored_inode s Hok i a d).
Qed.

Lemma source_elem cfg s l n : store_ok s → Forall2 (node_of cfg s) (values s) l → n ∈ l →
  ∃ a, get s (si_id n) = Some a ∧ node_of cfg s a n.
Proof.
  intros Hok Hl [k Hk]%list_elem_of_lookup. destruct (Forall2_lookup_r _ _ _ _ _ Hl Hk) as (a & Ha & Hn). exists a. split; [|done].
  destruct (proj1 (values_elem s a)) as [i Hi]; [by eapply list_elem_of_lookup_2|]. destruct Hn as (d & Hd & -> & _).
  by rewrite (stored_inode s Hok i a d Hi Hd).
Qed.

Definition own_of (s : InodeStoreInner) (l : list s_inode) (i : Inode) : Z :=
  match get s i with
  | Some _ => count s i - kids l i
  | None => 0
  end.

Section prepared_source.
  Variables (cfg : Config) (y : sys) (rank : Inode → nat) (l : list s_inode).
  Local Abbreviation s := (y_store y).
  Hypothesis Hok : store_ok s.
  Hypothesis Hacct : acct y.
  Hypothesis Hlock : y_lock y = None.
  Hypothesis Hrefs : ∀ a, y_refs y a = 0.
  Hypothesis Hprep : prepared s rank.
  Hypothesis Hl : Forall2 (node_of cfg s) (values s) l.

Lemma source_count i a : get s i = Some a → count s i = y_guest y a + mig (st_arcs s) a ∧ 0 < count s i.
Proof using Hok Hacct Hlock Hrefs.
  intros Hi. destruct (so_data s Hok i a Hi) as (d & Hd & _). unfold count. rewrite Hi, Hd.
  pose proof (ac_count y Hacct a d Hd) as Ec. rewrite Hlock, Hrefs in Ec. cbn in Ec. split; [lia|].
  assert (id_refcount d ≠ 0) as Hnz.
  { intros Hz. pose proof (ac_zero y Hacct i a d Hi Hd Hz) as Hrm. rewrite Hlock in Hrm. by destruct Hrm as (? & ? & ? & ? & ? & _). }
  pose proof (ac_nonneg y Hacct a). pose proof (mig_nonneg (st_arcs s) a). lia.
Qed.

Lemma source_parent b d e : st_arcs s !! b = Some d → info_parent (id_migration_info d) = Some e →
  ∃ x, st_arcs s !! e = Some x ∧ get s (id_inode x) = Some e.
Proof using Hacct.
  intros Hb He. destruct (acct_held y e Hacct) as (x & Hx & _ & Hg); [|eauto].
  pose proof (mig_parent (st_arcs s) b d e Hb He). pose proof (ac_nonneg y Hacct e). lia.
Qed.

Lemma source_mig a : mig (st_arcs s) a = infos_to (st_arcs s) (values s) a.
Proof using Hok Hacct.
  apply mig_infos; [by apply values_nodup|by apply values_valid|]. intros b d Hb Hnot. apply (ac_gone y Hacct b d Hb).
  intros Hg. apply Hnot, values_elem. eauto.
Qed.

Lemma source_kids i a : get s i = Some a → kids l i ≤ mig (st_arcs s) a ∧
  (cfg_migration_confirm_paths cfg = false → kids l i = mig (st_arcs s) a).
Proof using Hok Hacct Hl. intros Hi. rewrite source_mig. apply kids_infos; [done..|]. apply source_parent. Qed.

Lemma source_listed a : get s ROOT_ID = Some a → 0 < y_guest y a → listed (own_of s l) rank l.
Proof using Hok Hacct Hlock Hrefs Hprep Hl.
  intros Hroot Hguest. pose proof (source_ids cfg s l Hok Hl) as Hids.
  assert (∀ i, is_Some (get s i) → i ∈ map si_id l) as Hin.
  { intros i [b Hb%entries_elem]. rewrite Hids. apply list_elem_of_fmap. by exists (i, b). }
  assert (∀ i b, get s i = Some b → own_of s l i = count s i - kids l i) as Hown by (intros i b Hb; unfold own_of; by rewrite Hb).
  split.
  - rewrite Hids. unfold entries. rewrite merge_sort_Permutation. apply NoDup_fst_map_to_list.
  - intros n (b & Hb & d & Hd & _ & _ & Hloc)%(source_elem cfg s l n Hok Hl) E. apply (pr_root s rank Hprep (si_id n) b d RootNode Hb Hd); [|done].
    destruct (id_migration_info d) as [[|p name]|]; [done| |congruence]. destruct Hloc as (e & _ & [?|[_ [?|[f ?]]]]); congruence.
  - intros n p name (b & Hb & d & Hd & _ & _ & Hloc)%(source_elem cfg s l n Hok Hl) E.
    destruct (id_migration_info d) as [[|p' name']|] eqn:Ei; [congruence| |congruence].
    destruct Hloc as (e & He & [E'|[_ [?|[f ?]]]]); [|congruence..]. rewrite E in E'. injection E' as -> ->.
    destruct (source_parent b d p' Hd) as (x & Hx & Hg); [by rewrite Ei|]. assert (x = e) as -> by congruence. split_and!.
    + intros Er. by apply (pr_root s rank Hprep (si_id n) b d _ Hb Hd Ei) in Er.
    + apply Hin. eauto.
    + by eapply (pr_rank s rank Hprep).
  - intros n name (b & Hb & d & Hd & _ & _ & Hloc)%(source_elem cfg s l n Hok Hl) E.
    destruct (id_migration_info d) as [[|p' name']|] eqn:Ei; [congruence| |congruence]. split_and!.
    + intros Er. by apply (pr_root s rank Hprep (si_id n) b d _ Hb Hd Ei) in Er.
    + apply Hin. eauto.
    + rewrite (Hown _ a Hroot). destruct (source_count _ a Hroot) as [-> _]. destruct (source_kids _ a Hroot) as [? _]. lia.
  - intros n (b & Hb & d & Hd & _ & Hrc & _)%(source_elem cfg s l n Hok Hl). rewrite (Hown _ b Hb). unfold count. rewrite Hb, Hd. lia.
  - intros n (b & Hb & d & Hd & _ & Hrc & _)%(source_elem cfg s l n Hok Hl). destruct (source_count _ b Hb) as [_ Hpos]. unfold count in Hpos.
    rewrite Hb, Hd in Hpos. pose proof (pr_width s rank Hprep _ b d Hb Hd). lia.
  - intros i. unfold own_of. destruct (get s i) as [b|] eqn:Hb; [|done]. destruct (source_count i b Hb) as [-> _].
    destruct (source_kids i b Hb) as [? _]. pose proof (ac_nonneg y Hacct b). lia.
Qed.

End prepared_source.

(** The handles of the source, on the destination. *)
Lemma handles_restored open_inode cfg (m : gmap Z HandleData) s : quiet s →
  (∀ id h, m !! id = Some h → 0 < count s (hd_inode h)) →
  let hs := map handle_as_serialized (merge_sort handle_le (map_to_list m)) in
  ∃ v, apply_handles open_inode cfg hs s ∅ = Ok v ∧
    match v with
    | inl (e, _) => e = CannotOpen ∧ cfg_migration_on_error cfg = Abort
    | inr m' => ∀ id, (λ h, (hd_inode h, hd_flags h)) <$> m' !! id = (λ h, (hd_inode h, hd_flags h)) <$> m !! id
    end.
Proof.
  intros Hq Hm hs. assert (map sh_id hs = map fst (merge_sort handle_le (map_to_list m))) as Hids.
  { unfold hs. rewrite map_map. done. }
  assert (∀ h, h ∈ hs ↔ ∃ hd, m !! sh_id h = Some hd ∧ hd_inode hd = sh_inode h ∧ hd_flags hd = sh_flags h) as Hin.
  { intros h. unfold hs. rewrite list_elem_of_fmap. setoid_rewrite merge_sort_Permutation. split.
    - intros ([id hd] & -> & H%elem_of_map_to_list). by exists hd.
    - intros (hd & H & E1 & E2). exists (sh_id h, hd). rewrite elem_of_map_to_list. split; [|done]. destruct h. cbn in *. unfold handle_as_serialized. cbn. congruence. }
  destruct (apply_handles_spec open_inode cfg hs s ∅) as (v & -> & Hv); [apply Hq| | |].
  - rewrite Hids, merge_sort_Permutation. apply NoDup_fst_map_to_list.
  - intros h (hd & H & <- & _)%Hin. destruct (quiet_count s (hd_inode hd) Hq) as [[_ Hz]|[? _]]; [|done]. specialize (Hm _ _ H). lia.
  - exists v. split; [done|]. destruct v as [e|m']; [done|]. destruct Hv as [H1 H2]. intros id. destruct (m !! id) as [hd|] eqn:Hid.
    + destruct (H1 (handle_as_serialized (id, hd))) as (f & E); [apply Hin; by exists hd|]. cbn in E. by rewrite E.
    + rewrite H2; [by rewrite lookup_empty|]. rewrite Hids, merge_sort_Permutation. intros ([id' hd] & -> & H%elem_of_map_to_list)%list_elem_of_fmap.
      cbn in Hid. congruence.
Qed.

(** A source with the shared directory and one file in it. *)
Definition test_dir : InodeData := mk_InodeData 1 (File 3) 2 (mk_InodeIds 2 8 0) 16877 (Some RootNode).
Definition test_file : InodeData := mk_InodeData 2 (File 4) 1 (mk_InodeIds 12 8 0) 33188 (Some (Path 1%positive [97])).

Definition test_source : InodeStoreInner :=
  mk_InodeStoreInner (<[2%positive := test_file]> (<[1%positive := set_refcount 3 test_dir]> ∅)) (<[2 := 2%positive]> (<[1 := 1%positive]> ∅))
    (<[id_ids test_file := 2]> (<[id_ids test_dir := 1]> ∅)) ∅.

Lemma test_source_run : ∃ r g, steps true [Other; Other; Other; Other] sys0 (mk_sys test_source None [] r g ∅) ∧
  (∀ a, r a = 0) ∧ (∀ a, g a = bump (bump (λ _, 0) (Some 1%positive) 2) (Some 2%positive) 1 a).
Proof.
  pose proof (steps_nil true sys0) as H.
  next_step H uconstr:(step_new_inode true _ _ _ _ _ 1%positive test_dir).
  next_step H uconstr:(step_get true _ _ _ _ _ 1).
  next_step H uconstr:(step_upgrade true _ _ [] []).
  next_step H uconstr:(step_new_inode true _ _ _ _ _ 2%positive test_file).
  eexists _, _. split; [exact H|]. split; [|done].
  intros a. rewrite !bump_eq. cbn [test_file test_dir id_migration_info info_parent]. rewrite ind_None. lia.
Qed.

Lemma test_source_get i a d : get test_source i = Some a → st_arcs test_source !! a = Some d →
  (i = 1 ∧ a = 1%positive ∧ d = set_refcount 3 test_dir) ∨ (i = 2 ∧ a = 2%positive ∧ d = test_file).
Proof.
  unfold get, test_source. cbn [st_data st_arcs].
  intros [[<- <-]|[_ [[<- <-]|[_ H]]%lookup_insert_Some]]%lookup_insert_Some; [| |by rewrite lookup_empty in H].
  - rewrite lookup_insert_eq. intros [= <-]. auto.
  - rewrite lookup_insert_ne, lookup_insert_eq by done. intros [= <-]. auto.
Qed.

Lemma test_source_prepared : prepared test_source Z.to_nat.
Proof.
  split.
  - intros i a d m Hi Hd. destruct (test_source_get i a d Hi Hd) as [(-> & _ & ->)|(-> & _ & ->)]; cbn; intros [= <-]; split; done.
  - intros i a d p e name Hi Hd. destruct (test_source_get i a d Hi Hd) as [(-> & _ & ->)|(-> & _ & ->)]; cbn -[lookup insert]; [done|].
    intros [= <- <-]. rewrite lookup_insert_ne, lookup_insert_eq by done. intros [= <-]. vm_compute. lia.
  - intros i a d Hi Hd. destruct (test_source_get i a d Hi Hd) as [(-> & _ & ->)|(-> & _ & ->)]; done.
Qed.

Definition test_opts : NegotiatedOpts := mk_NegotiatedOpts true false false true.
Definition test_cfg : Config := mk_Config test_opts false GuestError.
Definition test_empty : InodeStoreInner := mk_InodeStoreInner ∅ ∅ ∅ ∅.
Definition test_source_fs : PassthroughFs :=
  mk_PassthroughFs test_source 3 {[ 7 := mk_HandleData 2 (Some 9) 0 ]} 8 test_opts.

(** ** Properties *)

(** The options that are on may be on. *)
Definition allows (cfg : Config) (opts : NegotiatedOpts) : Prop :=
  (no_writeback opts = true → no_writeback (cfg_opts cfg) = true) ∧
  (no_announce_submounts opts = true → no_announce_submounts (cfg_opts cfg) = true) ∧
  (no_posix_acl opts = true → no_posix_acl (cfg_opts cfg) = true).

Lemma opts_apply_spec cfg opts cur :
  allows cfg opts ∧ opts_apply cfg opts cur = (None, opts) ∨
  ¬ allows cfg opts ∧ ∃ cur', opts_apply cfg opts cur = (Some OptionRefused, cur').
Proof.
  unfold allows, opts_apply. destruct opts as [w a p g], (cfg_opts cfg) as [w' a' p' g'], w, w', a, a', p, p'; cbn;
    first [ left; by split_and! | right; split; [intros (H1 & H2 & H3) | by eexists] ];
    first [ by specialize (H1 eq_refl) | by specialize (H2 eq_refl) | by specialize (H3 eq_refl) ].
Qed.

(** C5: A migration preserves what the guest holds.  From a source that is
    idle and prepared (with polite guests, in any interleaving before), the
    state is serialized without panic, and applying it on any destination
    terminates: it is refused without a change of inodes, handles and counters
    exactly when the source has an option on that the destination does not
    allow; else it fails only because something cannot be opened, or the
    destination has the same options, counters and handles, and the count of
    every inode is the number of lookups of the guest, plus one for every
    child whose location the source could not confirm; without the
    confirmation of paths it is exactly the number of lookups, and inodes the
    guest does not hold are gone. *)
Theorem migration_roundtrip
    (check_presence : InodeData → InodeData → list Z → bool) (path_from_proc_self_fd : InodeData → option (list Z))
    (open_root : option (FileOrHandle * InodeIds * Z)) (open_path : FileOrHandle → list Z → option (FileOrHandle * InodeIds * Z))
    (open_inode : InodeData → Z → option Z) (src dst : Config)
    (evs : list event) (y : sys) (fs fs0 : PassthroughFs) (rank : Inode → nat) (a : arc)
    (Hrun : steps true evs sys0 y) (Hlock : y_lock y = None) (Hrefs : ∀ a, y_refs y a = 0)
    (Hfs : pf_inodes fs = y_store y) (Hprep : prepared (y_store y) rank)
    (Hroot : get (y_store y) ROOT_ID = Some a) (Hguest : 0 < y_guest y a)
    (Hhandles : ∀ id h, pf_handles fs !! id = Some h → ∃ b, get (y_store y) (hd_inode h) = Some b ∧ 0 < y_guest y b)
    (Hdst : store_ok (pf_inodes fs0)) :
  ∃ v, serialize_fs check_presence path_from_proc_self_fd src fs = Ok (inr v) ∧
  ∃ r, apply open_root open_path open_inode dst v fs0 = Ok r ∧
    match r with
    | inl (e, fs') =>
      ¬ allows dst (pf_opts fs) ∧ e = OptionRefused ∧ pf_inodes fs' = pf_inodes fs0 ∧ pf_handles fs' = pf_handles fs0 ∧
        pf_next_inode fs' = pf_next_inode fs0 ∧ pf_next_handle fs' = pf_next_handle fs0 ∨
      allows dst (pf_opts fs) ∧ e = CannotOpen ∧ pf_opts fs' = pf_opts fs ∧
        (cfg_migration_on_error dst = Abort ∨ open_root = None)
    | inr fs' =>
      allows dst (pf_opts fs) ∧
      (∀ i b, get (y_store y) i = Some b →
        count (pf_inodes fs') i = y_guest y b + (mig (st_arcs (y_store y)) b - kids (v1_inodes v) i) ∧
        (cfg_migration_confirm_paths src = false → count (pf_inodes fs') i = y_guest y b)) ∧
      (∀ i, is_Some (get (pf_inodes fs') i) ↔ 0 < count (pf_inodes fs') i) ∧
      (∀ i, get (y_store y) i = None → get (pf_inodes fs') i = None) ∧
      pf_next_inode fs' = pf_next_inode fs ∧ pf_next_handle fs' = pf_next_handle fs ∧ pf_opts fs' = pf_opts fs ∧
      ∀ id, (λ h, (hd_inode h, hd_flags h)) <$> pf_handles fs' !! id = (λ h, (hd_inode h, hd_flags h)) <$> pf_handles fs !! id
    end.
Proof.
  pose proof (steps_acct _ _ Hrun) as Hacct. pose proof (yo_store _ (steps_sys_ok _ _ _ Hrun)) as Hok. set (s := y_store y) in *.
  destruct (inodes_as_serialized_spec check_presence path_from_proc_self_fd src s Hok (values s)) as (l & El & Hl).
  { apply Forall_forall. intros b [i Hb]%values_elem. destruct (so_data s Hok i b Hb) as (d & Hd & <-). exists d. split; [done|].
    intros m. by apply (pr_root s rank Hprep _ b d). }
  pose proof (source_listed src y rank l Hok Hacct Hlock Hrefs Hprep Hl a Hroot Hguest) as HL.
  pose proof (source_count y Hok Hacct Hlock Hrefs) as Hcount. pose proof (source_kids src y l Hok Hacct Hl) as Hkids. fold s in HL, Hcount, Hkids.
  assert (∀ i, i ∈ map si_id l ↔ is_Some (get s i)) as Hids.
  { intros i. rewrite (source_ids src s l Hok Hl), list_elem_of_fmap. split; [intros ([j b] & -> & H%entries_elem); eauto|].
    intros [b H%entries_elem]. by exists (i, b). }
  unfold serialize_fs. rewrite Hfs. fold s. rewrite Hroot, El. cbn [obind ebind]. eexists. split; [done|]. unfold apply. cbn [v1_negotiated_opts v1_inodes v1_handles].
  destruct (opts_apply_spec dst (pf_opts fs) (pf_opts fs0)) as [[Hall ->]|[Hall [opts ->]]].
  2:{ eexists. split; [done|]. left. by cbn. }
  destruct (clear_store_spec (pf_inodes fs0) Hdst) as (s0 & -> & Hq0 & Hempty). cbn [obind].
  destruct (apply_inodes_spec open_root open_path dst (own_of s l) rank l HL (length l) l s0 []) as (v & -> & Hv); [|lia|].
  { split; [done|done|by intros n p name ?%elem_of_nil|]. intros i. unfold count. rewrite Hempty, decide_False; [done|]. by intros ?%elem_of_nil. }
  destruct v as [[e s1]|s1]; cbn [obind]; [eexists; split; [done|]; right; destruct Hv; by cbn|]. destruct Hv as [Hq1 Hc1].
  assert (∀ i b, get s i = Some b → count s1 i = y_guest y b + (mig (st_arcs s) b - kids l i)) as Hc.
  { intros i b Hb. rewrite Hc1, decide_True by (apply Hids; eauto). unfold own_of. rewrite Hb. destruct (Hcount i b Hb) as [-> _]. lia. }
  destruct (handles_restored open_inode dst (pf_handles fs) s1 Hq1) as (v & -> & Hv).
  { intros id h Hh. destruct (Hhandles id h Hh) as (b & Hb & Hgb). rewrite (Hc _ b Hb). destruct (Hkids _ b Hb) as [? _]. lia. }
  destruct v as [[e m']|m']; cbn [obind]; [eexists; split; [done|]; right; destruct Hv; by cbn; auto|].
  eexists. split; [reflexivity|]. cbn. split_and!; try done.
  - intros i b Hb. split; [by apply Hc|]. intros Hcfg. rewrite (Hc i b Hb). destruct (Hkids i b Hb) as [_ ->]; [lia|done].
  - intros i. destruct (quiet_count s1 i Hq1) as [[-> ->]|[? ?]]; [|done]. split; [by intros [? ?] | lia].
  - intros i Hi. destruct (quiet_count s1 i Hq1) as [[? _]|[_ Hpos]]; [done|]. rewrite Hc1, decide_False in Hpos; [lia|]. rewrite Hids, Hi. by intros [? ?].
Qed.

Lemma migration_roundtrip_witness :
  ∃ v, serialize_fs (λ _ _ _, true) (λ _, None) test_cfg test_source_fs = Ok (inr v) ∧
  ∃ fs', apply (Some (File 3, mk_InodeIds 5 1 0, 16877)) (λ _ _, Some (File 4, mk_InodeIds 6 1 0, 33188)) (λ _ _, Some 5) test_cfg v
           (mk_PassthroughFs test_empty 0 ∅ 0 test_opts) = Ok (inr fs') ∧
    count (pf_inodes fs') 1 = 2 ∧ count (pf_inodes fs') 2 = 1.
Proof.
  destruct test_source_run as (r & g & Hrun & Hr & Hg).
  destruct (migration_roundtrip (λ _ _ _, true) (λ _, None) (Some (File 3, mk_InodeIds 5 1 0, 16877))
    (λ _ _, Some (File 4, mk_InodeIds 6 1 0, 33188)) (λ _ _, Some 5) test_cfg test_cfg _ _ test_source_fs
    (mk_PassthroughFs test_empty 0 ∅ 0 test_opts) Z.to_nat 1%positive Hrun) as (v & Ev & res & Eres & H).
  - reflexivity.
  - exact Hr.
  - reflexivity.
  - exact test_source_prepared.
  - reflexivity.
  - cbn [y_guest]. rewrite Hg. vm_compute. reflexivity.
  - intros id h Hh. cbn [pf_handles test_source_fs] in Hh. apply lookup_singleton_Some in Hh as [<- <-]. exists 2%positive. split; [reflexivity|]. cbn [y_guest]. rewrite Hg. vm_compute. reflexivity.
  - split; cbn; intros; by rewrite lookup_empty in *.
  - exists v. split; [exact Ev|]. destruct res as [e|fs']; [destruct e as [e fs']; destruct H as [[H _]|(_ & _ & _ & [H|H])]; [destruct H; vm_compute; auto | discriminate..]|].
    exists fs'. split; [exact Eres|]. destruct H as (_ & H & _). split.
    + rewrite (proj2 (H 1 1%positive eq_refl) eq_refl). cbn [y_guest]. rewrite Hg. vm_compute. reflexivity.
    + rewrite (proj2 (H 2 2%positive eq_refl) eq_refl). cbn [y_guest]. rewrite Hg. vm_compute. reflexivity.
Defined.
