(* ===== verification/Chain.v ===== *)
(** * Descriptor chains

    [kfsd/src/descriptor_utils.rs]: the buffers a guest hands to the server,
    read and written as one stream of bytes.  The slices of guest memory, the
    regions and the descriptors come from the crates vm-memory and
    virtio-queue; what the code uses of them is an interface, with the
    documented behaviour as its laws. *)

From S2P Require Import Prelude.
From stdpp Require Import base numbers list list_numbers.
From Stdlib Require Import ZArith Lia.

Open Scope Z_scope.
Open Scope kfs_scope.

(** ** Guest memory *)

(** A byte for every host address the guest memory is mapped at. *)
Definition mem : Type := Z → Z.

Fixpoint store_cells (cells bs : list Z) (m : mem) : mem :=
  match cells, bs with
  | c :: cells, b :: bs => store_cells cells bs (λ x, if x =? c then b else m x)
  | _, _ => m
  end.

(** A slice of guest memory: its address and its size, the slice without its
    first bytes, and a part of it. *)
Class VolatileSlice (T E : Type) := {
  as_ptr : T → Z;
  len : T → Z;
  offset : T → Z → E + T;
  subslice : T → Z → Z → E + T;
}.

Definition cells `{VolatileSlice T E} (v : T) : list Z := seqZ (as_ptr v) (len v).

Class VolatileSliceLaws (T E : Type) `{VolatileSlice T E} := {
  len_usize v : 0 ≤ len v < 2 ^ 64;
  offset_ok v n : 0 ≤ n ≤ len v → ∃ w, offset v n = inr w ∧ as_ptr w = as_ptr v + n ∧ len w = len v - n;
  subslice_ok v n : 0 ≤ n ≤ len v → ∃ w, subslice v 0 n = inr w ∧ as_ptr w = as_ptr v ∧ len w = n;
}.

(** ** Errors *)

(** The errors of [std::io] the streams return. *)
Inductive io_error : Type :=
| Os (code : Z)
| InvalidData
| UnexpectedEof
| WriteZero
| Interrupted.

(** [E] is the error of vm-memory for a slice; its error for an access by
    address is not used by this file. *)
Inductive Error (E : Type) : Type :=
| DescriptorChainOverflow
| FindMemoryRegion
| GuestMemoryError
| InvalidChain
| IoError (e : io_error)
| SplitOutOfBounds (offset : Z)
| VolatileMemoryError (e : E).
Arguments DescriptorChainOverflow {E}.
Arguments FindMemoryRegion {E}.
Arguments GuestMemoryError {E}.
Arguments InvalidChain {E}.
Arguments IoError {E} e.
Arguments SplitOutOfBounds {E} offset.
Arguments VolatileMemoryError {E} e.

(** ** Operations *)

Section operations.
Context {T E : Type} `{VS : VolatileSlice T E}.

Record DescriptorChainConsumer := mk_consumer {
  buffers : list T;
  bytes_consumed : Z
}.

(** The sum of [usize]s; an overflow stops a build with overflow checks. *)
Fixpoint sum_len (count : Z) (bufs : list T) : outcome Z :=
  match bufs with
  | [] => Ok count
  | vs :: bufs => ASSERT (count + len vs <? 2 ^ 64) ;; sum_len (count + len vs) bufs
  end.
Definition available_bytes (c : DescriptorChainConsumer) : outcome Z := sum_len 0 (buffers c).

(** The slices the first loop of [consume] collects. *)
Fixpoint collect_slices (count buflen : Z) (bufs : list T) : list T :=
  match bufs with
  | [] => []
  | vs :: bufs =>
    if count <=? buflen then []
    else
      let rem := count - buflen in
      vs :: collect_slices count (if rem <? len vs then buflen + rem else buflen + len vs) bufs
  end.

(** The second loop: what was consumed leaves the front of the queue. *)
Fixpoint drop_consumed (rem : Z) (bufs : list T) : outcome (list T) :=
  match bufs with
  | [] => Ok []
  | vs :: bufs =>
    if rem <? len vs then
      match offset vs rem with
      | inr vs => Ok (vs :: bufs)
      | inl _ => Fault AssertFail
      end
    else drop_consumed (rem - len vs) bufs
  end.

Definition consume {St} (c : DescriptorChainConsumer) (count : Z) (f : list T → M St (io_error + Z)) :
    M St ((io_error + Z) * DescriptorChainConsumer) :=
  match collect_slices count 0 (buffers c) with
  | [] => ret (inr 0, c)
  | bufs =>
    r ⇐ f bufs;
    match r with
    | inl e => ret (inl e, c)
    | inr n =>
      if bytes_consumed c + n <? 2 ^ 64 then
        bufs ⇐ lift (drop_consumed n (buffers c));
        ret (inr n, mk_consumer bufs (bytes_consumed c + n))
      else ret (inl InvalidData, c)
    end
  end.

(** The position of the slice the offset is in, and the offset inside it. *)
Fixpoint split_position (rem : Z) (bufs : list T) : option nat * Z :=
  match bufs with
  | [] => (None, rem)
  | vs :: bufs =>
    if rem <? len vs then (Some 0%nat, rem)
    else let '(at_, rem) := split_position (rem - len vs) bufs in (S <$> at_, rem)
  end.

(** What is left in the chain, and the chain that is split off.  After an
    error of [offset] the chain has lost its tail. *)
Definition split_at (c : DescriptorChainConsumer) (off : Z) :
    outcome (DescriptorChainConsumer * (Error E + DescriptorChainConsumer)) :=
  match split_position off (buffers c) with
  | (Some at_, rem) =>
    let front := take at_ (buffers c) in
    let other := drop at_ (buffers c) in
    if 0 <? rem then
      match other with
      | [] => Fault AssertFail
      | vs :: other =>
        match subslice vs 0 rem with
        | inl e => Ok (mk_consumer front (bytes_consumed c), inl (VolatileMemoryError e))
        | inr v1 =>
          let self := mk_consumer (front ++ [v1]) (bytes_consumed c) in
          match offset vs rem with
          | inl e => Ok (self, inl (VolatileMemoryError e))
          | inr v2 => Ok (self, inr (mk_consumer (v2 :: other) 0))
          end
        end
      end
    else Ok (mk_consumer front (bytes_consumed c), inr (mk_consumer other 0))
  | (None, rem) =>
    Ok (c, if rem =? 0 then inr (mk_consumer [] 0) else inl (SplitOutOfBounds off))
  end.

(** *** Reader *)

(** The closure of [read]: the bytes of the slices go to the buffer. *)
Fixpoint copy_from (m : mem) (rem : list Z) (bufs : list T) : list Z * Z :=
  match bufs with
  | [] => (rem, 0)
  | vs :: bufs =>
    let copy_len := zlen rem `min` len vs in
    let '(rest, total) := copy_from m (drop (Z.to_nat copy_len) rem) bufs in
    (map m (seqZ (as_ptr vs) copy_len) ++ rest, copy_len + total)
  end.

Definition read (c : DescriptorChainConsumer) (buf : list Z) : M mem ((io_error + Z) * list Z * DescriptorChainConsumer) := λ m,
  ' (r, c, (buf, m)) ← consume c (zlen buf)
    (λ bufs '(buf, m), let '(buf, total) := copy_from m buf bufs in Ok (inr total, (buf, m))) (buf, m);
  Ok (r, buf, c, m).

(** [Read::read_exact] of the standard library. *)
Fixpoint read_exact_loop (fuel : nat) (c : DescriptorChainConsumer) (buf : list Z) :
    M mem ((io_error + unit) * list Z * DescriptorChainConsumer) :=
  match fuel, buf with
  | _, [] => ret (inr tt, [], c)
  | O, _ => lift (Fault OutOfFuel)
  | S fuel, _ =>
    ' (r, buf, c) ⇐ read c buf;
    match r with
    | inr n =>
      if n =? 0 then ret (inl UnexpectedEof, buf, c)
      else
        ' (r, rest, c) ⇐ read_exact_loop fuel c (drop (Z.to_nat n) buf);
        ret (r, take (Z.to_nat n) buf ++ rest, c)
    | inl Interrupted => read_exact_loop fuel c buf
    | inl e => ret (inl e, buf, c)
    end
  end.
Definition read_exact (c : DescriptorChainConsumer) (buf : list Z) := read_exact_loop (length buf) c buf.

Definition read_obj {R} `{CStruct R} (c : DescriptorChainConsumer) : M mem ((io_error + R) * DescriptorChainConsumer) :=
  ' (r, buf, c) ⇐ read_exact c (replicate (Z.to_nat (sizeof R)) 0);
  ret (match r with inr _ => inr (of_bytes buf) | inl e => inl e end, c).

(** *** Writer *)

(** The closure of [write]; marking the pages of the slice dirty is left out. *)
Fixpoint copy_to (rem : list Z) (bufs : list T) (m : mem) : Z * mem :=
  match bufs with
  | [] => (0, m)
  | vs :: bufs =>
    let copy_len := zlen rem `min` len vs in
    let '(total, m) := copy_to (drop (Z.to_nat copy_len) rem) bufs
      (store_cells (seqZ (as_ptr vs) copy_len) (take (Z.to_nat copy_len) rem) m) in
    (copy_len + total, m)
  end.

Definition write (c : DescriptorChainConsumer) (buf : list Z) : M mem ((io_error + Z) * DescriptorChainConsumer) :=
  consume c (zlen buf) (λ bufs m, let '(total, m) := copy_to buf bufs m in Ok (inr total, m)).

(** [Write::write_all] of the standard library. *)
Fixpoint write_all_loop (fuel : nat) (c : DescriptorChainConsumer) (buf : list Z) :
    M mem ((io_error + unit) * DescriptorChainConsumer) :=
  match fuel, buf with
  | _, [] => ret (inr tt, c)
  | O, _ => lift (Fault OutOfFuel)
  | S fuel, _ =>
    ' (r, c) ⇐ write c buf;
    match r with
    | inr n => if n =? 0 then ret (inl WriteZero, c) else write_all_loop fuel c (drop (Z.to_nat n) buf)
    | inl Interrupted => write_all_loop fuel c buf
    | inl e => ret (inl e, c)
    end
  end.
Definition write_all (c : DescriptorChainConsumer) (buf : list Z) := write_all_loop (length buf) c buf.

Definition write_obj {R} `{CStruct R} (c : DescriptorChainConsumer) (val : R) := write_all c (bytes_of val).

(** *** Transfers with a file

    The vectored calls on the file are arguments; they may change the file
    and the memory. *)
Definition read_to_at {St} (write_vectored_at : list T → Z → M St (io_error + Z))
    (c : DescriptorChainConsumer) (count off : Z) := consume c count (λ bufs, write_vectored_at bufs off).
Definition write_from_at {St} (read_vectored_at : list T → Z → M St (io_error + Z))
    (c : DescriptorChainConsumer) (count off : Z) := consume c count (λ bufs, read_vectored_at bufs off).

(** *** A chain from its descriptors

    [descs] are the addresses and lengths of the descriptors of one
    direction; regions of guest memory are found by address. *)
Section new.
Context {R : Type} (find_region : Z → option R) (start_addr : R → Z) (get_slice : R → Z → Z → E + T).

Fixpoint new_buffers (total_len : Z) (descs : list (Z * Z)) : outcome (Error E + list T) :=
  match descs with
  | [] => Ok (inr [])
  | (addr, dlen) :: descs =>
    if 2 ^ 64 <=? total_len + dlen then Ok (inl DescriptorChainOverflow)
    else match find_region addr with
    | None => Ok (inl FindMemoryRegion)
    | Some region =>
      ASSERT (start_addr region <=? addr) ;;
      match get_slice region (addr - start_addr region) dlen with
      | inl e => Ok (inl (VolatileMemoryError e))
      | inr vs =>
        r ← new_buffers (total_len + dlen) descs;
        Ok (match r with inr bufs => inr (vs :: bufs) | inl e => inl e end)
      end
    end
  end.

Definition new_chain (descs : list (Z * Z)) : outcome (Error E + DescriptorChainConsumer) :=
  r ← new_buffers 0 descs;
  Ok (match r with inr bufs => inr (mk_consumer bufs 0) | inl e => inl e end).
End new.

End operations.

Arguments DescriptorChainConsumer : clear implicits.

(** ** The stream of a chain *)

Section stream.
Context {T E : Type} `{VS : VolatileSlice T E} {VL : VolatileSliceLaws T E}.
Implicit Types (c : DescriptorChainConsumer T) (bufs : list T) (m : mem).

(** The addresses a chain still covers, in order: what it promises is to be
    the stream of the bytes there. *)
Definition cells_of bufs : list Z := concat (map cells bufs).
Definition chain_cells c : list Z := cells_of (buffers c).
Definition available c : Z := zlen (chain_cells c).

(** The counters cannot overflow. *)
Definition chain_ok c : Prop := 0 ≤ bytes_consumed c ∧ bytes_consumed c + available c < 2 ^ 64.

Lemma zlen_cells v : zlen (cells v) = len v.
Proof. unfold zlen, cells. rewrite length_seqZ. pose proof (len_usize v). lia. Qed.

Lemma zlen_cells_cons v bufs : zlen (cells_of (v :: bufs)) = len v + zlen (cells_of bufs).
Proof. unfold cells_of. cbn [map concat]. by rewrite zlen_app, zlen_cells. Qed.

Lemma seqZ_drop a n k : 0 ≤ k ≤ n → seqZ (a + k) (n - k) = drop (Z.to_nat k) (seqZ a n).
Proof. intros H. replace n with (k + (n - k)) at 2 by lia. rewrite seqZ_app by lia. rewrite drop_app_length'; [done|]. rewrite length_seqZ. done. Qed.
Lemma seqZ_take a n k : 0 ≤ k ≤ n → seqZ a k = take (Z.to_nat k) (seqZ a n).
Proof. intros H. replace n with (k + (n - k)) by lia. rewrite seqZ_app by lia. rewrite take_app_length'; [done|]. rewrite length_seqZ. done. Qed.

Lemma cells_offset v n : 0 ≤ n ≤ len v → ∃ w, offset v n = inr w ∧ cells w = drop (Z.to_nat n) (cells v).
Proof. intros Hn. destruct (offset_ok v n Hn) as (w & Ho & Hp & Hl). exists w. split; [done|]. unfold cells. rewrite Hp, Hl. by apply seqZ_drop. Qed.
Lemma cells_subslice v n : 0 ≤ n ≤ len v → ∃ w, subslice v 0 n = inr w ∧ cells w = take (Z.to_nat n) (cells v).
Proof. intros Hn. destruct (subslice_ok v n Hn) as (w & Ho & Hp & Hl). exists w. split; [done|]. unfold cells. rewrite Hp, Hl. by apply seqZ_take. Qed.

Lemma take_cells_app v bufs n : len v ≤ n →
  take (Z.to_nat n) (cells_of (v :: bufs)) = cells v ++ take (Z.to_nat (n - len v)) (cells_of bufs).
Proof.
  intros Hn. pose proof (zlen_cells v) as Hl. pose proof (len_usize v). unfold zlen in Hl. unfold cells_of. cbn [map concat].
  rewrite take_app_ge by lia. do 2 f_equal. lia.
Qed.
Lemma drop_cells_app v bufs n : len v ≤ n →
  drop (Z.to_nat n) (cells_of (v :: bufs)) = drop (Z.to_nat (n - len v)) (cells_of bufs).
Proof.
  intros Hn. pose proof (zlen_cells v) as Hl. pose proof (len_usize v). unfold zlen in Hl. unfold cells_of. cbn [map concat].
  rewrite drop_app_ge by lia. f_equal. lia.
Qed.

Lemma sum_len_ok bufs k : 0 ≤ k → k + zlen (cells_of bufs) < 2 ^ 64 → sum_len k bufs = Ok (k + zlen (cells_of bufs)).
Proof.
  revert k. induction bufs as [|v bufs IH]; intros k Hk Hlt; [change (zlen (cells_of [])) with 0; by rewrite Z.add_0_r|].
  rewrite zlen_cells_cons in *. pose proof (len_usize v). pose proof (zlen_nonneg (cells_of bufs)). cbn [sum_len].
  rewrite ASSERT_Ok by (apply Z.ltb_lt; lia). cbn [obind]. rewrite IH by lia. f_equal. lia.
Qed.

Lemma drop_consumed_ok bufs n : 0 ≤ n → ∃ bufs', drop_consumed n bufs = Ok bufs' ∧
  cells_of bufs' = drop (Z.to_nat n) (cells_of bufs).
Proof.
  revert n. induction bufs as [|v bufs IH]; intros n Hn; [exists []; by destruct (Z.to_nat n)|].
  cbn [drop_consumed]. destruct (Z.ltb_spec n (len v)) as [Hlt|Hge].
  - destruct (cells_offset v n ltac:(lia)) as (w & -> & Hw). exists (w :: bufs). split; [done|].
    unfold cells_of. cbn [map concat]. rewrite Hw, drop_app_le; [done|].
    pose proof (zlen_cells v) as Hl. unfold zlen in Hl. lia.
  - destruct (IH (n - len v)) as (b & -> & Hb); [lia|]. exists b. split; [done|]. by rewrite drop_cells_app.
Qed.

(** The collected slices are a prefix that covers what is asked for. *)
Lemma collect_prefix bufs count k : k ≤ count → ∃ rest, bufs = collect_slices count k bufs ++ rest ∧
  (rest = [] ∨ count - k ≤ zlen (cells_of (collect_slices count k bufs))) ∧
  (collect_slices count k bufs = [] → bufs = [] ∨ count = k).
Proof.
  revert k. induction bufs as [|v bufs IH]; intros k Hk; [exists []; split_and!; auto|]. cbn [collect_slices].
  destruct (Z.leb_spec count k); [exists (v :: bufs); split_and!; [done | right; change (zlen (cells_of [])) with 0; lia | right; lia]|].
  pose proof (len_usize v). set (k' := if _ <? _ then _ else _).
  assert (k' ≤ count ∧ (k' = count ∨ k' = k + len v) ∧ k' ≤ k + len v) as (Hk' & Hor & Hle)
    by (unfold k'; destruct (Z.ltb_spec (count - k) (len v)); lia).
  destruct (IH k' Hk') as (rest & E1 & E2 & _). exists rest. split_and!; [cbn; by rewrite <- E1 | | done].
  destruct E2 as [E2|E2]; [by left | right]. rewrite zlen_cells_cons. lia.
Qed.

Lemma cells_of_app b1 b2 : cells_of (b1 ++ b2) = cells_of b1 ++ cells_of b2.
Proof. unfold cells_of. by rewrite map_app, concat_app. Qed.

(** What one call can transfer is the same for the collected slices and for
    the chain. *)
Lemma collect_take bufs n : 0 ≤ n →
  take (Z.to_nat n) (cells_of (collect_slices n 0 bufs)) = take (Z.to_nat n) (cells_of bufs).
Proof.
  intros Hn. destruct (collect_prefix bufs n 0 Hn) as (rest & Eb & [->|Hge] & _).
  - rewrite app_nil_r in Eb. by rewrite <- Eb.
  - rewrite Eb at 2. rewrite cells_of_app, take_app_le; [done|]. unfold zlen in Hge. lia.
Qed.

Lemma copy_from_ok m bufs rem : copy_from m rem bufs =
  (map m (take (length rem) (cells_of bufs)) ++ drop (length (cells_of bufs)) rem,
   zlen (take (length rem) (cells_of bufs))).
Proof.
  revert rem. induction bufs as [|v bufs IH]; intros rem; [cbn; by rewrite take_nil|].
  cbn [copy_from]. rewrite IH. pose proof (zlen_cells v) as Hl. pose proof (len_usize v). unfold zlen in Hl.
  rewrite (seqZ_take (as_ptr v) (len v)) by (unfold zlen; lia). fold (cells v).
  change (cells_of (v :: bufs)) with (cells v ++ cells_of bufs).
  rewrite length_drop, drop_drop, length_app, take_app, map_app, <- app_assoc, zlen_app.
  destruct (Z.min_spec (zlen rem) (len v)) as [[Hlt ->]|[Hge ->]]; unfold zlen in *.
  - replace (Z.to_nat (Z.of_nat (length rem))) with (length rem) by lia.
    replace (length rem - length rem)%nat with 0%nat by lia. replace (length rem - length (cells v))%nat with 0%nat by lia.
    rewrite !take_0, !drop_ge by lia. rewrite length_take. f_equal. cbn. lia.
  - rewrite (take_ge (cells v)) by lia. rewrite (take_ge (cells v) (length rem)) by lia.
    replace (Z.to_nat (len v)) with (length (cells v)) by lia. do 3 f_equal. lia.
Qed.

Lemma store_cells_app l1 l2 bs m : store_cells (l1 ++ l2) bs m =
  store_cells l2 (drop (length l1) bs) (store_cells l1 (take (length l1) bs) m).
Proof.
  revert bs m. induction l1 as [|c l1 IH]; intros bs m; [done|]. destruct bs as [|b bs]; [by destruct l2|]. cbn. apply IH.
Qed.

Lemma store_cells_short l bs m : (length bs ≤ length l)%nat → store_cells l bs m = store_cells (take (length bs) l) bs m.
Proof.
  revert bs m. induction l as [|c l IH]; intros [|b bs] m Hl; cbn in *; try done. apply IH. lia.
Qed.

Lemma copy_to_ok bufs rem m : copy_to rem bufs m =
  (zlen (take (length rem) (cells_of bufs)), store_cells (cells_of bufs) rem m).
Proof.
  revert rem m. induction bufs as [|v bufs IH]; intros rem m; [cbn; by rewrite take_nil|].
  cbn [copy_to]. rewrite IH. pose proof (zlen_cells v) as Hl. pose proof (len_usize v). unfold zlen in Hl.
  rewrite (seqZ_take (as_ptr v) (len v)) by (unfold zlen; lia). fold (cells v).
  change (cells_of (v :: bufs)) with (cells v ++ cells_of bufs).
  rewrite length_drop, store_cells_app, take_app, zlen_app.
  destruct (Z.min_spec (zlen rem) (len v)) as [[Hlt ->]|[Hge ->]]; unfold zlen in *.
  - replace (Z.to_nat (Z.of_nat (length rem))) with (length rem) by lia.
    replace (length rem - length rem)%nat with 0%nat by lia. replace (length rem - length (cells v))%nat with 0%nat by lia.
    rewrite !take_0, !drop_ge, !(take_ge rem), <- store_cells_short, length_take by lia. f_equal. cbn. lia.
  - rewrite (take_ge (cells v)) by lia. rewrite (take_ge (cells v) (length rem)) by lia.
    replace (Z.to_nat (len v)) with (length (cells v)) by lia. f_equal. lia.
Qed.

(** Only the cells a transfer of [length buf] bytes can reach matter. *)
Lemma take_of_zlen {A B} (buf : list A) (l1 l2 : list B) :
  (take (Z.to_nat (zlen buf)) l1 = take (Z.to_nat (zlen buf)) l2) = (take (length buf) l1 = take (length buf) l2).
Proof. unfold zlen. by rewrite Nat2Z.id. Qed.

Lemma zlen_take_min {A} (buf : list Z) (l : list A) : zlen (take (length buf) l) = zlen buf `min` zlen l.
Proof. unfold zlen. rewrite length_take. lia. Qed.

Lemma drop_same {A} (buf : list A) (l1 l2 : list Z) : take (length buf) l1 = take (length buf) l2 →
  drop (length l1) buf = drop (length l2) buf.
Proof.
  intros H%(f_equal length). rewrite !length_take in H.
  destruct (decide (length l1 = length l2)) as [->|]; [done|]. rewrite !drop_ge by lia. done.
Qed.

Lemma store_cells_take l bs m : store_cells l bs m = store_cells (take (length bs) l) bs m.
Proof.
  destruct (decide (length bs ≤ length l)%nat); [by apply store_cells_short|]. by rewrite take_ge by lia.
Qed.

Lemma store_same l1 l2 buf m : take (length buf) l1 = take (length buf) l2 → store_cells l1 buf m = store_cells l2 buf m.
Proof. intros H. by rewrite (store_cells_take l1), H, <- store_cells_take. Qed.

(** ** Transfers *)

Section consume.
Context (c : DescriptorChainConsumer T) (Hc : chain_ok c).

Lemma available_bytes_ok : available_bytes c = Ok (available c).
Proof.
  destruct Hc as [H0 H]. pose proof (zlen_nonneg (chain_cells c)). unfold available_bytes, available, chain_cells in *.
  rewrite sum_len_ok by lia. done.
Qed.

(** A transfer that takes as many bytes as were asked for and are there. *)
Lemma consume_ok {St} n (f : list T → M St (io_error + Z)) s s' : 0 ≤ n →
  (∀ bufs, take (Z.to_nat n) (cells_of bufs) = take (Z.to_nat n) (chain_cells c) →
     f bufs s = Ok (inr (n `min` available c), s')) →
  (n `min` available c = 0 → s' = s) →
  ∃ c', consume c n f s = Ok (inr (n `min` available c), c', s') ∧ chain_ok c' ∧
    chain_cells c' = drop (Z.to_nat n) (chain_cells c) ∧ bytes_consumed c' = bytes_consumed c + n `min` available c.
Proof.
  intros Hn Hf H0. pose proof (zlen_nonneg (chain_cells c)) as Hav. fold (available c) in Hav. destruct Hc as [Hb Hlt].
  pose proof (collect_take (buffers c) n Hn) as Ht. destruct (collect_prefix (buffers c) n 0 Hn) as (rest & E1 & _ & E2).
  unfold consume. destruct (collect_slices n 0 (buffers c)) as [|v bufs] eqn:Ec.
  - assert (n `min` available c = 0 ∧ drop (Z.to_nat n) (chain_cells c) = chain_cells c) as [Hz Hd].
    { destruct (E2 eq_refl) as [Eb | ->]; [|split; [lia | done]]. unfold available, chain_cells. rewrite Eb.
      change (cells_of []) with (@nil Z). change (zlen (@nil Z)) with 0. split; [lia | by rewrite drop_nil]. }
    exists c. rewrite (H0 Hz), Hz, Z.add_0_r. done.
  - rewrite (M_bind_Ok _ _ _ _ _ (Hf (v :: bufs) Ht)). cbn match. rewrite (proj2 (Z.ltb_lt _ _)) by lia.
    destruct (drop_consumed_ok (buffers c) (n `min` available c) ltac:(lia)) as (b & Hd & Hcb).
    erewrite M_bind_Ok by (unfold lift; by rewrite Hd). eexists. split; [done|].
    assert (drop (Z.to_nat (n `min` available c)) (chain_cells c) = drop (Z.to_nat n) (chain_cells c)) as Hdd.
    { destruct (Z.min_spec n (available c)) as [[? ->]|[? ->]]; [done|]. rewrite !drop_ge; unfold available, zlen in *; [done|lia|lia]. }
    unfold chain_ok, available, chain_cells in *. cbn [buffers bytes_consumed]. rewrite Hcb, Hdd.
    split_and!; [lia | | done | done]. unfold zlen in *. rewrite length_drop. lia.
Qed.

Lemma read_ok buf m : ∃ c', read c buf m = Ok (inr (zlen buf `min` available c),
    map m (take (length buf) (chain_cells c)) ++ drop (length (chain_cells c)) buf, c', m) ∧ chain_ok c' ∧
  chain_cells c' = drop (length buf) (chain_cells c) ∧ bytes_consumed c' = bytes_consumed c + zlen buf `min` available c.
Proof.
  unfold read.
  destruct (consume_ok (zlen buf) (λ bufs '(buf, m), let '(buf, total) := copy_from m buf bufs in Ok (inr total, (buf, m)))
    (buf, m) (map m (take (length buf) (chain_cells c)) ++ drop (length (chain_cells c)) buf, m)) as (c' & Hrun & Hrest).
  - apply zlen_nonneg.
  - intros bufs Ht. rewrite copy_from_ok. rewrite take_of_zlen in Ht. rewrite Ht, zlen_take_min.
    by rewrite (drop_same _ _ _ Ht).
  - intros H0. assert (length buf = 0%nat ∨ length (chain_cells c) = 0%nat) as [?%nil_length_inv|?%nil_length_inv]
      by (unfold available, zlen in H0; lia); subst.
    + by destruct (chain_cells c).
    + rewrite H. by rewrite take_nil.
  - exists c'. rewrite Hrun. cbn [obind]. split; [done|]. unfold zlen in Hrest. by rewrite Nat2Z.id in Hrest.
Qed.

Lemma write_ok buf m : ∃ c', write c buf m = Ok (inr (zlen buf `min` available c), c', store_cells (chain_cells c) buf m) ∧
  chain_ok c' ∧
  chain_cells c' = drop (length buf) (chain_cells c) ∧ bytes_consumed c' = bytes_consumed c + zlen buf `min` available c.
Proof.
  unfold write.
  destruct (consume_ok (zlen buf) (λ bufs m, let '(total, m) := copy_to buf bufs m in Ok (inr total, m))
    m (store_cells (chain_cells c) buf m)) as (c' & Hrun & Hrest).
  - apply zlen_nonneg.
  - intros bufs Ht. rewrite copy_to_ok. rewrite take_of_zlen in Ht. rewrite Ht, zlen_take_min.
    by rewrite (store_same _ _ _ _ Ht).
  - intros H0. assert (length buf = 0%nat ∨ length (chain_cells c) = 0%nat) as [H|H]
      by (unfold available, zlen in H0; lia); apply nil_length_inv in H; rewrite H; [by destruct (chain_cells c) | done].
  - exists c'. rewrite Hrun. split; [done|]. unfold zlen in Hrest. by rewrite Nat2Z.id in Hrest.
Qed.
End consume.

(** [c] is what [c0] becomes when [n] bytes are taken. *)
Definition taken (c0 : DescriptorChainConsumer T) (n : Z) (c : DescriptorChainConsumer T) : Prop :=
  chain_ok c ∧ chain_cells c = drop (Z.to_nat n) (chain_cells c0) ∧ bytes_consumed c = bytes_consumed c0 + n.

Lemma taken_0 c : chain_ok c → taken c 0 c.
Proof. intros Hc. split; [done|]. split; [done | lia]. Qed.

Lemma taken_available c0 n c : 0 ≤ n ≤ available c0 → taken c0 n c → available c = available c0 - n.
Proof. intros Hn (_ & H & _). unfold available, zlen in *. rewrite H, length_drop. lia. Qed.

Lemma read_taken c buf m : chain_ok c → let n := zlen buf `min` available c in
  ∃ c', read c buf m = Ok (inr n, map m (take (Z.to_nat n) (chain_cells c)) ++ drop (Z.to_nat n) buf, c', m) ∧ taken c n c'.
Proof.
  intros Hc n. destruct (read_ok c Hc buf m) as (c' & -> & H1 & H2 & H3). exists c'. unfold taken.
  assert (n = zlen buf ∧ zlen buf ≤ available c ∨ n = available c ∧ available c < zlen buf) as [[-> ?]|[-> ?]] by lia;
    unfold available, zlen in *; rewrite Nat2Z.id; rewrite ?Z.min_l, ?Z.min_r in * by lia.
  - by rewrite !(drop_ge buf) by lia.
  - rewrite H2, !(drop_ge (chain_cells c)), !(take_ge (chain_cells c)) by lia. done.
Qed.

Lemma write_taken c buf m : chain_ok c → let n := zlen buf `min` available c in
  ∃ c', write c buf m = Ok (inr n, c', store_cells (chain_cells c) buf m) ∧ taken c n c'.
Proof.
  intros Hc n. destruct (write_ok c Hc buf m) as (c' & -> & H1 & H2 & H3). exists c'. unfold taken.
  assert (n = zlen buf ∧ zlen buf ≤ available c ∨ n = available c ∧ available c < zlen buf) as [[-> ?]|[-> ?]] by lia;
    unfold available, zlen in *; rewrite Nat2Z.id; rewrite ?Z.min_l, ?Z.min_r in * by lia; [done|].
  rewrite H2, !drop_ge by lia. done.
Qed.

Lemma read_exact_unfold fuel c buf m : chain_ok c → buf ≠ [] → let n := zlen buf `min` available c in
  ∃ c', taken c n c' ∧ read_exact_loop (S fuel) c buf m =
    (if n =? 0 then ret (inl UnexpectedEof, buf, c')
     else ' (r, rest, c2) ⇐ read_exact_loop fuel c' (drop (Z.to_nat n) buf);
       ret (r, map m (take (Z.to_nat n) (chain_cells c)) ++ rest, c2)) m.
Proof.
  intros Hc Hb n. destruct (read_taken c buf m Hc) as (c' & Hr & Ht). fold n in Hr, Ht. exists c'. split; [done|].
  pose proof (zlen_nonneg buf). pose proof (zlen_nonneg (chain_cells c)).
  assert (length (map m (take (Z.to_nat n) (chain_cells c))) = Z.to_nat n) as Hl
    by (rewrite length_map, length_take; unfold n, available, zlen; lia).
  destruct buf as [|b buf]; [done|]. cbn [read_exact_loop]. rewrite (M_bind_Ok _ _ _ _ _ Hr).
  cbn match. destruct (Z.eqb_spec n 0) as [E0|_]; [by rewrite E0|].
  rewrite take_app_length', drop_app_length' by done. done.
Qed.

Lemma write_all_unfold fuel c buf m : chain_ok c → buf ≠ [] → let n := zlen buf `min` available c in
  ∃ c', taken c n c' ∧ write_all_loop (S fuel) c buf m =
    (if n =? 0 then ret (inl WriteZero, c') else write_all_loop fuel c' (drop (Z.to_nat n) buf))
      (store_cells (chain_cells c) buf m).
Proof.
  intros Hc Hb n. destruct (write_taken c buf m Hc) as (c' & Hr & Ht). fold n in Hr, Ht. exists c'. split; [done|].
  destruct buf as [|b buf]; [done|]. cbn [write_all_loop]. by rewrite (M_bind_Ok _ _ _ _ _ Hr).
Qed.

(** All the bytes, or everything that is there and the error. *)
Lemma read_exact_ok c buf m : chain_ok c →
  ∃ c', if zlen buf <=? available c
    then read_exact c buf m = Ok (inr tt, map m (take (length buf) (chain_cells c)), c', m) ∧ taken c (zlen buf) c'
    else (∃ buf', read_exact c buf m = Ok (inl UnexpectedEof, buf', c', m)) ∧ taken c (available c) c'.
Proof.
  intros Hc. pose proof (zlen_nonneg (chain_cells c)) as Hav. fold (available c) in Hav. unfold read_exact.
  destruct (decide (buf = [])) as [->|Hne].
  { exists c. change (zlen (@nil Z)) with 0. destruct (Z.leb_spec 0 (available c)); [by split; [|apply taken_0] | lia]. }
  assert (0 < zlen buf) as Hpos by (destruct buf; [done | unfold zlen; cbn; lia]).
  remember (length buf) as fuel eqn:Hfuel in |- * at 1 3. destruct fuel as [|fuel]; [unfold zlen in Hpos; lia|].
  destruct (read_exact_unfold fuel c buf m Hc Hne) as (c1 & Ht & ->).
  destruct (Z.leb_spec (zlen buf) (available c)) as [Hle|Hlt].
  - exists c1. rewrite Z.min_l in * by lia. destruct (Z.eqb_spec (zlen buf) 0); [lia|]. split; [|done].
    unfold zlen. rewrite Nat2Z.id, (drop_ge buf) by lia. unfold sbind. destruct fuel; cbn; by rewrite app_nil_r.
  - rewrite Z.min_r in * by lia. destruct (Z.eqb_spec (available c) 0) as [E0|Hn0]; [exists c1; rewrite E0 in *; by eauto|].
    destruct Ht as (Hc1 & Hcell & Hb1). assert (chain_cells c1 = []) as Hnil
      by (rewrite Hcell; apply drop_ge; unfold available, zlen; lia).
    assert (available c1 = 0) as Hav1 by (unfold available; by rewrite Hnil).
    destruct fuel as [|fuel]; [unfold zlen in *; lia|].
    destruct (read_exact_unfold fuel c1 (drop (Z.to_nat (available c)) buf) m Hc1) as (c2 & Ht2 & Hr2).
    { intros E0%(f_equal length). rewrite length_drop in E0. cbn in E0. unfold zlen in *. lia. }
    rewrite Hav1, Z.min_r in Ht2, Hr2 by apply zlen_nonneg. exists c2. split.
    + eexists. by rewrite (M_bind_Ok _ _ _ _ _ Hr2).
    + destruct Ht2 as (? & E2 & E3). split; [done|]. rewrite E2, E3, Hcell, Hb1. split; [done | lia].
Qed.

Lemma write_all_ok c buf m : chain_ok c →
  ∃ c', if zlen buf <=? available c
    then write_all c buf m = Ok (inr tt, c', store_cells (chain_cells c) buf m) ∧ taken c (zlen buf) c'
    else write_all c buf m = Ok (inl WriteZero, c', store_cells (chain_cells c) buf m) ∧ taken c (available c) c'.
Proof.
  intros Hc. pose proof (zlen_nonneg (chain_cells c)) as Hav. fold (available c) in Hav. unfold write_all.
  destruct (decide (buf = [])) as [->|Hne].
  { exists c. change (zlen (@nil Z)) with 0. destruct (Z.leb_spec 0 (available c)); [|lia].
    split; [by destruct (chain_cells c) | by apply taken_0]. }
  assert (0 < zlen buf) as Hpos by (destruct buf; [done | unfold zlen; cbn; lia]).
  remember (length buf) as fuel eqn:Hfuel. destruct fuel as [|fuel]; [unfold zlen in Hpos; lia|].
  destruct (write_all_unfold fuel c buf m Hc Hne) as (c1 & Ht & ->).
  destruct (Z.leb_spec (zlen buf) (available c)) as [Hle|Hlt].
  - exists c1. rewrite Z.min_l in * by lia. destruct (Z.eqb_spec (zlen buf) 0); [lia|]. split; [|done].
    unfold zlen. rewrite Nat2Z.id, (drop_ge buf) by lia. by destruct fuel.
  - rewrite Z.min_r in * by lia. destruct (Z.eqb_spec (available c) 0) as [E0|Hn0]; [exists c1; by rewrite E0 in *|].
    destruct Ht as (Hc1 & Hcell & Hb1). assert (chain_cells c1 = []) as Hnil
      by (rewrite Hcell; apply drop_ge; unfold available, zlen; lia).
    assert (available c1 = 0) as Hav1 by (unfold available; by rewrite Hnil).
    destruct fuel as [|fuel]; [unfold zlen in *; lia|].
    destruct (write_all_unfold fuel c1 (drop (Z.to_nat (available c)) buf) (store_cells (chain_cells c) buf m) Hc1)
      as (c2 & Ht2 & Hr2).
    { intros E0%(f_equal length). rewrite length_drop in E0. cbn in E0. unfold zlen in *. lia. }
    rewrite Hav1, Z.min_r in Ht2, Hr2 by apply zlen_nonneg. rewrite Hnil in Hr2. exists c2. split; [by rewrite Hr2|].
    destruct Ht2 as (? & E2 & E3). split; [done|]. rewrite E2, E3, Hcell, Hb1. split; [done | lia].
Qed.

(** ** Splitting *)

Lemma split_position_ok bufs off : 0 ≤ off →
  match split_position off bufs with
  | (Some at_, rem) => ∃ b1 v b2, bufs = b1 ++ v :: b2 ∧ length b1 = at_ ∧ 0 ≤ rem < len v ∧ off = zlen (cells_of b1) + rem
  | (None, rem) => 0 ≤ rem ∧ off = zlen (cells_of bufs) + rem
  end.
Proof.
  revert off. induction bufs as [|v bufs IH]; intros off Hoff; [by split|]. cbn [split_position].
  destruct (Z.ltb_spec off (len v)) as [Hlt|Hge]; [by exists [], v, bufs|].
  assert (0 ≤ off - len v) as Hd by lia. specialize (IH _ Hd). destruct (split_position (off - len v) bufs) as [[at_|] rem]; cbn [fmap option_fmap option_map].
  - destruct IH as (b1 & w & b2 & -> & Hl & Hr & Ho). exists (v :: b1), w, b2. rewrite zlen_cells_cons. cbn.
    split_and!; [done | lia | lia | lia | lia].
  - rewrite zlen_cells_cons. lia.
Qed.

(** The two halves of a chain whose slices are those of [c], cut at [off]. *)
Definition halves (c : DescriptorChainConsumer T) (off : Z) (c1 c2 : DescriptorChainConsumer T) : Prop :=
  chain_cells c1 = take (Z.to_nat off) (chain_cells c) ∧ chain_cells c2 = drop (Z.to_nat off) (chain_cells c) ∧
  bytes_consumed c1 = bytes_consumed c ∧ bytes_consumed c2 = 0.

Lemma halves_ok c off c1 c2 : chain_ok c → halves c off c1 c2 → chain_ok c1 ∧ chain_ok c2.
Proof.
  intros [Hb Hc] (E1 & E2 & E3 & E4). unfold chain_ok, available in *. rewrite E1, E2, E3, E4.
  unfold zlen in *. rewrite length_take, length_drop. lia.
Qed.

Lemma cut_cells b1 v b2 off rem : 0 ≤ rem ≤ len v → off = zlen (cells_of b1) + rem →
  take (Z.to_nat off) (cells_of (b1 ++ v :: b2)) = cells_of b1 ++ take (Z.to_nat rem) (cells v) ∧
  drop (Z.to_nat off) (cells_of (b1 ++ v :: b2)) = drop (Z.to_nat rem) (cells v) ++ cells_of b2.
Proof.
  intros Hr Ho. pose proof (zlen_cells v) as Hl. rewrite cells_of_app. change (cells_of (v :: b2)) with (cells v ++ cells_of b2).
  unfold zlen in *. rewrite take_app_ge, drop_app_ge, take_app_le, drop_app_le by lia.
  replace (Z.to_nat off - length (cells_of b1))%nat with (Z.to_nat rem) by lia. done.
Qed.

Lemma split_at_ok c off : chain_ok c → 0 ≤ off →
  if off <=? available c
  then ∃ c1 c2, split_at c off = Ok (c1, inr c2) ∧ halves c off c1 c2
  else split_at c off = Ok (c, inl (SplitOutOfBounds off)).
Proof.
  intros [Hb Hc] Hoff. pose proof (split_position_ok (buffers c) off Hoff) as Hpos. unfold split_at, halves.
  destruct (split_position off (buffers c)) as [[at_|] rem].
  - destruct Hpos as (b1 & v & b2 & Eb & <- & Hr & Ho). pose proof (zlen_nonneg (cells_of b1)).
    destruct (cut_cells b1 v b2 off rem) as [Etk Edr]; [lia | done|]. unfold chain_cells. rewrite Eb in *.
    assert ((off <=? available c) = true) as ->.
    { apply Z.leb_le. unfold available, chain_cells. rewrite Eb, cells_of_app, zlen_app, zlen_cells_cons.
      pose proof (zlen_nonneg (cells_of b2)). lia. }
    rewrite take_app_length, drop_app_length, Etk, Edr. destruct (Z.ltb_spec 0 rem) as [Hpos|Hz].
    + assert (0 ≤ rem ≤ len v) as Hr' by lia.
      destruct (cells_subslice v rem Hr') as (v1 & -> & E1), (cells_offset v rem Hr') as (v2 & -> & E2).
      eexists _, _. split; [done|]. cbn [buffers bytes_consumed]. rewrite cells_of_app, <- E1, <- E2. split_and!; try done.
      unfold cells_of at 2. cbn. by rewrite app_nil_r.
    + assert (rem = 0) as -> by lia. eexists _, _. split; [done|]. cbn [buffers bytes_consumed]. split_and!; try done.
      by rewrite app_nil_r.
  - destruct Hpos as [Hr Ho]. fold (chain_cells c) in Ho. fold (available c) in Ho.
    destruct (Z.eqb_spec rem 0) as [->|Hn]; destruct (Z.leb_spec off (available c)); try lia; [|done].
    exists c, (mk_consumer [] 0). rewrite take_ge, drop_ge by (unfold available, zlen in *; lia). done.
Qed.

(** ** From the descriptors *)

Section new.
Context {R : Type} (find_region : Z → option R) (start_addr : R → Z) (get_slice : R → Z → Z → E + T).
Context (Hfind : ∀ a r, find_region a = Some r → start_addr r ≤ a).
Context (Hget : ∀ r o n v, get_slice r o n = inr v → len v = n).

Lemma new_buffers_ok descs total : 0 ≤ total < 2 ^ 64 → Forall (λ d, 0 ≤ d.2) descs →
  ∃ r, new_buffers find_region start_addr get_slice total descs = Ok r ∧
    ∀ bufs, r = inr bufs → total + zlen (cells_of bufs) < 2 ^ 64.
Proof.
  revert total. induction descs as [|[a n] descs IH]; intros total Ht Hd.
  - exists (inr []). split; [done|]. intros bufs [= <-]. change (zlen (cells_of [])) with 0. lia.
  - apply Forall_cons in Hd as [Hn Hd]. cbn in Hn. cbn [new_buffers].
    destruct (Z.leb_spec (2 ^ 64) (total + n)); [by eexists|]. destruct (find_region a) as [r|] eqn:Er; [|by eexists].
    rewrite ASSERT_Ok by (by apply Z.leb_le, Hfind). cbn [obind].
    destruct (get_slice r (a - start_addr r) n) as [e|v] eqn:Ev; [by eexists|].
    destruct (IH (total + n) ltac:(lia) Hd) as (q & -> & Hq). eexists. split; [done|]. intros bufs Eb.
    destruct q as [e|bufs']; [done|]. injection Eb as <-. rewrite zlen_cells_cons, (Hget _ _ _ _ Ev).
    specialize (Hq _ eq_refl). lia.
Qed.

Lemma new_chain_ok descs : Forall (λ d, 0 ≤ d.2) descs →
  ∃ r, new_chain find_region start_addr get_slice descs = Ok r ∧ ∀ c, r = inr c → chain_ok c.
Proof.
  intros Hd. unfold new_chain. destruct (new_buffers_ok descs 0 ltac:(lia) Hd) as (r & -> & Hr). eexists. split; [done|].
  intros c Hc. destruct r as [e|bufs]; [done|]. injection Hc as <-. split; [done|]. by apply (Hr bufs).
Qed.
End new.

(** A transfer that takes no more than the slices have. *)
Lemma consume_any c {St} n (f : list T → M St (io_error + Z)) s : chain_ok c → 0 ≤ n →
  (∀ bufs, ∃ r s', f bufs s = Ok (r, s') ∧ ∀ k, r = inr k → 0 ≤ k ≤ zlen (cells_of bufs)) →
  ∃ r c' s', consume c n f s = Ok (r, c', s') ∧ match r with inr k => 0 ≤ k ≤ available c ∧ taken c k c' | inl _ => c' = c end.
Proof.
  intros Hc Hn Hf. pose proof Hc as [Hb Hlt]. destruct (collect_prefix (buffers c) n 0 Hn) as (rest & E1 & _ & _).
  pose proof (zlen_nonneg (chain_cells c)) as Hav. fold (available c) in Hav. unfold consume.
  destruct (collect_slices n 0 (buffers c)) as [|v bufs] eqn:Ec; [exists (inr 0), c, s; split; [done|]; split; [lia | by apply taken_0]|].
  destruct (Hf (v :: bufs)) as (r & s' & Hr & Hk). rewrite (M_bind_Ok _ _ _ _ _ Hr). destruct r as [e|k]; [by eexists (inl e), c, s'|].
  specialize (Hk k eq_refl). assert (zlen (cells_of (v :: bufs)) ≤ available c) as Hle.
  { unfold available, chain_cells. rewrite E1, cells_of_app, zlen_app. pose proof (zlen_nonneg (cells_of rest)). lia. }
  rewrite (proj2 (Z.ltb_lt _ _)) by lia. destruct (drop_consumed_ok (buffers c) k ltac:(lia)) as (b & Hd & Hcb).
  erewrite M_bind_Ok by (unfold lift; by rewrite Hd). eexists (inr k), _, s'. split; [done|]. split; [lia|].
  unfold taken, chain_ok, available, chain_cells in *. cbn [buffers bytes_consumed]. rewrite Hcb.
  split_and!; [lia | | done | done]. unfold zlen in *. rewrite length_drop. lia.
Qed.

(** ** Memory *)

Lemma take_in {A} (x : A) n l : x ∈ take n l → x ∈ l.
Proof. rewrite <- (take_drop n l) at 2. intros H. apply elem_of_app. by left. Qed.

Lemma store_cells_other l bs m a : (a ∉ take (length bs) l) → store_cells l bs m a = m a.
Proof.
  revert bs m. induction l as [|c l IH]; intros [|b bs] m Ha; try done. cbn in Ha. apply not_elem_of_cons in Ha as [Hne Ha].
  cbn. rewrite IH by done. by rewrite (proj2 (Z.eqb_neq a c)).
Qed.

Lemma store_cells_read l bs m : NoDup l → (length bs ≤ length l)%nat → map (store_cells l bs m) (take (length bs) l) = bs.
Proof.
  revert bs m. induction l as [|c l IH]; intros [|b bs] m Hnd Hl; cbn in *; [done | lia | done|].
  apply NoDup_cons in Hnd as [Hc Hnd]. rewrite IH by (done || lia). f_equal.
  rewrite store_cells_other; [by rewrite Z.eqb_refl|]. intros Hin. apply Hc. by eapply take_in.
Qed.

Lemma map_store_other l bs m k : (∀ a, a ∈ k → a ∉ take (length bs) l) → map (store_cells l bs m) k = map m k.
Proof.
  intros H. induction k as [|a k IH]; [done|]. cbn. f_equal; [apply store_cells_other, H; constructor|].
  apply IH. intros b Hb. apply H. by constructor.
Qed.

Lemma read_obj_ok {S} `{CStruct S} c (x : S) m : chain_ok c → sizeof S ≤ available c → struct_ok x →
  map m (take (Z.to_nat (sizeof S)) (chain_cells c)) = bytes_of x →
  ∃ c', read_obj c m = Ok (inr x, c', m) ∧ taken c (sizeof S) c'.
Proof.
  intros Hc Hs Hx Hm. assert (0 ≤ sizeof S) as H0 by (unfold sizeof; lia).
  destruct (read_exact_ok c (replicate (Z.to_nat (sizeof S)) 0) m Hc) as (c' & Hr).
  rewrite zlen_replicate, length_replicate, (proj2 (Z.leb_le _ _) Hs), Hm in Hr by done. destruct Hr as [Hr Ht].
  exists c'. split; [|done]. unfold read_obj. rewrite (M_bind_Ok _ _ _ _ _ Hr). unfold ret. by rewrite of_bytes_of.
Qed.

End stream.

(** ** Properties *)

Section properties.
Context {T E : Type} `{VS : VolatileSlice T E} {VL : VolatileSliceLaws T E}.

(** C8: What the server writes is what the guest reads.  A chain over distinct
    addresses is split after a header; the data is written to the second part
    and then the header to the first.  Both writes are complete, they change
    no other address, and a reader of the same addresses, in whatever slices
    it has them, gets the header and then the data. *)
Theorem chain_roundtrip {S} `{CStruct S} (w r : DescriptorChainConsumer T) (hd : S) (data : list Z) (m : mem) :
  chain_ok w → chain_ok r → chain_cells r = chain_cells w → NoDup (chain_cells w) → struct_ok hd →
  sizeof S + zlen data ≤ available w →
  ∃ w1 w2 w1' w2' m1 m2 r1 r2,
    split_at w (sizeof S) = Ok (w1, inr w2) ∧
    write_all w2 data m = Ok (inr tt, w2', m1) ∧ bytes_consumed w2' = zlen data ∧
    write_obj w1 hd m1 = Ok (inr tt, w1', m2) ∧ available w1' = 0 ∧
    (∀ a, (a ∉ take (Z.to_nat (sizeof S + zlen data)) (chain_cells w)) → m2 a = m a) ∧
    read_obj r m2 = Ok (inr hd, r1, m2) ∧
    read_exact r1 (replicate (length data) 0) m2 = Ok (inr tt, data, r2, m2).
Proof.
  intros Hw Hr Hcells Hnd Hhd Hav. pose proof (zlen_nonneg data) as Hd0. assert (0 ≤ sizeof S) as H0 by (unfold sizeof; lia).
  assert (available r = available w) as Hrw by (unfold available; by rewrite Hcells).
  pose proof (zlen_bytes_of hd Hhd) as Hbl. pose proof (split_at_ok w (sizeof S) Hw H0) as Hsp.
  rewrite (proj2 (Z.leb_le _ _)) in Hsp by lia. destruct Hsp as (w1 & w2 & Hsp & Hhalf).
  destruct (halves_ok _ _ _ _ Hw Hhalf) as [Hw1 Hw2]. destruct Hhalf as (E1 & E2 & _ & Eb2).
  set (k := Z.to_nat (sizeof S)) in *. set (l := chain_cells w) in *.
  assert (l = take k l ++ drop k l) as El by by rewrite take_drop.
  assert (length (take k l) = k ∧ length data ≤ length (drop k l))%nat as [Hk Hdl]
    by (unfold available, zlen in *; fold l in Hav; rewrite length_take, length_drop; lia).
  pose proof Hnd as Hnd'. rewrite El in Hnd'. apply NoDup_app in Hnd' as (Hnd1 & Hdis & Hnd2).
  destruct (write_all_ok w2 data m Hw2) as (w2' & Hwr2). rewrite (proj2 (Z.leb_le _ _)) in Hwr2
    by (unfold available, zlen in *; rewrite E2; lia). destruct Hwr2 as [Hwr2 (_ & _ & Hb2)]. rewrite E2 in Hwr2.
  set (m1 := store_cells (drop k l) data m) in *.
  destruct (write_all_ok w1 (bytes_of hd) m1 Hw1) as (w1' & Hwr1).
  assert (available w1 = sizeof S) as Hav1 by (unfold available, zlen in *; rewrite E1, Hk; unfold k; lia).
  rewrite (proj2 (Z.leb_le _ _)) in Hwr1 by lia. destruct Hwr1 as [Hwr1 Ht1]. rewrite E1 in Hwr1.
  set (m2 := store_cells (take k l) (bytes_of hd) m1) in *.
  assert (length (bytes_of hd) = k) as Hbk by (unfold zlen in Hbl; unfold k; lia).
  assert (map m2 (take k l) = bytes_of hd) as Hm1.
  { pose proof (store_cells_read (take k l) (bytes_of hd) m1 Hnd1 ltac:(lia)) as Hm. by rewrite Hbk, take_take, Nat.min_id in Hm. }
  assert (map m2 (take (length data) (drop k l)) = data) as Hm2.
  { unfold m2. rewrite map_store_other; [by apply store_cells_read|]. intros a Ha%take_in Hin%take_in. by apply (Hdis a). }
  destruct (read_obj_ok r hd m2 Hr) as (r1 & Hro & Hrt); [lia | done | by rewrite Hcells|].
  assert (available r1 = available r - sizeof S) as Hav2 by (apply taken_available; [lia | done]).
  destruct Hrt as (Hr1 & Ec1 & _). rewrite Hcells in Ec1.
  destruct (read_exact_ok r1 (replicate (length data) 0) m2 Hr1) as (r2 & Hre).
  rewrite (proj2 (Z.leb_le _ _)), length_replicate, Ec1 in Hre
    by (rewrite Hav2; unfold zlen in *; rewrite length_replicate; lia).
  fold l k in Hre. rewrite Hm2 in Hre. exists w1, w2, w1', w2', m1, m2, r1, r2. split_and!; try done.
  - lia.
  - rewrite (taken_available w1 (zlen (bytes_of hd)) w1'); [lia | lia | done].
  - intros a Ha. replace (Z.to_nat (sizeof S + zlen data)) with (k + length data)%nat in Ha by (unfold k, zlen; lia).
    rewrite <- take_take_drop in Ha. apply not_elem_of_app in Ha as [Ha1 Ha2]. unfold m2, m1.
    rewrite !store_cells_other; [done | done | by rewrite Hbk, take_take, Nat.min_id].
  - apply Hre.
Qed.

(** The chains of the server: made from descriptors, and then read, written
    and split in any order. *)
Section reach.
Context {R : Type} (find_region : Z → option R) (start_addr : R → Z) (get_slice : R → Z → Z → E + T).

(** A transfer between the slices and something else: it does not stop, and
    takes no more bytes than the slices have. *)
Definition transfers {St} (f : list T → M St (io_error + Z)) : Prop :=
  ∀ bufs s, ∃ r s', f bufs s = Ok (r, s') ∧ ∀ k, r = inr k → 0 ≤ k ≤ zlen (cells_of bufs).

Inductive chain_reach : DescriptorChainConsumer T → Prop :=
| reach_new descs c :
    Forall (λ d, 0 ≤ d.2 < 2 ^ 32) descs → new_chain find_region start_addr get_slice descs = Ok (inr c) → chain_reach c
| reach_consume {St} c n (f : list T → M St (io_error + Z)) s r c' s' :
    chain_reach c → 0 ≤ n → transfers f → consume c n f s = Ok (r, c', s') → chain_reach c'
| reach_split c off c1 c2 :
    chain_reach c → 0 ≤ off → split_at c off = Ok (c1, inr c2) → chain_reach c1
| reach_split_off c off c1 c2 :
    chain_reach c → 0 ≤ off → split_at c off = Ok (c1, inr c2) → chain_reach c2.

Context (Hfind : ∀ a r, find_region a = Some r → start_addr r ≤ a).
Context (Hget : ∀ r o n v, get_slice r o n = inr v → len v = n).

Lemma split_halves c off c1 c2 : chain_ok c → 0 ≤ off → split_at c off = Ok (c1, inr c2) → halves c off c1 c2.
Proof.
  intros Hc Hoff Hs. pose proof (split_at_ok c off Hc Hoff) as H. destruct (off <=? available c).
  - destruct H as (d1 & d2 & E1 & H). rewrite Hs in E1. by injection E1 as <- <-.
  - by rewrite Hs in H.
Qed.

Lemma chain_reach_ok c : chain_reach c → chain_ok c.
Proof.
  induction 1 as [descs c Hd Hn|St c n f s r c' s' _ IH Hn Hf Hc|c off c1 c2 _ IH Ho Hs|c off c1 c2 _ IH Ho Hs].
  - destruct (new_chain_ok find_region start_addr get_slice Hfind Hget descs) as (r & Hr & Hok).
    { eapply Forall_impl; [exact Hd|]. cbn. lia. }
    rewrite Hn in Hr. injection Hr as <-. by apply Hok.
  - destruct (consume_any c n f s IH Hn) as (r1 & c1 & s1 & E1 & H1); [intros bufs; apply Hf|].
    rewrite Hc in E1. injection E1 as <- <- <-. destruct r; [by subst | apply H1].
  - by apply (halves_ok c off c1 c2 IH), split_halves.
  - by apply (halves_ok c off c1 c2 IH), split_halves.
Qed.

(** C9: Whatever the descriptors of a guest are, and however the chain is
    used, the counters do not overflow and nothing panics: on every chain the
    server can get, [available_bytes] is the number of bytes left; splitting
    gives the two parts of the stream, or the error when there are fewer
    bytes; and a transfer takes bytes off the front or leaves the chain as it
    is. *)
Theorem chain_reach_safe (c : DescriptorChainConsumer T) : chain_reach c →
  available_bytes c = Ok (available c) ∧ bytes_consumed c + available c < 2 ^ 64 ∧
  (∀ off, 0 ≤ off →
    if off <=? available c then ∃ c1 c2, split_at c off = Ok (c1, inr c2) ∧ halves c off c1 c2
    else split_at c off = Ok (c, inl (SplitOutOfBounds off))) ∧
  (∀ St n (f : list T → M St (io_error + Z)) s, 0 ≤ n → transfers f →
    ∃ r c' s', consume c n f s = Ok (r, c', s') ∧
      match r with inr k => 0 ≤ k ≤ available c ∧ taken c k c' | inl _ => c' = c end).
Proof.
  intros Hc%chain_reach_ok. split; [by apply available_bytes_ok|]. split; [apply Hc|]. split.
  - intros off Hoff. by apply split_at_ok.
  - intros St n f s Hn Hf. apply consume_any; [done | done|]. intros bufs. apply Hf.
Qed.
End reach.

End properties.

(** ** An example: slices as an address and a length *)

#[local] Instance test_slice : VolatileSlice (Z * Z) unit := {
  as_ptr v := v.1;
  len v := v.2 mod 2 ^ 64;
  offset v n := if (0 <=? n) && (n <=? v.2 mod 2 ^ 64) then inr (v.1 + n, v.2 mod 2 ^ 64 - n) else inl tt;
  subslice v o n :=
    if (0 <=? o) && (0 <=? n) && (o + n <=? v.2 mod 2 ^ 64) then inr (v.1 + o, n) else inl tt
}.

#[local] Instance test_slice_laws : VolatileSliceLaws (Z * Z) unit.
Proof.
  split; cbn [len offset subslice as_ptr test_slice].
  - intros v. by apply Z.mod_pos_bound.
  - intros v n Hn. pose proof (Z.mod_pos_bound v.2 (2 ^ 64) ltac:(lia)).
    rewrite !(proj2 (Z.leb_le _ _)) by lia. eexists. split; [done|]. cbn [fst snd]. rewrite Z.mod_small by lia. done.
  - intros v n Hn. pose proof (Z.mod_pos_bound v.2 (2 ^ 64) ltac:(lia)).
    rewrite !(proj2 (Z.leb_le _ _)) by lia. eexists. split; [done|]. cbn [fst snd]. rewrite Z.mod_small by lia.
    split; [lia | done].
Qed.

(** One region from address 4096 on; the host maps it at 65536. *)
Definition test_region (a : Z) : option Z := if 4096 <=? a then Some 4096 else None.
Definition test_get (start off n : Z) : unit + (Z * Z) :=
  if (0 <=? n) && (n <? 2 ^ 32) then inr (65536 + off, n) else inl tt.
Definition test_chain : DescriptorChainConsumer (Z * Z) := mk_consumer [(65536, 3); (65552, 0); (65568, 20)] 0.

Lemma chain_reach_safe_witness :
  chain_reach test_region (λ r, r) test_get test_chain ∧ available_bytes test_chain = Ok 23.
Proof.
  assert (chain_reach test_region (λ r, r) test_get test_chain) as Hr.
  { apply (reach_new _ _ _ [(4096, 3); (4112, 0); (4128, 20)]); [|vm_compute; reflexivity].
    repeat constructor; cbn; lia. }
  split; [exact Hr|]. destruct (chain_reach_safe test_region (λ r, r) test_get) with (c := test_chain) as [H _]; [| |exact Hr|].
  - intros a r. unfold test_region. destruct (Z.leb_spec 4096 a); [intros [= <-]; lia | discriminate].
  - intros r o n v. unfold test_get. destruct (Z.leb_spec 0 n), (Z.ltb_spec n (2 ^ 32)); try discriminate.
    intros [= <-]. cbn. apply Z.mod_small. lia.
  - exact H.
Defined.

(** A header of two members. *)
#[local, refine] Instance test_header : CStruct (Z * Z) := {
  widths := [4; 8]%nat;
  to_fields h := [h.1; h.2];
  of_fields vs := (nth 0 vs 0, nth 1 vs 0);
  arrays_ok h := True
}.
Proof.
  - by intros [a b] _.
  - by intros [|a [|b [|]]] Hl.
  - done.
Defined.

Lemma chain_roundtrip_witness : ∃ w1 w2 m2 r1,
  split_at test_chain 12 = Ok (w1, inr w2) ∧
  read_obj (mk_consumer [(65536, 2); (65538, 1); (65568, 20)] 0) m2 = Ok (inr (23, 7), r1, m2).
Proof.
  destruct (chain_roundtrip test_chain (mk_consumer [(65536, 2); (65538, 1); (65568, 20)] 0) (23, 7) [1; 2; 3] (λ _, 0))
    as (w1 & w2 & w1' & w2' & m1 & m2 & r1 & r2 & Hs & _ & _ & _ & _ & _ & Hr & _).
  - split; vm_compute; [discriminate | reflexivity].
  - split; vm_compute; [discriminate | reflexivity].
  - vm_compute. reflexivity.
  - apply (bool_decide_unpack _). vm_compute. exact I.
  - split; [exact I|]. repeat constructor; vm_compute; (reflexivity || discriminate).
  - vm_compute. discriminate.
  - exists w1, w2, m2, r1. split; [exact Hs | exact Hr].
Defined.

(** [consume] hands out whole slices, so their combined length can exceed
    [count], and so can what a transfer takes. *)
Lemma consume_exceeds_count :
  collect_slices 4 0 (buffers test_chain) = buffers test_chain ∧ available test_chain = 23 ∧
  ∃ c', read_to_at (λ bufs off s, Ok (inr (zlen (cells_of bufs)), s)) test_chain 4 0 tt = Ok (inr 23, c', tt) ∧
    available c' = 0.
Proof. split; [done|]. split; [vm_compute; reflexivity|]. exists (mk_consumer [] 23). split; vm_compute; reflexivity. Qed.
