(* ===== verification/FuseDir.v ===== *)
(** * Directories over FUSE

    How kfsd lists a directory: [kfsd/src/read_dir.rs] takes the entries out
    of the buffer of [getdents64]; [readdir] and [readdirplus] of
    [kfsd/src/server.rs] write them into the reply of the guest, with the
    structures of [kfsd/src/fuse.rs].  The calls on the passed-through file
    system are arguments. *)

From S2P Require Import Prelude Chain.
From stdpp Require Import base numbers list list_numbers strings.
From Stdlib Require Import ZArith Lia.

Open Scope Z_scope.
Open Scope kfs_scope.

Definition FUSE_ENOMEM : Z := 12.
Definition FUSE_EIO : Z := 5.
Definition FUSE_EOVERFLOW : Z := 75.
Definition MAX_BUFFER_SIZE : Z := Z.shiftl 1 20.

(** ** Structures *)

(** [error] is the two's complement of the negative error number. *)
Record OutHeader := mk_OutHeader { oh_len : Z; oh_error : Z; oh_unique : Z }.

#[global, refine] Instance OutHeader_struct : CStruct OutHeader := {|
  widths := [4; 4; 8]%nat;
  to_fields h := [oh_len h; oh_error h; oh_unique h];
  of_fields vs := mk_OutHeader (nth 0 vs 0) (nth 1 vs 0) (nth 2 vs 0);
  arrays_ok _ := True
|}.
Proof.
  - by intros [].
  - intros vs Hl. by apply map_nth_seq in Hl.
  - done.
Defined.

Record ReadIn := mk_ReadIn {
  ri_fh : Z; ri_offset : Z; ri_size : Z; ri_read_flags : Z; ri_lock_owner : Z; ri_flags : Z; ri_padding : Z
}.

#[global, refine] Instance ReadIn_struct : CStruct ReadIn := {|
  widths := [8; 8; 4; 4; 8; 4; 4]%nat;
  to_fields r := [ri_fh r; ri_offset r; ri_size r; ri_read_flags r; ri_lock_owner r; ri_flags r; ri_padding r];
  of_fields vs := mk_ReadIn (nth 0 vs 0) (nth 1 vs 0) (nth 2 vs 0) (nth 3 vs 0) (nth 4 vs 0) (nth 5 vs 0) (nth 6 vs 0);
  arrays_ok _ := True
|}.
Proof.
  - by intros [].
  - intros vs Hl. by apply map_nth_seq in Hl.
  - done.
Defined.

Record Dirent := mk_Dirent { dt_ino : Z; dt_off : Z; dt_namelen : Z; dt_type : Z }.

#[global, refine] Instance Dirent_struct : CStruct Dirent := {|
  widths := [8; 8; 4; 4]%nat;
  to_fields d := [dt_ino d; dt_off d; dt_namelen d; dt_type d];
  of_fields vs := mk_Dirent (nth 0 vs 0) (nth 1 vs 0) (nth 2 vs 0) (nth 3 vs 0);
  arrays_ok _ := True
|}.
Proof.
  - by intros [].
  - intros vs Hl. by apply map_nth_seq in Hl.
  - done.
Defined.

Record Attr := mk_Attr {
  at_ino : Z; at_size : Z; at_blocks : Z; at_atime : Z; at_mtime : Z; at_ctime : Z; at_atimensec : Z; at_mtimensec : Z;
  at_ctimensec : Z; at_mode : Z; at_nlink : Z; at_uid : Z; at_gid : Z; at_rdev : Z; at_blksize : Z; at_flags : Z
}.

Record EntryOut := mk_EntryOut {
  eo_nodeid : Z; eo_generation : Z; eo_entry_valid : Z; eo_attr_valid : Z; eo_entry_valid_nsec : Z;
  eo_attr_valid_nsec : Z; eo_attr : Attr
}.

#[global, refine] Instance EntryOut_struct : CStruct EntryOut := {|
  widths := [8; 8; 8; 8; 4; 4; 8; 8; 8; 8; 8; 8; 4; 4; 4; 4; 4; 4; 4; 4; 4; 4]%nat;
  to_fields e := let a := eo_attr e in
    [eo_nodeid e; eo_generation e; eo_entry_valid e; eo_attr_valid e; eo_entry_valid_nsec e; eo_attr_valid_nsec e;
     at_ino a; at_size a; at_blocks a; at_atime a; at_mtime a; at_ctime a; at_atimensec a; at_mtimensec a;
     at_ctimensec a; at_mode a; at_nlink a; at_uid a; at_gid a; at_rdev a; at_blksize a; at_flags a];
  of_fields vs := let v := λ i, nth i vs 0 in
    mk_EntryOut (v 0%nat) (v 1%nat) (v 2%nat) (v 3%nat) (v 4%nat) (v 5%nat)
      (mk_Attr (v 6%nat) (v 7%nat) (v 8%nat) (v 9%nat) (v 10%nat) (v 11%nat) (v 12%nat) (v 13%nat) (v 14%nat)
        (v 15%nat) (v 16%nat) (v 17%nat) (v 18%nat) (v 19%nat) (v 20%nat) (v 21%nat));
  arrays_ok _ := True
|}.
Proof.
  - by intros [? ? ? ? ? ? []].
  - intros vs Hl. by apply map_nth_seq in Hl.
  - done.
Defined.

(** What a lookup of the file system returns, with the members of [stat64]
    and the two durations in seconds and nanoseconds. *)
Record stat64 := mk_stat64 {
  st_ino : Z; st_size : Z; st_blocks : Z; st_atime : Z; st_mtime : Z; st_ctime : Z; st_atime_nsec : Z; st_mtime_nsec : Z;
  st_ctime_nsec : Z; st_mode : Z; st_nlink : Z; st_uid : Z; st_gid : Z; st_rdev : Z; st_blksize : Z
}.
Record Entry := mk_Entry {
  en_inode : Z; en_generation : Z; en_attr : stat64; en_attr_flags : Z; en_attr_timeout : Z * Z; en_entry_timeout : Z * Z
}.

Definition with_flags (st : stat64) (flags : Z) : Attr :=
  mk_Attr (st_ino st) (u64 (st_size st)) (u64 (st_blocks st)) (u64 (st_atime st)) (u64 (st_mtime st)) (u64 (st_ctime st))
    (u32 (st_atime_nsec st)) (u32 (st_mtime_nsec st)) (u32 (st_ctime_nsec st)) (st_mode st) (u32 (st_nlink st))
    (st_uid st) (st_gid st) (u32 (st_rdev st)) (u32 (st_blksize st)) flags.

Definition entry_out (e : Entry) : EntryOut :=
  mk_EntryOut (en_inode e) (en_generation e) (en_entry_timeout e).1 (en_attr_timeout e).1
    (en_entry_timeout e).2 (en_attr_timeout e).2 (with_flags (en_attr e) (en_attr_flags e)).

(** ** Reading the buffer of [getdents64] *)

Record LinuxDirent64 := mk_LinuxDirent64 { d_ino : Z; d_off : Z; d_reclen : Z; d_ty : Z }.

#[global, refine] Instance LinuxDirent64_struct : CStruct LinuxDirent64 := {|
  widths := [8; 8; 2; 1]%nat;
  to_fields d := [d_ino d; d_off d; d_reclen d; d_ty d];
  of_fields vs := mk_LinuxDirent64 (nth 0 vs 0) (nth 1 vs 0) (nth 2 vs 0) (nth 3 vs 0);
  arrays_ok _ := True
|}.
Proof.
  - by intros [].
  - intros vs Hl. by apply map_nth_seq in Hl.
  - done.
Defined.

Record DirEntry := mk_DirEntry { de_ino : Z; de_offset : Z; de_type : Z; de_name : list Z }.
Record ReadDir := mk_ReadDir { rd_buf : list Z; rd_current : Z; rd_end : Z }.

Definition ReadDir_default : ReadDir := mk_ReadDir [] 0 0.

(** [getdents64] fills the front of the buffer. *)
Definition new_no_seek (getdents64 : Z → io_error + list Z) (buf : list Z) : io_error + ReadDir :=
  match getdents64 (zlen buf) with
  | inl e => inl e
  | inr bs => inr (mk_ReadDir (bs ++ drop (length bs) buf) 0 (zlen bs))
  end.
Definition ReadDir_new (lseek64 : Z → io_error + unit) (getdents64 : Z → io_error + list Z) (offset : Z)
    (buf : list Z) : io_error + ReadDir :=
  match lseek64 offset with
  | inl e => inl e
  | inr _ => new_no_seek getdents64 buf
  end.

Definition remaining (rd : ReadDir) : Z := 0 `max` (rd_end rd - rd_current rd).

(** The bytes before the first NUL; there must be one. *)
Definition strip_padding (b : list Z) : outcome (list Z) :=
  ASSERT (bool_decide (0 ∈ b)) ;; Ok (until_nul b).

(** A debug assertion stops only a build with debug assertions, but each of
    them is followed by a slice operation that stops in the same case. *)
Definition next (rd : ReadDir) : outcome (option DirEntry * ReadDir) :=
  ASSERT ((rd_current rd <=? rd_end rd) && (rd_end rd <=? zlen (rd_buf rd))) ;;
  let rem := take (Z.to_nat (rd_end rd - rd_current rd)) (drop (Z.to_nat (rd_current rd)) (rd_buf rd)) in
  match rem with
  | [] => Ok (None, rd)
  | _ =>
    ASSERT (sizeof LinuxDirent64 <=? zlen rem) ;;
    let front := take (Z.to_nat (sizeof LinuxDirent64)) rem in
    let back := drop (Z.to_nat (sizeof LinuxDirent64)) rem in
    let dirent64 : LinuxDirent64 := of_bytes front in
    ASSERT (sizeof LinuxDirent64 <=? d_reclen dirent64) ;;
    let namelen := d_reclen dirent64 - sizeof LinuxDirent64 in
    ASSERT (namelen <=? zlen back) ;;
    name ← strip_padding (take (Z.to_nat namelen) back);
    Ok (Some (mk_DirEntry (d_ino dirent64) (d_off dirent64) (d_ty dirent64) name),
        mk_ReadDir (rd_buf rd) (rd_current rd + d_reclen dirent64) (rd_end rd))
  end.

(** ** Replies *)

(** The errors of [kfsd/src/lib.rs]; what the conversions to a C string
    report is left out.  Flushing a writer does nothing and cannot fail. *)
Inductive server_error : Type :=
| DecodeMessage (e : io_error)
| EncodeMessage (e : io_error)
| FlushMessage (e : io_error)
| MissingParameter
| InvalidCString
| InvalidCString2
| InvalidHeaderLength
| InvalidXattrSize (size len : Z)
| MissingExtension.

Section server.
Context {T E : Type} `{VS : VolatileSlice T E}.
Implicit Types (w : DescriptorChainConsumer T).

Definition raw_os_error (e : io_error) : option Z := match e with Os code => Some code | _ => None end.

(** [write_all(..)?], with the error as the result. *)
Definition try_write {A} (c : DescriptorChainConsumer T) (bs : list Z)
    (k : DescriptorChainConsumer T → M mem (io_error + A)) : M mem (io_error + A) :=
  ' (r, c) ⇐ write_all c bs;
  match r with
  | inl e => ret (inl e)
  | inr _ => k c
  end.

Definition encode_error (r : io_error + Z) : server_error + Z :=
  match r with inl e => inl (EncodeMessage e) | inr n => inr n end.

Definition reply_readdir (rlen unique : Z) (w : DescriptorChainConsumer T) : M mem (server_error + Z) :=
  let out := mk_OutHeader (u32 (sizeof OutHeader + rlen)) 0 unique in
  r ⇐ try_write w (bytes_of out) (λ _, ret (inr (oh_len out)));
  ret (encode_error r).

Definition reply_error (e : io_error) (unique : Z) (w : DescriptorChainConsumer T) : M mem (server_error + Z) :=
  let header := mk_OutHeader (sizeof OutHeader) (u32 (- default FUSE_EIO (raw_os_error e))) unique in
  r ⇐ try_write w (bytes_of header) (λ w,
    massert (sizeof OutHeader =? bytes_consumed w) ;;; ret (inr (bytes_consumed w)));
  ret (encode_error r).

(** The structure and the data of a reply are optional. *)
Definition reply_ok (out data : option (list Z)) (unique : Z) (w : DescriptorChainConsumer T) : M mem (server_error + Z) :=
  let rlen := sizeof OutHeader + zlen (default [] out) + zlen (default [] data) in
  let header := mk_OutHeader (u32 rlen) 0 unique in
  r ⇐ try_write w (bytes_of header) (λ w,
      try_write w (default [] out) (λ w,
      try_write w (default [] data) (λ w,
      massert (rlen =? bytes_consumed w) ;;; ret (inr (bytes_consumed w)))));
  ret (encode_error r).

(** ** Listing *)

Definition DIRENT_PADDING : list Z := replicate 8 0.

(** The result is 0 when the entry does not fit. *)
Definition add_dirent (cursor : DescriptorChainConsumer T) (max : Z) (d : DirEntry) (entry : option Entry) :
    M mem (io_error + Z * DescriptorChainConsumer T) :=
  let name := de_name d in
  if UINT32_MAX <? zlen name then ret (inl (Os FUSE_EOVERFLOW))
  else
    let dirent_len := sizeof Dirent + zlen name in
    if 2 ^ 64 <=? dirent_len then ret (inl (Os FUSE_EOVERFLOW))
    else if 2 ^ 64 <=? dirent_len + 7 then ret (inl (Os FUSE_EOVERFLOW))
    else
      let padded_dirent_len := Z.land (dirent_len + 7) (Z.lnot 7) in
      let total_len := match entry with Some _ => padded_dirent_len + sizeof EntryOut | None => padded_dirent_len end in
      if 2 ^ 64 <=? total_len then ret (inl (Os FUSE_EOVERFLOW))
      else if max <? total_len then ret (inr (0, cursor))
      else
        let dirent := mk_Dirent (de_ino d) (de_offset d) (u32 (zlen name)) (de_type d) in
        let padding := padded_dirent_len - dirent_len in
        let rest cursor :=
          try_write cursor (bytes_of dirent) (λ cursor,
          try_write cursor name (λ cursor,
          if 0 <? padding
          then try_write cursor (take (Z.to_nat padding) DIRENT_PADDING) (λ cursor, ret (inr (total_len, cursor)))
          else ret (inr (total_len, cursor)))) in
        match entry with
        | Some entry => try_write cursor (bytes_of (entry_out entry)) rest
        | None => rest cursor
        end.

(** The loop of [readdir] over the entries. *)
Fixpoint readdir_entries (fuel : nat) (cursor : DescriptorChainConsumer T) (entries : ReadDir) (size total_written : Z) :
    M mem (io_error + Z) :=
  match fuel with
  | O => lift (Fault OutOfFuel)
  | S fuel =>
    ' (dirent, entries) ⇐ lift (next entries);
    match dirent with
    | None => ret (inr total_written)
    | Some dirent =>
      r ⇐ add_dirent cursor (0 `max` (size - total_written)) dirent None;
      match r with
      | inl e => ret (inl e)
      | inr (n, cursor) =>
        if n =? 0 then ret (inr total_written)
        else readdir_entries fuel cursor entries size (total_written + n)
      end
    end
  end.

(** Every entry takes a byte of the buffer at least. *)
Definition readdir (fs_readdir : Z → Z → Z → io_error + ReadDir) (unique : Z) (r w : DescriptorChainConsumer T) :
    M mem (server_error + Z) :=
  ' (ri, r) ⇐ read_obj (R := ReadIn) r;
  match ri with
  | inl e => ret (inl (DecodeMessage e))
  | inr ri =>
    let size := ri_size ri in
    if MAX_BUFFER_SIZE <? size then reply_error (Os FUSE_ENOMEM) unique w
    else
      avail ⇐ lift (available_bytes w);
      if avail <? size then reply_error (Os FUSE_ENOMEM) unique w
      else
        ' (w, cursor) ⇐ lift (split_at w (sizeof OutHeader));
        match cursor with
        | inl _ => lift (Fault AssertFail)
        | inr cursor =>
          result ⇐ match fs_readdir (ri_fh ri) size (ri_offset ri) with
            | inl e => ret (inl e)
            | inr entries => readdir_entries (S (Z.to_nat (remaining entries))) cursor entries size 0
            end;
          match result with
          | inr total_written => reply_readdir total_written unique w
          | inl e => reply_error e unique w
          end
        end
  end.
(** *** With the attributes

    The calls that change the lookup counts of the file system are logged. *)

Inductive fs_event : Type :=
| Lookup (inode : Z)
| Forget (inode : Z).

Record plus_state := mk_plus { ps_mem : mem; ps_log : list fs_event }.

Definition on_mem {A} (c : M mem A) : M plus_state A := λ s,
  ' (a, m) ← c (ps_mem s); Ok (a, mk_plus m (ps_log s)).
Definition forget (inode : Z) : M plus_state unit :=
  modify (λ s, mk_plus (ps_mem s) (ps_log s ++ [Forget inode])).

Section plus.
(** What [lookup] finds may change with every call. *)
Context (fs_lookup : list fs_event → list Z → io_error + Entry).

Definition handle_dirent (d : DirEntry) : M plus_state (io_error + Entry) := λ s,
  if bool_decide (de_name d = cstr ".") || bool_decide (de_name d = cstr "..") then
    Ok (inr (mk_Entry 0 0 (mk_stat64 (de_ino d) 0 0 0 0 0 0 0 0 (u32 (Z.shiftl (de_type d) 12)) 0 0 0 0 0) 0 (0, 0) (0, 0)), s)
  else match fs_lookup (ps_log s) (de_name d) with
  | inl e => Ok (inl e, s)
  | inr e => Ok (inr e, mk_plus (ps_mem s) (ps_log s ++ [Lookup (en_inode e)]))
  end.

Fixpoint readdirplus_entries (fuel : nat) (cursor : DescriptorChainConsumer T) (entries : ReadDir) (size total_written : Z) :
    M plus_state (io_error + Z) :=
  match fuel with
  | O => lift (Fault OutOfFuel)
  | S fuel =>
    ' (dirent, entries) ⇐ lift (next entries);
    match dirent with
    | None => ret (inr total_written)
    | Some dirent =>
      e ⇐ handle_dirent dirent;
      match e with
      | inl e => ret (if total_written =? 0 then inl e else inr total_written)
      | inr e =>
        r ⇐ on_mem (add_dirent cursor (0 `max` (size - total_written)) dirent (Some e));
        match r with
        | inl err =>
          forget (en_inode e) ;;;
          ret (if total_written =? 0 then inl err else inr total_written)
        | inr (n, cursor) =>
          if n =? 0 then forget (en_inode e) ;;; ret (inr total_written)
          else readdirplus_entries fuel cursor entries size (total_written + n)
        end
      end
    end
  end.

Definition readdirplus (fs_readdir : Z → Z → Z → io_error + ReadDir) (unique : Z) (r w : DescriptorChainConsumer T) :
    M plus_state (server_error + Z) :=
  ' (ri, r) ⇐ on_mem (read_obj (R := ReadIn) r);
  match ri with
  | inl e => ret (inl (DecodeMessage e))
  | inr ri =>
    let size := ri_size ri in
    if MAX_BUFFER_SIZE <? size then on_mem (reply_error (Os FUSE_ENOMEM) unique w)
    else
      avail ⇐ lift (available_bytes w);
      if avail <? size then on_mem (reply_error (Os FUSE_ENOMEM) unique w)
      else
        ' (w, cursor) ⇐ lift (split_at w (sizeof OutHeader));
        match cursor with
        | inl _ => lift (Fault AssertFail)
        | inr cursor =>
          result ⇐ match fs_readdir (ri_fh ri) size (ri_offset ri) with
            | inl e => ret (inl e)
            | inr entries => readdirplus_entries (S (Z.to_nat (remaining entries))) cursor entries size 0
            end;
          on_mem match result with
          | inr total_written => reply_readdir total_written unique w
          | inl e => reply_error e unique w
          end
        end
  end.
End plus.
End server.

(** ** The entries of the host *)

(** The records [getdents64] puts into the buffer: the name ends in a NUL and
    may be padded. *)
Inductive host_dirents : list Z → list DirEntry → Prop :=
| host_nil : host_dirents [] []
| host_cons d pad bs ds :
    let h := mk_LinuxDirent64 (de_ino d) (de_offset d) (sizeof LinuxDirent64 + zlen (de_name d) + 1 + zlen pad) (de_type d) in
    struct_ok h → (0 ∉ de_name d) → host_dirents bs ds →
    host_dirents (bytes_of h ++ (de_name d ++ 0 :: pad) ++ bs) (d :: ds).

(** The bytes not yet taken from the buffer. *)
Definition rd_rest (rd : ReadDir) : list Z :=
  take (Z.to_nat (rd_end rd - rd_current rd)) (drop (Z.to_nat (rd_current rd)) (rd_buf rd)).
Definition rd_ok (rd : ReadDir) : Prop := 0 ≤ rd_current rd ≤ rd_end rd ∧ rd_end rd ≤ zlen (rd_buf rd).

Lemma zlen_rest rd : rd_ok rd → zlen (rd_rest rd) = rd_end rd - rd_current rd.
Proof. intros [H1 H2]. unfold rd_rest, zlen in *. rewrite length_take, length_drop. lia. Qed.

Lemma until_nul_app name pad : (0 ∉ name) → until_nul (name ++ 0 :: pad) = name.
Proof.
  induction name as [|b name IH]; intros Hn; [done|]. apply not_elem_of_cons in Hn as [Hb Hn]. cbn.
  rewrite (proj2 (Z.eqb_neq b 0)) by congruence. by rewrite IH.
Qed.

Lemma next_some rd d ds : rd_ok rd → host_dirents (rd_rest rd) (d :: ds) →
  ∃ rd', next rd = Ok (Some d, rd') ∧ rd_ok rd' ∧ host_dirents (rd_rest rd') ds ∧ remaining rd' < remaining rd.
Proof.
  intros Hok Hh. pose proof (zlen_rest rd Hok) as Hlen. remember (rd_rest rd) as rem eqn:Erem.
  inversion Hh as [|d' pad bs ds' h Hs Hn Hds Erest]. clear Hh. subst d' ds'.
  pose proof (zlen_bytes_of h Hs) as Hb. set (L := sizeof LinuxDirent64) in *. assert (L = 19) as HL by done.
  pose proof (zlen_nonneg (de_name d)). pose proof (zlen_nonneg pad). pose proof (zlen_nonneg bs).
  assert (zlen rem = d_reclen h + zlen bs) as Hr by (rewrite <- Erest, !zlen_app, zlen_cons; cbn [d_reclen h]; lia).
  assert (d_reclen h = L + zlen (de_name d) + 1 + zlen pad) as Hrl by done. destruct Hok as [Hr1 Hr2].
  eexists. split; [|split_and!].
  - unfold next. rewrite ASSERT_Ok by (apply andb_true_iff; split; apply Z.leb_le; lia). cbn [obind].
    fold (rd_rest rd). rewrite <- Erem.
    assert (take (Z.to_nat L) rem = bytes_of h ∧ drop (Z.to_nat L) rem = (de_name d ++ 0 :: pad) ++ bs) as [Et Edr].
    { rewrite <- Erest. unfold zlen in Hb. rewrite take_app_length', drop_app_length' by lia. done. }
    destruct rem as [|x rem']; [change (zlen (@nil Z)) with 0 in Hr; lia|]. set (rem := x :: rem') in *.
    rewrite ASSERT_Ok by (apply Z.leb_le; fold L; lia). cbn [obind]. fold L. rewrite Et, Edr, of_bytes_of by done.
    rewrite !ASSERT_Ok by (apply Z.leb_le; rewrite ?zlen_app, ?zlen_cons; lia). cbn [obind].
    rewrite take_app_length' by (rewrite length_app; cbn; unfold zlen in *; lia).
    unfold strip_padding. rewrite ASSERT_Ok by (apply bool_decide_eq_true, elem_of_app; right; constructor). cbn [obind].
    rewrite until_nul_app by done. by destruct d.
  - unfold rd_ok. cbn [rd_current rd_end rd_buf]. lia.
  - unfold rd_rest. cbn [rd_current rd_end rd_buf]. replace (take _ _) with bs; [done|].
    transitivity (drop (Z.to_nat (d_reclen h)) rem).
    + rewrite <- Erest, (app_assoc (bytes_of h)), drop_app_length'; [done|].
      rewrite !length_app. cbn. unfold zlen in *. lia.
    + rewrite Erem. unfold rd_rest. rewrite skipn_firstn_comm, drop_drop. f_equal; [lia|]. f_equal. lia.
  - unfold remaining. cbn [rd_current rd_end]. lia.
Qed.

Lemma next_none rd : rd_ok rd → host_dirents (rd_rest rd) [] → next rd = Ok (None, rd).
Proof.
  intros [H1 H2] Hh. inversion Hh as [E0|]. unfold next. rewrite ASSERT_Ok by (apply andb_true_iff; split; apply Z.leb_le; lia).
  cbn [obind]. fold (rd_rest rd). by rewrite <- E0.
Qed.

(** ** The bytes of an entry *)

Lemma zlen_struct {S} `{CStruct S} (x : S) : length (to_fields x) = length (widths S) → zlen (bytes_of x) = sizeof S.
Proof. intros Hl. unfold zlen, sizeof, bytes_of. by rewrite length_encode. Qed.

Definition align8 (n : Z) : Z := (n + 7) / 8 * 8.

Lemma land_align8 n : Z.land (n + 7) (Z.lnot 7) = align8 n.
Proof.
  change 7 with (Z.ones 3) at 2. rewrite <- Z.ldiff_land, Z.ldiff_ones_r by lia.
  by rewrite Z.shiftl_mul_pow2, Z.shiftr_div_pow2 by lia.
Qed.

Lemma align8_range n : n ≤ align8 n < n + 8.
Proof. unfold align8. dlia. Qed.

Definition dirent_of (d : DirEntry) : Dirent := mk_Dirent (de_ino d) (de_offset d) (zlen (de_name d)) (de_type d).
Definition dirent_pad (d : DirEntry) : Z := align8 (sizeof Dirent + zlen (de_name d)) - (sizeof Dirent + zlen (de_name d)).
Definition dirent_bytes (d : DirEntry) : list Z :=
  bytes_of (dirent_of d) ++ de_name d ++ replicate (Z.to_nat (dirent_pad d)) 0.
Definition entry_bytes (d : DirEntry) (e : option Entry) : list Z :=
  match e with Some e => bytes_of (entry_out e) | None => [] end ++ dirent_bytes d.

Lemma zlen_dirent_bytes d : zlen (dirent_bytes d) = align8 (sizeof Dirent + zlen (de_name d)).
Proof.
  unfold dirent_bytes. pose proof (align8_range (sizeof Dirent + zlen (de_name d))).
  rewrite !zlen_app, zlen_struct, zlen_replicate by (done || unfold dirent_pad; lia). unfold dirent_pad. lia.
Qed.

Lemma zlen_entry_bytes d e : zlen (entry_bytes d e) =
  match e with Some _ => align8 (sizeof Dirent + zlen (de_name d)) + sizeof EntryOut
  | None => align8 (sizeof Dirent + zlen (de_name d)) end.
Proof.
  unfold entry_bytes. rewrite zlen_app, zlen_dirent_bytes. destruct e; [rewrite zlen_struct by done; lia | done].
Qed.

Lemma zlen_entry_pos d e : 0 < zlen (entry_bytes d e).
Proof.
  rewrite zlen_entry_bytes. pose proof (align8_range (sizeof Dirent + zlen (de_name d))). pose proof (zlen_nonneg (de_name d)).
  assert (sizeof Dirent = 24 ∧ sizeof EntryOut = 128) by done. destruct e; lia.
Qed.

Lemma concat_long {A} (ls : list (list A)) : Forall (λ x, 0 < zlen x) ls → (length ls ≤ length (concat ls))%nat.
Proof.
  induction 1 as [|x ls Hx _ IH]; [done|]. cbn [length concat]. rewrite length_app. unfold zlen in Hx. lia.
Qed.

(** What the kernel of the guest does with the data of a reply: it takes
    records as long as a whole one is there. *)
Fixpoint parse_dirents (fuel : nat) (bs : list Z) : list DirEntry :=
  match fuel with
  | O => []
  | S fuel =>
    if zlen bs <? sizeof Dirent then []
    else
      let d : Dirent := of_bytes (take (Z.to_nat (sizeof Dirent)) bs) in
      let reclen := align8 (sizeof Dirent + dt_namelen d) in
      if zlen bs <? reclen then []
      else
        mk_DirEntry (dt_ino d) (dt_off d) (dt_type d)
          (take (Z.to_nat (dt_namelen d)) (drop (Z.to_nat (sizeof Dirent)) bs)) ::
        parse_dirents fuel (drop (Z.to_nat reclen) bs)
  end.

Definition entry_ok (d : DirEntry) : Prop := struct_ok (dirent_of d).

Lemma entry_name_short d : entry_ok d → zlen (de_name d) ≤ UINT32_MAX.
Proof.
  intros [_ Hd]. cbn in Hd. do 2 apply Forall2_cons in Hd as [_ Hd]. apply Forall2_cons in Hd as [[_ Hd] _].
  change (256 ^ _) with (2 ^ 32) in Hd. unfold UINT32_MAX. lia.
Qed.

Lemma parse_cons fuel d bs : entry_ok d → parse_dirents (S fuel) (dirent_bytes d ++ bs) = d :: parse_dirents fuel bs.
Proof.
  intros Hd. pose proof (zlen_dirent_bytes d) as Hl. pose proof (zlen_bytes_of (dirent_of d) Hd) as Hb.
  pose proof (align8_range (sizeof Dirent + zlen (de_name d))) as Ha. pose proof (zlen_nonneg (de_name d)).
  pose proof (zlen_nonneg bs). assert (sizeof Dirent = 24) as HS by done. cbn [parse_dirents].
  rewrite zlen_app, Hl, (proj2 (Z.ltb_ge _ _)) by lia.
  assert (take (Z.to_nat (sizeof Dirent)) (dirent_bytes d ++ bs) = bytes_of (dirent_of d)) as ->.
  { unfold dirent_bytes. rewrite <- !app_assoc, take_app_length'; [done|]. unfold zlen in Hb. lia. }
  rewrite of_bytes_of by done. cbn [dirent_of dt_namelen dt_ino dt_off dt_type]. rewrite (proj2 (Z.ltb_ge _ _)) by lia.
  rewrite (drop_app_length' (dirent_bytes d) bs (Z.to_nat (align8 _))) by (rewrite <- Hl; unfold zlen; lia). f_equal. destruct d as [i o ty name]. f_equal.
  unfold dirent_bytes. rewrite <- !app_assoc, drop_app_length' by (unfold zlen in Hb; lia).
  cbn [de_name]. rewrite take_app_length'; [done|]. unfold zlen. lia.
Qed.

Lemma parse_dirents_bytes fuel ds : Forall entry_ok ds → (length ds < fuel)%nat →
  parse_dirents fuel (concat (map dirent_bytes ds)) = ds.
Proof.
  revert fuel. induction ds as [|d ds IH]; intros fuel Hok Hf; (destruct fuel as [|fuel]; [cbn in Hf; lia|]).
  - done.
  - apply Forall_cons in Hok as [Hd Hok]. cbn [map concat]. rewrite parse_cons by done. rewrite IH; [done | done | cbn in Hf; lia].
Qed.

(** With attributes, a record starts with the entry. *)
Definition plus_bytes (ds : list DirEntry) (es : list Entry) : list Z :=
  concat (zip_with (λ d e, entry_bytes d (Some e)) ds es).

Lemma plus_long ds es : length es = length ds → (length ds ≤ length (plus_bytes ds es))%nat.
Proof.
  unfold plus_bytes. revert es. induction ds as [|d ds IH]; intros [|e es] Hl; try done. cbn [length zip_with concat].
  rewrite length_app. specialize (IH es ltac:(by injection Hl)). pose proof (zlen_entry_pos d (Some e)) as Hp. unfold zlen in Hp. lia.
Qed.

Fixpoint parse_direntplus (fuel : nat) (bs : list Z) : list (EntryOut * DirEntry) :=
  match fuel with
  | O => []
  | S fuel =>
    if zlen bs <? sizeof EntryOut + sizeof Dirent then []
    else
      let e : EntryOut := of_bytes (take (Z.to_nat (sizeof EntryOut)) bs) in
      match parse_dirents 1 (drop (Z.to_nat (sizeof EntryOut)) bs) with
      | d :: _ =>
        (e, d) :: parse_direntplus fuel
          (drop (Z.to_nat (sizeof EntryOut + align8 (sizeof Dirent + zlen (de_name d)))) bs)
      | [] => []
      end
  end.

Lemma parse_plus_cons fuel d e bs : entry_ok d → struct_ok (entry_out e) →
  parse_direntplus (S fuel) (entry_bytes d (Some e) ++ bs) = (entry_out e, d) :: parse_direntplus fuel bs.
Proof.
  intros Hd He. pose proof (zlen_entry_bytes d (Some e)) as Hl. cbn beta iota in Hl. pose proof (zlen_bytes_of _ He) as Hb.
  pose proof (align8_range (sizeof Dirent + zlen (de_name d))). pose proof (zlen_nonneg (de_name d)). pose proof (zlen_nonneg bs).
  cbn [parse_direntplus]. rewrite zlen_app, Hl, (proj2 (Z.ltb_ge _ _)) by lia.
  assert (take (Z.to_nat (sizeof EntryOut)) (entry_bytes d (Some e) ++ bs) = bytes_of (entry_out e) ∧
    drop (Z.to_nat (sizeof EntryOut)) (entry_bytes d (Some e) ++ bs) = dirent_bytes d ++ bs) as [-> ->].
  { unfold entry_bytes. rewrite <- app_assoc, take_app_length', drop_app_length' by (rewrite <- Hb; unfold zlen; lia). done. }
  rewrite of_bytes_of, parse_cons by done. rewrite drop_app_length'; [done|]. rewrite Z.add_comm, <- Hl. unfold zlen. lia.
Qed.

Lemma parse_plus_bytes fuel ds es : Forall entry_ok ds → Forall (λ e, struct_ok (entry_out e)) es →
  length es = length ds → (length ds < fuel)%nat →
  parse_direntplus fuel (plus_bytes ds es) = zip (map entry_out es) ds.
Proof.
  unfold plus_bytes. revert fuel es. induction ds as [|d ds IH]; intros fuel [|e es] Hds Hes Hl Hf; try done;
    (destruct fuel as [|fuel]; [cbn in Hf; lia|]); [done|].
  apply Forall_cons in Hds as [Hd Hds], Hes as [He Hes]. cbn [zip_with concat map]. rewrite parse_plus_cons by done.
  rewrite IH; [done | done | done | by injection Hl | cbn in Hf; lia].
Qed.

(** Lookups of an inode less what was forgotten, and how often it is in the
    entries of a reply. *)
Definition event_count (i : Z) (ev : fs_event) : Z :=
  match ev with
  | Lookup j => if j =? i then 1 else 0
  | Forget j => if j =? i then - 1 else 0
  end.
Definition net (i : Z) (log : list fs_event) : Z := foldr (λ ev n, event_count i ev + n) 0 log.
Definition held (i : Z) (es : list Entry) : Z := foldr (λ e n, (if en_inode e =? i then 1 else 0) + n) 0 es.

Lemma net_app i l1 l2 : net i (l1 ++ l2) = net i l1 + net i l2.
Proof. unfold net. induction l1 as [|ev l1 IH]; [done|]. cbn [app foldr]. rewrite IH. lia. Qed.

(** ** Writing a reply *)

Section writing.
Context {T E : Type} `{VS : VolatileSlice T E} {VL : VolatileSliceLaws T E}.
Context (c0 : DescriptorChainConsumer T) (Hc0 : chain_ok c0) (Hnd : NoDup (chain_cells c0)) (m0 : mem).

(** The stream of [c0] starts with [bs], and the memory outside is as it was. *)
Definition kept (bs : list Z) (m : mem) : Prop :=
  map m (take (length bs) (chain_cells c0)) = bs ∧ ∀ a, (a ∉ chain_cells c0) → m a = m0 a.
(** In addition, [c] is where the writing goes on. *)
Definition holds (bs : list Z) (c : DescriptorChainConsumer T) (m : mem) : Prop :=
  zlen bs ≤ available c0 ∧ taken c0 (zlen bs) c ∧ kept bs m.

Lemma holds_nil : holds [] c0 m0.
Proof. split; [apply zlen_nonneg|]. split; [by apply taken_0 | done]. Qed.

Lemma kept_prefix bs b m : kept (bs ++ b) m → kept bs m.
Proof.
  intros [H Ho]. split; [|done]. rewrite length_app, <- take_take_drop, map_app in H.
  assert (length (map m (take (length bs) (chain_cells c0))) = length bs) as Hl.
  { apply (f_equal length) in H. rewrite !length_app, !length_map, !length_take, length_drop in H.
    rewrite length_map, length_take. lia. }
  by apply app_inj_1 in H as [H _].
Qed.

Lemma kept_store bs b m : kept bs m → zlen bs ≤ available c0 →
  let m' := store_cells (drop (length bs) (chain_cells c0)) b m in
  kept bs m' ∧ (zlen bs + zlen b ≤ available c0 → kept (bs ++ b) m').
Proof.
  intros [H Ho] Hle m'. set (l := chain_cells c0) in *. pose proof Hnd as Hnd'. fold l in Hnd'.
  rewrite <- (take_drop (length bs) l) in Hnd'. apply NoDup_app in Hnd' as (_ & Hdis & Hnd2).
  assert (map m' (take (length bs) l) = bs) as H1.
  { unfold m'. rewrite map_store_other; [done|]. intros a Ha Hin%take_in. by apply (Hdis a). }
  assert (∀ a, (a ∉ l) → m' a = m0 a) as H2.
  { intros a Ha. unfold m'. rewrite store_cells_other; [by apply Ho|]. intros Hin%take_in. apply Ha.
    rewrite <- (take_drop (length bs) l). apply elem_of_app. by right. }
  split; [by split|]. intros Hle2. split; [|done]. fold l. rewrite length_app, <- take_take_drop, map_app, H1. f_equal.
  apply store_cells_read; [done|]. unfold available, zlen in Hle2. fold l in Hle2. rewrite length_drop. lia.
Qed.

Lemma try_write_run {A} bs b c m (k : DescriptorChainConsumer T → M mem (io_error + A)) : holds bs c m →
  if zlen bs + zlen b <=? available c0
  then ∃ c' m', holds (bs ++ b) c' m' ∧ try_write c b k m = k c' m'
  else ∃ m', kept bs m' ∧ try_write c b k m = Ok (inl WriteZero, m').
Proof.
  intros (Hle & Ht & Hk). pose proof (zlen_nonneg bs) as H0.
  assert (available c = available c0 - zlen bs) as Hav by (apply taken_available; [lia | done]).
  destruct Ht as (Hc & Hcells & Hcons). replace (Z.to_nat (zlen bs)) with (length bs) in Hcells by (unfold zlen; lia).
  destruct (kept_store bs b m Hk Hle) as [Hk1 Hk2]. rewrite <- Hcells in Hk1, Hk2.
  destruct (write_all_ok c b m Hc) as (c' & Hw). unfold try_write.
  destruct (Z.leb_spec (zlen bs + zlen b) (available c0)), (Z.leb_spec (zlen b) (available c)); try lia;
    destruct Hw as [Hw (Hc' & Hcells' & Hcons')].
  - exists c', (store_cells (chain_cells c) b m). split; [|by rewrite (M_bind_Ok _ _ _ _ _ Hw)].
    rewrite <- (zlen_app bs b) in *. split; [done|]. split; [|by apply Hk2]. split; [done|]. split.
    + rewrite Hcells', Hcells, drop_drop. f_equal. unfold zlen. rewrite length_app. lia.
    + rewrite Hcons', Hcons, zlen_app. lia.
  - exists (store_cells (chain_cells c) b m). split; [done|]. by rewrite (M_bind_Ok _ _ _ _ _ Hw).
Qed.

(** Several pieces, one after the other. *)
Fixpoint try_writes {A} (c : DescriptorChainConsumer T) (bss : list (list Z))
    (k : DescriptorChainConsumer T → M mem (io_error + A)) : M mem (io_error + A) :=
  match bss with
  | [] => k c
  | b :: bss => try_write c b (λ c, try_writes c bss k)
  end.

Lemma try_writes_run {A} bss bs c m (k : DescriptorChainConsumer T → M mem (io_error + A)) : holds bs c m →
  if zlen bs + zlen (concat bss) <=? available c0
  then ∃ c' m', holds (bs ++ concat bss) c' m' ∧ try_writes c bss k m = k c' m'
  else ∃ m', kept bs m' ∧ try_writes c bss k m = Ok (inl WriteZero, m').
Proof.
  revert bs c m. induction bss as [|b bss IH]; intros bs c m Hh; cbn [concat try_writes].
  - change (zlen (@nil Z)) with 0. rewrite app_nil_r, (proj2 (Z.leb_le _ _)) by (destruct Hh; lia). by exists c, m.
  - rewrite zlen_app, app_assoc. pose proof (zlen_nonneg (concat bss)).
    pose proof (try_write_run bs b c m (λ c, try_writes c bss k) Hh) as Hw.
    destruct (Z.leb_spec (zlen bs + zlen b) (available c0)).
    + destruct Hw as (c1 & m1 & Hh1 & ->). specialize (IH _ _ _ Hh1). rewrite zlen_app in IH.
      replace (zlen bs + (zlen b + zlen (concat bss))) with (zlen bs + zlen b + zlen (concat bss)) by lia.
      destruct (zlen bs + zlen b + zlen (concat bss) <=? available c0); [done|].
      destruct IH as (m2 & Hk & ->). exists m2. split; [by eapply kept_prefix | done].
    + rewrite (proj2 (Z.leb_gt _ _)) by lia. done.
Qed.

(** An entry: it does not fit the size, or it is written, or the chain is too
    short for it. *)
Lemma add_dirent_run bs c m max d e : holds bs c m → zlen (de_name d) ≤ UINT32_MAX →
  let b := entry_bytes d e in
  if max <? zlen b then add_dirent c max d e m = Ok (inr (0, c), m)
  else if zlen bs + zlen b <=? available c0
    then ∃ c' m', holds (bs ++ b) c' m' ∧ add_dirent c max d e m = Ok (inr (zlen b, c'), m')
    else ∃ m', kept bs m' ∧ add_dirent c max d e m = Ok (inl WriteZero, m').
Proof.
  intros Hh Hn b. pose proof (zlen_nonneg (de_name d)) as H0. pose proof (zlen_entry_bytes d e) as Hb. fold b in Hb.
  pose proof (align8_range (sizeof Dirent + zlen (de_name d))) as Ha. assert (sizeof Dirent = 24) as HS by done.
  assert (sizeof EntryOut = 128) as HE by done. unfold UINT32_MAX in Hn.
  unfold add_dirent, UINT32_MAX. rewrite !land_align8. fold (dirent_pad d).
  rewrite (proj2 (Z.ltb_ge (2 ^ 32 - 1) _)), !(proj2 (Z.leb_gt (2 ^ 64) _)) by (destruct e; lia).
  rewrite <- Hb. destruct (Z.ltb_spec max (zlen b)); [done|].
  assert (u32 (zlen (de_name d)) = zlen (de_name d)) as -> by (apply Z.mod_small; lia). fold (dirent_of d).
  set (bss := match e with Some e => [bytes_of (entry_out e)] | None => [] end ++ [bytes_of (dirent_of d); de_name d] ++
    (if 0 <? dirent_pad d then [take (Z.to_nat (dirent_pad d)) DIRENT_PADDING] else [])).
  match goal with |- context [(match e with Some _ => _ | None => _ end) m] =>
    set (prog := match e with Some _ => _ | None => _ end) end.
  assert (prog = try_writes c bss (λ c, ret (inr (zlen b, c)))) as -> by by destruct e; unfold prog, bss; destruct (0 <? dirent_pad d).
  assert (concat bss = b) as <-.
  { unfold bss, b, entry_bytes, dirent_bytes. rewrite !concat_app. f_equal; [destruct e; [apply app_nil_r | done]|].
    cbn [concat]. rewrite <- !app_assoc. do 2 f_equal. fold (dirent_pad d) in *. unfold dirent_pad in *.
    destruct (Z.ltb_spec 0 (align8 (sizeof Dirent + zlen (de_name d)) - (sizeof Dirent + zlen (de_name d)))).
    - cbn [concat]. rewrite app_nil_r. unfold DIRENT_PADDING. rewrite take_replicate. cbn [app]. f_equal. lia.
    - by replace (_ - _) with 0 by lia. }
  apply try_writes_run. done.
Qed.

(** *** The loops *)

Lemma readdir_entries_run size ds : size ≤ available c0 → Forall (λ d, zlen (de_name d) ≤ UINT32_MAX) ds →
  ∀ fuel rd bs c m, holds bs c m → zlen bs ≤ size → rd_ok rd → host_dirents (rd_rest rd) ds → remaining rd < Z.of_nat fuel →
  ∃ n m', let bs' := bs ++ concat (map dirent_bytes (take n ds)) in (n ≤ length ds)%nat ∧
    readdir_entries fuel c rd size (zlen bs) m = Ok (inr (zlen bs'), m') ∧ kept bs' m' ∧ zlen bs' ≤ size ∧
    ∀ d, ds !! n = Some d → size < zlen bs' + zlen (dirent_bytes d).
Proof.
  intros Hsize. induction ds as [|d ds IH]; intros Hds fuel rd bs c m Hh Hbs Hrd Hhost Hfuel;
    (destruct fuel as [|fuel]; [unfold remaining in Hfuel; lia|]); cbn [readdir_entries].
  - exists 0%nat, m. cbn. rewrite app_nil_r. erewrite M_bind_Ok by (unfold lift; by rewrite (next_none rd Hrd Hhost)).
    destruct Hh as (? & ? & ?). done.
  - apply Forall_cons in Hds as [Hd Hds]. destruct (next_some rd d ds Hrd Hhost) as (rd' & Hnext & Hrd' & Hhost' & Hlt).
    erewrite M_bind_Ok by (unfold lift; by rewrite Hnext). cbn match.
    pose proof (add_dirent_run bs c m (0 `max` (size - zlen bs)) d None Hh Hd) as Ha. cbn zeta in Ha.
    change (entry_bytes d None) with (dirent_bytes d) in Ha. pose proof (zlen_nonneg (dirent_bytes d)).
    pose proof (zlen_dirent_bytes d). pose proof (align8_range (sizeof Dirent + zlen (de_name d))).
    pose proof (zlen_nonneg (de_name d)). assert (sizeof Dirent = 24) by done.
    destruct (Z.ltb_spec (0 `max` (size - zlen bs)) (zlen (dirent_bytes d))).
    + exists 0%nat, m. cbn zeta. rewrite app_nil_r. erewrite M_bind_Ok by exact Ha. split; [lia|]. split; [done|].
      destruct Hh as (? & ? & ?). split_and!; [done | done|]. intros d' [= <-]. lia.
    + rewrite (proj2 (Z.leb_le _ _)) in Ha by lia. destruct Ha as (c' & m1 & Hh1 & Ha). erewrite M_bind_Ok by exact Ha. cbn match.
      rewrite (proj2 (Z.eqb_neq _ _)), <- zlen_app by lia.
      destruct (IH Hds fuel rd' (bs ++ dirent_bytes d) c' m1) as (n & m2 & Hn & Hrun & Hk & Hle & Hstop);
        [done | rewrite zlen_app; lia | done | done | lia|].
      exists (S n), m2. cbn [take map concat]. rewrite <- app_assoc in Hrun, Hk, Hle, Hstop. split_and!; [cbn; lia | done..].
Qed.

(** *** Lookup counts *)

Section plus_loop.
Context (fs_lookup : list fs_event → list Z → io_error + Entry).

(** The entry of [d] in a reply: not a file for [.] and [..], and what a
    lookup of the name found otherwise. *)
Definition found (d : DirEntry) (e : Entry) : Prop :=
  (de_name d = cstr "." ∨ de_name d = cstr "..") ∧ en_inode e = 0 ∧ struct_ok (entry_out e) ∨
  ∃ log, fs_lookup log (de_name d) = inr e.

Lemma handle_dirent_run d s : entry_ok d →
  (∃ e, handle_dirent fs_lookup d s = Ok (inl e, s)) ∨
  ∃ e log, handle_dirent fs_lookup d s = Ok (inr e, mk_plus (ps_mem s) log) ∧ found d e ∧
    ∀ i, i ≠ 0 → net i log = net i (ps_log s) + (if en_inode e =? i then 1 else 0).
Proof.
  intros Hd. unfold handle_dirent, found. destruct s as [m log]. cbn [ps_mem ps_log].
  destruct (bool_decide (de_name d = cstr ".") || bool_decide (de_name d = cstr "..")) eqn:Edot.
  - right. eexists _, log. split; [done|]. split.
    + left. split; [|split; [done|]].
      * apply orb_true_iff in Edot as [?%bool_decide_eq_true|?%bool_decide_eq_true]; auto.
      * split; [done|]. destruct Hd as [_ Hd]. cbn in Hd. apply Forall2_cons in Hd as [Hi _].
        repeat (apply Forall2_cons; split); [..|by apply Forall2_nil]; try done; try (split; cbn; lia).
        unfold in_width. cbn. unfold u32. split; [apply Z.mod_pos_bound; lia | apply Z.mod_pos_bound; lia].
    + intros i Hi. cbn [en_inode]. rewrite (proj2 (Z.eqb_neq 0 i)) by done. lia.
  - destruct (fs_lookup log (de_name d)) as [e|e] eqn:El; [left; by exists e | right].
    exists e, (log ++ [Lookup (en_inode e)]). split; [done|]. split; [right; by exists log|].
    intros i Hi. rewrite net_app. cbn. lia.
Qed.

(** What the loop does from a state where [bs] is written and the entries
    [ds] are left: some of them are written, for these and no others a lookup
    remains, and an error is returned only if nothing was written. *)
Definition plus_post (size : Z) (bs : list Z) (ds : list DirEntry) (s : plus_state)
    (res : outcome ((io_error + Z) * plus_state)) : Prop :=
  ∃ es r s', let bs' := bs ++ plus_bytes (take (length es) ds) es in
    res = Ok (r, s') ∧ Forall2 found (take (length es) ds) es ∧ kept bs' (ps_mem s') ∧ zlen bs' ≤ size ∧
    (r = inr (zlen bs') ∨ bs' = [] ∧ ∃ e, r = inl e) ∧
    ∀ i, i ≠ 0 → net i (ps_log s') = net i (ps_log s) + held i es.

Lemma plus_stop size bs ds s (r : io_error + Z) s' : zlen bs ≤ size → kept bs (ps_mem s') →
  (r = inr (zlen bs) ∨ ∃ e, r = if zlen bs =? 0 then inl e else inr (zlen bs)) →
  (∀ i, i ≠ 0 → net i (ps_log s') = net i (ps_log s)) → plus_post size bs ds s (Ok (r, s')).
Proof.
  intros Hbs Hk Hr Hnet. exists [], r, s'. cbn. rewrite app_nil_r. split_and!; try done.
  - destruct Hr as [->|[e ->]]; [by left|]. destruct (Z.eqb_spec (zlen bs) 0); [|by left]. right. split; [by destruct bs | by exists e].
  - intros i Hi. rewrite Hnet by done. lia.
Qed.

Lemma plus_step size bs d ds s e s1 res : found d e →
  (∀ i, i ≠ 0 → net i (ps_log s1) = net i (ps_log s) + (if en_inode e =? i then 1 else 0)) →
  plus_post size (bs ++ entry_bytes d (Some e)) ds s1 res → plus_post size bs (d :: ds) s res.
Proof.
  intros Hf Hnet (es & r & s' & -> & Hfs & Hrest). exists (e :: es), r, s'. cbn zeta in Hrest. rewrite <- app_assoc in Hrest.
  destruct Hrest as (Hk & Hle & Hr & Hn). split; [done|]. split; [by constructor|]. split; [exact Hk|]. split; [exact Hle|].
  split; [exact Hr|]. intros i Hi. rewrite Hn, Hnet by done. unfold held. cbn [foldr]. lia.
Qed.

Lemma readdirplus_entries_run size ds : Forall entry_ok ds →
  ∀ fuel rd bs c s, holds bs c (ps_mem s) → zlen bs ≤ size → rd_ok rd → host_dirents (rd_rest rd) ds →
    remaining rd < Z.of_nat fuel →
  plus_post size bs ds s (readdirplus_entries fs_lookup fuel c rd size (zlen bs) s).
Proof.
  induction ds as [|d ds IH]; intros Hds fuel rd bs c s Hh Hbs Hrd Hhost Hfuel;
    (destruct fuel as [|fuel]; [unfold remaining in Hfuel; lia|]); cbn [readdirplus_entries]; pose proof Hh as (_ & _ & Hk).
  - erewrite M_bind_Ok by (unfold lift; by rewrite (next_none rd Hrd Hhost)). apply plus_stop; auto.
  - apply Forall_cons in Hds as [Hd Hds]. destruct (next_some rd d ds Hrd Hhost) as (rd' & Hnext & Hrd' & Hhost' & Hlt).
    erewrite M_bind_Ok by (unfold lift; by rewrite Hnext). cbn match.
    destruct (handle_dirent_run d s Hd) as [[e He]|(e & log & He & Hf & Hnet)]; erewrite M_bind_Ok by exact He; cbn match.
    { apply plus_stop; eauto. }
    assert (∀ i, i ≠ 0 → net i (log ++ [Forget (en_inode e)]) = net i (ps_log s)) as Hback.
    { intros i Hi. rewrite net_app, Hnet by done. unfold net. cbn. destruct (en_inode e =? i); lia. }
    pose proof (add_dirent_run bs c (ps_mem s) (0 `max` (size - zlen bs)) d (Some e) Hh (entry_name_short d Hd)) as Ha. cbn zeta in Ha.
    pose proof (zlen_entry_pos d (Some e)). destruct (Z.ltb_spec (0 `max` (size - zlen bs)) (zlen (entry_bytes d (Some e)))).
    + erewrite M_bind_Ok by (unfold on_mem; cbn [ps_mem]; by rewrite Ha). cbn. apply plus_stop; auto.
    + destruct (Z.leb_spec (zlen bs + zlen (entry_bytes d (Some e))) (available c0)).
      * destruct Ha as (c' & m1 & Hh1 & Ha). erewrite M_bind_Ok by (unfold on_mem; cbn [ps_mem]; by rewrite Ha). cbn match.
        rewrite (proj2 (Z.eqb_neq _ _)), <- zlen_app by lia. cbn [ps_log].
        eapply (plus_step _ _ _ _ _ e (mk_plus m1 log)); [done | done|]. apply IH; try done; [rewrite zlen_app; lia | lia].
      * destruct Ha as (m1 & Hk1 & Ha). erewrite M_bind_Ok by (unfold on_mem; cbn [ps_mem]; by rewrite Ha). cbn.
        apply plus_stop; eauto.
Qed.
End plus_loop.
End writing.

Lemma in_width_le w w' v : (w ≤ w')%nat → in_width w v → in_width w' v.
Proof. intros Hw [H0 H]. split; [done|]. pose proof (Z.pow_le_mono_r 256 (Z.of_nat w) (Z.of_nat w')). lia. Qed.

Lemma host_entries_ok bs ds : host_dirents bs ds → Forall entry_ok ds.
Proof.
  induction 1 as [|d pad bs ds h [_ Hs] Hn _ IH]; constructor; [|done]. split; [done|]. cbn in Hs |- *.
  apply Forall2_cons in Hs as [H1 Hs]. apply Forall2_cons in Hs as [H2 Hs]. apply Forall2_cons in Hs as [[_ H3] Hs].
  apply Forall2_cons in Hs as [H4 _]. repeat (apply Forall2_cons; split); try done.
  - pose proof (zlen_nonneg (de_name d)). pose proof (zlen_nonneg pad). assert (sizeof LinuxDirent64 = 19) by done.
    change (256 ^ Z.of_nat 2) with 65536 in H3. split; [done|]. change (256 ^ Z.of_nat 4) with (2 ^ 32). lia.
  - by apply (in_width_le 1); [lia|].
Qed.

(** ** The handlers *)

Section handlers.
Context {T E : Type} `{VS : VolatileSlice T E} {VL : VolatileSliceLaws T E}.
Implicit Types (w : DescriptorChainConsumer T).

(** The reply is a header and the data [bs], and no other memory changed. *)
Definition replied w (m m' : mem) (hd : OutHeader) (bs : list Z) : Prop :=
  let l := chain_cells w in
  map m' (take (Z.to_nat (sizeof OutHeader)) l) = bytes_of hd ∧
  map m' (take (length bs) (drop (Z.to_nat (sizeof OutHeader)) l)) = bs ∧ ∀ a, (a ∉ l) → m' a = m a.

Lemma header_written w w1 w2 bs m0 m (hd : OutHeader) : NoDup (chain_cells w) → sizeof OutHeader ≤ available w →
  halves w (sizeof OutHeader) w1 w2 → kept w2 m0 bs m →
  replied w m0 (store_cells (chain_cells w1) (bytes_of hd) m) hd bs.
Proof.
  intros Hnd Hav (E1 & E2 & _) [Hk Ho]. unfold replied. cbn zeta. set (l := chain_cells w) in *. set (n := Z.to_nat (sizeof OutHeader)) in *.
  assert (length (bytes_of hd) = n) as Hb by (pose proof (zlen_struct hd eq_refl) as Hz; unfold zlen in Hz; unfold n; lia).
  assert (length (take n l) = n) as Hn by (rewrite length_take; unfold available, zlen in Hav; fold l in Hav; unfold n; lia).
  rewrite E1, E2 in *. pose proof Hnd as Hnd'. rewrite <- (take_drop n l) in Hnd'. apply NoDup_app in Hnd' as (Hnd1 & Hdis & _).
  split_and!.
  - pose proof (store_cells_read (take n l) (bytes_of hd) m Hnd1 ltac:(lia)) as Hr. by rewrite Hb, take_take, Nat.min_id in Hr.
  - rewrite map_store_other; [done|]. intros a Ha%take_in Hin%take_in. by apply (Hdis a).
  - intros a Ha. rewrite store_cells_other; [apply Ho|]; intros Hin; apply Ha; rewrite <- (take_drop n l); apply elem_of_app;
      [by right | left; by apply take_in in Hin].
Qed.

Section replies.
Context (w1 : DescriptorChainConsumer T) (Hw1 : chain_ok w1) (Hav : available w1 = sizeof OutHeader).

Lemma header_run {A} (hd : OutHeader) m (k : DescriptorChainConsumer T → M mem (io_error + A)) :
  ∃ w', bytes_consumed w' = bytes_consumed w1 + sizeof OutHeader ∧
    try_write w1 (bytes_of hd) k m = k w' (store_cells (chain_cells w1) (bytes_of hd) m).
Proof.
  destruct (write_all_ok w1 (bytes_of hd) m Hw1) as (w' & Hw). pose proof (zlen_struct hd eq_refl) as Hz.
  rewrite Hz, (proj2 (Z.leb_le _ _)) in Hw by lia. destruct Hw as [Hw (_ & _ & Hc)].
  exists w'. split; [done|]. unfold try_write. by rewrite (M_bind_Ok _ _ _ _ _ Hw).
Qed.

Lemma reply_readdir_run n unique m : 0 ≤ n ≤ MAX_BUFFER_SIZE →
  let hd := mk_OutHeader (sizeof OutHeader + n) 0 unique in
  reply_readdir n unique w1 m = Ok (inr (sizeof OutHeader + n), store_cells (chain_cells w1) (bytes_of hd) m).
Proof.
  intros Hn hd. unfold reply_readdir. assert (u32 (sizeof OutHeader + n) = sizeof OutHeader + n) as ->.
  { apply Z.mod_small. change (sizeof OutHeader) with 16. change MAX_BUFFER_SIZE with 1048576 in Hn. lia. }
  fold hd. destruct (header_run hd m (λ _, ret (inr (oh_len hd)))) as (w' & _ & Hr). by rewrite (M_bind_Ok _ _ _ _ _ Hr).
Qed.

Lemma reply_error_run e unique m : bytes_consumed w1 = 0 →
  let hd := mk_OutHeader (sizeof OutHeader) (u32 (- default FUSE_EIO (raw_os_error e))) unique in
  reply_error e unique w1 m = Ok (inr (sizeof OutHeader), store_cells (chain_cells w1) (bytes_of hd) m).
Proof.
  intros H0 hd. unfold reply_error. fold hd.
  destruct (header_run hd m (λ w, massert (sizeof OutHeader =? bytes_consumed w) ;;; ret (inr (bytes_consumed w)))) as (w' & Hc & Hr).
  rewrite H0, Z.add_0_l in Hc. rewrite Hc, Z.eqb_refl in Hr. by rewrite (M_bind_Ok _ _ _ _ _ Hr).
Qed.
End replies.

(** A request with a buffer of its size and a writer with room for it. *)
Record request (r w : DescriptorChainConsumer T) (ri : ReadIn) (m : mem) : Prop := mk_request {
  rq_reader : chain_ok r;
  rq_avail : sizeof ReadIn ≤ available r;
  rq_in : struct_ok ri;
  rq_bytes : map m (take (Z.to_nat (sizeof ReadIn)) (chain_cells r)) = bytes_of ri;
  rq_writer : chain_ok w;
  rq_fresh : bytes_consumed w = 0;
  rq_distinct : NoDup (chain_cells w);
  rq_header : sizeof OutHeader ≤ available w;
  rq_max : ri_size ri ≤ MAX_BUFFER_SIZE;
  rq_room : ri_size ri ≤ available w
}.

Lemma request_split r w ri m : request r w ri m → ∃ r' w1 w2,
  read_obj r m = Ok (inr ri, r', m) ∧ available_bytes w = Ok (available w) ∧ 0 ≤ ri_size ri ∧
  split_at w (sizeof OutHeader) = Ok (w1, inr w2) ∧ halves w (sizeof OutHeader) w1 w2 ∧ chain_ok w1 ∧ chain_ok w2 ∧
  available w1 = sizeof OutHeader ∧ bytes_consumed w1 = 0 ∧ available w2 = available w - sizeof OutHeader ∧ NoDup (chain_cells w2).
Proof.
  intros [Hr Hra Hi Hb Hw Hf Hnd Hh _ _]. destruct (read_obj_ok r ri m Hr Hra Hi Hb) as (r' & Hro & _).
  assert (sizeof OutHeader = 16) as HS by done.
  assert (0 ≤ sizeof OutHeader) as H0 by lia. pose proof (split_at_ok w (sizeof OutHeader) Hw H0) as Hs. rewrite (proj2 (Z.leb_le _ _) Hh) in Hs.
  destruct Hs as (w1 & w2 & Hs & Hhv). destruct (halves_ok _ _ _ _ Hw Hhv) as [Hw1 Hw2]. pose proof Hhv as (E1 & E2 & E3 & _).
  exists r', w1, w2. unfold available, zlen in *. rewrite E1, E2, length_take, length_drop, E3. split_and!; try done; try lia.
  - by apply available_bytes_ok.
  - destruct Hi as [_ Hi]. cbn in Hi. do 2 apply Forall2_cons in Hi as [_ Hi]. by apply Forall2_cons in Hi as [[? _] _].
  - rewrite <- (take_drop (Z.to_nat (sizeof OutHeader)) (chain_cells w)) in Hnd. by apply NoDup_app in Hnd as (_ & _ & Hnd).
Qed.

(** ** Properties *)

(** C7: A listing arrives as the host has it.  On a request of an admissible
    size with room for it, [readdir] does not stop; it writes a header with
    the length of the reply and the unique number of the request, and data
    from which the guest takes a prefix of the entries of the directory, in
    order and with their inode numbers, offsets, types and names.  Only an
    entry for which the size has no room ends the listing early, and no other
    memory of the guest changes. *)
Theorem readdir_reply (r w : DescriptorChainConsumer T) (ri : ReadIn) (m : mem) (fs_readdir : Z → Z → Z → io_error + ReadDir)
    (unique : Z) (rd : ReadDir) (ds : list DirEntry) :
  request r w ri m → sizeof OutHeader + ri_size ri ≤ available w →
  fs_readdir (ri_fh ri) (ri_size ri) (ri_offset ri) = inr rd → rd_ok rd → host_dirents (rd_rest rd) ds →
  ∃ n bs m', readdir fs_readdir unique r w m = Ok (inr (sizeof OutHeader + zlen bs), m') ∧
    replied w m m' (mk_OutHeader (sizeof OutHeader + zlen bs) 0 unique) bs ∧
    parse_dirents (S (length bs)) bs = take n ds ∧ zlen bs ≤ ri_size ri ∧
    ∀ d, ds !! n = Some d → ri_size ri < zlen bs + zlen (dirent_bytes d).
Proof.
  intros Hrq Hroom Hfs Hrd Hhost. pose proof (host_entries_ok _ _ Hhost) as Hds.
  destruct (request_split r w ri m Hrq) as (r' & w1 & w2 & Hro & Havb & Hs0 & Hsp & Hhv & Hw1 & Hw2 & Ha1 & _ & Ha2 & Hnd2).
  destruct Hrq as [_ _ _ _ _ _ Hnd Hh Hmax Hav].
  destruct (readdir_entries_run w2 Hnd2 m (ri_size ri) ds ltac:(lia)) with (fuel := S (Z.to_nat (remaining rd))) (rd := rd)
    (bs := @nil Z) (c := w2) (m := m) as (n & m1 & Hn & Hrun & Hk & Hle & Hstop);
    [eapply Forall_impl; [exact Hds | apply entry_name_short] | by apply holds_nil | done | done | done | lia|].
  cbn [app] in *. set (bs := concat (map dirent_bytes (take n ds))) in *.
  exists n, bs, (store_cells (chain_cells w1) (bytes_of (mk_OutHeader (sizeof OutHeader + zlen bs) 0 unique)) m1). split_and!.
  - unfold readdir. rewrite (M_bind_Ok _ _ _ _ _ Hro). cbn match. rewrite (proj2 (Z.ltb_ge _ _) Hmax).
    erewrite M_bind_Ok by (unfold lift; by rewrite Havb). rewrite (proj2 (Z.ltb_ge _ _) Hav).
    erewrite M_bind_Ok by (unfold lift; by rewrite Hsp). cbn match. rewrite Hfs. erewrite M_bind_Ok by exact Hrun. cbn match.
    apply reply_readdir_run; [done | done|]. pose proof (zlen_nonneg bs). lia.
  - by eapply header_written.
  - apply parse_dirents_bytes; [by apply Forall_take|]. unfold bs. rewrite <- (length_map dirent_bytes (take n ds)).
    apply Nat.lt_succ_r, concat_long, Forall_map, Forall_true. intros d. apply (zlen_entry_pos d None).
  - done.
  - done.
Qed.

(** C6: The lookup counts of the guest and of the server agree.  On a request
    of an admissible size, [readdirplus] does not stop; its reply is a header
    and data from which the guest takes the entries of a prefix of the
    directory, each with what its lookup found; and for every inode, the
    lookups the call made less those it took back are the entries of the
    reply for it.  The reply is an error only when it has no entries. *)
Theorem readdirplus_counts (r w : DescriptorChainConsumer T) (ri : ReadIn) (s : plus_state)
    (fs_lookup : list fs_event → list Z → io_error + Entry) (fs_readdir : Z → Z → Z → io_error + ReadDir)
    (unique : Z) (rd : ReadDir) (ds : list DirEntry) :
  request r w ri (ps_mem s) → (∀ log name e, fs_lookup log name = inr e → struct_ok (entry_out e)) →
  fs_readdir (ri_fh ri) (ri_size ri) (ri_offset ri) = inr rd → rd_ok rd → host_dirents (rd_rest rd) ds →
  ∃ es bs hd s', readdirplus fs_lookup fs_readdir unique r w s = Ok (inr (oh_len hd), s') ∧
    replied w (ps_mem s) (ps_mem s') hd bs ∧ oh_len hd = sizeof OutHeader + zlen bs ∧ oh_unique hd = unique ∧
    (oh_error hd = 0 ∨ es = []) ∧ zlen bs ≤ ri_size ri ∧
    parse_direntplus (S (length bs)) bs = zip (map entry_out es) (take (length es) ds) ∧
    Forall2 (found fs_lookup) (take (length es) ds) es ∧
    ∀ i, i ≠ 0 → net i (ps_log s') = net i (ps_log s) + held i es.
Proof.
  intros Hrq Hlk Hfs Hrd Hhost. pose proof (host_entries_ok _ _ Hhost) as Hds.
  destruct (request_split r w ri _ Hrq) as (r' & w1 & w2 & Hro & Havb & Hs0 & Hsp & Hhv & Hw1 & Hw2 & Ha1 & Hb1 & Ha2 & Hnd2).
  destruct Hrq as [_ _ _ _ _ _ Hnd Hh Hmax Hav].
  destruct (readdirplus_entries_run w2 Hnd2 (ps_mem s) fs_lookup (ri_size ri) ds Hds (S (Z.to_nat (remaining rd))) rd
    (@nil Z) w2 s) as (es & q & s1 & Hrun & Hf & Hk & Hle & Hq & Hnet); [by apply holds_nil | done | done | done | lia|].
  cbn [app] in *. set (bs := plus_bytes (take (length es) ds) es) in *. pose proof (zlen_nonneg bs).
  assert (Forall (λ e, struct_ok (entry_out e)) es) as Hes.
  { eapply Forall2_Forall_r; [exact Hf|]. apply Forall_true. intros d e [(_ & _ & He)|[log He]]; [done | by eapply Hlk]. }
  assert (length es = length (take (length es) ds)) as Hlen by (symmetry; by eapply Forall2_length).
  assert (parse_direntplus (S (length bs)) bs = zip (map entry_out es) (take (length es) ds)) as Hparse.
  { apply parse_plus_bytes; [by apply Forall_take | done | done|]. apply Nat.lt_succ_r, plus_long. lia. }
  assert (∃ hd, (match q with inr n => reply_readdir n unique w1 | inl e => reply_error e unique w1 end) (ps_mem s1) =
      Ok (inr (oh_len hd), store_cells (chain_cells w1) (bytes_of hd) (ps_mem s1)) ∧
    oh_len hd = sizeof OutHeader + zlen bs ∧ oh_unique hd = unique ∧ (oh_error hd = 0 ∨ es = [])) as (hd & Hreply & Hl & Hu & He).
  { destruct Hq as [->|[Hbs [e ->]]].
    - exists (mk_OutHeader (sizeof OutHeader + zlen bs) 0 unique). split; [apply reply_readdir_run; [done | done | lia] | by auto].
    - exists (mk_OutHeader (sizeof OutHeader) (u32 (- default FUSE_EIO (raw_os_error e))) unique).
      split; [by apply reply_error_run|]. rewrite Hbs. split_and!; [done | done|]. right.
      pose proof (plus_long (take (length es) ds) es Hlen) as Hp. fold bs in Hp. rewrite Hbs in Hp. cbn in Hp.
      destruct es; [done | cbn in *; lia]. }
  exists es, bs, hd, (mk_plus (store_cells (chain_cells w1) (bytes_of hd) (ps_mem s1)) (ps_log s1)).
  split; [|split_and!; try done; by eapply header_written].
  unfold readdirplus. erewrite M_bind_Ok by (unfold on_mem; by rewrite Hro). cbn match. rewrite (proj2 (Z.ltb_ge _ _) Hmax).
  replace (mk_plus (ps_mem s) (ps_log s)) with s by by destruct s.
  erewrite M_bind_Ok by (unfold lift; by rewrite Havb). rewrite (proj2 (Z.ltb_ge _ _) Hav).
  erewrite M_bind_Ok by (unfold lift; by rewrite Hsp). cbn match. rewrite Hfs. erewrite M_bind_Ok by exact Hrun.
  unfold on_mem. by rewrite Hreply.
Qed.
End handlers.

(** ** An example: a directory with [.] and [ab] *)

#[local] Existing Instance test_slice.
#[local] Existing Instance test_slice_laws.

Definition test_entries : list DirEntry := [mk_DirEntry 5 1 4 (cstr "."); mk_DirEntry 9 2 8 (cstr "ab")].
Definition test_record (d : DirEntry) : list Z :=
  bytes_of (mk_LinuxDirent64 (de_ino d) (de_offset d) 24 (de_type d)) ++ de_name d ++ replicate (5 - length (de_name d)) 0.
Definition test_rd : ReadDir := mk_ReadDir (concat (map test_record test_entries) ++ replicate 80 0) 0 48.

Definition test_in : ReadIn := mk_ReadIn 1 0 400 0 0 0 0.
Definition test_mem : mem := λ a, nth (Z.to_nat a) (bytes_of test_in) 0.
Definition test_reader : DescriptorChainConsumer (Z * Z) := mk_consumer [(0, 10); (10, 30)] 0.
Definition test_writer (n : Z) : DescriptorChainConsumer (Z * Z) := mk_consumer [(100, 20); (200, n)] 0.

Lemma test_host : rd_ok test_rd ∧ host_dirents (rd_rest test_rd) test_entries.
Proof.
  split; [split; [split|]; vm_compute; discriminate|].
  set (d1 := mk_DirEntry 5 1 4 (cstr ".")). set (d2 := mk_DirEntry 9 2 8 (cstr "ab")).
  assert (host_dirents (test_record d2) [d2]) as H2.
  { apply (host_cons d2 [0; 0] [] []); [split; [done|] | apply (bool_decide_unpack _); vm_compute; exact I | constructor].
    repeat constructor; vm_compute; (reflexivity || discriminate). }
  apply (host_cons d1 [0; 0; 0] (test_record d2) [d2]); [split; [done|] | apply (bool_decide_unpack _); vm_compute; exact I | done].
  repeat constructor; vm_compute; (reflexivity || discriminate).
Qed.

Lemma test_request n : 400 ≤ n < 2 ^ 32 → request test_reader (test_writer n) test_in test_mem.
Proof.
  intros Hn. assert (n mod 2 ^ 64 = n) as Hm by (apply Z.mod_small; lia).
  assert (chain_cells (test_writer n) = seqZ 100 20 ++ seqZ 200 n) as Hc.
  { unfold chain_cells, cells_of, cells. cbn [test_writer buffers map concat len as_ptr test_slice fst snd]. by rewrite Hm, app_nil_r. }
  assert (available (test_writer n) = 20 + n) as Ha.
  { unfold available, zlen. rewrite Hc, length_app, !length_seqZ. lia. }
  split.
  - split; vm_compute; [discriminate | reflexivity].
  - vm_compute. discriminate.
  - split; [exact I|]. repeat constructor; vm_compute; (reflexivity || discriminate).
  - vm_compute. reflexivity.
  - split; [done|]. rewrite Ha. cbn [test_writer bytes_consumed]. lia.
  - reflexivity.
  - rewrite Hc. apply NoDup_app. split; [apply NoDup_seqZ|]. split; [|apply NoDup_seqZ].
    intros a Ha1%elem_of_seqZ Ha2%elem_of_seqZ. lia.
  - rewrite Ha. change (sizeof OutHeader) with 16. lia.
  - vm_compute. discriminate.
  - rewrite Ha. cbn [test_in ri_size]. lia.
Qed.

Lemma readdir_reply_witness : ∃ n bs m',
  readdir (λ _ _ _, inr test_rd) 7 test_reader (test_writer 400) test_mem = Ok (inr (sizeof OutHeader + zlen bs), m') ∧
  parse_dirents (S (length bs)) bs = take n test_entries.
Proof.
  destruct test_host as [Hok Hh].
  destruct (readdir_reply test_reader (test_writer 400) test_in test_mem (λ _ _ _, inr test_rd) 7 test_rd test_entries)
    as (n & bs & m' & Hrun & _ & Hp & _).
  - apply test_request. lia.
  - vm_compute. discriminate.
  - reflexivity.
  - exact Hok.
  - exact Hh.
  - exists n, bs, m'. split; [exact Hrun | exact Hp].
Defined.

Definition test_lookup (log : list fs_event) (name : list Z) : io_error + Entry :=
  inr (mk_Entry 3 0 (mk_stat64 9 0 0 0 0 0 0 0 0 33188 1 0 0 0 4096) 0 (1, 0) (1, 0)).

Lemma readdirplus_counts_witness : ∃ es bs hd s',
  readdirplus test_lookup (λ _ _ _, inr test_rd) 7 test_reader (test_writer 400) (mk_plus test_mem []) =
    Ok (inr (oh_len hd), s') ∧
  parse_direntplus (S (length bs)) bs = zip (map entry_out es) (take (length es) test_entries) ∧
  net 3 (ps_log s') = held 3 es ∧ held 3 es = 1.
Proof.
  destruct test_host as [Hok Hh].
  destruct (readdirplus_counts test_reader (test_writer 400) test_in (mk_plus test_mem []) test_lookup
    (λ _ _ _, inr test_rd) 7 test_rd test_entries) as (es & bs & hd & s' & Hrun & _ & _ & _ & _ & _ & Hp & _ & Hn).
  - apply test_request. lia.
  - intros log name e [= <-]. split; [exact I|]. repeat constructor; vm_compute; (reflexivity || discriminate).
  - reflexivity.
  - exact Hok.
  - exact Hh.
  - exists es, bs, hd, s'. split; [exact Hrun|]. split; [exact Hp|]. specialize (Hn 3 ltac:(discriminate)).
    split; [exact Hn|]. cbn [ps_log net] in Hn. rewrite Z.add_0_l in Hn. rewrite <- Hn.
    apply (f_equal (λ o, match o with Ok (_, s) => net 3 (ps_log s) | _ => 0 end)) in Hrun. rewrite <- Hrun. vm_compute. reflexivity.
Defined.

(** The check of the room does not count the header: a reply buffer shorter
    than the header stops the server. *)
Lemma readdir_short_buffer_stops :
  readdir (λ _ _ _, inr ReadDir_default) 7 (mk_consumer [(0, 40)] 0) (mk_consumer [(100, 8)] 0)
    (λ a, nth (Z.to_nat a) (bytes_of (mk_ReadIn 1 0 8 0 0 0 0)) 0) = Fault AssertFail.
Proof. vm_compute. reflexivity. Qed.
