(* ===== verification/FuseExt.v ===== *)
(** * Extensions of a FUSE request

    [get_extensions] of [kfsd/src/server.rs]: the security context and the
    supplementary group a guest sends after the names of a request that makes
    a file. *)

From S2P Require Import Prelude Chain FuseDir.
From stdpp Require Import base numbers list list_numbers strings.
From Stdlib Require Import ZArith Lia.

Open Scope Z_scope.
Open Scope kfs_scope.

(** ** Structures *)

Record ExtHeader := mk_ExtHeader { eh_size : Z; eh_ext_type : Z }.
#[global, refine] Instance ExtHeader_struct : CStruct ExtHeader := {|
  widths := [4; 4]%nat;
  to_fields h := [eh_size h; eh_ext_type h];
  of_fields vs := mk_ExtHeader (nth 0 vs 0) (nth 1 vs 0);
  arrays_ok _ := True
|}.
Proof.
  - by intros [].
  - intros vs Hl. by apply map_nth_seq in Hl.
  - done.
Defined.

Record Secctx := mk_Secctx { sc_size : Z; sc_padding : Z }.
#[global, refine] Instance Secctx_struct : CStruct Secctx := {|
  widths := [4; 4]%nat;
  to_fields h := [sc_size h; sc_padding h];
  of_fields vs := mk_Secctx (nth 0 vs 0) (nth 1 vs 0);
  arrays_ok _ := True
|}.
Proof.
  - by intros [].
  - intros vs Hl. by apply map_nth_seq in Hl.
  - done.
Defined.

Record SuppGroups := mk_SuppGroups { sg_nr_groups : Z }.
#[global, refine] Instance SuppGroups_struct : CStruct SuppGroups := {|
  widths := [4]%nat;
  to_fields h := [sg_nr_groups h];
  of_fields vs := mk_SuppGroups (nth 0 vs 0);
  arrays_ok _ := True
|}.
Proof.
  - by intros [].
  - intros vs Hl. by apply map_nth_seq in Hl.
  - done.
Defined.

(** An integer of 32 bits. *)
Record U32 := mk_U32 { u32_val : Z }.
#[global, refine] Instance U32_struct : CStruct U32 := {|
  widths := [4]%nat;
  to_fields h := [u32_val h];
  of_fields vs := mk_U32 (nth 0 vs 0);
  arrays_ok _ := True
|}.
Proof.
  - by intros [].
  - intros vs Hl. by apply map_nth_seq in Hl.
  - done.
Defined.

Definition MAX_NR_SECCTX : Z := 31.
Definition EXT_SUP_GROUPS : Z := 32.

Inductive ExtType : Type :=
| SecCtx (nr_secctx : Z)
| SupGroups.

Definition ext_type (value : Z) : option ExtType :=
  if value <=? MAX_NR_SECCTX then Some (SecCtx value)
  else if value =? EXT_SUP_GROUPS then Some SupGroups
  else None.

(** The name is without its NUL. *)
Record SecContext := mk_SecContext { se_name : list Z; se_secctx : list Z }.
Record Extensions := mk_Extensions { ex_secctx : option SecContext; ex_sup_gid : option Z }.

(** The error of a malformed extension. *)
Definition FUSE_EINVAL : Z := 22.
Definition decode_einval : server_error := DecodeMessage (Os FUSE_EINVAL).

(** The options of the session that matter here. *)
Record FsOptions := mk_FsOptions { op_security_ctx : bool; op_create_supp_group : bool }.

(** ** Operations *)

Definition take_object {T} `{CStruct T} (data : list Z) : server_error + T * list Z :=
  if zlen data <? sizeof T then inl decode_einval
  else inr (of_bytes (take (Z.to_nat (sizeof T)) data), drop (Z.to_nat (sizeof T)) data).

(** The first piece of [split_inclusive] at a NUL. *)
Fixpoint upto_nul (bs : list Z) : list Z :=
  match bs with
  | [] => []
  | b :: bs => if b =? 0 then [b] else b :: upto_nul bs
  end.

(** [from_vec_with_nul]: a NUL at the end and nowhere else. *)
Definition from_vec_with_nul (bs : list Z) : server_error + list Z :=
  let name := until_nul bs in
  if bool_decide (bs = name ++ [0]) then inr name else inl InvalidCString2.

Definition parse_security_context (nr_secctx : Z) (data : list Z) : server_error + option SecContext :=
  if 1 <? nr_secctx then inl decode_einval
  else if nr_secctx =? 0 then inr None
  else match take_object (T := Secctx) data with
  | inl e => inl e
  | inr (secctx, data) =>
    if sc_size secctx =? 0 then inl decode_einval
    else match data with
    | [] => inl MissingParameter
    | _ =>
      let secctx_name := upto_nul data in
      let data := drop (length secctx_name) data in
      if zlen data <? sc_size secctx then inl decode_einval
      else match from_vec_with_nul secctx_name with
      | inl e => inl e
      | inr name => inr (Some (mk_SecContext name (take (Z.to_nat (sc_size secctx)) data)))
      end
    end
  end.

Definition parse_sup_groups (data : list Z) : server_error + Z :=
  match take_object (T := SuppGroups) data with
  | inl e => inl e
  | inr (group_header, group_id_bytes) =>
    if negb (sg_nr_groups group_header =? 1) then inl decode_einval
    else match take_object (T := U32) group_id_bytes with
    | inl e => inl e
    | inr (gid, _) => inr (u32_val gid)
    end
  end.

(** The loop over the extensions. *)
Fixpoint extensions_loop (fuel : nat) (options : FsOptions) (extensions : Extensions) (secctx_received : bool)
    (buf : list Z) : outcome (server_error + Extensions * bool) :=
  match fuel, buf with
  | _, [] => Ok (inr (extensions, secctx_received))
  | O, _ => Fault OutOfFuel
  | S fuel, _ =>
    match take_object (T := ExtHeader) buf with
    | inl e => Ok (inl e)
    | inr (extension_header, remaining_bytes) =>
      let extension_size := eh_size extension_header - sizeof ExtHeader in
      if extension_size <? 0 then Ok (inl InvalidHeaderLength)
      else
        ASSERT (extension_size <=? zlen remaining_bytes) ;;
        let current := take (Z.to_nat extension_size) remaining_bytes in
        let next := drop (Z.to_nat extension_size) remaining_bytes in
        match ext_type (eh_ext_type extension_header) with
        | None => Ok (inl decode_einval)
        | Some (SecCtx nr_secctx) =>
          if negb (op_security_ctx options) || secctx_received then Ok (inl decode_einval)
          else match parse_security_context nr_secctx current with
          | inl e => Ok (inl e)
          | inr c => extensions_loop fuel options (mk_Extensions c (ex_sup_gid extensions)) true next
          end
        | Some SupGroups =>
          if negb (op_create_supp_group options) || bool_decide (is_Some (ex_sup_gid extensions)) then Ok (inl decode_einval)
          else match parse_sup_groups current with
          | inl e => Ok (inl e)
          | inr g => extensions_loop fuel options (mk_Extensions (ex_secctx extensions) (Some g)) secctx_received next
          end
        end
    end
  end.

Definition get_extensions (options : FsOptions) (skip : Z) (request_bytes : list Z) : outcome (server_error + Extensions) :=
  if negb (op_security_ctx options || op_create_supp_group options) then Ok (inr (mk_Extensions None None))
  else if zlen request_bytes <? skip then Ok (inl decode_einval)
  else
    let buf := drop (Z.to_nat skip) request_bytes in
    r ← extensions_loop (length buf) options (mk_Extensions None None) false buf;
    Ok (match r with
        | inl e => inl e
        | inr (extensions, secctx_received) =>
          if op_security_ctx options && negb secctx_received then inl MissingExtension else inr extensions
        end).

(** ** What a guest sends *)

Definition ext_bytes (ty : Z) (body : list Z) : list Z := bytes_of (mk_ExtHeader (sizeof ExtHeader + zlen body) ty) ++ body.

(** The body of an extension may be padded at its end. *)
Definition secctx_body (c : SecContext) (pad : list Z) : list Z :=
  bytes_of (mk_Secctx (zlen (se_secctx c)) 0) ++ (se_name c ++ [0]) ++ se_secctx c ++ pad.
Definition groups_body (gid : Z) (pad : list Z) : list Z := bytes_of (mk_SuppGroups 1) ++ bytes_of (mk_U32 gid) ++ pad.

Definition secctx_ext (c : option SecContext) (pad : list Z) : list Z :=
  match c with Some c => ext_bytes 1 (secctx_body c pad) | None => ext_bytes 0 pad end.
Definition groups_ext (g : option Z) (pad : list Z) : list Z :=
  match g with Some g => ext_bytes EXT_SUP_GROUPS (groups_body g pad) | None => [] end.

Definition secctx_ok (c : SecContext) : Prop := (0 ∉ se_name c) ∧ 0 < zlen (se_secctx c).

(** ** Lemmas *)

Lemma take_object_bytes {T} `{CStruct T} (x : T) (bs : list Z) : struct_ok x → take_object (bytes_of x ++ bs) = inr (x, bs).
Proof.
  intros Hx. pose proof (zlen_bytes_of x Hx) as Hz. unfold take_object. rewrite zlen_app. pose proof (zlen_nonneg bs).
  rewrite (proj2 (Z.ltb_ge _ _)) by lia. unfold zlen in Hz. rewrite take_app_length', drop_app_length' by lia. by rewrite of_bytes_of.
Qed.

Lemma take_object_short {T} `{CStruct T} data (x : T) rest : take_object data = inr (x, rest) → zlen rest = zlen data - sizeof T.
Proof.
  unfold take_object. destruct (Z.ltb_spec (zlen data) (sizeof T)); [done|]. intros [= _ <-]. unfold zlen, sizeof in *.
  rewrite length_drop. lia.
Qed.

Lemma upto_nul_app name bs : (0 ∉ name) → upto_nul (name ++ 0 :: bs) = name ++ [0].
Proof.
  induction name as [|b name IH]; intros Hn; [done|]. apply not_elem_of_cons in Hn as [Hb Hn]. cbn.
  rewrite (proj2 (Z.eqb_neq b 0)) by congruence. by rewrite IH.
Qed.

Lemma until_nul_end name : (0 ∉ name) → until_nul (name ++ [0]) = name.
Proof.
  induction name as [|b name IH]; intros Hn; [done|]. apply not_elem_of_cons in Hn as [Hb Hn]. cbn.
  rewrite (proj2 (Z.eqb_neq b 0)) by congruence. by rewrite IH.
Qed.

(** Structures of 32-bit members. *)
Ltac solve_u32 :=
  split; [done|]; cbn [to_fields widths ExtHeader_struct Secctx_struct SuppGroups_struct U32_struct
    sc_size sc_padding sg_nr_groups u32_val eh_size eh_ext_type];
  repeat (apply Forall2_cons; split); try apply Forall2_nil_2;
  unfold in_width; change (256 ^ Z.of_nat 4) with (2 ^ 32); lia.

Lemma parse_secctx_body c pad : secctx_ok c → zlen (se_secctx c) < 2 ^ 32 →
  parse_security_context 1 (secctx_body c pad) = inr (Some c).
Proof.
  intros [Hn Hs] Hlt. unfold parse_security_context, secctx_body. cbn [Z.ltb Z.eqb Z.compare Pos.compare Pos.compare_cont].
  rewrite take_object_bytes by solve_u32.
  cbn [sc_size]. rewrite (proj2 (Z.eqb_neq _ _)) by lia. rewrite <- app_assoc. cbn [app].
  destruct (se_name c ++ 0 :: se_secctx c ++ pad) as [|b l] eqn:El; [by destruct (se_name c)|]. rewrite <- El.
  rewrite upto_nul_app by done. replace (se_name c ++ 0 :: se_secctx c ++ pad) with ((se_name c ++ [0]) ++ se_secctx c ++ pad)
    by by rewrite <- app_assoc. rewrite drop_app_length, zlen_app. pose proof (zlen_nonneg pad).
  rewrite (proj2 (Z.ltb_ge _ _)) by lia. unfold from_vec_with_nul. rewrite until_nul_end by done. rewrite bool_decide_eq_true_2 by done.
  rewrite take_app_length' by (unfold zlen; lia). by destruct c.
Qed.

Lemma parse_groups_body g pad : 0 ≤ g < 2 ^ 32 → parse_sup_groups (groups_body g pad) = inr g.
Proof.
  intros Hg. unfold parse_sup_groups, groups_body.
  rewrite take_object_bytes by solve_u32.
  cbn [sg_nr_groups negb Z.eqb Pos.eqb].
  rewrite take_object_bytes by solve_u32. done.
Qed.

(** One round of the loop on an extension as it is sent. *)
Lemma loop_ext fuel options ex recv ty body bs : 0 ≤ ty < 2 ^ 32 → sizeof ExtHeader + zlen body < 2 ^ 32 →
  extensions_loop (S fuel) options ex recv (ext_bytes ty body ++ bs) =
    match ext_type ty with
    | None => Ok (inl decode_einval)
    | Some (SecCtx nr_secctx) =>
      if negb (op_security_ctx options) || recv then Ok (inl decode_einval)
      else match parse_security_context nr_secctx body with
      | inl e => Ok (inl e)
      | inr c => extensions_loop fuel options (mk_Extensions c (ex_sup_gid ex)) true bs
      end
    | Some SupGroups =>
      if negb (op_create_supp_group options) || bool_decide (is_Some (ex_sup_gid ex)) then Ok (inl decode_einval)
      else match parse_sup_groups body with
      | inl e => Ok (inl e)
      | inr g => extensions_loop fuel options (mk_Extensions (ex_secctx ex) (Some g)) recv bs
      end
    end.
Proof.
  intros Hty Hlen. pose proof (zlen_nonneg body). pose proof (zlen_nonneg bs). assert (sizeof ExtHeader = 8) as HS by done.
  assert (struct_ok (mk_ExtHeader (sizeof ExtHeader + zlen body) ty)) as Hh by solve_u32.
  unfold ext_bytes. set (h := mk_ExtHeader _ ty) in *. rewrite <- app_assoc. pose proof (take_object_bytes h (body ++ bs) Hh) as Ht.
  destruct (bytes_of h ++ body ++ bs) as [|b l] eqn:El.
  { apply (f_equal zlen) in El. rewrite !zlen_app, zlen_bytes_of in El by done. change (zlen (@nil Z)) with 0 in El. lia. }
  cbn [extensions_loop]. rewrite Ht. cbn [eh_size eh_ext_type h]. replace (sizeof ExtHeader + zlen body - sizeof ExtHeader) with (zlen body) by lia.
  rewrite (proj2 (Z.ltb_ge _ _)), zlen_app, ASSERT_Ok by (try apply Z.leb_le; lia). cbn [obind].
  rewrite take_app_length', drop_app_length' by (unfold zlen; lia). done.
Qed.

(** Sizes a request can have: they are below 2 MiB. *)
Definition small (bs : list Z) : Prop := zlen bs < 2 ^ 21.

Lemma loop_secctx fuel options ex recv c pad bs : op_security_ctx options = true → recv = false → ex_secctx ex = None →
  (∀ x, c = Some x → secctx_ok x) → small (secctx_ext c pad) →
  extensions_loop (S fuel) options ex recv (secctx_ext c pad ++ bs) =
    extensions_loop fuel options (mk_Extensions c (ex_sup_gid ex)) true bs.
Proof.
  intros Ho -> Hex Hc Hs. unfold small in Hs. destruct c as [c|]; cbn [secctx_ext] in *; unfold ext_bytes in Hs; rewrite zlen_app in Hs;
    match type of Hs with zlen ?a + zlen ?b < _ => pose proof (zlen_nonneg a) end.
  - assert (zlen (se_secctx c) < 2 ^ 32).
    { assert (zlen (secctx_body c pad) < 2 ^ 21) as Hb by lia. unfold secctx_body in Hb. rewrite !zlen_app in Hb.
      pose proof (zlen_nonneg pad). pose proof (zlen_nonneg (se_name c)). change (zlen [0]) with 1 in Hb.
      match type of Hb with zlen ?a + _ < _ => pose proof (zlen_nonneg a) end. lia. }
    rewrite loop_ext by (done || change (sizeof ExtHeader) with 8; lia). change (ext_type 1) with (Some (SecCtx 1)). cbn match.
    rewrite Ho. cbn [negb orb]. by rewrite parse_secctx_body by (by try apply Hc).
  - rewrite loop_ext by (done || change (sizeof ExtHeader) with 8; lia). change (ext_type 0) with (Some (SecCtx 0)). cbn match.
    by rewrite Ho.
Qed.

Lemma loop_groups fuel options ex recv g pad bs : op_create_supp_group options = true → ex_sup_gid ex = None →
  0 ≤ g < 2 ^ 32 → small (groups_ext (Some g) pad) →
  extensions_loop (S fuel) options ex recv (groups_ext (Some g) pad ++ bs) =
    extensions_loop fuel options (mk_Extensions (ex_secctx ex) (Some g)) recv bs.
Proof.
  intros Ho Hex Hg Hs. unfold small in Hs. cbn [groups_ext] in *. unfold ext_bytes in Hs. rewrite zlen_app in Hs.
  match type of Hs with zlen ?a + zlen ?b < _ => pose proof (zlen_nonneg a) end.
  rewrite loop_ext by (done || change (sizeof ExtHeader) with 8; lia). change (ext_type EXT_SUP_GROUPS) with (Some SupGroups). cbn match.
  rewrite Ho, Hex. cbn [negb orb]. rewrite bool_decide_eq_false_2 by (by intros [? ?]). by rewrite parse_groups_body.
Qed.

Lemma loop_nil fuel options ex recv : extensions_loop fuel options ex recv [] = Ok (inr (ex, recv)).
Proof. by destruct fuel. Qed.

Lemma length_secctx_ext c pad : (1 ≤ length (secctx_ext c pad))%nat.
Proof. destruct c; cbn; lia. Qed.

(** ** Properties *)

(** C17: The extensions of a request arrive.  Whatever names come before them,
    whatever padding they end in and in whichever order they are sent, the
    security context (or that there is none) and the group of a guest are what
    the server gets; a guest without security contexts may send a group or
    none. *)
Theorem get_extensions_roundtrip (names pad1 pad2 : list Z) (c : option SecContext) (g : option Z) :
  (∀ x, c = Some x → secctx_ok x) → (∀ x, g = Some x → 0 ≤ x < 2 ^ 32) →
  small (secctx_ext c pad1) → small (groups_ext g pad2) →
  get_extensions (mk_FsOptions true true) (zlen names) (names ++ secctx_ext c pad1 ++ groups_ext g pad2) =
    Ok (inr (mk_Extensions c g)) ∧
  get_extensions (mk_FsOptions true true) (zlen names) (names ++ groups_ext g pad2 ++ secctx_ext c pad1) =
    Ok (inr (mk_Extensions c g)) ∧
  get_extensions (mk_FsOptions false true) (zlen names) (names ++ groups_ext g pad2) = Ok (inr (mk_Extensions None g)).
Proof.
  intros Hc Hg Hs1 Hs2. pose proof (length_secctx_ext c pad1) as Hl1.
  assert (∀ options bs, op_security_ctx options || op_create_supp_group options = true →
    get_extensions options (zlen names) (names ++ bs) =
      r ← extensions_loop (length bs) options (mk_Extensions None None) false bs;
      Ok (match r with inl e => inl e
          | inr (ex, recv) => if op_security_ctx options && negb recv then inl MissingExtension else inr ex end)) as Hget.
  { intros options bs Ho. unfold get_extensions. rewrite Ho, zlen_app. pose proof (zlen_nonneg bs). cbn [negb].
    rewrite (proj2 (Z.ltb_ge _ _)) by lia. rewrite drop_app_length' by (unfold zlen; lia). done. }
  rewrite !Hget by done. rewrite !length_app. destruct g as [g|].
  - specialize (Hg g eq_refl). assert (1 ≤ length (groups_ext (Some g) pad2))%nat as Hl2 by (cbn; lia).
    assert (∃ k, length (groups_ext (Some g) pad2) + length (secctx_ext c pad1) = S (S k))%nat as [k Hk]
      by (exists (length (groups_ext (Some g) pad2) + length (secctx_ext c pad1) - 2)%nat; lia).
    assert (∃ k', length (groups_ext (Some g) pad2) = S k')%nat as [k' Hk'] by (eexists; symmetry; apply Nat.succ_pred; lia).
    rewrite (Nat.add_comm (length (secctx_ext c pad1))), Hk, Hk'. split_and!.
    + rewrite loop_secctx by done. rewrite <- (app_nil_r (groups_ext (Some g) pad2)), loop_groups by done. by rewrite loop_nil.
    + rewrite loop_groups by done. rewrite <- (app_nil_r (secctx_ext c pad1)), loop_secctx by done. by rewrite loop_nil.
    + rewrite <- (app_nil_r (groups_ext (Some g) pad2)), loop_groups by done. by rewrite loop_nil.
  - cbn [groups_ext app length]. rewrite app_nil_r, Nat.add_0_r, Nat.add_0_l.
    assert (∃ k, length (secctx_ext c pad1) = S k)%nat as [k ->] by (eexists; symmetry; apply Nat.succ_pred; lia).
    rewrite <- (app_nil_r (secctx_ext c pad1)), loop_secctx by done. by rewrite !loop_nil.
Qed.

Lemma get_extensions_roundtrip_witness :
  get_extensions (mk_FsOptions true true) 2
    (cstr "f" ++ [0] ++ secctx_ext (Some (mk_SecContext (cstr "security.selinux") (cstr "ctx"))) [0; 0] ++ groups_ext (Some 100) []) =
    Ok (inr (mk_Extensions (Some (mk_SecContext (cstr "security.selinux") (cstr "ctx"))) (Some 100))).
Proof.
  destruct (get_extensions_roundtrip (cstr "f" ++ [0]) [0; 0] [] (Some (mk_SecContext (cstr "security.selinux") (cstr "ctx"))) (Some 100))
    as [H _].
  - intros x [= <-]. split; [apply (bool_decide_unpack _); vm_compute; exact I | vm_compute; reflexivity].
  - intros x [= <-]. split; [discriminate | reflexivity].
  - vm_compute. reflexivity.
  - vm_compute. reflexivity.
  - exact H.
Defined.

(** ** Errors

    Every request is answered, except those in which an extension claims more
    bytes than the request has left. *)

Inductive overruns : list Z → Prop :=
| overruns_here buf h rest :
    take_object buf = inr (h : ExtHeader, rest) → sizeof ExtHeader + zlen rest < eh_size h → overruns buf
| overruns_later buf h rest :
    take_object buf = inr (h : ExtHeader, rest) → sizeof ExtHeader ≤ eh_size h →
    overruns (drop (Z.to_nat (eh_size h - sizeof ExtHeader)) rest) → overruns buf.

Lemma extensions_loop_total fuel options ex recv buf : (length buf ≤ fuel)%nat →
  (∃ r, extensions_loop fuel options ex recv buf = Ok r) ∨
  extensions_loop fuel options ex recv buf = Fault AssertFail ∧ overruns buf.
Proof.
  revert ex recv buf. induction fuel as [|fuel IH]; intros ex recv buf Hf; [destruct buf; [left; by eexists | cbn in Hf; lia]|].
  destruct buf as [|b l]; [left; by eexists|]. set (buf := b :: l) in *. cbn [extensions_loop buf]. fold buf.
  destruct (take_object (T := ExtHeader) buf) as [e|[h rest]] eqn:Et; [left; by eexists|].
  pose proof (take_object_short _ _ _ Et) as Hsh. assert (sizeof ExtHeader = 8) as HS by done.
  destruct (Z.ltb_spec (eh_size h - sizeof ExtHeader) 0); [left; by eexists|].
  destruct (Z.leb_spec (eh_size h - sizeof ExtHeader) (zlen rest)) as [Hle|Hgt].
  2:{ right. split; [done|]. eapply overruns_here; [exact Et | lia]. }
  cbn [ASSERT obind].
  assert (∀ ex' recv', (∃ r, extensions_loop fuel options ex' recv' (drop (Z.to_nat (eh_size h - sizeof ExtHeader)) rest) = Ok r) ∨
    extensions_loop fuel options ex' recv' (drop (Z.to_nat (eh_size h - sizeof ExtHeader)) rest) = Fault AssertFail ∧ overruns buf) as Hnext.
  { intros ex' recv'. destruct (IH ex' recv' (drop (Z.to_nat (eh_size h - sizeof ExtHeader)) rest)) as [?|[? Ho]].
    - unfold zlen in Hsh. rewrite length_drop. lia.
    - by left.
    - right. split; [done|]. eapply overruns_later; [exact Et | lia | exact Ho]. }
  destruct (ext_type (eh_ext_type h)) as [[nr|]|]; [| |left; by eexists].
  - destruct (negb (op_security_ctx options) || recv); [left; by eexists|].
    destruct (parse_security_context nr _); [left; by eexists | apply Hnext].
  - destruct (negb (op_create_supp_group options) || bool_decide (is_Some (ex_sup_gid ex))); [left; by eexists|].
    destruct (parse_sup_groups _); [left; by eexists | apply Hnext].
Qed.

Lemma get_extensions_total options skip bs :
  (∃ r, get_extensions options skip bs = Ok r) ∨
  get_extensions options skip bs = Fault AssertFail ∧ overruns (drop (Z.to_nat skip) bs).
Proof.
  unfold get_extensions. destruct (negb _); [left; by eexists|]. destruct (zlen bs <? skip); [left; by eexists|].
  destruct (extensions_loop_total (length (drop (Z.to_nat skip) bs)) options (mk_Extensions None None) false (drop (Z.to_nat skip) bs))
    as [[r ->]|[-> Ho]]; [done | left; by eexists | by right].
Qed.

(** A guest that sends such an extension stops the server. *)
Lemma get_extensions_stops : get_extensions (mk_FsOptions true false) 0 (bytes_of (mk_ExtHeader 100 1)) = Fault AssertFail.
Proof. vm_compute. reflexivity. Qed.
