(* ===== verification/IdMap.v ===== *)
(** * Id maps

    [kfsd/src/idmap.rs]: the maps of user and group ids on the command line
    of kfsd, their parser and their printer.  A string is the list of its
    characters; which characters are alphanumeric is a table of the standard
    library and an argument here. *)

From S2P Require Import Prelude.
From stdpp Require Import base numbers list strings.
From Stdlib Require Import ZArith Lia.

Open Scope Z_scope.
Open Scope kfs_scope.

Inductive ParseIntError : Set :=
| Empty
| InvalidDigit
| PosOverflow.

Inductive IdMapError : Set :=
| InvalidDelimiter
| IncompleteMap
| InvalidValue (e : ParseIntError).

Record UidMap := mk_UidMap { inside_uid : Z; outside_uid : Z; uid_count : Z }.
Record GidMap := mk_GidMap { inside_gid : Z; outside_gid : Z; gid_count : Z }.

(** ** Integers of the standard library *)

Definition is_digit (c : Z) : bool := (48 <=? c) && (c <=? 57).

(** [u32::from_str]: digits, possibly after a plus sign. *)
Fixpoint parse_digits (acc : Z) (s : list Z) : ParseIntError + Z :=
  match s with
  | [] => inr acc
  | c :: s =>
    if is_digit c then
      let acc := acc * 10 + (c - 48) in
      if UINT32_MAX <? acc then inl PosOverflow else parse_digits acc s
    else inl InvalidDigit
  end.
Definition parse_u32 (s : list Z) : ParseIntError + Z :=
  match s with
  | [] => inl Empty
  | c :: rest =>
    if c =? 43 then match rest with [] => inl InvalidDigit | _ => parse_digits 0 rest end
    else parse_digits 0 s
  end.

Fixpoint digits (fuel : nat) (n : Z) (acc : list Z) : list Z :=
  match fuel with
  | O => acc
  | S fuel => if n <? 10 then (48 + n) :: acc else digits fuel (n / 10) ((48 + n mod 10) :: acc)
  end.
(** A value of 32 bits has at most ten digits. *)
Definition print_u32 (n : Z) : list Z := digits 10 n [].

(** ** Parser and printer *)

Fixpoint split_on (d : Z) (s : list Z) : list (list Z) :=
  match s with
  | [] => [[]]
  | c :: s =>
    if c =? d then [] :: split_on d s
    else match split_on d s with
      | piece :: pieces => (c :: piece) :: pieces
      | [] => [[c]]
      end
  end.

(** The first error of the values, or all of them. *)
Fixpoint parse_values (vs : list (list Z)) : IdMapError + list Z :=
  match vs with
  | [] => inr []
  | v :: vs =>
    match parse_u32 v with
    | inl e => inl (InvalidValue e)
    | inr n => match parse_values vs with inl e => inl e | inr ns => inr (n :: ns) end
    end
  end.

Section idmap.
Context (is_alphanumeric : Z → bool).

Definition parse_idmap (s : list Z) (expected_len : nat) : IdMapError + list Z :=
  match last s with
  | None => inl IncompleteMap
  | Some delimiter =>
    if is_alphanumeric delimiter then inl InvalidDelimiter
    else match take (pred (length s)) s with
    | c :: s =>
      if c =? delimiter then
        let values := split_on delimiter s in
        if negb (length values =? expected_len)%nat then inl IncompleteMap else parse_values values
      else inl InvalidDelimiter
    | [] => inl InvalidDelimiter
    end
  end.

(** The three values are there when the parser succeeds. *)
Definition uidmap_from_str (s : list Z) : IdMapError + UidMap :=
  match parse_idmap s 3 with
  | inr [a; b; c] => inr (mk_UidMap a b c)
  | inr _ => inl IncompleteMap
  | inl e => inl e
  end.
Definition gidmap_from_str (s : list Z) : IdMapError + GidMap :=
  match parse_idmap s 3 with
  | inr [a; b; c] => inr (mk_GidMap a b c)
  | inr _ => inl IncompleteMap
  | inl e => inl e
  end.
End idmap.

Definition COLON : Z := 58.
Definition uidmap_fmt (m : UidMap) : list Z :=
  [COLON] ++ print_u32 (inside_uid m) ++ [COLON] ++ print_u32 (outside_uid m) ++ [COLON] ++ print_u32 (uid_count m) ++ [COLON].
Definition gidmap_fmt (m : GidMap) : list Z :=
  [COLON] ++ print_u32 (inside_gid m) ++ [COLON] ++ print_u32 (outside_gid m) ++ [COLON] ++ print_u32 (gid_count m) ++ [COLON].

(** ** Lemmas *)

Lemma digits_parse fuel n acc : 0 ≤ n ≤ UINT32_MAX → n < 10 ^ Z.of_nat fuel →
  parse_digits 0 (digits fuel n acc) = parse_digits n acc.
Proof.
  revert n acc. induction fuel as [|fuel IH]; intros n acc Hn Hlt; [cbn in Hlt; by replace n with 0 by lia|].
  cbn [digits]. destruct (Z.ltb_spec n 10) as [Hs|Hb].
  - cbn [parse_digits]. unfold is_digit. rewrite !(proj2 (Z.leb_le _ _)) by lia. cbn [andb].
    replace (0 * 10 + (48 + n - 48)) with n by lia. by rewrite (proj2 (Z.ltb_ge _ _)) by lia.
  - rewrite Nat2Z.inj_succ, Z.pow_succ_r in Hlt by lia. rewrite IH by dlia. cbn [parse_digits]. unfold is_digit.
    rewrite !(proj2 (Z.leb_le _ _)) by dlia. cbn [andb]. replace (n / 10 * 10 + (48 + n mod 10 - 48)) with n by dlia.
    by rewrite (proj2 (Z.ltb_ge _ _)) by lia.
Qed.

Lemma digits_digits fuel n acc : 0 ≤ n → Forall (λ c, is_digit c = true) acc → Forall (λ c, is_digit c = true) (digits fuel n acc).
Proof.
  revert n acc. induction fuel as [|fuel IH]; intros n acc Hn Ha; [done|]. cbn [digits].
  destruct (Z.ltb_spec n 10); [|apply IH; [dlia|]]; (constructor; [|done]); unfold is_digit; rewrite !(proj2 (Z.leb_le _ _)) by dlia; done.
Qed.

Lemma print_u32_digits n : 0 ≤ n → Forall (λ c, is_digit c = true) (print_u32 n).
Proof. intros Hn. by apply digits_digits. Qed.

Lemma digits_longer fuel n acc : (length acc < length (digits (S fuel) n acc))%nat.
Proof.
  revert n acc. induction fuel as [|fuel IH]; intros n acc; [cbn; destruct (n <? 10); cbn; lia|].
  change (digits (S (S fuel)) n acc) with
    (if n <? 10 then (48 + n) :: acc else digits (S fuel) (n / 10) ((48 + n mod 10) :: acc)).
  destruct (n <? 10); [cbn; lia|]. specialize (IH (n / 10) ((48 + n mod 10) :: acc)). cbn [length] in IH. lia.
Qed.

Lemma parse_print_u32 n : 0 ≤ n ≤ UINT32_MAX → parse_u32 (print_u32 n) = inr n.
Proof.
  intros Hn. pose proof (digits_parse 10 n [] Hn) as Hp. pose proof (print_u32_digits n (proj1 Hn)) as Hd.
  pose proof (digits_longer 9 n []) as Hl. fold (print_u32 n) in Hp, Hl.
  destruct (print_u32 n) as [|c s]; [cbn in Hl; lia|].
  apply Forall_cons in Hd as [Hc _]. unfold parse_u32. destruct (Z.eqb_spec c 43) as [->|]; [done|].
  rewrite Hp; [done|]. unfold UINT32_MAX in Hn. change (10 ^ Z.of_nat 10) with 10000000000. lia.
Qed.

Lemma split_on_app d a s : (d ∉ a) → split_on d (a ++ d :: s) = a :: split_on d s.
Proof.
  induction a as [|c a IH]; intros Hd; cbn.
  - by rewrite Z.eqb_refl.
  - apply not_elem_of_cons in Hd as [Hc Hd]. rewrite (proj2 (Z.eqb_neq c d)) by congruence. by rewrite IH.
Qed.

Lemma split_on_last d a : (d ∉ a) → split_on d a = [a].
Proof.
  induction a as [|c a IH]; intros Hd; [done|]. apply not_elem_of_cons in Hd as [Hc Hd]. cbn.
  rewrite (proj2 (Z.eqb_neq c d)) by congruence. by rewrite IH.
Qed.

(** A map of three values between delimiters that are not in them is read as
    these values, whatever the delimiter is. *)
Lemma parse_idmap_values is_alphanumeric d a b c x y z : is_alphanumeric d = false →
  (d ∉ a) → (d ∉ b) → (d ∉ c) → parse_u32 a = inr x → parse_u32 b = inr y → parse_u32 c = inr z →
  parse_idmap is_alphanumeric ([d] ++ a ++ [d] ++ b ++ [d] ++ c ++ [d]) 3 = inr [x; y; z].
Proof.
  intros Hal Ha Hb Hc Hx Hy Hz. unfold parse_idmap.
  replace ([d] ++ a ++ [d] ++ b ++ [d] ++ c ++ [d]) with ((d :: a ++ d :: b ++ d :: c) ++ [d])
    by (cbn; rewrite <- !app_assoc; cbn; by rewrite <- !app_assoc).
  rewrite last_snoc, Hal, length_app, Nat.add_1_r. cbn [pred]. rewrite take_app_length, Z.eqb_refl.
  rewrite !split_on_app, split_on_last by done. cbn [length Nat.eqb negb parse_values]. by rewrite Hx, Hy, Hz.
Qed.

(** Printing a map and reading it again gives the map. *)
Lemma print_no_colon n : 0 ≤ n → COLON ∉ print_u32 n.
Proof. intros Hn Hin. pose proof (print_u32_digits n Hn) as Hd. rewrite Forall_forall in Hd. by specialize (Hd _ Hin). Qed.

Lemma uidmap_roundtrip is_alphanumeric (m : UidMap) : is_alphanumeric COLON = false →
  0 ≤ inside_uid m ≤ UINT32_MAX → 0 ≤ outside_uid m ≤ UINT32_MAX → 0 ≤ uid_count m ≤ UINT32_MAX →
  uidmap_from_str is_alphanumeric (uidmap_fmt m) = inr m.
Proof.
  intros Hal Ha Hb Hc. unfold uidmap_from_str, uidmap_fmt.
  rewrite (parse_idmap_values _ _ _ _ _ (inside_uid m) (outside_uid m) (uid_count m)) by
    (first [done | apply print_no_colon; lia | by apply parse_print_u32]). by destruct m.
Qed.

Lemma gidmap_roundtrip is_alphanumeric (m : GidMap) : is_alphanumeric COLON = false →
  0 ≤ inside_gid m ≤ UINT32_MAX → 0 ≤ outside_gid m ≤ UINT32_MAX → 0 ≤ gid_count m ≤ UINT32_MAX →
  gidmap_from_str is_alphanumeric (gidmap_fmt m) = inr m.
Proof.
  intros Hal Ha Hb Hc. unfold gidmap_from_str, gidmap_fmt.
  rewrite (parse_idmap_values _ _ _ _ _ (inside_gid m) (outside_gid m) (gid_count m)) by
    (first [done | apply print_no_colon; lia | by apply parse_print_u32]). by destruct m.
Qed.
